(** * Nachos: file system, file synchronisation, core map and console

    A shallow embedding of the parts of the Nachos kernel that the
    specification talks about:

    - [userprog/synch_console.cc] (ReadChar, ReadBuffer)
    - [filesys/file_header.cc]   (Allocate, Deallocate, FetchFrom,
                                  WriteBack, ByteToSector, Expand)
    - [filesys/file_synch.cc]    (open counts, removal flag, readers and
                                  writers)
    - [vmem/coremap.cc], [userprog/address_space.cc]
                                 (InMemory, Find, FreePage, UpdateVictim,
                                  UpdateEntry, SaveToSwap, LoadPage,
                                  SaveState, RestoreState, the destructor)
    - [userprog/exception.cc]    (PageFaultHandler, the case SC_CD of
                                  SyscallHandler)
    - [filesys/directory.cc]     (FindIndex, Find, IsDir, IsEmpty, Add,
                                  Remove, FetchFrom, WriteBack,
                                  ExpandDirectory)
    - [filesys/file_system.cc]   (the constructor, SplitPath,
                                  FindDirectory, Create, Open, Remove,
                                  ExpandFile)

    Machine integers are kept in [Z]; every place where the C++ code
    computes in [unsigned] has its wrap-around written out with [u32],
    and [to_int] is the conversion of an [unsigned] to an [int].
    Arrays are lists, maps from sectors and from address spaces are
    [gmap]s.  The first part of the file holds the definitions, the
    second part what is proved about them. *)

From Stdlib Require Import ZArith Lia Bool Ascii String.
From stdpp Require Import base option list gmap strings.

Open Scope Z_scope.

(* ===================================================================== *)
(** ** Machine integers and assertion outcomes *)
(* ===================================================================== *)

Definition UINT_MODULUS : Z := 2 ^ 32.

(** The value an [unsigned] holds after an arithmetic operation. *)
Definition u32 (x : Z) : Z := x mod UINT_MODULUS.

(** The value an [int] holds after a conversion from [unsigned]: the
    numbers from 2^31 on are the negative ones. *)
Definition to_int (x : Z) : Z :=
  if u32 x <? 2 ^ 31 then u32 x else u32 x - UINT_MODULUS.

(** What a kernel routine that contains an [ASSERT] does: it either returns
    a value or the assertion fails and the machine halts.  The third case
    is for the few places where the C++ code would go through a null
    pointer. *)
Inductive outcome (A : Type) : Type :=
| Ret (a : A)
| Halt                     (* an ASSERT failed *)
| Undefined.               (* a null pointer was dereferenced *)
Arguments Ret {A} a.
Arguments Halt {A}.
Arguments Undefined {A}.

#[global] Instance outcome_ret : MRet outcome := fun A a => Ret a.
#[global] Instance outcome_bind : MBind outcome := fun A B k m =>
  match m with
  | Ret a => k a
  | Halt => Halt
  | Undefined => Undefined
  end.

(** Modelled from the spec: the macro [ASSERT] of lib/utility.hh; a
    violated assertion halts the kernel. *)
Definition ASSERT (b : bool) : outcome unit := if b then Ret tt else Halt.

(** [for (i = start; i < start + n && cond; i++) body]: the loops of the
    kernel, with the iteration count as the structural argument. *)
Fixpoint for_while {S : Type} (n : nat) (i : Z) (cond : Z -> S -> bool)
    (body : Z -> S -> S) (s : S) : S :=
  match n with
  | O => s
  | S n' => if cond i s then for_while n' (i + 1) cond body (body i s) else s
  end.

Definition for_range {S : Type} (lo hi : Z) (body : Z -> S -> S) (s : S) : S :=
  for_while (Z.to_nat (hi - lo)) lo (fun _ _ => true) body s.

(** The same loop around a body that may trip an assertion. *)
Fixpoint for_whileM {S : Type} (n : nat) (i : Z) (cond : Z -> S -> bool)
    (body : Z -> S -> outcome S) (s : S) : outcome S :=
  match n with
  | O => Ret s
  | S n' =>
      if cond i s then s' ← body i s; for_whileM n' (i + 1) cond body s'
      else Ret s
  end.

(* ===================================================================== *)
(** ** userprog/synch_console.cc *)
(* ===================================================================== *)

Module SynchConsole.

(** The console device as the reader sees it: the k-th character that
    [Console::GetChar] delivers, and how many were taken so far.  Waiting
    on the [readAvail] semaphore is the wait for the next character. *)
Record Console := mkConsole {
  incoming : nat -> ascii;
  taken : nat
}.

Definition NEWLINE : ascii := "010"%char.
Definition NUL : ascii := "000"%char.

Definition ReadChar (c : Console) : ascii * Console :=
  (incoming c (taken c), mkConsole (incoming c) (S (taken c))).

(** The caller's memory, addressed by the index applied to [buffer]. *)
Abbreviation Buffer := (gmap Z ascii).

(** [for (; i < size; i++) { ch = ReadChar(); buffer[i] = ch;
       if (ch == '\n') break; }] with [n] the iterations left. *)
Fixpoint ReadBuffer_for (n : nat) (i : Z) (c : Console) (buffer : Buffer)
    : Z * Console * Buffer :=
  match n with
  | O => (i, c, buffer)
  | S n' =>
      let '(ch, c') := ReadChar c in
      let buffer' := <[i := ch]> buffer in
      if Ascii.eqb ch NEWLINE then (i, c', buffer')
      else ReadBuffer_for n' (i + 1) c' buffer'
  end.

Definition ReadBuffer (c : Console) (buffer : Buffer) (size : Z)
    : Z * Console * Buffer :=
  let '(i, c', buffer') := ReadBuffer_for (Z.to_nat size) 0 c buffer in
  (i, c', <[u32 (i + 1) := NUL]> buffer').

(** Index at which the loop stops on a given input: the first newline
    among the next [n] characters, counted from [i], or [i + n]. *)
Fixpoint stop_index (n : nat) (i : Z) (inc : nat -> ascii) (k : nat) : Z :=
  match n with
  | O => i
  | S n' => if Ascii.eqb (inc k) NEWLINE then i
            else stop_index n' (i + 1) inc (S k)
  end.

Definition no_newline (inc : nat -> ascii) (k : nat) (n : nat) : Prop :=
  forall j, (j < n)%nat -> inc (k + j)%nat <> NEWLINE.

End SynchConsole.

(* ===================================================================== *)
(** ** lib/utility.hh, lib/bitmap.hh, machine/disk.hh *)
(* ===================================================================== *)

(** Modelled from the spec: lib/utility.hh is not part of the sources at
    hand; the header laws of the specification give [DivRoundUp(n, s)] as
    the ceiling of [n / s]. *)
Definition DivRoundUp (n s : Z) : Z := (n + s - 1) / s.

(** Modelled from the spec: machine/disk.hh is not part of the sources at
    hand; a sector conventionally has 128 bytes. *)
Definition SECTOR_SIZE : Z := 128.

Definition sizeof_int : Z := 4.

Module Bitmap.

(** Modelled from the spec: lib/bitmap.cc is not part of the sources at
    hand.  A bitmap is a bit set over [0, numBits), here the list of its
    bits with [true] for a marked bit; [Test(which)] reads a bit. *)
Definition Test (m : list bool) (which : Z) : bool :=
  if which <? 0 then false else default false (m !! Z.to_nat which).

(** Modelled from the spec: [Mark(which)] of lib/bitmap.cc. *)
Definition Mark (which : Z) (m : list bool) : list bool :=
  if which <? 0 then m else <[Z.to_nat which := true]> m.

(** Modelled from the spec: [Clear(which)] of lib/bitmap.cc. *)
Definition Clear (which : Z) (m : list bool) : list bool :=
  if which <? 0 then m else <[Z.to_nat which := false]> m.

(** Modelled from the spec: the search of [Find] in lib/bitmap.cc, for
    the lowest clear bit at or after position [i]. *)
Fixpoint first_clear (m : list bool) (i : Z) : option Z :=
  match m with
  | [] => None
  | b :: m' => if b then first_clear m' (i + 1) else Some i
  end.

(** Modelled from the spec: [Find()] of lib/bitmap.cc "returns a cleared
    sector and marks it (or fails)", with -1 for the failure. *)
Definition Find (m : list bool) : Z * list bool :=
  match first_clear m 0 with
  | Some i => (i, Mark i m)
  | None => (-1, m)
  end.

(** Modelled from the spec: [CountClear()] of lib/bitmap.cc, the number
    of clear bits. *)
Fixpoint CountClear (m : list bool) : Z :=
  match m with
  | [] => 0
  | b :: m' => (if b then 0 else 1) + CountClear m'
  end.

End Bitmap.

(* ===================================================================== *)
(** ** filesys/raw_file_header.hh, filesys/file_header.cc *)
(* ===================================================================== *)

Definition NUM_DIRECT : Z := (SECTOR_SIZE - 3 * sizeof_int) / sizeof_int.
Definition MAX_DIRECT_SIZE : Z := NUM_DIRECT * SECTOR_SIZE.
Definition NUM_INDIRECT : Z := SECTOR_SIZE / sizeof_int.
Definition MAX_INDIR_SIZE : Z := NUM_INDIRECT * SECTOR_SIZE.

Record RawFileHeader := mkRaw {
  numBytes : Z;            (* unsigned: number of bytes in the file *)
  numSectors : Z;          (* unsigned: number of data sectors *)
  indirSector : Z;         (* int: first indirection table, -1 if none *)
  dataSectors : list Z     (* unsigned [NUM_DIRECT] *)
}.

(** The in-memory file header: the raw header and the two indirection
    tables that are loaded with it (int [NUM_INDIRECT] and
    int [NUM_INDIRECT][NUM_INDIRECT]). *)
Record FileHeader := mkHeader {
  raw : RawFileHeader;
  firstIndir : list Z;
  secondIndir : list (list Z)
}.

Module Header.

Import Bitmap.

Definition set_numBytes (v : Z) (h : FileHeader) : FileHeader :=
  mkHeader (mkRaw v (numSectors (raw h)) (indirSector (raw h))
              (dataSectors (raw h)))
           (firstIndir h) (secondIndir h).

Definition set_numSectors (v : Z) (h : FileHeader) : FileHeader :=
  mkHeader (mkRaw (numBytes (raw h)) v (indirSector (raw h))
              (dataSectors (raw h)))
           (firstIndir h) (secondIndir h).

Definition set_indirSector (v : Z) (h : FileHeader) : FileHeader :=
  mkHeader (mkRaw (numBytes (raw h)) (numSectors (raw h)) v
              (dataSectors (raw h)))
           (firstIndir h) (secondIndir h).

(** [raw.dataSectors[i] = v] *)
Definition set_dataSector (i v : Z) (h : FileHeader) : FileHeader :=
  mkHeader (mkRaw (numBytes (raw h)) (numSectors (raw h))
              (indirSector (raw h))
              (<[Z.to_nat i := v]> (dataSectors (raw h))))
           (firstIndir h) (secondIndir h).

(** [firstIndir[i] = v] *)
Definition set_firstIndir (i v : Z) (h : FileHeader) : FileHeader :=
  mkHeader (raw h) (<[Z.to_nat i := v]> (firstIndir h)) (secondIndir h).

(** [secondIndir[i][j] = v] *)
Definition set_secondIndir (i j v : Z) (h : FileHeader) : FileHeader :=
  mkHeader (raw h) (firstIndir h)
           (alter (fun row => <[Z.to_nat j := v]> row) (Z.to_nat i)
                  (secondIndir h)).

(** Reading a cell of an array; outside the array the C++ code reads
    whatever memory is there, which is 0 here. *)
Definition cell (l : list Z) (i : Z) : Z :=
  if i <? 0 then 0 else default 0 (l !! Z.to_nat i).

Definition cell2 (l : list (list Z)) (i j : Z) : Z :=
  if i <? 0 then 0 else cell (default [] (l !! Z.to_nat i)) j.

(** A header object before [Allocate] or [FetchFrom] fills it. *)
Definition blank : FileHeader :=
  mkHeader (mkRaw 0 0 0 (replicate (Z.to_nat NUM_DIRECT) 0))
           (replicate (Z.to_nat NUM_INDIRECT) 0)
           (replicate (Z.to_nat NUM_INDIRECT)
                      (replicate (Z.to_nat NUM_INDIRECT) 0)).

(** The local variables that the allocation loops update. *)
Record alloc := mkAlloc {
  a_map : list bool;       (* *freeMap *)
  a_hdr : FileHeader;      (* *this *)
  a_left : Z;              (* sectorsLeft / newSectors *)
  a_indir : Z              (* indirSectors *)
}.

(** [raw.dataSectors[i] = freeMap->Find();] *)
Definition claim_direct (i : Z) (a : alloc) : alloc :=
  let '(s, m) := Find (a_map a) in
  mkAlloc m (set_dataSector i (u32 s) (a_hdr a)) (a_left a) (a_indir a).

(** [firstIndir[i] = -1; for (j ...) secondIndir[i][j] = -1;] *)
Definition clear_indir (i : Z) (a : alloc) : alloc :=
  mkAlloc (a_map a)
    (for_range 0 NUM_INDIRECT (fun j h => set_secondIndir i j (-1) h)
       (set_firstIndir i (-1) (a_hdr a)))
    (a_left a) (a_indir a).

(** The inner loop of [Allocate]:
    [if (sectorsLeft > 0) { secondIndir[i][j] = freeMap->Find();
       sectorsLeft--; } else secondIndir[i][j] = -1;] *)
Definition allocate_second (i j : Z) (a : alloc) : alloc :=
  if a_left a >? 0 then
    let '(s, m) := Find (a_map a) in
    mkAlloc m (set_secondIndir i j s (a_hdr a)) (u32 (a_left a - 1))
            (a_indir a)
  else
    mkAlloc (a_map a) (set_secondIndir i j (-1) (a_hdr a)) (a_left a)
            (a_indir a).

(** The body of the outer loop of [Allocate]. *)
Definition allocate_first (i : Z) (a : alloc) : alloc :=
  if i <? a_indir a then
    let '(s, m) := Find (a_map a) in
    for_range 0 NUM_INDIRECT (allocate_second i)
      (mkAlloc m (set_firstIndir i s (a_hdr a)) (a_left a) (a_indir a))
  else clear_indir i a.

(** [FileHeader::Allocate]: the result, the free map and the header as
    the call leaves them. *)
Definition Allocate (freeMap : list bool) (fileSize : Z) (h : FileHeader)
    : bool * list bool * FileHeader :=
  let h := set_numBytes fileSize h in
  let h := set_numSectors (DivRoundUp fileSize SECTOR_SIZE) h in
  let indirSectors :=
    if fileSize >? MAX_DIRECT_SIZE then
      let indirData := u32 (fileSize - MAX_DIRECT_SIZE) in
      let indirSectors := DivRoundUp indirData SECTOR_SIZE in
      u32 (indirSectors + u32 (DivRoundUp indirSectors NUM_INDIRECT + 1))
    else 0 in
  if CountClear freeMap <? u32 (numSectors (raw h) + indirSectors) then
    (false, freeMap, h)
  else
    let dirSectors := Z.min (numSectors (raw h)) NUM_DIRECT in
    let a := for_range 0 dirSectors claim_direct
               (mkAlloc freeMap h 0 indirSectors) in
    if indirSectors =? 0 then
      let a := for_range 0 NUM_INDIRECT clear_indir
                 (mkAlloc (a_map a) (set_indirSector (-1) (a_hdr a)) 0 0) in
      (true, a_map a, a_hdr a)
    else
      let '(s, m) := Find (a_map a) in
      let h := set_indirSector s (a_hdr a) in
      let indirSectors := u32 (indirSectors - 1) in
      let sectorsLeft := u32 (numSectors (raw h) - NUM_DIRECT) in
      let a := for_range 0 NUM_INDIRECT allocate_first
                 (mkAlloc m h sectorsLeft indirSectors) in
      (true, a_map a, a_hdr a).

(** [FileHeader::ByteToSector] *)
Definition ByteToSector (h : FileHeader) (offset : Z) : Z :=
  let sectorIndex := offset / SECTOR_SIZE in
  if sectorIndex <? NUM_DIRECT then cell (dataSectors (raw h)) sectorIndex
  else
    let indirSectorIndex := u32 (sectorIndex - NUM_DIRECT) in
    let firstIndirIndex := indirSectorIndex / NUM_INDIRECT in
    let secondIndirIndex := indirSectorIndex mod NUM_INDIRECT in
    u32 (cell2 (secondIndir h) firstIndirIndex secondIndirIndex).

(** [FileHeader::FileLength] *)
Definition FileLength (h : FileHeader) : Z := numBytes (raw h).

(** The loop of [Expand] over the direct table:
    [raw.dataSectors[i] = freeMap->Find(); newSectors--;] *)
Definition expand_direct (i : Z) (a : alloc) : alloc :=
  let '(s, m) := Find (a_map a) in
  mkAlloc m (set_dataSector i (u32 s) (a_hdr a)) (u32 (a_left a - 1))
          (a_indir a).

(** The inner loop of [Expand]:
    [if (secondIndir[i][j] == -1) { secondIndir[i][j] = freeMap->Find();
       newSectors--; }] under the loop condition [newSectors > 0]. *)
Definition expand_second (i j : Z) (a : alloc) : alloc :=
  if cell2 (secondIndir (a_hdr a)) i j =? -1 then
    let '(s, m) := Find (a_map a) in
    mkAlloc m (set_secondIndir i j s (a_hdr a)) (u32 (a_left a - 1))
            (a_indir a)
  else a.

(** The body of the outer loop of [Expand], under the loop condition
    [indirSectors > 0]. *)
Definition expand_first (i : Z) (a : alloc) : alloc :=
  let a :=
    if cell (firstIndir (a_hdr a)) i =? -1 then
      let '(s, m) := Find (a_map a) in
      mkAlloc m (set_firstIndir i s (a_hdr a)) (a_left a)
              (u32 (a_indir a - 1))
    else a in
  for_while (Z.to_nat NUM_INDIRECT) 0 (fun _ a => a_left a >? 0)
    (expand_second i) a.

(** [if (oldSectors < NUM_DIRECT)
      for (i = oldSectors; i < min(raw.numSectors, NUM_DIRECT); i++) ...] *)
Definition Expand_direct (oldSectors : Z) (a : alloc) : alloc :=
  if oldSectors <? NUM_DIRECT then
    for_range oldSectors (Z.min (numSectors (raw (a_hdr a))) NUM_DIRECT)
      expand_direct a
  else a.

(** [if (raw.indirSector == -1) { raw.indirSector = freeMap->Find();
       indirSectors--; }] *)
Definition Expand_indirSector (a : alloc) : alloc :=
  if indirSector (raw (a_hdr a)) =? -1 then
    let '(s, m) := Find (a_map a) in
    mkAlloc m (set_indirSector s (a_hdr a)) (a_left a) (u32 (a_indir a - 1))
  else a.

(** [if (indirSectors > 0)
      for (i = 0; i < NUM_INDIRECT && indirSectors > 0; i++) ...] *)
Definition Expand_tables (a : alloc) : alloc :=
  if a_indir a >? 0 then
    for_while (Z.to_nat NUM_INDIRECT) 0 (fun _ a => a_indir a >? 0)
      expand_first a
  else a.

(** The part of [Expand] after the free-space check. *)
Definition Expand_claim (freeMap : list bool) (h : FileHeader)
    (newBytes newSectors indirSectors : Z) : alloc :=
  let oldSectors := numSectors (raw h) in
  let h := set_numBytes (u32 (numBytes (raw h) + newBytes)) h in
  let h := set_numSectors (u32 (numSectors (raw h) + newSectors)) h in
  let a := Expand_direct oldSectors
             (mkAlloc freeMap h newSectors indirSectors) in
  if numSectors (raw (a_hdr a)) >? NUM_DIRECT then
    Expand_tables (Expand_indirSector a)
  else a.

(** Free space on the last used sector. *)
Definition onLastSector (h : FileHeader) : Z :=
  u32 (SECTOR_SIZE - numBytes (raw h) mod SECTOR_SIZE) mod SECTOR_SIZE.

(** Data sectors that a growth by [newBytes] adds. *)
Definition Expand_newSectors (h : FileHeader) (newBytes : Z) : Z :=
  let remainingData :=
    if newBytes >? onLastSector h then u32 (newBytes - onLastSector h)
    else 0 in
  DivRoundUp remainingData SECTOR_SIZE.

(** Indirection sectors that [Expand] counts for the growth. *)
Definition Expand_indirSectors (h : FileHeader) (newBytes : Z) : Z :=
  let newSectors := Expand_newSectors h newBytes in
  if negb (indirSector (raw h) =? -1) then
    let onLastIndir := u32 (numSectors (raw h) - NUM_DIRECT) mod NUM_INDIRECT in
    let remainingSectors :=
      if newSectors >? onLastIndir then u32 (newSectors - onLastIndir)
      else 0 in
    DivRoundUp remainingSectors NUM_INDIRECT
  else if u32 (numBytes (raw h) + newBytes) >? MAX_DIRECT_SIZE then
    let onDirSectors := u32 (NUM_DIRECT - numSectors (raw h)) in
    u32 (DivRoundUp (u32 (newSectors - onDirSectors)) NUM_INDIRECT + 1)
  else 0.

(** [FileHeader::Expand] *)
Definition Expand (freeMap : list bool) (newBytes : Z) (h : FileHeader)
    : outcome (bool * list bool * FileHeader) :=
  _ ← ASSERT (negb (newBytes =? 0));
  let newSectors := Expand_newSectors h newBytes in
  let indirSectors := Expand_indirSectors h newBytes in
  if CountClear freeMap <? u32 (newSectors + indirSectors) then
    Ret (false, freeMap, h)
  else
    let a := Expand_claim freeMap h newBytes newSectors indirSectors in
    Ret (true, a_map a, a_hdr a).

(** [ASSERT(freeMap->Test(s)); freeMap->Clear(s);] *)
Definition release (s : Z) (m : list bool) : outcome (list bool) :=
  _ ← ASSERT (Test m s); Ret (Clear s m).

(** [FileHeader::Deallocate] *)
Definition Deallocate (freeMap : list bool) (h : FileHeader)
    : outcome (list bool) :=
  let dirSectors := Z.min (numSectors (raw h)) NUM_DIRECT in
  m ← for_whileM (Z.to_nat dirSectors) 0 (fun _ _ => true)
        (fun i m => release (cell (dataSectors (raw h)) i) m) freeMap;
  if negb (indirSector (raw h) =? -1) then
    m ← release (u32 (indirSector (raw h))) m;
    for_whileM (Z.to_nat NUM_INDIRECT) 0
      (fun i _ => negb (cell (firstIndir h) i =? -1))
      (fun i m =>
         m ← release (u32 (cell (firstIndir h) i)) m;
         for_whileM (Z.to_nat NUM_INDIRECT) 0
           (fun j _ => negb (cell2 (secondIndir h) i j =? -1))
           (fun j m => release (u32 (cell2 (secondIndir h) i j)) m) m)
      m
  else Ret m.

End Header.

(** The header laws of the data model: the sector count is the ceiling of
    the length over the sector size, and the header has an indirection
    table exactly when the direct table does not cover the file. *)
Definition header_laws (h : FileHeader) : Prop :=
  0 <= numBytes (raw h) < UINT_MODULUS
  /\ numSectors (raw h) = DivRoundUp (numBytes (raw h)) SECTOR_SIZE
  /\ (indirSector (raw h) = -1 <-> numSectors (raw h) <= NUM_DIRECT).

(** What the claiming steps of [Expand] have in common: bits of the free
    map are only ever marked, and the length, the sector count and the
    single-indirect pointer of the header stay as they are. *)
Definition claims_only (a a' : Header.alloc) : Prop :=
  (forall x, Bitmap.Test (Header.a_map a) x = true ->
             Bitmap.Test (Header.a_map a') x = true)
  /\ Bitmap.CountClear (Header.a_map a')
     <= Bitmap.CountClear (Header.a_map a)
  /\ numBytes (raw (Header.a_hdr a')) = numBytes (raw (Header.a_hdr a))
  /\ numSectors (raw (Header.a_hdr a')) = numSectors (raw (Header.a_hdr a))
  /\ indirSector (raw (Header.a_hdr a')) = indirSector (raw (Header.a_hdr a)).

(** A step that leaves all three levels of indirection alone. *)
Definition direct_only (a a' : Header.alloc) : Prop :=
  indirSector (raw (Header.a_hdr a')) = indirSector (raw (Header.a_hdr a))
  /\ firstIndir (Header.a_hdr a') = firstIndir (Header.a_hdr a)
  /\ secondIndir (Header.a_hdr a') = secondIndir (Header.a_hdr a)
  /\ numBytes (raw (Header.a_hdr a')) = numBytes (raw (Header.a_hdr a))
  /\ numSectors (raw (Header.a_hdr a')) = numSectors (raw (Header.a_hdr a)).

(** A header whose two indirection tables hold no sector, as the loop
    of [Allocate] for a file without indirection leaves them: -1 in every
    cell. *)
Definition no_tables (h : FileHeader) : Prop :=
  (forall i, 0 <= i < NUM_INDIRECT -> Header.cell (firstIndir h) i = -1)
  /\ (forall i j, 0 <= i < NUM_INDIRECT -> 0 <= j < NUM_INDIRECT ->
        Header.cell2 (secondIndir h) i j = -1).

(** The two counters of the claiming loops are [unsigned] values that ask
    for no more sectors than the free map has clear. *)
Definition funded (a : Header.alloc) : Prop :=
  0 <= Header.a_left a < UINT_MODULUS
  /\ 0 <= Header.a_indir a < UINT_MODULUS
  /\ Header.a_left a + Header.a_indir a
     <= Bitmap.CountClear (Header.a_map a).

(** The clear sectors that are left when both counters are used up. *)
Definition balance (a : Header.alloc) : Z :=
  Bitmap.CountClear (Header.a_map a) - Header.a_left a - Header.a_indir a.

(** *** Sample free maps and headers *)

(** A free map of 1024 sectors of which the first five are taken. *)
Definition sample_map : list bool := replicate 5 true ++ replicate 1019 false.

(** The header of a file of 100 bytes, and of one that fills the direct
    table, each allocated from [sample_map], and the free map after each
    of the two allocations. *)
Definition sample_header_100 : FileHeader :=
  snd (Header.Allocate sample_map 100 Header.blank).

Definition sample_map_100 : list bool :=
  snd (fst (Header.Allocate sample_map 100 Header.blank)).

Definition sample_header_direct : FileHeader :=
  snd (Header.Allocate sample_map MAX_DIRECT_SIZE Header.blank).

Definition sample_map_direct : list bool :=
  snd (fst (Header.Allocate sample_map MAX_DIRECT_SIZE Header.blank)).

(* ===================================================================== *)
(** ** filesys/file_synch.cc *)
(* ===================================================================== *)

(** The counters and flags of a [FileSynch]; the lock and the condition
    variable are what makes each method body below one atomic step. *)
Record FileSynch := mkFileSynch {
  filepath : string;
  hdr : FileHeader;
  opened : Z;              (* unsigned *)
  beingRemoved : bool;
  reading : Z;             (* unsigned *)
  writing : bool;
  waitingToWrite : Z       (* unsigned *)
}.

Module Synch.

(** What the constructor sets before it fetches the header. *)
Definition fresh (path : string) (h : FileHeader) : FileSynch :=
  mkFileSynch path h 1 false 0 false 0.

Definition set_opened (v : Z) (s : FileSynch) : FileSynch :=
  mkFileSynch (filepath s) (hdr s) v (beingRemoved s) (reading s)
              (writing s) (waitingToWrite s).

Definition set_beingRemoved (v : bool) (s : FileSynch) : FileSynch :=
  mkFileSynch (filepath s) (hdr s) (opened s) v (reading s)
              (writing s) (waitingToWrite s).

Definition set_reading (v : Z) (s : FileSynch) : FileSynch :=
  mkFileSynch (filepath s) (hdr s) (opened s) (beingRemoved s) v
              (writing s) (waitingToWrite s).

Definition set_writing (v : bool) (s : FileSynch) : FileSynch :=
  mkFileSynch (filepath s) (hdr s) (opened s) (beingRemoved s) (reading s)
              v (waitingToWrite s).

Definition set_waitingToWrite (v : Z) (s : FileSynch) : FileSynch :=
  mkFileSynch (filepath s) (hdr s) (opened s) (beingRemoved s) (reading s)
              (writing s) v.

Definition set_hdr (h : FileHeader) (s : FileSynch) : FileSynch :=
  mkFileSynch (filepath s) h (opened s) (beingRemoved s) (reading s)
              (writing s) (waitingToWrite s).

(** [FileSynch::FileOpened]: the value returned and the record after. *)
Definition FileOpened (s : FileSynch) : bool * FileSynch :=
  let removing := beingRemoved s in
  (removing,
   if negb removing then set_opened (u32 (opened s + 1)) s else s).

(** [FileSynch::FileClosed] *)
Definition FileClosed (s : FileSynch) : bool * FileSynch :=
  let s := set_opened (u32 (opened s - 1)) s in
  (opened s =? 0, s).

(** [FileSynch::SetToRemove] *)
Definition SetToRemove (s : FileSynch) : FileSynch := set_beingRemoved true s.

(** [FileSynch::ReadyToRemove] *)
Definition ReadyToRemove (s : FileSynch) : bool :=
  beingRemoved s && (opened s =? 0).

(** A method that waits on [fileCond] either gets through its loop and
    returns, or releases the lock and sleeps with the record as it is. *)
Inductive progress :=
| Returned (s : FileSynch)
| Waits (s : FileSynch).

(** The loop of [BeginReading], run by a thread that holds the lock:
    [while (writing || waitingToWrite > 0) fileCond->Wait(); reading++;] *)
Definition BeginReading_loop (s : FileSynch) : progress :=
  if writing s || (waitingToWrite s >? 0) then Waits s
  else Returned (set_reading (u32 (reading s + 1)) s).

Definition BeginReading (s : FileSynch) : progress := BeginReading_loop s.

(** [FileSynch::FinishReading]; the broadcast lets the sleepers run their
    loops again. *)
Definition FinishReading (s : FileSynch) : FileSynch :=
  set_reading (u32 (reading s - 1)) s.

(** The loop of [BeginWriting] and what follows it:
    [while (writing || reading > 0) fileCond->Wait();
     waitingToWrite--; writing = true;] *)
Definition BeginWriting_loop (s : FileSynch) : progress :=
  if writing s || (reading s >? 0) then Waits s
  else Returned (set_writing true
                   (set_waitingToWrite (u32 (waitingToWrite s - 1)) s)).

Definition BeginWriting (s : FileSynch) : progress :=
  BeginWriting_loop (set_waitingToWrite (u32 (waitingToWrite s + 1)) s).

(** [FileSynch::FinishWriting] *)
Definition FinishWriting (s : FileSynch) : FileSynch := set_writing false s.

(** A record together with the threads asleep on its condition variable,
    counted by the loop they sleep in. *)
Record monitor := mkMonitor {
  rec : FileSynch;
  asleepReading : nat;
  asleepWriting : nat
}.

(** What can happen to a record: a thread calls one of the four methods,
    or a thread asleep in one of the two loops runs its loop again. *)
Inductive event :=
| CallBeginReading
| CallFinishReading
| CallBeginWriting
| CallFinishWriting
| WakeInBeginReading
| WakeInBeginWriting.

Definition step (e : event) (m : monitor) : option monitor :=
  match e with
  | CallBeginReading =>
      match BeginReading (rec m) with
      | Returned s => Some (mkMonitor s (asleepReading m) (asleepWriting m))
      | Waits s => Some (mkMonitor s (S (asleepReading m)) (asleepWriting m))
      end
  | CallFinishReading =>
      Some (mkMonitor (FinishReading (rec m)) (asleepReading m)
                      (asleepWriting m))
  | CallBeginWriting =>
      match BeginWriting (rec m) with
      | Returned s => Some (mkMonitor s (asleepReading m) (asleepWriting m))
      | Waits s => Some (mkMonitor s (asleepReading m) (S (asleepWriting m)))
      end
  | CallFinishWriting =>
      Some (mkMonitor (FinishWriting (rec m)) (asleepReading m)
                      (asleepWriting m))
  | WakeInBeginReading =>
      match asleepReading m with
      | O => None
      | S n =>
          match BeginReading_loop (rec m) with
          | Returned s => Some (mkMonitor s n (asleepWriting m))
          | Waits s => Some (mkMonitor s (S n) (asleepWriting m))
          end
      end
  | WakeInBeginWriting =>
      match asleepWriting m with
      | O => None
      | S n =>
          match BeginWriting_loop (rec m) with
          | Returned s => Some (mkMonitor s (asleepReading m) n)
          | Waits s => Some (mkMonitor s (asleepReading m) (S n))
          end
      end
  end.

(** Any sequence of events. *)
Fixpoint run (es : list event) (m : monitor) : option monitor :=
  match es with
  | [] => Some m
  | e :: es' =>
      match step e m with
      | Some m' => run es' m'
      | None => None
      end
  end.

(** A sequence in which [FinishReading] is only called while the record
    counts a reader, as it is when every [FinishReading] is called by a
    thread that came back from [BeginReading] before. *)
Fixpoint run_paired (es : list event) (m : monitor) : option monitor :=
  match es with
  | [] => Some m
  | e :: es' =>
      match e with
      | CallFinishReading =>
          if reading (rec m) >? 0 then
            match step e m with
            | Some m' => run_paired es' m'
            | None => None
            end
          else None
      | _ =>
          match step e m with
          | Some m' => run_paired es' m'
          | None => None
          end
      end
  end.

Definition start (path : string) (h : FileHeader) : monitor :=
  mkMonitor (fresh path h) 0 0.

(** The invariant of the data model. *)
Definition readers_xor_writer (s : FileSynch) : Prop :=
  (writing s = true /\ reading s = 0)
  \/ (writing s = false /\ 0 <= reading s).

End Synch.

(* ===================================================================== *)
(** ** machine/translation_entry.hh, userprog/address_space.cc,
       vmem/coremap.cc *)
(* ===================================================================== *)

Record TranslationEntry := mkEntry {
  virtualPage : Z;
  physicalPage : Z;
  valid : bool;
  readOnly : bool;
  use : bool;
  dirty : bool;
  swap : bool
}.

Module Coremap.

(** The part of the kernel that [Coremap::FreePage] touches.  Address
    spaces are named by their address; [pages] holds the page-table entry
    that [space->GetPage(vpn)] points to, [swapFiles] what each space's
    swap file holds per page, [mainMemory] the contents of each frame. *)
Record Kernel := mkKernel {
  pages : gmap (nat * Z) TranslationEntry;
  swapFiles : gmap (nat * Z) (list Z);
  mainMemory : list (list Z);
  tlb : list TranslationEntry;
  physPagesMap : list bool;        (* = freePagesMap *)
  addrSpaces : list nat;           (* AddressSpace *[NUM_PHYS_PAGES] *)
  virtualPages : list Z;           (* unsigned [NUM_PHYS_PAGES] *)
  victim : Z                       (* unsigned *)
}.

(** How a routine with a loop and pointer dereferences ends. *)
Inductive result :=
| Done (k : Kernel)
| Fault                            (* a pointer that leads nowhere *)
| Unfinished.                      (* the loop was cut off *)

Definition set_victim (v : Z) (k : Kernel) : Kernel :=
  mkKernel (pages k) (swapFiles k) (mainMemory k) (tlb k) (physPagesMap k)
           (addrSpaces k) (virtualPages k) v.

Definition set_pages (p : gmap (nat * Z) TranslationEntry) (k : Kernel)
    : Kernel :=
  mkKernel p (swapFiles k) (mainMemory k) (tlb k) (physPagesMap k)
           (addrSpaces k) (virtualPages k) (victim k).

Definition set_use (b : bool) (e : TranslationEntry) : TranslationEntry :=
  mkEntry (virtualPage e) (physicalPage e) (valid e) (readOnly e) b
          (dirty e) (swap e).

(** The owner recorded for a frame: [addrSpaces[f]], [virtualPages[f]]. *)
Definition owner (k : Kernel) (f : Z) : option (nat * Z) :=
  if f <? 0 then None
  else
    match addrSpaces k !! Z.to_nat f, virtualPages k !! Z.to_nat f with
    | Some sp, Some vpn => Some (sp, vpn)
    | _, _ => None
    end.

(** [addrSpaces[f]->GetPage(virtualPages[f])] *)
Definition entry_of (k : Kernel) (f : Z) : option TranslationEntry :=
  match owner k f with
  | Some o => pages k !! o
  | None => None
  end.

Section WithPhysPages.

(** The number of physical frames, a build-time constant of
    machine/mmu.hh, which is not part of the sources at hand. *)
Variable NUM_PHYS_PAGES : Z.

(** [(victim + 1) % NUM_PHYS_PAGES] *)
Definition next (v : Z) : Z := u32 (v + 1) mod NUM_PHYS_PAGES.

(** One turn of the loop of [UpdateVictim]:
    [entry->use = false; victim = (victim + 1) % NUM_PHYS_PAGES;] with
    [entry] the page-table entry of the owner [o] of the frame. *)
Definition pass (k : Kernel) (o : nat * Z) (entry : TranslationEntry)
    : Kernel :=
  set_victim (next (victim k))
    (set_pages (<[o := set_use false entry]> (pages k)) k).

(** The loop of [UpdateVictim], entered with [entry] pointing at the
    page of frame [victim]:
    [while (entry->use == true) { entry->use = false;
       victim = (victim + 1) % NUM_PHYS_PAGES; ... }] *)
Fixpoint UpdateVictim_while (fuel : nat) (k : Kernel) : result :=
  match owner k (victim k) with
  | None => Fault
  | Some o =>
      match pages k !! o with
      | None => Fault
      | Some entry =>
          if use entry then
            match fuel with
            | O => Unfinished
            | S fuel' =>
                UpdateVictim_while fuel' (pass k o entry)
            end
          else Done k
      end
  end.

(** [Coremap::UpdateVictim] *)
Definition UpdateVictim (fuel : nat) (k : Kernel) : result :=
  UpdateVictim_while fuel (set_victim (next (victim k)) k).

(** [AddressSpace::SaveToSwap(vpn)] of the space [sp]. *)
Definition SaveToSwap (sp : nat) (vpn : Z) (k : Kernel) : result :=
  match pages k !! (sp, vpn) with
  | None => Fault
  | Some e =>
      let swapped := dirty e in
      let files :=
        if swapped then
          <[(sp, vpn) := default [] (mainMemory k !! Z.to_nat (physicalPage e))]>
            (swapFiles k)
        else swapFiles k in
      let e' := mkEntry (virtualPage e) (physicalPage e) false (readOnly e)
                        false false (if swapped then true else swap e) in
      let hit := list_find (fun t => physicalPage t = physicalPage e) (tlb k) in
      let tlb' :=
        match hit with
        | Some (i, t) =>
            <[i := mkEntry (virtualPage t) (physicalPage t) false
                           (readOnly t) (use t) (dirty t) (swap t)]> (tlb k)
        | None => tlb k
        end in
      Done (mkKernel (<[(sp, vpn) := e']> (pages k)) files (mainMemory k)
                     tlb' (physPagesMap k) (addrSpaces k) (virtualPages k)
                     (victim k))
  end.

(** [physPagesMap->Clear(victim);] *)
Definition clear_victim (k : Kernel) : Kernel :=
  mkKernel (pages k) (swapFiles k) (mainMemory k) (tlb k)
           (Bitmap.Clear (victim k) (physPagesMap k))
           (addrSpaces k) (virtualPages k) (victim k).

(** [Coremap::FreePage], built with VMEM. *)
Definition FreePage (fuel : nat) (k : Kernel) : result :=
  match UpdateVictim fuel k with
  | Done k1 =>
      let k2 := clear_victim k1 in
      match owner k2 (victim k2) with
      | Some (sp, vpn) => SaveToSwap sp vpn k2
      | None => Fault
      end
  | r => r
  end.

(** Every frame is owned by a page that exists. *)
Definition resident (k : Kernel) : Prop :=
  forall f, 0 <= f < NUM_PHYS_PAGES -> is_Some (entry_of k f).

End WithPhysPages.

(** The use bit of the page that holds a frame. *)
Definition use_of (k : Kernel) (f : Z) : option bool :=
  use <$> entry_of k f.

(** [Coremap::InMemory].  For a [physicalPage] outside the two arrays,
    -1 for a page that was never loaded, the C++ code compares what lies
    beside the arrays with the address space; no address space is found
    there. *)
Definition InMemory (k : Kernel) (addrSpace : nat) (entry : TranslationEntry)
    : bool :=
  match owner k (physicalPage entry) with
  | Some (sp, vpn) =>
      bool_decide (sp = addrSpace) && (vpn =? virtualPage entry)
  | None => false
  end.

Definition set_physPagesMap (m : list bool) (k : Kernel) : Kernel :=
  mkKernel (pages k) (swapFiles k) (mainMemory k) (tlb k) m
           (addrSpaces k) (virtualPages k) (victim k).

(** [addrSpaces[f] = addrSpace; virtualPages[f] = virtualPage;] *)
Definition set_owner (f : Z) (addrSpace : nat) (virtualPage : Z) (k : Kernel)
    : Kernel :=
  mkKernel (pages k) (swapFiles k) (mainMemory k) (tlb k) (physPagesMap k)
           (<[Z.to_nat f := addrSpace]> (addrSpaces k))
           (<[Z.to_nat f := virtualPage]> (virtualPages k)) (victim k).

(** [Coremap::Find]: the frame and the kernel after the call. *)
Definition Find (addrSpace : nat) (virtualPage : Z) (k : Kernel)
    : outcome (Z * Kernel) :=
  let '(physAddr, m) := Bitmap.Find (physPagesMap k) in
  _ ← ASSERT (negb (physAddr =? -1));
  Ret (physAddr,
       set_owner physAddr addrSpace virtualPage (set_physPagesMap m k)).

Definition set_dirty (b : bool) (e : TranslationEntry) : TranslationEntry :=
  mkEntry (virtualPage e) (physicalPage e) (valid e) (readOnly e) (use e)
          b (swap e).

(** [Coremap::UpdateEntry] *)
Definition UpdateEntry (physPage : Z) (k : Kernel) : result :=
  match owner k physPage with
  | None => Fault
  | Some (sp, vpn) =>
      match pages k !! (sp, vpn) with
      | None => Fault
      | Some entry =>
          if InMemory k sp entry then
            Done (set_pages (<[(sp, vpn) := set_dirty true entry]> (pages k))
                            k)
          else Done k
      end
  end.

End Coremap.

(** How many of the first [n] frames hold a page whose use bit is set. *)
Definition frames_in_use (k : Coremap.Kernel) (n : nat) : nat :=
  length (filter (fun f => Coremap.use_of k (Z.of_nat f) = Some true)
                 (seq 0 n)).

(** A machine with two frames, both holding pages of the address space 7
    whose use bits are set; the page in frame 1 is dirty. *)
Definition sample_kernel : Coremap.Kernel :=
  Coremap.mkKernel
    {[ (7%nat, 0) := mkEntry 0 0 true false true false false;
       (7%nat, 2) := mkEntry 2 1 true false true true false;
       (7%nat, 1) := mkEntry 1 (-1) false false false false false ]}
    ∅
    [[10; 11]; [20; 21]]
    [mkEntry 2 1 true false true true false]
    [true; true]
    [7%nat; 7%nat]
    [0; 2]
    0.

(* ===================================================================== *)
(** ** filesys/directory_entry.hh, filesys/directory.cc *)
(* ===================================================================== *)

Definition FILE_NAME_MAX_LEN : Z := 20.
Definition PATH_NAME_MAX_LEN : Z := FILE_NAME_MAX_LEN * 5.

Module DirectoryEntry.

Record t := mk {
  inUse : bool;
  sector : Z;              (* unsigned *)
  name : string;           (* char [FILE_NAME_MAX_LEN + 1] *)
  isDir : bool
}.

(** [sizeof (DirectoryEntry)]: one byte and three of padding, four bytes,
    twenty-one bytes, one byte and two of padding. *)
Definition size : Z := 32.

(** An entry of a fresh table after the loop of the constructor has
    cleared its [inUse]. *)
Definition unused : t := mk false 0 "" false.

End DirectoryEntry.

(** The first [n] characters of a C string. *)
Definition strn (n : Z) (s : string) : string := substring 0 (Z.to_nat n) s.

(** What [FileHeader::WriteBack] stores in a sector: a raw header or an
    indirection table. *)
Inductive SectorData :=
| RawHeaderData (r : RawFileHeader)
| IndirectionData (t : list Z).

(** Modelled from the spec: the disk as the file system reads and writes
    it.  [sectors] is written sector by sector by [FileHeader::WriteBack];
    filesys/open_file.cc and lib/bitmap.cc are not part of the sources at
    hand, so the contents of the two kinds of file that are read and
    written as a whole are kept per file: the table of each directory
    file under the sector of its header, and the bits of the free-map
    file.  What the kernel reads without having written it is unknown to
    it: [unwritten s] are the words of the sector [s] as long as
    [FileHeader::WriteBack] has not written it, and [stale s i] is what
    the sectors of the directory file with its header in [s] hold in the
    place of the entry [i] as long as no [Directory::WriteBack] has
    reached that entry; both are whatever an earlier use of the sector
    or the machine left there.  The bytes that a file holds as data are
    not kept: only what goes through [FileHeader::WriteBack],
    [Directory::WriteBack] and the free map is. *)
Record Disk := mkDisk {
  sectors : gmap Z SectorData;
  directories : gmap Z (list DirectoryEntry.t);
  freeMapBits : list bool;
  unwritten : Z -> list Z;
  stale : Z -> nat -> DirectoryEntry.t
}.

Module HeaderIO.

Definition set_raw (r : RawFileHeader) (h : FileHeader) : FileHeader :=
  mkHeader r (firstIndir h) (secondIndir h).

Definition set_firstIndir_table (t : list Z) (h : FileHeader) : FileHeader :=
  mkHeader (raw h) t (secondIndir h).

Definition set_secondIndir_row (i : Z) (t : list Z) (h : FileHeader)
    : FileHeader :=
  mkHeader (raw h) (firstIndir h) (<[Z.to_nat i := t]> (secondIndir h)).

(** The words of a sector read as a raw header, in the layout of
    [RawFileHeader]: two [unsigned], one [int] and [NUM_DIRECT]
    [unsigned]. *)
Definition words_raw (w : list Z) : RawFileHeader :=
  mkRaw (u32 (Header.cell w 0)) (u32 (Header.cell w 1))
        (to_int (Header.cell w 2))
        (map (fun i => u32 (Header.cell w (3 + Z.of_nat i)))
             (seq 0 (Z.to_nat NUM_DIRECT))).

(** A raw header read as a table of [int]. *)
Definition raw_words (r : RawFileHeader) : list Z :=
  map to_int (numBytes r :: numSectors r :: indirSector r :: dataSectors r).

(** [synchDisk->ReadSector(sector, &raw)]: what was written to
    the sector as a raw header comes back as it was written; the words of
    a table that was written there, or of a sector that was not written,
    are taken for a raw header. *)
Definition read_raw (d : Disk) (sector : Z) (h : FileHeader) : FileHeader :=
  set_raw
    match sectors d !! sector with
    | Some (RawHeaderData r) => r
    | Some (IndirectionData t) => words_raw t
    | None => words_raw (unwritten d sector)
    end h.

(** [synchDisk->ReadSector(sector, firstIndir)] and of a row of
    [secondIndir]. *)
Definition read_table (d : Disk) (sector : Z) : list Z :=
  match sectors d !! sector with
  | Some (IndirectionData t) => t
  | Some (RawHeaderData r) => raw_words r
  | None => unwritten d sector
  end.

(** [FileHeader::FetchFrom] *)
Definition FetchFrom (d : Disk) (sector : Z) (h : FileHeader) : FileHeader :=
  let h := read_raw d sector h in
  if negb (indirSector (raw h) =? -1) then
    let h := set_firstIndir_table (read_table d (indirSector (raw h))) h in
    for_while (Z.to_nat NUM_INDIRECT) 0
      (fun i h => negb (Header.cell (firstIndir h) i =? -1))
      (fun i h =>
         set_secondIndir_row i
           (read_table d (Header.cell (firstIndir h) i)) h)
      h
  else h.

Definition write_sector (sector : Z) (x : SectorData) (d : Disk) : Disk :=
  mkDisk (<[sector := x]> (sectors d)) (directories d) (freeMapBits d)
         (unwritten d) (stale d).

(** [FileHeader::WriteBack] *)
Definition WriteBack (sector : Z) (h : FileHeader) (d : Disk) : Disk :=
  let d := write_sector sector (RawHeaderData (raw h)) d in
  if negb (indirSector (raw h) =? -1) then
    let d := write_sector (indirSector (raw h))
               (IndirectionData (firstIndir h)) d in
    for_while (Z.to_nat NUM_INDIRECT) 0
      (fun i _ => negb (Header.cell (firstIndir h) i =? -1))
      (fun i d =>
         write_sector (Header.cell (firstIndir h) i)
           (IndirectionData (default [] (secondIndir h !! Z.to_nat i))) d)
      d
  else d.

End HeaderIO.

(** [FSSynch] of filesys/fs_synch.hh and fs_synch.cc, the record of an
    open directory or of the free map: the [OpenFile] and the header
    sector that the constructor stores.  The lock is not kept, a call
    runs from its first to its last line here.  filesys/open_file.cc is
    not part of the sources at hand; of the [OpenFile] the record keeps
    the header that was fetched when the file was opened, which is what
    [GetHeader] hands out. *)
Record FSSynch := mkFSSynch {
  openFile : FileHeader;       (* openFile->GetHeader() *)
  hdrSector : Z
}.

Definition NEW_DIR_ENTRIES : Z := 5.

Module Directory.

Import DirectoryEntry.

(** [!strncmp(a, b, FILE_NAME_MAX_LEN)] *)
Definition same_name (a b : string) : bool :=
  String.eqb (strn FILE_NAME_MAX_LEN a) (strn FILE_NAME_MAX_LEN b).

(** [Directory::FindIndex] *)
Definition FindIndex (table : list DirectoryEntry.t) (name : string) : Z :=
  match list_find
          (fun e => inUse e && same_name (DirectoryEntry.name e) name = true)
          table with
  | Some (i, _) => Z.of_nat i
  | None => -1
  end.

(** [Directory::Find]: the [unsigned] field [sector] is returned as an
    [int]. *)
Definition Find (table : list DirectoryEntry.t) (name : string) : Z :=
  let i := FindIndex table name in
  if negb (i =? -1) then
    to_int (default 0 (sector <$> table !! Z.to_nat i))
  else -1.

(** [Directory::IsDir] *)
Definition IsDir (table : list DirectoryEntry.t) (name : string) : bool :=
  let i := FindIndex table name in
  if negb (i =? -1) then
    default false (DirectoryEntry.isDir <$> table !! Z.to_nat i)
  else false.

(** [Directory::IsEmpty] *)
Definition IsEmpty (table : list DirectoryEntry.t) : bool :=
  forallb (fun e => negb (inUse e)) table.

(** [Directory::Remove] *)
Definition Remove (table : list DirectoryEntry.t) (name : string)
    : bool * list DirectoryEntry.t :=
  let i := FindIndex table name in
  if i =? -1 then (false, table)
  else
    (true,
     alter (fun e => mk false (sector e) (DirectoryEntry.name e)
                        (DirectoryEntry.isDir e))
           (Z.to_nat i) table).

(** The four assignments that fill the slot [i]. *)
Definition fill (i : nat) (name : string) (sector : Z) (isDir : bool)
    (table : list DirectoryEntry.t) : list DirectoryEntry.t :=
  <[i := mk true (u32 sector) (strn FILE_NAME_MAX_LEN name) isDir]> table.

(** [Directory::FetchFrom(file)], for a [Directory(0)]: the length of the
    file gives the size of the table; the entries that no
    [Directory::WriteBack] has written are what the sectors of the file
    hold. *)
Definition FetchFrom (d : Disk) (file : FSSynch)
    : outcome (list DirectoryEntry.t) :=
  let fileSize := Header.FileLength (openFile file) in
  let tableSize := fileSize / DirectoryEntry.size in
  _ ← ASSERT (tableSize >? 0);
  let stored := default [] (directories d !! hdrSector file) in
  Ret (take (Z.to_nat tableSize)
            (stored ++ map (stale d (hdrSector file))
                           (seq (length stored) (Z.to_nat tableSize)))).

(** [Directory::WriteBack(file)] *)
Definition WriteBack (table : list DirectoryEntry.t) (file : FSSynch)
    (d : Disk) : outcome Disk :=
  let fileSize := Header.FileLength (openFile file) in
  _ ← ASSERT (fileSize =? u32 (Z.of_nat (length table) * DirectoryEntry.size));
  Ret (mkDisk (sectors d) (<[hdrSector file := table]> (directories d))
              (freeMapBits d) (unwritten d) (stale d)).

(** [Directory::ExpandDirectory]: the result, the table, the free map,
    the record of the directory with its header as [Expand] left it, and
    the disk, to which a grown header is written at once. *)
Definition ExpandDirectory (table : list DirectoryEntry.t)
    (freeMap : list bool) (dirSynch : FSSynch) (d : Disk)
    : outcome (bool * list DirectoryEntry.t * list bool * FSSynch * Disk) :=
  let dirH := openFile dirSynch in
  '(success, freeMap, dirH) ←
    Header.Expand freeMap (u32 (NEW_DIR_ENTRIES * DirectoryEntry.size)) dirH;
  let dirSynch := mkFSSynch dirH (hdrSector dirSynch) in
  if success : bool then
    let d := HeaderIO.WriteBack (hdrSector dirSynch) dirH d in
    Ret (true, table ++ replicate (Z.to_nat NEW_DIR_ENTRIES) unused,
         freeMap, dirSynch, d)
  else Ret (false, table, freeMap, dirSynch, d).

(** [Directory::Add] *)
Definition Add (table : list DirectoryEntry.t) (name : string) (sector : Z)
    (isDir : bool) (freeMap : list bool) (dirSynch : FSSynch) (d : Disk)
    : outcome (bool * list DirectoryEntry.t * list bool * FSSynch * Disk) :=
  if negb (FindIndex table name =? -1) then
    Ret (false, table, freeMap, dirSynch, d)
  else
    match list_find (fun e => inUse e = false) table with
    | Some (i, _) => Ret (true, fill i name sector isDir table,
                          freeMap, dirSynch, d)
    | None =>
        let i := length table in
        '(success, table, freeMap, dirSynch, d) ←
          ExpandDirectory table freeMap dirSynch d;
        if success : bool then
          _ ← ASSERT (negb (default true (inUse <$> table !! i)));
          Ret (true, fill i name sector isDir table, freeMap, dirSynch, d)
        else Ret (false, table, freeMap, dirSynch, d)
    end.

(** [Directory::Directory(size)] for a directory that is being created:
    a table of [size] entries, none of them in use. *)
Definition New (size : Z) : list DirectoryEntry.t :=
  replicate (Z.to_nat size) unused.

(** [!strncmp(name, "SWAP.", 5)] *)
Definition is_swap (name : string) : bool := String.eqb (strn 5 name) "SWAP.".

(** [Directory::FindSwapFile]: the name returned, [None] for the null
    pointer, and the table as the call leaves it. *)
Definition FindSwapFile (table : list DirectoryEntry.t)
    : outcome (option string * list DirectoryEntry.t) :=
  match list_find
          (fun e => inUse e && is_swap (DirectoryEntry.name e) = true)
          table with
  | Some (i, e) =>
      _ ← ASSERT (negb (DirectoryEntry.isDir e));
      Ret (Some (DirectoryEntry.name e),
           <[i := mk false (sector e) (DirectoryEntry.name e)
                    (DirectoryEntry.isDir e)]> table)
  | None => Ret (None, table)
  end.

End Directory.

(** The invariant that [Directory::Add] is there to keep: no two entries
    in use carry the same name, as [strncmp] over [FILE_NAME_MAX_LEN]
    bytes compares names. *)
Definition unique_names (table : list DirectoryEntry.t) : Prop :=
  forall i j e1 e2,
    table !! i = Some e1 -> table !! j = Some e2 ->
    DirectoryEntry.inUse e1 = true -> DirectoryEntry.inUse e2 = true ->
    Directory.same_name (DirectoryEntry.name e1) (DirectoryEntry.name e2)
    = true ->
    i = j.

(** How many entries of a table are in use. *)
Definition entries_in_use (table : list DirectoryEntry.t) : nat :=
  length (filter (fun e => DirectoryEntry.inUse e = true) table).

(* ===================================================================== *)
(** ** filesys/file_system.cc *)
(* ===================================================================== *)

(** Modelled from the spec: filesys/file_system.hh is not part of the
    sources at hand; sector 0 holds the header of the free map. *)
Definition FREE_MAP_SECTOR : Z := 0.

(** Modelled from the spec: sector 1 holds the header of the root
    directory. *)
Definition DIRECTORY_SECTOR : Z := 1.

Definition NUM_DIR_ENTRIES : Z := 10.
Definition DIRECTORY_FILE_SIZE : Z := DirectoryEntry.size * NUM_DIR_ENTRIES.
(** Modelled from the spec: [BITS_IN_BYTE] of lib/bitmap.hh; the free
    map is stored as bytes of eight bits. *)
Definition BITS_IN_BYTE : Z := 8.

(** The file system between two calls: the disk, the two registries
    (by header sector), and the directory of the calling thread.  A call
    runs from its first to its last line here; the locks that it takes
    are what lets it do so in the kernel. *)
Record FileSystem := mkFS {
  disk : Disk;
  fsSynchList : gmap Z FSSynch;
  fileSynchList : gmap Z FileSynch;
  currentDir : Z
}.

Module FS.

Definition SLASH : ascii := "/"%char.

Definition set_disk (d : Disk) (fs : FileSystem) : FileSystem :=
  mkFS d (fsSynchList fs) (fileSynchList fs) (currentDir fs).

Definition set_fsSynchList (l : gmap Z FSSynch) (fs : FileSystem)
    : FileSystem :=
  mkFS (disk fs) l (fileSynchList fs) (currentDir fs).

Definition set_fileSynchList (l : gmap Z FileSynch) (fs : FileSystem)
    : FileSystem :=
  mkFS (disk fs) (fsSynchList fs) l (currentDir fs).

Definition set_freeMapBits (m : list bool) (d : Disk) : Disk :=
  mkDisk (sectors d) (directories d) m (unwritten d) (stale d).

(** Modelled from the spec: [new OpenFile(sector)] of
    filesys/open_file.cc for a directory or the free map; the header is
    fetched from the disk. *)
Definition OpenFile (d : Disk) (sector : Z) : FSSynch :=
  mkFSSynch (HeaderIO.FetchFrom d sector Header.blank) sector.

(** Position of the last [/] of a string, as [strrchr] finds it. *)
Definition last_slash (p : list ascii) : option nat :=
  match list_find (fun c => c = SLASH) (reverse p) with
  | Some (j, _) => Some (length p - 1 - j)%nat
  | None => None
  end.

(** [FileSystem::SplitPath]: the directory path and the name. *)
Definition SplitPath (path : string) : string * string :=
  let p := list_ascii_of_string path in
  let p :=
    match reverse p with
    | c :: rest =>
        if bool_decide (c = SLASH) && negb (bool_decide (rest = []))
        then reverse rest else p
    | [] => p
    end in
  match last_slash p with
  | None => (EmptyString, string_of_list_ascii p)
  | Some i =>
      (if bool_decide (i = 0%nat) then String SLASH EmptyString
       else string_of_list_ascii (take i p),
       string_of_list_ascii (drop (S i) p))
  end.

(** The tokens that [strtok(dirPath, "/")] hands out one after the
    other; [cur] collects the token being read, last character first. *)
Fixpoint tokens (p : list ascii) (cur : list ascii) : list string :=
  match p with
  | [] =>
      match cur with
      | [] => []
      | _ => [string_of_list_ascii (reverse cur)]
      end
  | c :: p' =>
      if bool_decide (c = SLASH) then
        match cur with
        | [] => tokens p' []
        | _ => string_of_list_ascii (reverse cur) :: tokens p' []
        end
      else tokens p' (c :: cur)
  end.

(** The loop of [FindDirectory]: [dirSynch] is the record of the sector
    [dsec]; the result is the sector of the record returned, or [None]
    for the null pointer. *)
Fixpoint FindDirectory_while (toks : list string) (dsec : Z)
    (fs : FileSystem) : outcome (option Z * FileSystem) :=
  match toks with
  | [] => Ret (Some dsec, fs)
  | token :: toks' =>
      match fsSynchList fs !! dsec with
      | None => Undefined
      | Some dirSynch =>
          dir ← Directory.FetchFrom (disk fs) dirSynch;
          if negb (Directory.IsDir dir token) then Ret (None, fs)
          else
            let sector := Directory.Find dir token in
            let fs :=
              match fsSynchList fs !! sector with
              | Some _ => fs
              | None =>
                  set_fsSynchList
                    (<[sector := OpenFile (disk fs) sector]> (fsSynchList fs))
                    fs
              end in
            FindDirectory_while toks' sector fs
      end
  end.

(** [FileSystem::FindDirectory] *)
Definition FindDirectory (dirPath : string) (fs : FileSystem)
    : outcome (option Z * FileSystem) :=
  let p := list_ascii_of_string dirPath in
  let dsec :=
    match p with
    | c :: _ => if bool_decide (c = SLASH) then DIRECTORY_SECTOR
                else currentDir fs
    | [] => currentDir fs
    end in
  _ ← ASSERT (bool_decide (is_Some (fsSynchList fs !! dsec)));
  FindDirectory_while (tokens p []) dsec fs.

(** [strncmp("SWAP.", name, 5) == 0] *)
Definition swap_name (name : string) : bool := String.eqb "SWAP." (strn 5 name).

(** The part of [Create] that runs under the lock of the directory. *)
Definition Create_locked (dsec : Z) (name : string) (initialSize : Z)
    (isDir : bool) (fs : FileSystem) : outcome (bool * FileSystem) :=
  match fsSynchList fs !! dsec, fsSynchList fs !! FREE_MAP_SECTOR with
  | Some dirSynch, Some _ =>
      dir ← Directory.FetchFrom (disk fs) dirSynch;
      if negb (Directory.Find dir name =? -1) then Ret (false, fs)
      else
        let freeMap := freeMapBits (disk fs) in
        let '(sector, freeMap) := Bitmap.Find freeMap in
        if sector =? -1 then Ret (false, fs)
        else
          '(added, dir, freeMap, dirSynch, d) ←
            Directory.Add dir name sector isDir freeMap dirSynch (disk fs);
          let fs := set_fsSynchList (<[dsec := dirSynch]> (fsSynchList fs))
                      (set_disk d fs) in
          if negb added then Ret (false, fs)
          else
            let '(success, freeMap, h) :=
              Header.Allocate freeMap
                (if isDir then DIRECTORY_FILE_SIZE else initialSize)
                Header.blank in
            if success then
              let d := HeaderIO.WriteBack sector h (disk fs) in
              d ← Directory.WriteBack dir dirSynch d;
              let d := set_freeMapBits freeMap d in
              d ← (if isDir then
                     Directory.WriteBack
                       (replicate (Z.to_nat NUM_DIR_ENTRIES)
                                  DirectoryEntry.unused)
                       (OpenFile d sector) d
                   else Ret d);
              Ret (true, set_disk d fs)
            else Ret (false, fs)
  | _, _ => Undefined
  end.

(** [FileSystem::Create] *)
Definition Create (path : string) (initialSize : Z) (isDir : bool)
    (fs : FileSystem) : outcome (bool * FileSystem) :=
  let '(dirPath, name) := SplitPath path in
  '(dirSynch, fs) ← FindDirectory dirPath fs;
  match dirSynch with
  | None => Ret (false, fs)
  | Some dsec =>
      if (dsec =? DIRECTORY_SECTOR) && isDir && swap_name name
      then Ret (false, fs)
      else Create_locked dsec name initialSize isDir fs
  end.

(** [FileSystem::Open]: the sector that the new [OpenFile] is bound to,
    or [None] for the null pointer. *)
Definition Open (path : string) (fs : FileSystem)
    : outcome (option Z * FileSystem) :=
  let '(dirPath, name) := SplitPath path in
  '(found, fs) ← FindDirectory dirPath fs;
  match found with
  | None => Ret (None, fs)
  | Some dsec =>
      match fsSynchList fs !! dsec with
      | None => Undefined
      | Some dirSynch =>
          dir ← Directory.FetchFrom (disk fs) dirSynch;
          let sector := Directory.Find dir name in
          if (sector >=? 0) && negb (Directory.IsDir dir name) then
            match fileSynchList fs !! sector with
            | None =>
                let fileSynch :=
                  Synch.fresh (strn PATH_NAME_MAX_LEN path)
                    (HeaderIO.FetchFrom (disk fs) sector Header.blank) in
                Ret (Some sector,
                     set_fileSynchList
                       (<[sector := fileSynch]> (fileSynchList fs)) fs)
            | Some fileSynch =>
                let '(beingRemoved, fileSynch) := Synch.FileOpened fileSynch in
                let fs := set_fileSynchList
                            (<[sector := fileSynch]> (fileSynchList fs)) fs in
                if negb beingRemoved then Ret (Some sector, fs)
                else Ret (None, fs)
            end
          else Ret (None, fs)
      end
  end.

(** The branch of [Remove] for an empty directory or a file that no
    thread has open: the blocks go back to the free map, which is written
    back, and the directory is written back without the name. *)
Definition Remove_reclaim (dirSynch : FSSynch) (dir : list DirectoryEntry.t)
    (name : string) (sector : Z) (fs : FileSystem)
    : outcome (bool * FileSystem) :=
  match fsSynchList fs !! FREE_MAP_SECTOR with
  | None => Undefined
  | Some _ =>
      (* [fileH->FetchFrom(sector)] takes the [int] as an [unsigned] *)
      let fileH := HeaderIO.FetchFrom (disk fs) (u32 sector) Header.blank in
      let freeMap := freeMapBits (disk fs) in
      freeMap ← Header.Deallocate freeMap fileH;
      let freeMap := Bitmap.Clear sector freeMap in
      let dir := snd (Directory.Remove dir name) in
      let d := set_freeMapBits freeMap (disk fs) in
      d ← Directory.WriteBack dir dirSynch d;
      Ret (true, set_disk d fs)
  end.

(** [FileSystem::Remove] *)
Definition Remove (path : string) (fs : FileSystem)
    : outcome (bool * FileSystem) :=
  let '(dirPath, name) := SplitPath path in
  '(found, fs) ← FindDirectory dirPath fs;
  match found with
  | None => Ret (false, fs)
  | Some dsec =>
      match fsSynchList fs !! dsec with
      | None => Undefined
      | Some dirSynch =>
          dir ← Directory.FetchFrom (disk fs) dirSynch;
          let sector := Directory.Find dir name in
          if sector =? -1 then Ret (false, fs)
          else if Directory.IsDir dir name then
            let dirToRemoveSynch := fsSynchList fs !! sector in
            let dirToRemoveFile :=
              match dirToRemoveSynch with
              | Some s => s
              | None => OpenFile (disk fs) sector
              end in
            dirToRemove ← Directory.FetchFrom (disk fs) dirToRemoveFile;
            if negb (Directory.IsEmpty dirToRemove) then Ret (false, fs)
            else
              Remove_reclaim dirSynch dir name sector
                (set_fsSynchList (delete sector (fsSynchList fs)) fs)
          else
            match fileSynchList fs !! sector with
            | None => Remove_reclaim dirSynch dir name sector fs
            | Some fileToRemoveSynch =>
                Ret (true,
                     set_fileSynchList
                       (<[sector := Synch.SetToRemove fileToRemoveSynch]>
                          (fileSynchList fs)) fs)
            end
      end
  end.

(** [FileSystem::ExpandFile] *)
Definition ExpandFile (sector : Z) (numBytes : Z) (fs : FileSystem)
    : outcome (bool * FileSystem) :=
  _ ← ASSERT (negb (numBytes =? 0));
  match fileSynchList fs !! sector, fsSynchList fs !! FREE_MAP_SECTOR with
  | Some fileSynch, Some _ =>
      let freeMap := freeMapBits (disk fs) in
      '(success, freeMap, fileH) ←
        Header.Expand freeMap numBytes (hdr fileSynch);
      let fs := set_fileSynchList
                  (<[sector := Synch.set_hdr fileH fileSynch]>
                     (fileSynchList fs)) fs in
      if success : bool then
        Ret (true,
             set_disk (set_freeMapBits freeMap
                         (HeaderIO.WriteBack sector fileH (disk fs))) fs)
      else Ret (false, fs)
  | _, _ => Undefined
  end.

(** Modelled from the spec: filesys/open_file.cc is not part of the
    sources at hand.  Closing a handle of the file with header [sector]:
    "a synchronization record is born on first open and released when
    [opened] returns to zero (and, if flagged, completes the deferred
    removal)"; the removal is the one of [FileSystem::Remove], on the path
    that the record keeps. *)
Definition Close (sector : Z) (fs : FileSystem) : outcome FileSystem :=
  match fileSynchList fs !! sector with
  | None => Undefined
  | Some fileSynch =>
      let '(allClosed, fileSynch) := Synch.FileClosed fileSynch in
      if allClosed : bool then
        let fs := set_fileSynchList (delete sector (fileSynchList fs)) fs in
        if Synch.ReadyToRemove fileSynch then
          '(_, fs) ← Remove (filepath fileSynch) fs; Ret fs
        else Ret fs
      else
        Ret (set_fileSynchList (<[sector := fileSynch]> (fileSynchList fs))
                               fs)
  end.

(** The constructor [FileSystem(true)] on a disk of [NUM_SECTORS]
    sectors that holds [garbage] in its sectors and [staleEntries] where
    directory files will lie, with both registries as the kernel has
    them after boot and the root as the directory of the first thread. *)
Definition Format (NUM_SECTORS : Z) (garbage : Z -> list Z)
    (staleEntries : Z -> nat -> DirectoryEntry.t) : outcome FileSystem :=
  let FREE_MAP_FILE_SIZE := NUM_SECTORS / BITS_IN_BYTE in
  let freeMap := replicate (Z.to_nat NUM_SECTORS) false in
  let dir := replicate (Z.to_nat NUM_DIR_ENTRIES) DirectoryEntry.unused in
  let freeMap := Bitmap.Mark FREE_MAP_SECTOR freeMap in
  let freeMap := Bitmap.Mark DIRECTORY_SECTOR freeMap in
  let '(ok, freeMap, mapH) :=
    Header.Allocate freeMap FREE_MAP_FILE_SIZE Header.blank in
  _ ← ASSERT ok;
  let '(ok, freeMap, dirH) :=
    Header.Allocate freeMap DIRECTORY_FILE_SIZE Header.blank in
  _ ← ASSERT ok;
  let d := mkDisk ∅ ∅ [] garbage staleEntries in
  let d := HeaderIO.WriteBack FREE_MAP_SECTOR mapH d in
  let d := HeaderIO.WriteBack DIRECTORY_SECTOR dirH d in
  let freeMapFile := OpenFile d FREE_MAP_SECTOR in
  let rootDirectoryFile := OpenFile d DIRECTORY_SECTOR in
  let d := set_freeMapBits freeMap d in
  d ← Directory.WriteBack dir rootDirectoryFile d;
  Ret (mkFS d
         (<[DIRECTORY_SECTOR := rootDirectoryFile]>
            (<[FREE_MAP_SECTOR := freeMapFile]> ∅))
         ∅ DIRECTORY_SECTOR).

End FS.

(* ===================================================================== *)
(** ** What the specification asks of [Allocate], and sample disks *)
(* ===================================================================== *)

(** The sectors that a file of [fileSize] bytes needs according to the
    specification: its data sectors, and past the direct table one
    single-indirect sector and one first-indirect sector for every
    [NUM_INDIRECT] data sectors. *)
Definition minimal_sectors (fileSize : Z) : Z :=
  let data := DivRoundUp fileSize SECTOR_SIZE in
  if data >? NUM_DIRECT then
    data + 1 + DivRoundUp (data - NUM_DIRECT) NUM_INDIRECT
  else data.

(** A free map with exactly 32 clear sectors. *)
Definition tight_map : list bool := replicate 5 true ++ replicate 32 false.

(** The raw header that a sector of the disk holds. *)
Definition header_on_disk (d : Disk) (sector : Z) : option RawFileHeader :=
  match sectors d !! sector with
  | Some (RawHeaderData r) => Some r
  | _ => None
  end.

(** A disk of zero bytes on which nothing is written yet. *)
Definition zero_disk : Disk :=
  mkDisk ∅ ∅ [] (fun _ => []) (fun _ _ => DirectoryEntry.unused).

Definition no_disk : FileSystem := mkFS zero_disk ∅ ∅ 0.

(** A freshly formatted disk of 1024 sectors that held zero bytes. *)
Definition formatted : FileSystem :=
  match FS.Format 1024 (unwritten zero_disk) (stale zero_disk) with
  | Ret fs => fs
  | _ => no_disk
  end.

Definition after_Create (path : string) (initialSize : Z) (isDir : bool)
    (fs : FileSystem) : FileSystem :=
  match FS.Create path initialSize isDir fs with
  | Ret (_, fs') => fs'
  | _ => fs
  end.

Definition after_Open (path : string) (fs : FileSystem) : FileSystem :=
  match FS.Open path fs with
  | Ret (_, fs') => fs'
  | _ => fs
  end.

(** The formatted disk after ten empty files were created in the root
    directory, which fills its table. *)
Definition full_root : FileSystem :=
  foldr (fun path fs => after_Create path 0 false fs) formatted
    ["/f9"; "/f8"; "/f7"; "/f6"; "/f5"; "/f4"; "/f3"; "/f2"; "/f1"; "/f0"]%string.

(* ===================================================================== *)
(** ** Removal of a file *)
(* ===================================================================== *)

(** Bits of a free map are cleared and none is marked. *)
Definition only_clears (m m' : list bool) : Prop :=
  forall x, Bitmap.Test m x = false -> Bitmap.Test m' x = false.

(** Every sector that [Deallocate] visits in the header [h] is clear in
    [m]: the direct sectors, and, when there is a single-indirect sector,
    that sector, the first-indirect sectors up to the first -1, and under
    each of them the data sectors up to the first -1. *)
Definition released (h : FileHeader) (m : list bool) : Prop :=
  (forall i, 0 <= i < Z.min (numSectors (raw h)) NUM_DIRECT ->
             Bitmap.Test m (Header.cell (dataSectors (raw h)) i) = false)
  /\ (indirSector (raw h) <> -1 ->
      Bitmap.Test m (u32 (indirSector (raw h))) = false
      /\ forall i, 0 <= i < NUM_INDIRECT ->
           (forall i', 0 <= i' <= i ->
                       (Header.cell (firstIndir h) i' =? -1) = false) ->
           Bitmap.Test m (u32 (Header.cell (firstIndir h) i)) = false
           /\ forall j, 0 <= j < NUM_INDIRECT ->
                (forall j', 0 <= j' <= j ->
                            (Header.cell2 (secondIndir h) i j' =? -1) = false) ->
                Bitmap.Test m (u32 (Header.cell2 (secondIndir h) i j))
                = false).

(** The path leads to a file, and its header is in [sector]: what
    [Open] and [Remove] find out before they look at the registry. *)
Definition names_file (path : string) (sector : Z) (fs : FileSystem)
    (dirSynch : FSSynch) (dir : list DirectoryEntry.t) : Prop :=
  exists dsec fs1,
    FS.FindDirectory (fst (FS.SplitPath path)) fs = Ret (Some dsec, fs1)
    /\ fsSynchList fs1 !! dsec = Some dirSynch
    /\ Directory.FetchFrom (disk fs) dirSynch = Ret dir
    /\ Directory.Find dir (snd (FS.SplitPath path)) = sector
    /\ 0 <= sector
    /\ Directory.IsDir dir (snd (FS.SplitPath path)) = false.

(** The disk is in a state in which the blocks of the file can go back
    to the free map: the free map is registered, it marks every sector
    that [Deallocate] visits, and the table of the directory fills the
    directory file. *)
Definition reclaimable (sector : Z) (fs : FileSystem) (dirSynch : FSSynch)
    (dir : list DirectoryEntry.t) (freeMap' : list bool) : Prop :=
  is_Some (fsSynchList fs !! FREE_MAP_SECTOR)
  /\ Header.Deallocate (freeMapBits (disk fs))
       (HeaderIO.FetchFrom (disk fs) sector Header.blank) = Ret freeMap'
  /\ Header.FileLength (openFile dirSynch)
     = u32 (Z.of_nat (length dir) * DirectoryEntry.size).

(** *** A file that is removed while two handles are open *)

Definition after_Remove (path : string) (fs : FileSystem) : FileSystem :=
  match FS.Remove path fs with
  | Ret (_, fs') => fs'
  | _ => fs
  end.

Definition after_Close (sector : Z) (fs : FileSystem) : FileSystem :=
  match FS.Close sector fs with
  | Ret fs' => fs'
  | _ => fs
  end.

(** [/f] of 300 bytes on the formatted disk, opened twice; its header is
    in sector 6. *)
Definition opened_twice : FileSystem :=
  after_Open "/f" (after_Open "/f" (after_Create "/f" 300 false formatted)).

(** The same after [Remove("/f")] and after the first of the two closes. *)
Definition removal_pending : FileSystem := after_Remove "/f" opened_twice.
Definition one_handle_left : FileSystem := after_Close 6 removal_pending.

(** The record of the root directory and its table in [opened_twice];
    [Remove] and the first close leave both as they are. *)
Definition sample_root : FSSynch :=
  default (mkFSSynch Header.blank 0) (fsSynchList opened_twice !! DIRECTORY_SECTOR).

Definition sample_root_table : list DirectoryEntry.t :=
  match Directory.FetchFrom (disk opened_twice) sample_root with
  | Ret dir => dir
  | _ => []
  end.

Definition sample_record (fs : FileSystem) : FileSynch :=
  default (Synch.fresh "" Header.blank) (fileSynchList fs !! 6).

(** The free map of [one_handle_left] after [Deallocate] of the file. *)
Definition sample_deallocated : list bool :=
  match Header.Deallocate (freeMapBits (disk one_handle_left))
          (HeaderIO.FetchFrom (disk one_handle_left) 6 Header.blank) with
  | Ret m => m
  | _ => []
  end.


(* ===================================================================== *)
(** ** Further definitions: what the statements below are about *)
(* ===================================================================== *)

(** *** Directories *)

Definition sample_dirSynch : FSSynch := mkFSSynch Header.blank DIRECTORY_SECTOR.

(** A table of three entries: the file [a] in sector 7, the directory [b]
    in sector 8, and a free slot. *)
Definition sample_table : list DirectoryEntry.t :=
  Directory.fill 1 "b" 8 true
    (Directory.fill 0 "a" 7 false (Directory.New 3)).

(** *** The reasons for which [Create] fails

    The comment at the head of [FileSystem::Create] lists them: the file
    is already in the directory, there is no free sector for the file
    header, there is no free entry for the file in the directory, there
    is no free space for the data blocks of the file.  For the file
    [name] of [initialSize] bytes, the table [dir] of the directory with
    the record [dirSynch], and the disk [d]: *)
Inductive ordinary_failure (name : string) (initialSize : Z)
    (dirSynch : FSSynch) (dir : list DirectoryEntry.t) (d : Disk) : Prop :=
| already_in_directory :
    Directory.Find dir name <> -1 ->
    ordinary_failure name initialSize dirSynch dir d
| no_header_sector :
    Bitmap.CountClear (freeMapBits d) = 0 ->
    ordinary_failure name initialSize dirSynch dir d
| no_directory_entry dir' fm' dirSynch' d' :
    Directory.Add dir name (fst (Bitmap.Find (freeMapBits d))) false
      (snd (Bitmap.Find (freeMapBits d))) dirSynch d
    = Ret (false, dir', fm', dirSynch', d') ->
    ordinary_failure name initialSize dirSynch dir d
| no_data_space dir' fm' dirSynch' d' :
    Directory.Add dir name (fst (Bitmap.Find (freeMapBits d))) false
      (snd (Bitmap.Find (freeMapBits d))) dirSynch d
    = Ret (true, dir', fm', dirSynch', d') ->
    fst (fst (Header.Allocate fm' initialSize Header.blank)) = false ->
    ordinary_failure name initialSize dirSynch dir d.

(** *** Headers on the disk *)

(** The entries of the first table up to the first -1: the rows that the
    loops of [FetchFrom], [WriteBack] and [Deallocate] go through. *)
Fixpoint active_rows (l : list Z) : list Z :=
  match l with
  | [] => []
  | s :: l' => if s =? -1 then [] else s :: active_rows l'
  end.

(** The sectors that [WriteBack] writes for the header [h] kept in
    [sector]. *)
Definition written_sectors (sector : Z) (h : FileHeader) : list Z :=
  sector ::
  (if indirSector (raw h) =? -1 then []
   else indirSector (raw h) :: active_rows (firstIndir h)).

(** The two tables have the sizes of the C++ arrays. *)
Definition well_sized (h : FileHeader) : Prop :=
  length (firstIndir h) = Z.to_nat NUM_INDIRECT
  /\ length (secondIndir h) = Z.to_nat NUM_INDIRECT.

(** Row [k] of the first table is reached by the loops that stop at the
    first -1. *)
Definition reached (l : list Z) (k : Z) : Prop :=
  forall k', 0 <= k' <= k -> (Header.cell l k' =? -1) = false.

(** The header of a file of 5000 bytes, which needs the indirection
    tables, allocated from [sample_map]. *)
Definition sample_header_5000 : FileHeader :=
  snd (Header.Allocate sample_map 5000 Header.blank).

(** *** Handles of a file *)

(** The two methods of a [FileSynch] that count handles, as the file
    system calls them from [Open] and from the close of a handle. *)
Inductive handle_call :=
| CallFileOpened
| CallFileClosed.

(** A sequence of such calls on one record: what each call returned, and
    the record after the last one. *)
Fixpoint handle_calls (cs : list handle_call) (s : FileSynch)
    : list bool * FileSynch :=
  match cs with
  | [] => ([], s)
  | c :: cs' =>
      let '(r, s1) :=
        match c with
        | CallFileOpened => Synch.FileOpened s
        | CallFileClosed => Synch.FileClosed s
        end in
      let '(rs, s2) := handle_calls cs' s1 in
      (r :: rs, s2)
  end.

(** How many of the calls are closes. *)
Fixpoint closes (cs : list handle_call) : Z :=
  match cs with
  | [] => 0
  | CallFileClosed :: cs' => 1 + closes cs'
  | CallFileOpened :: cs' => closes cs'
  end.

(** A record with three handles that is flagged for removal. *)
Definition sample_flagged : FileSynch :=
  Synch.SetToRemove (Synch.set_opened 3 (Synch.fresh "/f" Header.blank)).

(** *** Sample file systems *)

(** The formatted disk with the directory [/d] and the empty file
    [/d/x] in it. *)
Definition nested : FileSystem :=
  after_Create "/d/x" 0 false (after_Create "/d" 0 true formatted).

(** *** Paths *)

(** A path without the slash at its end, unless the slash is all there
    is: the first step of [SplitPath]. *)
Definition trim_trailing_slash (p : list ascii) : list ascii :=
  match reverse p with
  | c :: rest =>
      if bool_decide (c = FS.SLASH) && negb (bool_decide (rest = []))
      then reverse rest else p
  | [] => p
  end.

(** The directory part that [SplitPath] makes of what stands before the
    last slash. *)
Definition dir_part (prefix : list ascii) : string :=
  match prefix with
  | [] => String FS.SLASH EmptyString
  | _ => string_of_list_ascii prefix
  end.

(* ===================================================================== *)
(** ** userprog/address_space.cc *)
(* ===================================================================== *)

(** What an [AddressSpace] object keeps besides its page table, which is
    in [Coremap.pages] under the identity of the space.  Modelled from
    the spec: userprog/executable.cc is not part of the sources at hand;
    [codeBytes] and [initDataBytes] are the contents of the two segments
    of the executable file, which [ReadCodeBlock] and [ReadDataBlock]
    read. *)
Record AddressSpace := mkSpace {
  spaceId : nat;
  numPages : Z;                (* unsigned *)
  codeSize : Z;                (* uint32_t *)
  initDataSize : Z;
  codeAddr : Z;
  initDataAddr : Z;
  codeBytes : list Z;
  initDataBytes : list Z
}.

Module AddrSpace.

Import Coremap.

(** How a routine that may evict a page ends: with the entry that it
    returns, on an assertion, on a pointer that leads nowhere, or with
    the loop of the core map cut off. *)
Inductive loaded :=
| Loaded (entry : TranslationEntry) (k : Kernel)
| Halted
| Faulted
| CutOff.

Definition set_mainMemory (m : list (list Z)) (k : Kernel) : Kernel :=
  mkKernel (pages k) (swapFiles k) m (tlb k) (physPagesMap k)
           (addrSpaces k) (virtualPages k) (victim k).

Definition set_tlb (t : list TranslationEntry) (k : Kernel) : Kernel :=
  mkKernel (pages k) (swapFiles k) (mainMemory k) t (physPagesMap k)
           (addrSpaces k) (virtualPages k) (victim k).

Definition set_valid (b : bool) (e : TranslationEntry) : TranslationEntry :=
  mkEntry (virtualPage e) (physicalPage e) b (readOnly e) (use e)
          (dirty e) (swap e).

Definition set_physicalPage (f : Z) (e : TranslationEntry)
    : TranslationEntry :=
  mkEntry (virtualPage e) f (valid e) (readOnly e) (use e) (dirty e)
          (swap e).

(** Copying [bytes] to the offset [o] of the frame [f]. *)
Definition write_frame (f o : Z) (bytes : list Z) (mem : list (list Z))
    : list (list Z) :=
  alter (fun frame =>
           take (Z.to_nat o) frame ++ bytes
           ++ drop (Z.to_nat o + length bytes) frame)
        (Z.to_nat f) mem.

(** Modelled from the spec: [Executable::ReadCodeBlock(dest, size,
    offset)] and [ReadDataBlock] of userprog/executable.cc deliver [size]
    bytes of the segment from [offset] on. *)
Definition ReadBlock (segment : list Z) (size offset : Z) : list Z :=
  take (Z.to_nat size) (drop (Z.to_nat offset) segment).

(** [AddressSpace::SaveState], built with VMEM: the loop over the TLB. *)
Definition SaveState (space : AddressSpace) (k : Kernel) : result :=
  foldl (fun r t =>
           match r with
           | Done k =>
               if valid t && dirty t then
                 let vpn := virtualPage t in
                 match pages k !! (spaceId space, vpn) with
                 | Some e =>
                     Done (set_pages
                             (<[(spaceId space, vpn) := set_dirty true e]>
                                (pages k)) k)
                 | None => Fault
                 end
               else Done k
           | r => r
           end)
        (Done k) (tlb k).

(** [AddressSpace::RestoreState], built with USE_TLB. *)
Definition RestoreState (k : Kernel) : Kernel :=
  set_tlb (map (set_valid false) (tlb k)) k.

(** The loop of [AddressSpace::~AddressSpace]:
    [if (pageTable[i].physicalPage != -1)
       if (coremap->InMemory(this, pageTable[i]))
         freePagesMap->Clear(pageTable[i].physicalPage);] *)
Definition release_page (space : AddressSpace) (i : Z) (k : Kernel) : Kernel :=
  match pages k !! (spaceId space, i) with
  | Some e =>
      if negb (physicalPage e =? -1) && InMemory k (spaceId space) e then
        set_physPagesMap (Bitmap.Clear (physicalPage e) (physPagesMap k)) k
      else k
  | None => k
  end.

(** [AddressSpace::~AddressSpace] as far as the frames go. *)
Definition Destroy (space : AddressSpace) (k : Kernel) : Kernel :=
  for_range 0 (numPages space) (release_page space) k.

Section WithPages.

(** Build-time constants of machine/mmu.hh, which is not part of the
    sources at hand. *)
Variable NUM_PHYS_PAGES : Z.
Variable PAGE_SIZE : Z.

(** The branch of [LoadPage] that fills the frame [physPage] from the
    executable. *)
Definition load_from_executable (space : AddressSpace) (vpn physPage : Z)
    (mem : list (list Z)) : list (list Z) :=
  if u32 (vpn * PAGE_SIZE) >? u32 (codeSize space + initDataSize space) then
    <[Z.to_nat physPage := replicate (Z.to_nat PAGE_SIZE) 0]> mem
  else
    let virtualPageStart := u32 (vpn * PAGE_SIZE) in
    let virtualPageEnd := u32 (virtualPageStart + PAGE_SIZE) in
    let offset := Z.max virtualPageStart (codeAddr space) in
    let end_ := Z.min virtualPageEnd (u32 (codeSize space + codeAddr space)) in
    let mem :=
      if offset <? end_ then
        write_frame physPage (u32 (offset - virtualPageStart))
          (ReadBlock (codeBytes space) (u32 (end_ - offset))
                     (u32 (offset - codeAddr space))) mem
      else mem in
    let offset := Z.max virtualPageStart (initDataAddr space) in
    let end_ := Z.min virtualPageEnd
                      (u32 (initDataSize space + initDataAddr space)) in
    if offset <? end_ then
      write_frame physPage (u32 (offset - virtualPageStart))
        (ReadBlock (initDataBytes space) (u32 (end_ - offset))
                   (u32 (offset - initDataAddr space))) mem
    else mem.

(** [AddressSpace::LoadPage], built with USE_TLB and VMEM.  Modelled
    from the spec: filesys/open_file.cc is not part of the sources at
    hand; [swapFile->ReadAt] delivers what [SaveToSwap] wrote for the
    page. *)
Definition LoadPage (fuel : nat) (space : AddressSpace) (vpn : Z) (k : Kernel)
    : loaded :=
  let sp := spaceId space in
  match pages k !! (sp, vpn) with
  | None => Faulted
  | Some e =>
      let e := set_use true (set_valid true e) in
      let k := set_pages (<[(sp, vpn) := e]> (pages k)) k in
      if negb (InMemory k sp e) then
        let freed :=
          if Bitmap.CountClear (physPagesMap k) =? 0
          then FreePage NUM_PHYS_PAGES fuel k else Done k in
        match freed with
        | Done k =>
            match pages k !! (sp, vpn) with
            | None => Faulted
            | Some e =>
                let fromExecutable :=
                  (physicalPage e =? -1) || negb (swap e) in
                match Coremap.Find sp vpn k with
                | Ret (physPage, k) =>
                    let e := set_physicalPage physPage e in
                    let k := set_pages (<[(sp, vpn) := e]> (pages k)) k in
                    let mem :=
                      if fromExecutable then
                        load_from_executable space vpn physPage
                          (mainMemory k)
                      else
                        <[Z.to_nat physPage :=
                            default [] (swapFiles k !! (sp, vpn))]>
                          (mainMemory k) in
                    Loaded e (set_mainMemory mem k)
                | Halt => Halted
                | Undefined => Faulted
                end
            end
        | Fault => Faulted
        | Unfinished => CutOff
        end
      else Loaded e k
  end.

End WithPages.

End AddrSpace.

(** The lists of the core map, the frame bitmap and the memory have one
    cell per frame. *)
Definition one_cell_per_frame (k : Coremap.Kernel) : Prop :=
  length (Coremap.addrSpaces k) = length (Coremap.physPagesMap k)
  /\ length (Coremap.virtualPages k) = length (Coremap.physPagesMap k)
  /\ length (Coremap.mainMemory k) = length (Coremap.physPagesMap k).

(** What the destructor of an address space may do to the kernel: clear
    bits of the frame bitmap, each of a frame that the core map gives to
    a page of the space, and nothing else. *)
Definition frees_own_frames (sp : nat) (k k' : Coremap.Kernel) : Prop :=
  Coremap.pages k' = Coremap.pages k
  /\ Coremap.addrSpaces k' = Coremap.addrSpaces k
  /\ Coremap.virtualPages k' = Coremap.virtualPages k
  /\ Coremap.mainMemory k' = Coremap.mainMemory k
  /\ Coremap.swapFiles k' = Coremap.swapFiles k
  /\ only_clears (Coremap.physPagesMap k) (Coremap.physPagesMap k')
  /\ forall f,
       Bitmap.Test (Coremap.physPagesMap k) f = true ->
       Bitmap.Test (Coremap.physPagesMap k') f = false ->
       exists vpn, Coremap.owner k f = Some (sp, vpn).

(** *** Sample address space *)

(** The address space 7 of [sample_kernel], on a machine with pages of
    two bytes: two bytes of code at address 0, one byte of initialised
    data at address 2, three pages in all. *)
Definition sample_space : AddressSpace :=
  mkSpace 7 3 2 1 0 2 [100; 101] [200].

(** [sample_kernel] after [FreePage]. *)
Definition sample_evicted : Coremap.Kernel :=
  match Coremap.FreePage 2 4 sample_kernel with
  | Coremap.Done k => k
  | _ => sample_kernel
  end.

(** The kernel and the entry that [LoadPage] of a page of [sample_space]
    gives. *)
Definition after_LoadPage (vpn : Z) (k : Coremap.Kernel) : Coremap.Kernel :=
  match AddrSpace.LoadPage 2 2 4 sample_space vpn k with
  | AddrSpace.Loaded _ k' => k'
  | _ => k
  end.

Definition entry_LoadPage (vpn : Z) (k : Coremap.Kernel) : TranslationEntry :=
  match AddrSpace.LoadPage 2 2 4 sample_space vpn k with
  | AddrSpace.Loaded e _ => e
  | _ => mkEntry 0 0 false false false false false
  end.

(** [sample_kernel] with the page in frame 1 clean in the page table,
    while the TLB entry for the frame is valid and dirty. *)
Definition sample_kernel_tlb_dirty : Coremap.Kernel :=
  Coremap.set_pages
    (<[(7%nat, 2) := mkEntry 2 1 true false true false false]>
       (Coremap.pages sample_kernel))
    sample_kernel.

Definition sample_tlb_dirty_evicted : Coremap.Kernel :=
  match Coremap.FreePage 2 4 sample_kernel_tlb_dirty with
  | Coremap.Done k => k
  | _ => sample_kernel_tlb_dirty
  end.

(** [sample_kernel] after [SaveToSwap] of page 2 of the space 7. *)
Definition sample_swapped : Coremap.Kernel :=
  match Coremap.SaveToSwap 7 2 sample_kernel with
  | Coremap.Done k => k
  | _ => sample_kernel
  end.

(* ===================================================================== *)
(** ** userprog/exception.cc: the page fault handler *)
(* ===================================================================== *)

Module Exception.

Import Coremap AddrSpace.

(** How [PageFaultHandler] ends: with the kernel and the value of its
    static counter [TLB_ENTRY] after the call, or the way [LoadPage]
    ends when it gives no entry. *)
Inductive handled :=
| Handled (k : Kernel) (TLB_ENTRY : Z)
| HandlerHalted
| HandlerFaulted
| HandlerCutOff.

Section WithMachine.

(** Build-time constants of machine/mmu.hh, which is not part of the
    sources at hand. *)
Variable NUM_PHYS_PAGES : Z.
Variable PAGE_SIZE : Z.
Variable TLB_SIZE : Z.

(** [PageFaultHandler], built with USE_TLB and VMEM, for the address
    space [space] of the running thread, the address [vaddr] that
    BAD_VADDR_REG holds and the value [TLB_ENTRY] of the static counter
    of the function. *)
Definition PageFaultHandler (fuel : nat) (space : AddressSpace) (vaddr : Z)
    (TLB_ENTRY : Z) (k : Kernel) : handled :=
  let vpn := vaddr / PAGE_SIZE in
  match tlb k !! Z.to_nat TLB_ENTRY with
  | None => HandlerFaulted
  | Some t =>
      let updated :=
        if valid t && dirty t then UpdateEntry (physicalPage t) k
        else Done k in
      match updated with
      | Done k =>
          match LoadPage NUM_PHYS_PAGES PAGE_SIZE fuel space vpn k with
          | Loaded e k =>
              Handled (set_tlb (<[Z.to_nat TLB_ENTRY := e]> (tlb k)) k)
                      (u32 (TLB_ENTRY + 1) mod TLB_SIZE)
          | Halted => HandlerHalted
          | Faulted => HandlerFaulted
          | CutOff => HandlerCutOff
          end
      | Fault => HandlerFaulted
      | Unfinished => HandlerCutOff
      end
  end.

End WithMachine.

(** The case [SC_CD] of [SyscallHandler] once the path is read from the
    memory of the user: the directory that [FindDirectory] returns
    becomes the current directory of the thread and register 2 is set to
    0; when the path leads to no directory, register 2 is set to -1. *)
Definition SC_CD (dirPath : string) (fs : FileSystem)
    : outcome (Z * FileSystem) :=
  '(newDir, fs) ← FS.FindDirectory dirPath fs;
  match newDir with
  | Some dsec =>
      Ret (0, mkFS (disk fs) (fsSynchList fs) (fileSynchList fs) dsec)
  | None => Ret (-1, fs)
  end.

End Exception.

(** *** Closing the handles of a file one after the other *)

(** [n] closes of handles of the file with its header in [sector]. *)
Fixpoint Close_times (n : nat) (sector : Z) (fs : FileSystem)
    : outcome FileSystem :=
  match n with
  | O => Ret fs
  | S n' => fs ← FS.Close sector fs; Close_times n' sector fs
  end.

(** *** A file that is removed under a relative path

    The directory [/d] with the file [/d/x], and the file [/x]; the
    headers are in the sectors 6, 10 and 14, and each file takes the three
    sectors after its header. *)
Definition after_SC_CD (dirPath : string) (fs : FileSystem) : FileSystem :=
  match Exception.SC_CD dirPath fs with
  | Ret (_, fs') => fs'
  | _ => fs
  end.

Definition two_files_x : FileSystem :=
  after_Create "/x" 300 false
    (after_Create "/d/x" 300 false (after_Create "/d" 0 true formatted)).

(** A thread changes to [/d] and opens [x] there, which is [/d/x]. *)
Definition opened_in_d : FileSystem :=
  after_Open "x" (after_SC_CD "/d" two_files_x).

(** It removes [x], and changes back to the root directory. *)
Definition flagged_in_d : FileSystem := after_Remove "x" opened_in_d.
Definition back_in_root : FileSystem := after_SC_CD "/" flagged_in_d.

(** There it closes its handle, the only one of the file. *)
Definition closed_in_root : FileSystem := after_Close 10 back_in_root.

(** The table of the directory with its header in [sector], as
    [Directory::FetchFrom] reads it through a fresh [OpenFile]. *)
Definition table_of (sector : Z) (fs : FileSystem) : list DirectoryEntry.t :=
  match Directory.FetchFrom (disk fs) (FS.OpenFile (disk fs) sector) with
  | Ret dir => dir
  | _ => []
  end.

(** A page [o] whose entry [eo] was dirty in the kernel [k] is kept in
    [k']: its entry is still dirty, or the page is marked as swapped and
    the swap file holds what its frame held in [k]. *)
Definition kept (k k' : Coremap.Kernel) (o : nat * Z) (eo : TranslationEntry)
    : Prop :=
  exists eo',
    Coremap.pages k' !! o = Some eo'
    /\ (dirty eo' = true
        \/ (swap eo' = true
            /\ Coremap.swapFiles k' !! o
               = Some (default []
                         (Coremap.mainMemory k
                            !! Z.to_nat (physicalPage eo))))).

(** [sample_kernel_tlb_dirty] after a page fault at the address 2, in
    page 1 of [sample_space], on a machine with two frames, pages of two
    bytes and a TLB of one entry. *)
Definition sample_after_fault : Coremap.Kernel :=
  match Exception.PageFaultHandler 2 2 1 4 sample_space 2 0
          sample_kernel_tlb_dirty with
  | Exception.Handled k _ => k
  | _ => sample_kernel_tlb_dirty
  end.

(** [sample_kernel] with a TLB of two entries that name frame 1: one
    that an earlier eviction made invalid, and the valid one of the page
    that holds the frame. *)
Definition sample_kernel_two_tlb : Coremap.Kernel :=
  AddrSpace.set_tlb
    [mkEntry 1 1 false false false false false;
     mkEntry 2 1 true false true true false]
    sample_kernel.

Definition sample_two_tlb_evicted : Coremap.Kernel :=
  match Coremap.FreePage 2 4 sample_kernel_two_tlb with
  | Coremap.Done k => k
  | _ => sample_kernel_two_tlb
  end.


(* ===================================================================== *)
(** ** The sectors of a file *)
(* ===================================================================== *)

(** The arrays of the header have the sizes of the C++ arrays. *)
Definition array_sized (h : FileHeader) : Prop :=
  length (dataSectors (raw h)) = Z.to_nat NUM_DIRECT
  /\ length (firstIndir h) = Z.to_nat NUM_INDIRECT
  /\ length (secondIndir h) = Z.to_nat NUM_INDIRECT
  /\ Forall (fun row => length row = Z.to_nat NUM_INDIRECT) (secondIndir h).

(** The cells [f i], [f (i + 1)], ... up to the first -1, at most [n] of
    them: what a loop with the condition [f i != -1] goes through. *)
Fixpoint run (n : nat) (i : Z) (f : Z -> Z) : list Z :=
  match n with
  | O => []
  | S n' => if f i =? -1 then [] else f i :: run n' (i + 1) f
  end.

(** The sectors that the loops of [Deallocate] visit, in their order:
    the direct sectors, ... *)
Fixpoint direct_from (n : nat) (i : Z) (h : FileHeader) : list Z :=
  match n with
  | O => []
  | S n' => Header.cell (dataSectors (raw h)) i :: direct_from n' (i + 1) h
  end.

(** ... the data sectors of the row [i] of the second table, ... *)
Definition row_sectors (h : FileHeader) (i : Z) : list Z :=
  map u32 (run (Z.to_nat NUM_INDIRECT) 0 (Header.cell2 (secondIndir h) i)).

(** ... the sectors of the first table with their rows, ... *)
Fixpoint tables_from (n : nat) (i : Z) (h : FileHeader) : list Z :=
  match n with
  | O => []
  | S n' =>
      if Header.cell (firstIndir h) i =? -1 then []
      else u32 (Header.cell (firstIndir h) i)
           :: row_sectors h i ++ tables_from n' (i + 1) h
  end.

(** ... and all of them, with the single-indirect sector. *)
Definition sectors_of (h : FileHeader) : list Z :=
  direct_from (Z.to_nat (Z.min (numSectors (raw h)) NUM_DIRECT)) 0 h
  ++ (if indirSector (raw h) =? -1 then []
      else u32 (indirSector (raw h))
           :: tables_from (Z.to_nat NUM_INDIRECT) 0 h).

(** [ASSERT(freeMap->Test(s)); freeMap->Clear(s);] for each sector of a
    list. *)
Fixpoint release_all (l : list Z) (m : list bool) : outcome (list bool) :=
  match l with
  | [] => Ret m
  | s :: l' => m' ← Header.release s m; release_all l' m'
  end.

(** The free map [m'] is [m] with the sectors [cs] marked one after the
    other, each of them a clear bit of the map when it is marked. *)
Fixpoint claimed (m : list bool) (cs : list Z) (m' : list bool) : Prop :=
  match cs with
  | [] => m' = m
  | s :: cs' =>
      0 <= s /\ m !! Z.to_nat s = Some false
      /\ claimed (Bitmap.Mark s m) cs' m'
  end.

(** The place of the data sector number [k] of a file among the sectors
    of its header: after the direct sectors come the single-indirect
    sector and then, for each row of the second table, the sector of the
    row and its [NUM_INDIRECT] data sectors. *)
Definition sector_position (k : Z) : nat :=
  if k <? NUM_DIRECT then Z.to_nat k
  else
    Z.to_nat (NUM_DIRECT + 1
              + (NUM_INDIRECT + 1) * ((k - NUM_DIRECT) / NUM_INDIRECT) + 1
              + (k - NUM_DIRECT) mod NUM_INDIRECT).
(* ===================================================================== *)
(** * Properties *)
(* ===================================================================== *)

#[global] Arguments u32 : simpl never.
#[global] Arguments to_int : simpl never.
#[global] Arguments UINT_MODULUS : simpl never.
#[global] Arguments SECTOR_SIZE : simpl never.
#[global] Arguments NUM_DIRECT : simpl never.
#[global] Arguments NUM_INDIRECT : simpl never.
#[global] Arguments MAX_DIRECT_SIZE : simpl never.
#[global] Arguments DivRoundUp : simpl never.
#[global] Arguments for_range : simpl never.

(** ** Machine integers *)

Lemma u32_small x : 0 <= x < UINT_MODULUS -> u32 x = x.
Proof. intros H. unfold u32. now apply Z.mod_small. Qed.

Lemma u32_range x : 0 <= u32 x < UINT_MODULUS.
Proof. unfold u32, UINT_MODULUS. apply Z.mod_pos_bound. lia. Qed.

(** An [int] that went into an [unsigned] comes back as it was. *)
Lemma to_int_u32 x : - 2 ^ 31 <= x < 2 ^ 31 -> to_int (u32 x) = x.
Proof.
  intros H. unfold to_int, u32, UINT_MODULUS. rewrite Z.mod_mod by lia.
  destruct (Z.ltb_spec (x mod 2 ^ 32) (2 ^ 31));
    Z.div_mod_to_equations; lia.
Qed.

Lemma to_int_small x : 0 <= x < 2 ^ 31 -> to_int x = x.
Proof.
  intros H. unfold to_int. rewrite u32_small by (unfold UINT_MODULUS; lia).
  destruct (Z.ltb_spec x (2 ^ 31)); lia.
Qed.

Lemma to_int_range x : - 2 ^ 31 <= to_int x < 2 ^ 31.
Proof.
  unfold to_int. pose proof (u32_range x) as H. unfold UINT_MODULUS in *.
  destruct (Z.ltb_spec (u32 x) (2 ^ 31)); lia.
Qed.



(** ** Loops *)

Lemma for_while_preorder {S : Type} (R : relation S)
    `{!Reflexive R} `{!Transitive R} (cond : Z -> S -> bool)
    (body : Z -> S -> S) :
  (forall i s, R s (body i s)) ->
  forall n i s, R s (for_while n i cond body s).
Proof.
  intros Hbody. induction n as [|n IH]; intros i s; simpl; [reflexivity|].
  destruct (cond i s); [|reflexivity].
  etransitivity; [apply Hbody|apply IH].
Qed.

(** A loop invariant that may depend on the index: it holds at the index
    where the loop stops, which is the bound or one at which the condition
    fails. *)
Lemma for_while_invariant {S : Type} (P : Z -> S -> Prop)
    (cond : Z -> S -> bool) (body : Z -> S -> S) :
  forall n i0 s,
    (forall i s, i0 <= i < i0 + Z.of_nat n -> P i s -> cond i s = true ->
                 P (i + 1) (body i s)) ->
    P i0 s ->
    exists k, i0 <= k <= i0 + Z.of_nat n
      /\ P k (for_while n i0 cond body s)
      /\ (k < i0 + Z.of_nat n ->
          cond k (for_while n i0 cond body s) = false).
Proof.
  induction n as [|n IH]; intros i0 s Hstep H0.
  { exists i0. cbn [for_while]. split; [lia|]. split; [exact H0|lia]. }
  cbn [for_while]. destruct (cond i0 s) eqn:Hc.
  - destruct (IH (i0 + 1) (body i0 s)) as (k & Hk & HP & Hend).
    + intros i t Hi. apply Hstep. lia.
    + apply Hstep; [lia|exact H0|exact Hc].
    + exists k. split; [lia|]. split; [exact HP|].
      intros Hlt. apply Hend. lia.
  - exists i0. split; [lia|]. split; [exact H0|]. intros _. exact Hc.
Qed.

Lemma for_range_empty {S : Type} lo hi (body : Z -> S -> S) s :
  hi <= lo -> for_range lo hi body s = s.
Proof.
  intros H. unfold for_range.
  now replace (Z.to_nat (hi - lo)) with 0%nat by lia.
Qed.

(** ** Bitmap *)

Section BitmapFacts.
Import Bitmap.

Lemma CountClear_nonneg m : 0 <= CountClear m.
Proof. induction m as [|[] m IH]; simpl; lia. Qed.

Lemma first_clear_Some m i s :
  first_clear m i = Some s ->
  i <= s /\ m !! Z.to_nat (s - i) = Some false.
Proof.
  revert i. induction m as [|b m IH]; intros i; simpl; [discriminate|].
  destruct b.
  - intros H. apply IH in H as [Hle Hl]. split; [lia|].
    replace (Z.to_nat (s - i)) with (S (Z.to_nat (s - (i + 1)))) by lia.
    exact Hl.
  - intros [= <-]. split; [lia|]. now rewrite Z.sub_diag.
Qed.

Lemma first_clear_None m i : first_clear m i = None -> CountClear m = 0.
Proof.
  revert i. induction m as [|b m IH]; intros i; simpl; [reflexivity|].
  destruct b; [|discriminate]. intros H. now rewrite (IH _ H).
Qed.

Lemma CountClear_insert_true m n :
  m !! n = Some false -> CountClear (<[n := true]> m) = CountClear m - 1.
Proof.
  revert n. induction m as [|b m IH]; intros [|n]; simpl; try discriminate.
  - intros [= ->]. lia.
  - intros H. rewrite (IH _ H). lia.
Qed.

Lemma Test_true_lookup m x :
  Test m x = true <-> 0 <= x /\ m !! Z.to_nat x = Some true.
Proof.
  unfold Test. destruct (Z.ltb_spec x 0) as [Hneg|Hpos].
  - split; [discriminate|lia].
  - destruct (m !! Z.to_nat x) as [[]|]; simpl; split;
      try discriminate; try tauto; intros [_ [=]].
Qed.

Lemma Test_Mark_mono m s x : Test m x = true -> Test (Mark s m) x = true.
Proof.
  rewrite !Test_true_lookup. intros [Hx Hl]. split; [exact Hx|].
  unfold Mark. destruct (s <? 0); [exact Hl|].
  destruct (decide (Z.to_nat s = Z.to_nat x)) as [->|Hne].
  - rewrite list_lookup_insert_eq; [reflexivity|].
    now apply lookup_lt_Some in Hl.
  - now rewrite list_lookup_insert_ne.
Qed.

(** What one successful [Find] does. *)
Lemma Find_Some m :
  0 < CountClear m ->
  exists s, Find m = (s, Mark s m) /\ 0 <= s /\ Test m s = false
            /\ Test (Mark s m) s = true
            /\ CountClear (Mark s m) = CountClear m - 1.
Proof.
  intros Hpos. unfold Find.
  destruct (first_clear m 0) as [s|] eqn:Hfc.
  - apply first_clear_Some in Hfc as [Hle Hl]. rewrite Z.sub_0_r in Hl.
    exists s. split; [reflexivity|]. split; [exact Hle|].
    unfold Test, Mark. destruct (Z.ltb_spec s 0) as [?|_]; [lia|].
    rewrite Hl. simpl. split; [reflexivity|]. split.
    + rewrite list_lookup_insert_eq; [reflexivity|].
      now apply lookup_lt_Some in Hl.
    + now apply CountClear_insert_true.
  - apply first_clear_None in Hfc. lia.
Qed.

Lemma Find_mono m x :
  Test m x = true -> Test (snd (Find m)) x = true.
Proof.
  unfold Find. destruct (first_clear m 0); simpl; [|tauto].
  apply Test_Mark_mono.
Qed.

Lemma Find_count m :
  CountClear m - 1 <= CountClear (snd (Find m)) <= CountClear m.
Proof.
  unfold Find. destruct (first_clear m 0) as [s|] eqn:Hfc; simpl; [|lia].
  apply first_clear_Some in Hfc as [Hle Hl]. rewrite Z.sub_0_r in Hl.
  unfold Mark. destruct (Z.ltb_spec s 0) as [?|_]; [lia|].
  rewrite (CountClear_insert_true _ _ Hl). lia.
Qed.

(** [Find] fails exactly on a map without a clear bit. *)
Lemma Find_fails m : fst (Find m) = -1 <-> CountClear m = 0.
Proof.
  split.
  - intros H. pose proof (CountClear_nonneg m) as Hnn.
    destruct (Z.eq_dec (CountClear m) 0) as [|Hne]; [assumption|].
    destruct (Find_Some m ltac:(lia)) as (s & E & Hs & _).
    rewrite E in H. cbn [fst] in H. lia.
  - intros H. unfold Find.
    destruct (first_clear m 0) as [s|] eqn:Hfc; [|reflexivity].
    apply first_clear_Some in Hfc as [_ Hl].
    pose proof (CountClear_insert_true _ _ Hl) as Hc.
    pose proof (CountClear_nonneg (<[Z.to_nat (s - 0) := true]> m)). lia.
Qed.

End BitmapFacts.

(** ** FileHeader::Expand *)

Section ExpandFacts.
Import Bitmap Header.

Lemma NUM_DIRECT_eq : NUM_DIRECT = 29.
Proof. reflexivity. Qed.

Lemma NUM_INDIRECT_eq : NUM_INDIRECT = 32.
Proof. reflexivity. Qed.

Lemma MAX_DIRECT_SIZE_eq : MAX_DIRECT_SIZE = 3712.
Proof. reflexivity. Qed.

Ltac consts :=
  rewrite ?NUM_DIRECT_eq, ?NUM_INDIRECT_eq, ?MAX_DIRECT_SIZE_eq in *;
  unfold DivRoundUp, SECTOR_SIZE, u32, UINT_MODULUS in *.

Ltac arith := consts; Z.div_mod_to_equations; lia.

Lemma onLastSector_eq h :
  0 <= numBytes (raw h) ->
  onLastSector h = DivRoundUp (numBytes (raw h)) SECTOR_SIZE * SECTOR_SIZE
                   - numBytes (raw h).
Proof. intros H. unfold onLastSector. arith. Qed.

Lemma Expand_newSectors_within h newBytes :
  newBytes <= onLastSector h -> Expand_newSectors h newBytes = 0.
Proof.
  intros H. unfold Expand_newSectors.
  destruct (Z.gtb_spec newBytes (onLastSector h)); [lia|reflexivity].
Qed.

Lemma Expand_indirSectors_within h newBytes :
  header_laws h -> 0 < newBytes <= onLastSector h ->
  Expand_indirSectors h newBytes = 0.
Proof.
  intros (Hb & Hs & Hi) Hn. unfold Expand_indirSectors.
  rewrite Expand_newSectors_within by lia.
  destruct (Z.eqb_spec (indirSector (raw h)) (-1)) as [Heq|Hne]; simpl.
  - apply Hi in Heq. rewrite onLastSector_eq in Hn by lia.
    destruct (Z.gtb_spec (u32 (numBytes (raw h) + newBytes)) MAX_DIRECT_SIZE)
      as [Hgt|]; [|reflexivity].
    exfalso. rewrite Hs in Heq. revert Hgt Heq Hn. arith.
  - destruct (Z.gtb_spec 0
                (u32 (numSectors (raw h) - NUM_DIRECT) mod NUM_INDIRECT))
      as [Hgt|]; [|reflexivity].
    exfalso. revert Hgt. arith.
Qed.


Lemma Expand_newSectors_sum h newBytes :
  header_laws h -> 0 <= newBytes ->
  numBytes (raw h) + newBytes < UINT_MODULUS ->
  numSectors (raw h) + Expand_newSectors h newBytes
  = DivRoundUp (numBytes (raw h) + newBytes) SECTOR_SIZE.
Proof.
  intros (Hb & Hs & _) Hn Hlt. rewrite Hs. unfold Expand_newSectors.
  rewrite onLastSector_eq by lia.
  destruct (Z.gtb_spec newBytes
              (DivRoundUp (numBytes (raw h)) SECTOR_SIZE * SECTOR_SIZE
               - numBytes (raw h))) as [Hgt|Hle].
  - revert Hgt. arith.
  - revert Hle. arith.
Qed.

Lemma Expand_newSectors_nonneg h newBytes :
  0 <= Expand_newSectors h newBytes.
Proof.
  unfold Expand_newSectors.
  destruct (newBytes >? onLastSector h); arith.
Qed.

(** Setting a field to the value it has leaves the header as it is. *)
Lemma set_numSectors_same h : set_numSectors (numSectors (raw h)) h = h.
Proof. now destruct h as [[] ? ?]. Qed.

#[local] Instance claims_only_refl : Reflexive claims_only.
Proof. intros a. unfold claims_only. repeat split; auto; lia. Qed.

#[local] Instance claims_only_trans : Transitive claims_only.
Proof.
  intros a b c (H1 & H2 & H3 & H4 & H5) (G1 & G2 & G3 & G4 & G5).
  unfold claims_only. repeat split; auto; try lia; congruence.
Qed.

#[local] Instance direct_only_refl : Reflexive direct_only.
Proof. intros a. unfold direct_only. tauto. Qed.

#[local] Instance direct_only_trans : Transitive direct_only.
Proof.
  intros a b c (H1 & H2 & H3 & H4 & H5) (G1 & G2 & G3 & G4 & G5).
  unfold direct_only. repeat split; congruence.
Qed.

Lemma expand_direct_claims i a : claims_only a (expand_direct i a).
Proof.
  unfold expand_direct, claims_only.
  pose proof (Find_mono (a_map a)) as Hm.
  pose proof (Find_count (a_map a)) as Hc.
  destruct (Find (a_map a)) as [s m]. cbn in *.
  repeat split; auto; lia.
Qed.

Lemma expand_direct_direct i a : direct_only a (expand_direct i a).
Proof.
  unfold expand_direct, direct_only.
  destruct (Find (a_map a)) as [s m]. simpl. tauto.
Qed.

Lemma expand_second_claims i j a : claims_only a (expand_second i j a).
Proof.
  unfold expand_second.
  destruct (cell2 (secondIndir (a_hdr a)) i j =? -1); [|reflexivity].
  unfold claims_only.
  pose proof (Find_mono (a_map a)) as Hm.
  pose proof (Find_count (a_map a)) as Hc.
  destruct (Find (a_map a)) as [s m]. cbn in *.
  repeat split; auto; lia.
Qed.

Lemma expand_first_claims i a : claims_only a (expand_first i a).
Proof.
  unfold expand_first.
  set (a1 := if cell (firstIndir (a_hdr a)) i =? -1 then _ else a).
  assert (H1 : claims_only a a1).
  { subst a1. destruct (cell (firstIndir (a_hdr a)) i =? -1); [|reflexivity].
    unfold claims_only.
    pose proof (Find_mono (a_map a)) as Hm.
    pose proof (Find_count (a_map a)) as Hc.
    destruct (Find (a_map a)) as [s m]. cbn in *.
    repeat split; auto; lia. }
  transitivity a1; [exact H1|].
  apply (for_while_preorder claims_only). intros j b.
  apply expand_second_claims.
Qed.

(** The loop over the direct table claims one sector per iteration. *)
Lemma expand_direct_loop_count n i a :
  Z.of_nat n <= CountClear (a_map a) ->
  CountClear (a_map (for_while n i (fun _ _ => true) expand_direct a))
  = CountClear (a_map a) - Z.of_nat n.
Proof.
  revert i a. induction n as [|n IH]; intros i a Hn; simpl; [lia|].
  rewrite IH.
  - unfold expand_direct.
    destruct (Find_Some (a_map a)) as (s & -> & _ & _ & _ & Hc); [lia|].
    simpl. lia.
  - unfold expand_direct.
    destruct (Find_Some (a_map a)) as (s & -> & _ & _ & _ & Hc); [lia|].
    simpl. lia.
Qed.



Lemma Expand_direct_claims old a : claims_only a (Expand_direct old a).
Proof.
  unfold Expand_direct. destruct (old <? NUM_DIRECT); [|reflexivity].
  apply (for_while_preorder claims_only). intros i b.
  apply expand_direct_claims.
Qed.

Lemma Expand_direct_direct old a : direct_only a (Expand_direct old a).
Proof.
  unfold Expand_direct. destruct (old <? NUM_DIRECT); [|reflexivity].
  apply (for_while_preorder direct_only). intros i b.
  apply expand_direct_direct.
Qed.

(** The direct stage claims the sectors between the old count and the
    new count, as far as the direct table reaches. *)
Lemma Expand_direct_count old a :
  old <= numSectors (raw (a_hdr a)) ->
  Z.min (numSectors (raw (a_hdr a))) NUM_DIRECT - Z.min old NUM_DIRECT
    <= CountClear (a_map a) ->
  CountClear (a_map (Expand_direct old a))
  = CountClear (a_map a)
    - (Z.min (numSectors (raw (a_hdr a))) NUM_DIRECT - Z.min old NUM_DIRECT).
Proof.
  intros Hold Hfree. unfold Expand_direct.
  destruct (Z.ltb_spec old NUM_DIRECT) as [Hlt|Hge].
  - unfold for_range. rewrite expand_direct_loop_count; lia.
  - lia.
Qed.

Lemma Expand_tables_claims a : claims_only a (Expand_tables a).
Proof.
  unfold Expand_tables. destruct (a_indir a >? 0); [|reflexivity].
  apply (for_while_preorder claims_only). intros i b.
  apply expand_first_claims.
Qed.

(** The claiming part of [Expand] when nothing is to be claimed. *)
Lemma Expand_claim_nothing fm h newBytes :
  header_laws h ->
  Expand_claim fm h newBytes 0 0
  = mkAlloc fm (set_numBytes (u32 (numBytes (raw h) + newBytes)) h) 0 0.
Proof.
  intros (Hb & Hs & Hi). unfold Expand_claim.
  assert (Hns : 0 <= numSectors (raw h) < UINT_MODULUS).
  { rewrite Hs. revert Hb. clear. arith. }
  cbn [numSectors numBytes raw set_numBytes set_numSectors].
  rewrite Z.add_0_r, (u32_small _ Hns).
  replace (set_numSectors (numSectors (raw h))
             (set_numBytes (u32 (numBytes (raw h) + newBytes)) h))
    with (set_numBytes (u32 (numBytes (raw h) + newBytes)) h)
    by (now destruct h as [[] ? ?]).
  set (h1 := set_numBytes _ h).
  assert (E : Expand_direct (numSectors (raw h)) (mkAlloc fm h1 0 0)
              = mkAlloc fm h1 0 0).
  { unfold Expand_direct.
    destruct (numSectors (raw h) <? NUM_DIRECT); [|reflexivity].
    apply for_range_empty. subst h1. cbn. lia. }
  rewrite E. cbn [a_hdr]. subst h1. cbn [numSectors raw set_numBytes].
  destruct (Z.gtb_spec (numSectors (raw h)) NUM_DIRECT) as [Hgt|Hle];
    [|reflexivity].
  unfold Expand_indirSector, Expand_tables.
  cbn [a_hdr indirSector raw set_numBytes].
  destruct (Z.eqb_spec (indirSector (raw h)) (-1)) as [Heq|Hne].
  - apply Hi in Heq. lia.
  - reflexivity.
Qed.

(** (i) A growth that fits in the free space of the last sector: no
    sector is claimed, and only the length of the file changes. *)
Lemma Expand_within_last_sector fm h newBytes :
  header_laws h -> 0 < newBytes <= onLastSector h ->
  Expand fm newBytes h
  = Ret (true, fm, set_numBytes (u32 (numBytes (raw h) + newBytes)) h).
Proof.
  intros Hw Hn. unfold Expand.
  destruct (Z.eqb_spec newBytes 0); [lia|]. cbn [negb ASSERT mbind outcome_bind].
  rewrite Expand_newSectors_within by lia.
  rewrite Expand_indirSectors_within by assumption.
  change (u32 (0 + 0)) with 0.
  pose proof (CountClear_nonneg fm).
  destruct (Z.ltb_spec (CountClear fm) 0); [lia|].
  now rewrite Expand_claim_nothing.
Qed.


(** (ii) A growth that ends exactly at the direct limit: the sectors that
    are claimed are the missing direct ones, and the indirection levels
    are as before, with no single-indirect sector. *)
Lemma Expand_to_direct_limit fm h newBytes :
  header_laws h -> 0 < newBytes ->
  numBytes (raw h) + newBytes = MAX_DIRECT_SIZE ->
  (CountClear fm < NUM_DIRECT - numSectors (raw h) ->
   Expand fm newBytes h = Ret (false, fm, h))
  /\ (NUM_DIRECT - numSectors (raw h) <= CountClear fm ->
      exists fm' h',
        Expand fm newBytes h = Ret (true, fm', h')
        /\ CountClear fm' = CountClear fm - (NUM_DIRECT - numSectors (raw h))
        /\ indirSector (raw h') = -1
        /\ firstIndir h' = firstIndir h
        /\ secondIndir h' = secondIndir h
        /\ numSectors (raw h') = NUM_DIRECT
        /\ numBytes (raw h') = MAX_DIRECT_SIZE).
Proof.
  intros Hw Hn Htot.
  assert (Hlt : numBytes (raw h) + newBytes < UINT_MODULUS).
  { rewrite Htot. reflexivity. }
  pose proof (Expand_newSectors_sum h newBytes Hw ltac:(lia) Hlt) as Hsum.
  rewrite Htot in Hsum. change (DivRoundUp MAX_DIRECT_SIZE SECTOR_SIZE)
    with NUM_DIRECT in Hsum.
  pose proof (Expand_newSectors_nonneg h newBytes) as Hnn.
  destruct Hw as (Hb & Hs & Hi).
  assert (Hle : numSectors (raw h) <= NUM_DIRECT) by lia.
  assert (Hno : indirSector (raw h) = -1) by (now apply Hi).
  assert (Hns : 0 <= numSectors (raw h)).
  { rewrite Hs. revert Hb. clear. arith. }
  assert (Hind : Expand_indirSectors h newBytes = 0).
  { unfold Expand_indirSectors. rewrite Hno, Htot. reflexivity. }
  assert (Hnew : Expand_newSectors h newBytes
                 = NUM_DIRECT - numSectors (raw h)) by lia.
  unfold Expand. destruct (Z.eqb_spec newBytes 0); [lia|].
  cbn [negb ASSERT mbind outcome_bind].
  rewrite Hind, Hnew, Z.add_0_r.
  rewrite (u32_small (NUM_DIRECT - numSectors (raw h)))
    by (rewrite NUM_DIRECT_eq in *; unfold UINT_MODULUS; lia).
  split; intros Hfree.
  - destruct (Z.ltb_spec (CountClear fm) (NUM_DIRECT - numSectors (raw h)));
      [reflexivity|lia].
  - destruct (Z.ltb_spec (CountClear fm) (NUM_DIRECT - numSectors (raw h)));
      [lia|].
    eexists _, _. split; [reflexivity|].
    unfold Expand_claim. cbn [numSectors numBytes raw set_numSectors
      set_numBytes].
    replace (numSectors (raw h) + (NUM_DIRECT - numSectors (raw h)))
      with NUM_DIRECT by lia.
    rewrite Htot. change (u32 NUM_DIRECT) with NUM_DIRECT.
    change (u32 MAX_DIRECT_SIZE) with MAX_DIRECT_SIZE.
    set (a0 := mkAlloc fm _ _ _).
    pose proof (Expand_direct_direct (numSectors (raw h)) a0)
      as (D1 & D2 & D3 & D4 & D5).
    pose proof (Expand_direct_count (numSectors (raw h)) a0) as Hc.
    rewrite D5. subst a0. cbn [a_hdr a_map raw numSectors set_numSectors
      set_numBytes] in *.
    change (NUM_DIRECT >? NUM_DIRECT) with false. cbv iota.
    rewrite D1, D2, D3, D4, Hc by lia.
    cbn [raw indirSector numBytes]. repeat split; try assumption; lia.
Qed.

(** The claiming part never changes a single-indirect pointer that is
    already there. *)
Lemma Expand_claim_keeps_indirSector fm h newBytes newSectors indirSectors :
  indirSector (raw h) <> -1 ->
  indirSector
    (raw (a_hdr (Expand_claim fm h newBytes newSectors indirSectors)))
  = indirSector (raw h).
Proof.
  intros Hne. unfold Expand_claim.
  set (h1 := set_numSectors _ _).
  set (a0 := mkAlloc fm h1 newSectors indirSectors).
  pose proof (Expand_direct_claims (numSectors (raw h)) a0)
    as (_ & _ & _ & _ & E1).
  set (a1 := Expand_direct (numSectors (raw h)) a0) in *.
  assert (E1' : indirSector (raw (a_hdr a1)) = indirSector (raw h))
    by (rewrite E1; reflexivity).
  destruct (numSectors (raw (a_hdr a1)) >? NUM_DIRECT); [|exact E1'].
  pose proof (Expand_tables_claims (Expand_indirSector a1))
    as (_ & _ & _ & _ & ->).
  unfold Expand_indirSector.
  destruct (Z.eqb_spec (indirSector (raw (a_hdr a1))) (-1)) as [Heq|_];
    [congruence|exact E1'].
Qed.

Lemma Expand_keeps_indirSector fm h newBytes b fm' h' :
  indirSector (raw h) <> -1 ->
  Expand fm newBytes h = Ret (b, fm', h') ->
  indirSector (raw h') = indirSector (raw h).
Proof.
  intros Hne. unfold Expand. destruct (negb (newBytes =? 0)); [|discriminate].
  cbn [ASSERT mbind outcome_bind]. destruct (CountClear fm <? _).
  - intros [= <- <- <-]. reflexivity.
  - intros [= <- <- <-]. now apply Expand_claim_keeps_indirSector.
Qed.


(** (iii) A growth across the direct limit of a header that has no
    single-indirect sector yet: the pointer is set to a sector that was
    clear in the free map before the call and is marked after it. *)
Lemma Expand_crossing fm h newBytes fm' h' :
  header_laws h -> indirSector (raw h) = -1 -> 0 < newBytes ->
  MAX_DIRECT_SIZE < numBytes (raw h) + newBytes < UINT_MODULUS ->
  Expand fm newBytes h = Ret (true, fm', h') ->
  0 <= indirSector (raw h')
  /\ Test fm (indirSector (raw h')) = false
  /\ Test fm' (indirSector (raw h')) = true.
Proof.
  intros Hw Hno Hn Htot.
  pose proof (Expand_newSectors_sum h newBytes Hw ltac:(lia) ltac:(lia))
    as Hsum.
  pose proof (Expand_newSectors_nonneg h newBytes) as Hnn.
  destruct Hw as (Hb & Hs & Hi).
  assert (Hle : numSectors (raw h) <= NUM_DIRECT) by (now apply Hi).
  assert (Hns : 0 <= numSectors (raw h)).
  { rewrite Hs. revert Hb. clear. arith. }
  assert (Hnew : NUM_DIRECT - numSectors (raw h) + 1
                 <= Expand_newSectors h newBytes < 2 ^ 26).
  { revert Hsum Htot Hle Hns. generalize (Expand_newSectors h newBytes).
    generalize (numSectors (raw h)). generalize (numBytes (raw h)).
    clear. intros nb ns z. arith. }
  assert (Hind : 1 <= Expand_indirSectors h newBytes < 2 ^ 26).
  { unfold Expand_indirSectors. rewrite Hno.
    change (negb (-1 =? -1)) with false. cbv iota.
    destruct (Z.gtb_spec (u32 (numBytes (raw h) + newBytes)) MAX_DIRECT_SIZE)
      as [_|Hbad].
    - revert Hnew Hle Hns. generalize (Expand_newSectors h newBytes).
      generalize (numSectors (raw h)).
      clear. intros ns z. arith.
    - exfalso. rewrite u32_small in Hbad by lia. lia. }
  unfold Expand. destruct (Z.eqb_spec newBytes 0); [lia|].
  cbn [negb ASSERT mbind outcome_bind].
  rewrite (u32_small (_ + _)) by (unfold UINT_MODULUS; lia).
  destruct (Z.ltb_spec (CountClear fm)
              (Expand_newSectors h newBytes + Expand_indirSectors h newBytes))
    as [|Hfree]; [discriminate|].
  intros [= <- <-]. unfold Expand_claim.
  set (h1 := set_numSectors _ _).
  assert (Hns1 : numSectors (raw h1)
                 = numSectors (raw h) + Expand_newSectors h newBytes).
  { subst h1. cbn [numSectors raw set_numSectors]. apply u32_small.
    rewrite NUM_DIRECT_eq in *. unfold UINT_MODULUS. lia. }
  set (a0 := mkAlloc fm h1 _ _).
  pose proof (Expand_direct_claims (numSectors (raw h)) a0)
    as (M1 & _ & _ & E0 & E1).
  pose proof (Expand_direct_count (numSectors (raw h)) a0) as Hc.
  set (a1 := Expand_direct (numSectors (raw h)) a0) in *.
  cbn [a_hdr a_map a0] in *. rewrite E0, Hns1.
  rewrite Hns1 in Hc. rewrite NUM_DIRECT_eq in *.
  destruct (Z.gtb_spec (numSectors (raw h) + Expand_newSectors h newBytes) 29);
    [|lia].
  assert (Hpos : 0 < CountClear (a_map a1)) by lia.
  pose proof (Expand_tables_claims (Expand_indirSector a1))
    as (M3 & _ & _ & _ & E3).
  rewrite E3. revert M3. unfold Expand_indirSector.
  replace (indirSector (raw (a_hdr a1))) with (-1)
    by (rewrite E1; subst h1; cbn; congruence).
  change (-1 =? -1) with true. cbv iota.
  destruct (Find_Some (a_map a1) Hpos) as (s & -> & Hs0 & Hclr & Hmk & _).
  cbn [a_map a_hdr raw indirSector set_indirSector]. intros M3.
  split; [exact Hs0|]. split.
  - destruct (Test fm s) eqn:Hfs; [|reflexivity].
    rewrite (M1 s Hfs) in Hclr. discriminate.
  - apply M3. exact Hmk.
Qed.

End ExpandFacts.

(** ** The number of sectors that [Expand] claims *)

Section ExpandCount.
Import Bitmap Header.

Ltac consts :=
  rewrite ?NUM_DIRECT_eq, ?NUM_INDIRECT_eq, ?MAX_DIRECT_SIZE_eq in *;
  unfold DivRoundUp, SECTOR_SIZE, u32, UINT_MODULUS in *.

Ltac arith := consts; Z.div_mod_to_equations; lia.

Lemma cell_insert_other l i i' v :
  0 <= i -> 0 <= i' -> i <> i' ->
  cell (<[Z.to_nat i := v]> l) i' = cell l i'.
Proof.
  intros Hi Hi' Hne. unfold cell.
  destruct (i' <? 0); [reflexivity|].
  rewrite list_lookup_insert_ne by lia. reflexivity.
Qed.

Lemma cell2_set_secondIndir_ne i j v h i' j' :
  0 <= i -> 0 <= j -> 0 <= i' -> 0 <= j' -> (i <> i' \/ j <> j') ->
  cell2 (secondIndir (set_secondIndir i j v h)) i' j'
  = cell2 (secondIndir h) i' j'.
Proof.
  intros Hi Hj Hi' Hj' Hne. unfold cell2, set_secondIndir.
  cbn [secondIndir]. destruct (i' <? 0); [reflexivity|].
  destruct (Z.eq_dec i i') as [<-|Hii].
  - rewrite list_lookup_alter_eq.
    destruct (secondIndir h !! Z.to_nat i) as [row|]; [|reflexivity].
    cbn [fmap option_fmap option_map default].
    apply cell_insert_other; [lia|lia|]. destruct Hne; [contradiction|assumption].
  - rewrite list_lookup_alter_ne by lia. reflexivity.
Qed.

(** One claim: [Find] on a map with a clear bit takes one of them. *)
Lemma Find_takes_one m :
  0 < CountClear m ->
  CountClear (snd (Find m)) = CountClear m - 1.
Proof.
  intros Hpos. destruct (Find_Some m Hpos) as (s & -> & _ & _ & _ & Hc).
  exact Hc.
Qed.

Lemma expand_direct_funded i a :
  funded a -> 0 < a_left a ->
  let a' := expand_direct i a in
  funded a' /\ balance a' = balance a
  /\ a_left a' = a_left a - 1 /\ a_indir a' = a_indir a.
Proof.
  intros (Hl & Hi & Hf) Hpos. cbn zeta.
  unfold expand_direct, funded, balance.
  pose proof (Find_takes_one (a_map a) ltac:(lia)) as Hc.
  destruct (Find (a_map a)) as [s m]. cbn [snd] in Hc.
  cbn [a_map a_left a_indir].
  rewrite (u32_small (a_left a - 1)) by lia. rewrite Hc.
  repeat split; lia.
Qed.

Lemma expand_direct_loop_funded n i a :
  funded a -> Z.of_nat n <= a_left a ->
  let a' := for_while n i (fun _ _ => true) expand_direct a in
  funded a' /\ balance a' = balance a
  /\ a_left a' = a_left a - Z.of_nat n /\ a_indir a' = a_indir a.
Proof.
  revert i a. induction n as [|n IH]; intros i a Hf Hn; cbn zeta.
  { cbn [for_while]. pose proof Hf as (? & ? & ?). repeat split; lia. }
  cbn [for_while].
  destruct (expand_direct_funded i a Hf ltac:(lia)) as (F1 & B1 & L1 & I1).
  cbn zeta in F1, B1, L1, I1.
  destruct (IH (i + 1) (expand_direct i a) F1 ltac:(lia))
    as (F2 & B2 & L2 & I2).
  cbn zeta in F2, B2, L2, I2.
  repeat split; try apply F2; lia.
Qed.

Lemma Expand_direct_funded old a :
  funded a -> 0 <= old ->
  Z.min (numSectors (raw (a_hdr a))) NUM_DIRECT - Z.min old NUM_DIRECT
    <= a_left a ->
  old <= numSectors (raw (a_hdr a)) ->
  let a' := Expand_direct old a in
  funded a' /\ balance a' = balance a
  /\ a_left a'
     = a_left a - (Z.min (numSectors (raw (a_hdr a))) NUM_DIRECT
                   - Z.min old NUM_DIRECT)
  /\ a_indir a' = a_indir a.
Proof.
  intros Hf Hold Hn Hle. cbn zeta. unfold Expand_direct.
  destruct (Z.ltb_spec old NUM_DIRECT) as [Hlt|Hge].
  - unfold for_range.
    destruct (expand_direct_loop_funded
                (Z.to_nat (Z.min (numSectors (raw (a_hdr a))) NUM_DIRECT
                           - old)) old a Hf ltac:(lia))
      as (F & B & L & I).
    cbn zeta in F, B, L, I.
    repeat split; try apply F; lia.
  - repeat split; try apply Hf; lia.
Qed.

Lemma Expand_indirSector_funded a :
  funded a -> 0 < a_indir a ->
  let a' := Expand_indirSector a in
  funded a' /\ balance a' = balance a /\ a_left a' = a_left a
  /\ (indirSector (raw (a_hdr a)) = -1 -> a_indir a' = a_indir a - 1)
  /\ firstIndir (a_hdr a') = firstIndir (a_hdr a)
  /\ secondIndir (a_hdr a') = secondIndir (a_hdr a).
Proof.
  intros (Hl & Hi & Hf) Hpos. cbn zeta. unfold Expand_indirSector.
  destruct (indirSector (raw (a_hdr a)) =? -1) eqn:Hno.
  - unfold funded, balance.
    pose proof (Find_takes_one (a_map a) ltac:(lia)) as Hc.
    destruct (Find (a_map a)) as [s m]. cbn [snd] in Hc.
    cbn [a_map a_left a_indir a_hdr set_indirSector firstIndir secondIndir].
    rewrite (u32_small (a_indir a - 1)) by lia. rewrite Hc.
    repeat split; lia.
  - apply Z.eqb_neq in Hno.
    repeat split; try assumption; lia.
Qed.

Lemma expand_second_funded i j a :
  funded a -> 0 < a_left a ->
  let a' := expand_second i j a in
  funded a' /\ balance a' = balance a /\ a_indir a' = a_indir a
  /\ firstIndir (a_hdr a') = firstIndir (a_hdr a)
  /\ (cell2 (secondIndir (a_hdr a)) i j = -1 ->
      a_left a' = a_left a - 1
      /\ a_hdr a' = set_secondIndir i j (fst (Find (a_map a))) (a_hdr a)).
Proof.
  intros (Hl & Hi & Hf) Hpos. cbn zeta. unfold expand_second.
  destruct (cell2 (secondIndir (a_hdr a)) i j =? -1) eqn:Hc2.
  - unfold funded, balance.
    pose proof (Find_takes_one (a_map a) ltac:(lia)) as Hc.
    destruct (Find (a_map a)) as [s m]. cbn [snd fst] in *.
    cbn [a_map a_left a_indir a_hdr set_secondIndir firstIndir].
    rewrite (u32_small (a_left a - 1)) by lia. rewrite Hc.
    repeat split; lia.
  - apply Z.eqb_neq in Hc2.
    repeat split; try assumption; try lia; contradiction.
Qed.

(** The inner loop over the row [i]. *)
Lemma expand_second_loop_funded i a :
  funded a ->
  let a' := for_while (Z.to_nat NUM_INDIRECT) 0 (fun _ a => a_left a >? 0)
              (expand_second i) a in
  funded a' /\ balance a' = balance a /\ a_indir a' = a_indir a
  /\ firstIndir (a_hdr a') = firstIndir (a_hdr a).
Proof.
  intros Hf. cbn zeta.
  destruct (for_while_invariant
              (fun (_ : Z) b => funded b /\ balance b = balance a
                                /\ a_indir b = a_indir a
                                /\ firstIndir (a_hdr b) = firstIndir (a_hdr a))
              (fun _ a => a_left a >? 0) (expand_second i)
              (Z.to_nat NUM_INDIRECT) 0 a) as (k & _ & H & _).
  - intros j b _ (F & B & I & E) Hc.
    destruct (expand_second_funded i j b F ltac:(lia))
      as (F1 & B1 & I1 & E1 & _).
    cbn zeta in *. repeat split; try apply F1; congruence.
  - repeat split; try apply Hf; reflexivity.
  - exact H.
Qed.

Lemma expand_first_funded i a :
  funded a -> 0 < a_indir a ->
  let a' := expand_first i a in
  funded a' /\ balance a' = balance a.
Proof.
  intros Hf Hpos. cbn zeta. unfold expand_first.
  set (a1 := if cell (firstIndir (a_hdr a)) i =? -1 then _ else a).
  assert (H1 : funded a1 /\ balance a1 = balance a).
  { subst a1. destruct (cell (firstIndir (a_hdr a)) i =? -1);
      [|split; [exact Hf|reflexivity]].
    destruct Hf as (Hl & Hi & Hf). unfold funded, balance.
    pose proof (Find_takes_one (a_map a) ltac:(lia)) as Hc.
    destruct (Find (a_map a)) as [s m]. cbn [snd] in Hc.
    cbn [a_map a_left a_indir].
    rewrite (u32_small (a_indir a - 1)) by lia. rewrite Hc.
    repeat split; lia. }
  destruct H1 as [F1 B1].
  destruct (expand_second_loop_funded i a1 F1) as (F2 & B2 & _).
  cbn zeta in F2, B2. split; [exact F2|congruence].
Qed.

Lemma Expand_tables_funded a :
  funded a ->
  let a' := Expand_tables a in
  funded a' /\ balance a' = balance a.
Proof.
  intros Hf. cbn zeta. unfold Expand_tables.
  destruct (a_indir a >? 0); [|split; [exact Hf|reflexivity]].
  destruct (for_while_invariant
              (fun (_ : Z) b => funded b /\ balance b = balance a)
              (fun _ a => a_indir a >? 0) expand_first
              (Z.to_nat NUM_INDIRECT) 0 a) as (k & _ & H & _).
  - intros i b _ (F & B) Hc.
    destruct (expand_first_funded i b F ltac:(lia)) as (F1 & B1).
    cbn zeta in *. split; [exact F1|congruence].
  - split; [exact Hf|reflexivity].
  - exact H.
Qed.

(** The stages of a growth across the direct limit up to the loop over
    the tables: the direct table is filled, the single-indirect sector is
    claimed, and the counters hold what the loop has to claim. *)
Lemma Expand_crossing_stages fm h newBytes fm' h' :
  header_laws h -> indirSector (raw h) = -1 -> 0 < newBytes ->
  MAX_DIRECT_SIZE < numBytes (raw h) + newBytes < UINT_MODULUS ->
  Expand fm newBytes h = Ret (true, fm', h') ->
  exists a2,
    funded a2
    /\ balance a2
       = CountClear fm
         - ((numSectors (raw h') - numSectors (raw h))
            + DivRoundUp (numSectors (raw h') - NUM_DIRECT) NUM_INDIRECT + 1)
    /\ a_left a2 = numSectors (raw h') - NUM_DIRECT
    /\ a_indir a2
       = DivRoundUp (numSectors (raw h') - NUM_DIRECT) NUM_INDIRECT
    /\ firstIndir (a_hdr a2) = firstIndir h
    /\ secondIndir (a_hdr a2) = secondIndir h
    /\ numSectors (raw h')
       = DivRoundUp (numBytes (raw h) + newBytes) SECTOR_SIZE
    /\ 0 <= numSectors (raw h) <= NUM_DIRECT
    /\ fm' = a_map (Expand_tables a2) /\ h' = a_hdr (Expand_tables a2).
Proof.
  intros Hw Hno Hn Htot.
  pose proof (Expand_newSectors_sum h newBytes Hw ltac:(lia) ltac:(lia))
    as Hsum.
  pose proof (Expand_newSectors_nonneg h newBytes) as Hnn.
  destruct Hw as (Hb & Hs & Hi).
  assert (Hle : numSectors (raw h) <= NUM_DIRECT) by (now apply Hi).
  assert (Hns : 0 <= numSectors (raw h)).
  { rewrite Hs. revert Hb. clear. arith. }
  assert (Hnew : NUM_DIRECT - numSectors (raw h) + 1
                 <= Expand_newSectors h newBytes < 2 ^ 26).
  { revert Hsum Htot Hle Hns. generalize (Expand_newSectors h newBytes).
    generalize (numSectors (raw h)). generalize (numBytes (raw h)).
    clear. intros nb ns z. arith. }
  assert (Hind : Expand_indirSectors h newBytes
                 = DivRoundUp (numSectors (raw h)
                               + Expand_newSectors h newBytes - NUM_DIRECT)
                     NUM_INDIRECT + 1).
  { unfold Expand_indirSectors. rewrite Hno.
    change (negb (-1 =? -1)) with false. cbv iota.
    destruct (Z.gtb_spec (u32 (numBytes (raw h) + newBytes)) MAX_DIRECT_SIZE)
      as [_|Hbad].
    - revert Hnew Hle Hns. generalize (Expand_newSectors h newBytes).
      generalize (numSectors (raw h)).
      clear. intros ns z. arith.
    - exfalso. rewrite u32_small in Hbad by lia. lia. }
  assert (Hind2 : 1 <= Expand_indirSectors h newBytes < 2 ^ 26).
  { rewrite Hind. revert Hnew Hle Hns.
    generalize (Expand_newSectors h newBytes).
    generalize (numSectors (raw h)). clear. intros ns z. arith. }
  unfold Expand. destruct (Z.eqb_spec newBytes 0); [lia|].
  cbn [negb ASSERT mbind outcome_bind].
  rewrite (u32_small (_ + _)) by (unfold UINT_MODULUS; lia).
  destruct (Z.ltb_spec (CountClear fm)
              (Expand_newSectors h newBytes + Expand_indirSectors h newBytes))
    as [|Hfree]; [discriminate|].
  intros [= <- <-]. unfold Expand_claim.
  set (h1 := set_numSectors _ _).
  assert (Hns1 : numSectors (raw h1)
                 = numSectors (raw h) + Expand_newSectors h newBytes).
  { subst h1. cbn [numSectors raw set_numSectors]. apply u32_small.
    rewrite NUM_DIRECT_eq in *. unfold UINT_MODULUS. lia. }
  set (a0 := mkAlloc fm h1 (Expand_newSectors h newBytes)
               (Expand_indirSectors h newBytes)).
  assert (F0 : funded a0).
  { unfold funded, a0. cbn [a_left a_indir a_map]. unfold UINT_MODULUS.
    lia. }
  pose proof (Expand_direct_claims (numSectors (raw h)) a0)
    as (_ & _ & _ & E0 & _).
  pose proof (Expand_direct_direct (numSectors (raw h)) a0)
    as (D1 & D2 & D3 & _ & _).
  destruct (Expand_direct_funded (numSectors (raw h)) a0 F0 Hns)
    as (F1 & B1 & L1 & I1).
  { unfold a0. cbn [a_hdr a_left]. rewrite Hns1. lia. }
  { unfold a0. cbn [a_hdr]. rewrite Hns1. lia. }
  cbn zeta in F1, B1, L1, I1.
  set (a1 := Expand_direct (numSectors (raw h)) a0) in *.
  cbn [a_hdr a_map a_left a_indir a0] in E0, D1, D2, D3, L1, I1.
  rewrite Hns1 in L1.
  rewrite E0, Hns1.
  destruct (Z.gtb_spec (numSectors (raw h) + Expand_newSectors h newBytes)
              NUM_DIRECT) as [_|]; [|lia].
  destruct (Expand_indirSector_funded a1 F1 ltac:(lia))
    as (F2 & B2 & L2 & I2 & T1 & T2).
  cbn zeta in F2, B2, L2, I2, T1, T2.
  assert (Hno1 : indirSector (raw (a_hdr a1)) = -1).
  { rewrite D1. subst h1. cbn. exact Hno. }
  specialize (I2 Hno1).
  pose proof (Expand_tables_claims (Expand_indirSector a1))
    as (_ & _ & _ & E3 & _).
  assert (E2 : numSectors (raw (a_hdr (Expand_indirSector a1)))
               = numSectors (raw h) + Expand_newSectors h newBytes).
  { unfold Expand_indirSector. rewrite Hno1.
    change (-1 =? -1) with true. cbv iota.
    destruct (Find (a_map a1)). cbn [a_hdr raw numSectors set_indirSector].
    rewrite E0. exact Hns1. }
  exists (Expand_indirSector a1).
  rewrite E3, E2.
  split; [exact F2|]. split.
  { rewrite B2, B1. unfold balance, a0. cbn [a_map a_left a_indir].
    rewrite Hind. lia. }
  split; [lia|]. split; [lia|].
  split; [rewrite T1, D2; reflexivity|].
  split; [rewrite T2, D3; reflexivity|].
  split; [exact Hsum|]. split; [lia|]. split; reflexivity.
Qed.

(** A growth across the direct limit comes back, with true exactly when
    the free map has a clear sector for every new data sector, for one
    table per [NUM_INDIRECT] data sectors beyond the direct table and for
    the single-indirect sector. *)
Lemma Expand_crossing_returns fm h newBytes :
  header_laws h -> indirSector (raw h) = -1 -> 0 < newBytes ->
  MAX_DIRECT_SIZE < numBytes (raw h) + newBytes < UINT_MODULUS ->
  let total := DivRoundUp (numBytes (raw h) + newBytes) SECTOR_SIZE in
  let need := (total - numSectors (raw h))
              + DivRoundUp (total - NUM_DIRECT) NUM_INDIRECT + 1 in
  (CountClear fm < need -> Expand fm newBytes h = Ret (false, fm, h))
  /\ (need <= CountClear fm ->
      exists fm' h', Expand fm newBytes h = Ret (true, fm', h')).
Proof.
  intros Hw Hno Hn Htot.
  pose proof (Expand_newSectors_sum h newBytes Hw ltac:(lia) ltac:(lia))
    as Hsum.
  pose proof (Expand_newSectors_nonneg h newBytes) as Hnn.
  destruct Hw as (Hb & Hs & Hi).
  assert (Hle : numSectors (raw h) <= NUM_DIRECT) by (now apply Hi).
  assert (Hns : 0 <= numSectors (raw h)).
  { rewrite Hs. revert Hb. clear. arith. }
  assert (Hnew : NUM_DIRECT - numSectors (raw h) + 1
                 <= Expand_newSectors h newBytes < 2 ^ 26).
  { revert Hsum Htot Hle Hns. generalize (Expand_newSectors h newBytes).
    generalize (numSectors (raw h)). generalize (numBytes (raw h)).
    clear. intros nb ns z. arith. }
  assert (Hind : Expand_indirSectors h newBytes
                 = DivRoundUp (numSectors (raw h)
                               + Expand_newSectors h newBytes - NUM_DIRECT)
                     NUM_INDIRECT + 1).
  { unfold Expand_indirSectors. rewrite Hno.
    change (negb (-1 =? -1)) with false. cbv iota.
    destruct (Z.gtb_spec (u32 (numBytes (raw h) + newBytes)) MAX_DIRECT_SIZE)
      as [_|Hbad].
    - revert Hnew Hle Hns. generalize (Expand_newSectors h newBytes).
      generalize (numSectors (raw h)).
      clear. intros ns z. arith.
    - exfalso. rewrite u32_small in Hbad by lia. lia. }
  assert (Hind2 : 1 <= Expand_indirSectors h newBytes < 2 ^ 26).
  { rewrite Hind. revert Hnew Hle Hns.
    generalize (Expand_newSectors h newBytes).
    generalize (numSectors (raw h)). clear. intros ns z. arith. }
  cbn zeta. rewrite <- Hsum.
  replace (numSectors (raw h) + Expand_newSectors h newBytes
           - numSectors (raw h)) with (Expand_newSectors h newBytes) by lia.
  rewrite <- Z.add_assoc, <- Hind.
  unfold Expand. destruct (Z.eqb_spec newBytes 0); [lia|].
  cbn [negb ASSERT mbind outcome_bind].
  rewrite (u32_small (_ + _)) by (unfold UINT_MODULUS; lia).
  destruct (Z.ltb_spec (CountClear fm)
              (Expand_newSectors h newBytes + Expand_indirSectors h newBytes)).
  - split; [reflexivity|lia].
  - split; [lia|]. intros _. eauto.
Qed.

(** A growth across the direct limit claims no more than the new data
    sectors, one table for every [NUM_INDIRECT] sectors beyond the direct
    table, and the single-indirect sector. *)
Lemma Expand_crossing_bound fm h newBytes fm' h' :
  header_laws h -> indirSector (raw h) = -1 -> 0 < newBytes ->
  MAX_DIRECT_SIZE < numBytes (raw h) + newBytes < UINT_MODULUS ->
  Expand fm newBytes h = Ret (true, fm', h') ->
  CountClear fm - CountClear fm'
  <= (numSectors (raw h') - numSectors (raw h))
     + DivRoundUp (numSectors (raw h') - NUM_DIRECT) NUM_INDIRECT + 1.
Proof.
  intros Hw Hno Hn Htot Hrun.
  destruct (Expand_crossing_stages fm h newBytes fm' h' Hw Hno Hn Htot Hrun)
    as (a2 & F2 & B2 & _ & _ & _ & _ & _ & _ & -> & _).
  destruct (Expand_tables_funded a2 F2) as ((Hl & Hi & _) & B3).
  cbn zeta in Hl, Hi, B3. unfold balance in B2, B3. lia.
Qed.

(** The inner loop over a row that holds no sector: it claims until the
    row is full or no data sector is left to claim, and leaves the other
    rows alone. *)
Lemma expand_second_loop_blank i a :
  funded a -> 0 <= i ->
  (forall j, 0 <= j < NUM_INDIRECT ->
     cell2 (secondIndir (a_hdr a)) i j = -1) ->
  let a' := for_while (Z.to_nat NUM_INDIRECT) 0 (fun _ a => a_left a >? 0)
              (expand_second i) a in
  a_left a' = Z.max (a_left a - NUM_INDIRECT) 0
  /\ forall i' j', 0 <= i' -> i' <> i -> 0 <= j' ->
       cell2 (secondIndir (a_hdr a')) i' j'
       = cell2 (secondIndir (a_hdr a)) i' j'.
Proof.
  intros Hf Hi Hrow. cbn zeta.
  destruct (for_while_invariant
              (fun j b =>
                 0 <= j /\ funded b
                 /\ a_left b = Z.max (a_left a - j) 0
                 /\ (forall j', j <= j' < NUM_INDIRECT ->
                       cell2 (secondIndir (a_hdr b)) i j' = -1)
                 /\ (forall i' j', 0 <= i' -> i' <> i -> 0 <= j' ->
                       cell2 (secondIndir (a_hdr b)) i' j'
                       = cell2 (secondIndir (a_hdr a)) i' j'))
              (fun _ a => a_left a >? 0) (expand_second i)
              (Z.to_nat NUM_INDIRECT) 0 a)
    as (k & Hk & (_ & F & L & _ & Hrows) & Hend).
  - intros j b Hj (Hj0 & F & L & Hcells & Hrows) Hc.
    rewrite Z2Nat.id in Hj by (vm_compute; discriminate).
    destruct (expand_second_funded i j b F ltac:(lia))
      as (F1 & _ & _ & _ & Hset).
    cbn zeta in F1, Hset.
    destruct (Hset (Hcells j ltac:(lia))) as [L1 E1].
    split; [lia|]. split; [exact F1|]. split; [lia|].
    rewrite E1. split.
    + intros j' Hj'. rewrite cell2_set_secondIndir_ne by lia.
      apply Hcells. lia.
    + intros i' j' Hi' Hne Hj'.
      rewrite cell2_set_secondIndir_ne by lia. now apply Hrows.
  - split; [lia|]. split; [exact Hf|]. destruct Hf as (? & _).
    split; [lia|]. split; [intros j' Hj'; apply Hrow; lia|reflexivity].
  - rewrite Z2Nat.id in Hk, Hend by (vm_compute; discriminate).
    split; [|exact Hrows].
    destruct (Z.eq_dec k NUM_INDIRECT) as [->|Hne]; [lia|].
    specialize (Hend ltac:(lia)). lia.
Qed.

(** The first statement of the body of the outer loop on a cell that
    holds no sector. *)
Lemma expand_first_blank i a :
  funded a -> 0 < a_indir a -> cell (firstIndir (a_hdr a)) i = -1 ->
  let a1 := mkAlloc (snd (Find (a_map a)))
              (set_firstIndir i (fst (Find (a_map a))) (a_hdr a))
              (a_left a) (a_indir a - 1) in
  funded a1
  /\ expand_first i a
     = for_while (Z.to_nat NUM_INDIRECT) 0 (fun _ a => a_left a >? 0)
         (expand_second i) a1.
Proof.
  intros (Hl & Hi & Hf) Hpos Hcell. cbn zeta. unfold expand_first.
  rewrite Hcell. change (-1 =? -1) with true. cbv iota.
  pose proof (Find_takes_one (a_map a) ltac:(lia)) as Hc.
  destruct (Find (a_map a)) as [s m]. cbn [snd fst] in *.
  rewrite (u32_small (a_indir a - 1)) by lia.
  split; [|reflexivity].
  unfold funded. cbn [a_left a_indir a_map]. rewrite Hc. lia.
Qed.

(** The loop over the tables of a header that has none: when it ends,
    both counters are used up. *)
Lemma Expand_tables_blank a :
  funded a -> no_tables (a_hdr a) ->
  1 <= a_indir a <= NUM_INDIRECT ->
  a_left a <= NUM_INDIRECT * a_indir a ->
  a_left (Expand_tables a) = 0 /\ a_indir (Expand_tables a) = 0.
Proof.
  intros Hf [Hfirst Hsecond] HD HL. unfold Expand_tables.
  destruct (Z.gtb_spec (a_indir a) 0) as [_|]; [|lia].
  destruct (for_while_invariant
              (fun k b =>
                 0 <= k <= a_indir a /\ funded b
                 /\ a_indir b = a_indir a - k
                 /\ a_left b = Z.max (a_left a - NUM_INDIRECT * k) 0
                 /\ (forall i, k <= i < NUM_INDIRECT ->
                       cell (firstIndir (a_hdr b)) i = -1)
                 /\ (forall i j, k <= i < NUM_INDIRECT ->
                       0 <= j < NUM_INDIRECT ->
                       cell2 (secondIndir (a_hdr b)) i j = -1))
              (fun _ a => a_indir a >? 0) expand_first
              (Z.to_nat NUM_INDIRECT) 0 a)
    as (k & Hk & (Hk' & F & I & L & _) & Hend).
  - intros k b Hk (Hk0 & F & I & L & Hc1 & Hc2) Hc.
    rewrite Z2Nat.id in Hk by (vm_compute; discriminate).
    destruct (expand_first_blank k b F ltac:(lia) (Hc1 k ltac:(lia)))
      as [F1 ->].
    cbn zeta in F1.
    set (a1 := mkAlloc _ _ (a_left b) (a_indir b - 1)) in *.
    destruct (expand_second_loop_funded k a1 F1) as (F2 & _ & I2 & T2).
    destruct (expand_second_loop_blank k a1 F1 ltac:(lia)) as [L2 R2].
    { intros j Hj. apply Hc2; lia. }
    cbn zeta in F2, I2, T2, L2, R2.
    split; [lia|]. split; [exact F2|].
    split; [rewrite I2; unfold a1; cbn [a_indir]; lia|].
    split; [rewrite L2; unfold a1; cbn [a_left];
            rewrite NUM_INDIRECT_eq in *; lia|].
    split.
    + intros i Hi. rewrite T2. unfold a1.
      cbn [a_hdr set_firstIndir firstIndir].
      rewrite cell_insert_other by lia. apply Hc1. lia.
    + intros i j Hi Hj. rewrite R2 by lia. unfold a1.
      cbn [a_hdr set_firstIndir secondIndir]. apply Hc2; lia.
  - pose proof Hf as ((? & ?) & _).
    split; [lia|]. split; [exact Hf|]. split; [lia|]. split; [lia|].
    split; [intros i Hi; apply Hfirst; lia|].
    intros i j Hi Hj. apply Hsecond; lia.
  - rewrite Z2Nat.id in Hk, Hend by (vm_compute; discriminate).
    assert (Hk2 : k = a_indir a).
    { destruct (Z.eq_dec k NUM_INDIRECT) as [->|Hne]; [lia|].
      specialize (Hend ltac:(lia)). lia. }
    rewrite NUM_INDIRECT_eq in *. split; lia.
Qed.

(** A growth across the direct limit of a header without tables, to a
    size that the tables can hold: the sectors claimed are the new data
    sectors, one table for every [NUM_INDIRECT] sectors beyond the direct
    table, and the single-indirect sector, once. *)
Lemma Expand_crossing_count fm h newBytes fm' h' :
  header_laws h -> indirSector (raw h) = -1 -> 0 < newBytes ->
  MAX_DIRECT_SIZE < numBytes (raw h) + newBytes < UINT_MODULUS ->
  Expand fm newBytes h = Ret (true, fm', h') ->
  no_tables h ->
  numBytes (raw h) + newBytes
    <= MAX_DIRECT_SIZE + NUM_INDIRECT * MAX_INDIR_SIZE ->
  CountClear fm'
  = CountClear fm
    - ((numSectors (raw h') - numSectors (raw h))
       + DivRoundUp (numSectors (raw h') - NUM_DIRECT) NUM_INDIRECT + 1).
Proof.
  intros Hw Hno Hn Htot Hrun Hblank Hmax.
  destruct (Expand_crossing_stages fm h newBytes fm' h' Hw Hno Hn Htot Hrun)
    as (a2 & F2 & B2 & L2 & I2 & T1 & T2 & Hns & HN & -> & Hh').
  destruct (Expand_tables_funded a2 F2) as (_ & B3). cbn zeta in B3.
  assert (Hsize : NUM_DIRECT < numSectors (raw h')
                  <= NUM_DIRECT + NUM_INDIRECT * NUM_INDIRECT).
  { rewrite Hns. revert Htot Hmax. unfold MAX_INDIR_SIZE. clear. arith. }
  destruct (Expand_tables_blank a2 F2) as [L3 I3].
  - unfold no_tables. rewrite T1, T2. exact Hblank.
  - rewrite I2. revert Hsize. generalize (numSectors (raw h')).
    clear. intros z. arith.
  - rewrite I2, L2. revert Hsize. generalize (numSectors (raw h')).
    clear. intros z. arith.
  - unfold balance in B2, B3. lia.
Qed.

Lemma cell_replicate n x i :
  0 <= i < Z.of_nat n -> cell (replicate n x) i = x.
Proof.
  intros Hi. unfold cell. destruct (Z.ltb_spec i 0); [lia|].
  rewrite lookup_replicate_2 by lia. reflexivity.
Qed.

(** Tables that the clearing loop of [Allocate] has filled hold no
    sector. *)
Lemma no_tables_cleared h :
  firstIndir h = replicate (Z.to_nat NUM_INDIRECT) (-1) ->
  secondIndir h
  = replicate (Z.to_nat NUM_INDIRECT)
      (replicate (Z.to_nat NUM_INDIRECT) (-1)) ->
  no_tables h.
Proof.
  intros H1 H2. split.
  - intros i Hi. rewrite H1. apply cell_replicate. lia.
  - intros i j Hi Hj. rewrite H2. unfold cell2.
    destruct (Z.ltb_spec i 0); [lia|].
    rewrite lookup_replicate_2 by lia.
    cbn [default]. apply cell_replicate. lia.
Qed.

End ExpandCount.
(** C6. Edge cases of [Expand] on a header that satisfies the header
    laws: (i) a growth within the free space of the last sector claims
    nothing and keeps the sector count; (ii) a growth to exactly
    [MAX_DIRECT_SIZE] claims only the missing direct sectors, leaves both
    indirection tables alone and keeps [indirSector] at -1; (iii) a growth
    across the direct limit sets [indirSector] to one sector that was
    clear before and is marked afterwards, and no later [Expand] of the
    resulting header changes it again.  Counting the new data sectors,
    one table for every [NUM_INDIRECT] data sectors beyond the direct
    table and one single-indirect sector: the call returns true exactly
    when the free map has that many clear sectors, it claims no more
    than that many, and it claims exactly that many when the header has
    no tables yet and the new size is one that the tables can hold. *)
Theorem Expand_edge_cases (fm : list bool) (h : FileHeader) (newBytes : Z) :
  header_laws h -> 0 < newBytes ->
  (newBytes <= Header.onLastSector h ->
   Header.Expand fm newBytes h
   = Ret (true, fm,
          Header.set_numBytes (u32 (numBytes (raw h) + newBytes)) h))
  /\ (numBytes (raw h) + newBytes = MAX_DIRECT_SIZE ->
      (Bitmap.CountClear fm < NUM_DIRECT - numSectors (raw h) ->
       Header.Expand fm newBytes h = Ret (false, fm, h))
      /\ (NUM_DIRECT - numSectors (raw h) <= Bitmap.CountClear fm ->
          exists fm' h',
            Header.Expand fm newBytes h = Ret (true, fm', h')
            /\ Bitmap.CountClear fm'
               = Bitmap.CountClear fm - (NUM_DIRECT - numSectors (raw h))
            /\ indirSector (raw h') = -1
            /\ firstIndir h' = firstIndir h
            /\ secondIndir h' = secondIndir h
            /\ numSectors (raw h') = NUM_DIRECT
            /\ numBytes (raw h') = MAX_DIRECT_SIZE))
  /\ (indirSector (raw h) = -1 ->
      MAX_DIRECT_SIZE < numBytes (raw h) + newBytes < UINT_MODULUS ->
      (let total := DivRoundUp (numBytes (raw h) + newBytes) SECTOR_SIZE in
       let need := (total - numSectors (raw h))
                   + DivRoundUp (total - NUM_DIRECT) NUM_INDIRECT + 1 in
       (Bitmap.CountClear fm < need ->
        Header.Expand fm newBytes h = Ret (false, fm, h))
       /\ (need <= Bitmap.CountClear fm ->
           exists fm' h', Header.Expand fm newBytes h = Ret (true, fm', h')))
      /\
      forall fm' h',
        Header.Expand fm newBytes h = Ret (true, fm', h') ->
        0 <= indirSector (raw h')
        /\ Bitmap.Test fm (indirSector (raw h')) = false
        /\ Bitmap.Test fm' (indirSector (raw h')) = true
        /\ (forall fm2 n2 b fm3 h3,
              Header.Expand fm2 n2 h' = Ret (b, fm3, h3) ->
              indirSector (raw h3) = indirSector (raw h'))
        /\ Bitmap.CountClear fm - Bitmap.CountClear fm'
           <= (numSectors (raw h') - numSectors (raw h))
              + DivRoundUp (numSectors (raw h') - NUM_DIRECT) NUM_INDIRECT
              + 1
        /\ (no_tables h ->
            numBytes (raw h) + newBytes
              <= MAX_DIRECT_SIZE + NUM_INDIRECT * MAX_INDIR_SIZE ->
            Bitmap.CountClear fm'
            = Bitmap.CountClear fm
              - ((numSectors (raw h') - numSectors (raw h))
                 + DivRoundUp (numSectors (raw h') - NUM_DIRECT)
                     NUM_INDIRECT
                 + 1))).
Proof.
  intros Hw Hn. split; [|split].
  - intros Hfit. apply Expand_within_last_sector; [exact Hw|lia].
  - intros Htot. now apply Expand_to_direct_limit.
  - intros Hno Htot.
    split; [now apply Expand_crossing_returns|]. intros fm' h' Hrun.
    destruct (Expand_crossing fm h newBytes fm' h' Hw Hno Hn Htot Hrun)
      as (H0 & Hclr & Hmk).
    split; [exact H0|]. split; [exact Hclr|]. split; [exact Hmk|].
    split; [|split].
    + intros fm2 n2 b fm3 h3 Hrun2.
      apply (Expand_keeps_indirSector fm2 h' n2 b fm3 h3);
        [lia|exact Hrun2].
    + now apply (Expand_crossing_bound fm h newBytes fm' h').
    + intros Hblank Hmax.
      now apply (Expand_crossing_count fm h newBytes fm' h').
Qed.

Lemma sample_header_100_laws : header_laws sample_header_100.
Proof.
  split; [|split; [|split]].
  - vm_compute. split; [discriminate|reflexivity].
  - reflexivity.
  - intros _. vm_compute. discriminate.
  - intros _. reflexivity.
Defined.

Lemma sample_header_direct_laws : header_laws sample_header_direct.
Proof.
  split; [|split; [|split]].
  - vm_compute. split; [discriminate|reflexivity].
  - reflexivity.
  - intros _. vm_compute. discriminate.
  - intros _. reflexivity.
Defined.

Lemma sample_header_direct_no_tables : no_tables sample_header_direct.
Proof. apply no_tables_cleared; vm_compute; reflexivity. Qed.

(** Ten more bytes in a file of 100 bytes stay in its only sector; one
    more byte in a file that fills the direct table makes [Expand] claim
    the single-indirect sector, and three sectors in all: one for the
    byte, one for the first table of the second level and the
    single-indirect sector. *)
Lemma Expand_edge_cases_witness :
  Header.Expand sample_map_100 10 sample_header_100
  = Ret (true, sample_map_100,
         Header.set_numBytes (u32 (numBytes (raw sample_header_100) + 10))
           sample_header_100)
  /\ match Header.Expand sample_map_direct 1 sample_header_direct with
     | Ret (true, fm', h') =>
         Bitmap.Test sample_map_direct (indirSector (raw h')) = false
         /\ Bitmap.Test fm' (indirSector (raw h')) = true
         /\ Bitmap.CountClear fm'
            = Bitmap.CountClear sample_map_direct
              - ((numSectors (raw h') - numSectors (raw sample_header_direct))
                 + DivRoundUp (numSectors (raw h') - NUM_DIRECT)
                     NUM_INDIRECT
                 + 1)
     | _ => False
     end.
Proof.
  split.
  - assert (Hpos : 0 < 10) by reflexivity.
    assert (Hfit : 10 <= Header.onLastSector sample_header_100)
      by (vm_compute; discriminate).
    pose proof (Expand_edge_cases sample_map_100 sample_header_100 10
                  sample_header_100_laws Hpos) as (H1 & _ & _).
    exact (H1 Hfit).
  - assert (Hpos : 0 < 1) by reflexivity.
    assert (Hno : indirSector (raw sample_header_direct) = -1)
      by (vm_compute; reflexivity).
    assert (Htot : MAX_DIRECT_SIZE < numBytes (raw sample_header_direct) + 1
                   < UINT_MODULUS)
      by (vm_compute; split; reflexivity).
    pose proof (Expand_edge_cases sample_map_direct sample_header_direct 1
                  sample_header_direct_laws Hpos) as (_ & _ & H3).
    specialize (H3 Hno Htot). destruct H3 as [_ H3].
    destruct (Header.Expand sample_map_direct 1 sample_header_direct)
      as [[[[] fm'] h']| |] eqn:E.
    + destruct (H3 fm' h' eq_refl) as (_ & Hclr & Hmk & _ & _ & Hcount).
      split; [exact Hclr|]. split; [exact Hmk|].
      apply Hcount; [exact sample_header_direct_no_tables|].
      vm_compute. discriminate.
    + vm_compute in E. discriminate.
    + vm_compute in E. discriminate.
    + vm_compute in E. discriminate.
Defined.

(** ** FileHeader::Allocate and the header laws on concrete files *)

(** Only the test of the free space makes [Allocate] return false, and
    then the free map is the one that was passed in. *)
Lemma Allocate_failure_keeps_map fm fileSize h fm' h' :
  Header.Allocate fm fileSize h = (false, fm', h') -> fm' = fm.
Proof.
  unfold Header.Allocate.
  destruct (Bitmap.CountClear fm <? _); [now intros [= <- _]|].
  destruct (_ =? 0); [discriminate|].
  destruct (Bitmap.Find _). discriminate.
Qed.

(** C1 at a file of [MAX_DIRECT_SIZE + 1] bytes.  The specification asks
    for 30 data sectors, one single-indirect and one first-indirect
    sector, 32 in all.  [Allocate] fails on a free map with 32 clear
    sectors, and on a larger one it claims 33 sectors, two of them as
    first-indirect sectors. *)
Theorem Allocate_beyond_direct_over_reserves :
  minimal_sectors (MAX_DIRECT_SIZE + 1) = 32
  /\ Bitmap.CountClear tight_map = 32
  /\ Header.Allocate tight_map (MAX_DIRECT_SIZE + 1) Header.blank
     = (false, tight_map,
        Header.set_numSectors 30
          (Header.set_numBytes (MAX_DIRECT_SIZE + 1) Header.blank))
  /\ (let '(ok, fm', h') :=
        Header.Allocate sample_map (MAX_DIRECT_SIZE + 1) Header.blank in
      ok = true
      /\ Bitmap.CountClear sample_map - Bitmap.CountClear fm' = 33
      /\ numSectors (raw h') = 30
      /\ take 3 (firstIndir h') = [35; 37; -1]).
Proof. vm_compute. repeat split; reflexivity. Qed.

(** C2 at the same file, grown by one sector.  [Expand] returns true and
    counts 31 sectors, but claims nothing: the free map is as before and
    [ByteToSector] of the last sector is the sentinel -1 read as an
    unsigned number, not a sector of the disk. *)
Theorem Expand_in_indirect_range_claims_nothing :
  let '(_, fm1, h1) :=
    Header.Allocate sample_map (MAX_DIRECT_SIZE + 1) Header.blank in
  match Header.Expand fm1 SECTOR_SIZE h1 with
  | Ret (ok, fm2, h2) =>
      ok = true
      /\ fm2 = fm1
      /\ numBytes (raw h2) = MAX_DIRECT_SIZE + 1 + SECTOR_SIZE
      /\ numSectors (raw h2) = 31
      /\ numSectors (raw h2) = DivRoundUp (numBytes (raw h2)) SECTOR_SIZE
      /\ Header.ByteToSector h2 (30 * SECTOR_SIZE) = UINT_MODULUS - 1
      /\ Header.cell2 (secondIndir h2) 0 1 = -1
  | _ => False
  end.
Proof. vm_compute. repeat split; reflexivity. Qed.

(** One byte more in a file that fills the direct table: three sectors
    are claimed, for the byte, for the single-indirect table and for the
    first first-indirect table. *)
Example Expand_crossing_claims_three :
  match Header.Expand sample_map_direct 1 sample_header_direct with
  | Ret (ok, fm', h') =>
      ok = true
      /\ Bitmap.CountClear sample_map_direct - Bitmap.CountClear fm' = 3
      /\ numSectors (raw h') = 30
      /\ Header.cell (firstIndir h') 1 = -1
  | _ => False
  end.
Proof. vm_compute. repeat split; reflexivity. Qed.

(** ** The header laws hold for the headers that the code makes *)

Section HeaderLawsFacts.
Import Bitmap Header.

Ltac consts :=
  rewrite ?NUM_DIRECT_eq, ?NUM_INDIRECT_eq, ?MAX_DIRECT_SIZE_eq in *;
  unfold DivRoundUp, SECTOR_SIZE, u32, UINT_MODULUS in *.

Ltac arith := consts; Z.div_mod_to_equations; lia.

#[local] Instance claims_only_refl' : Reflexive claims_only.
Proof. intros a. unfold claims_only. repeat split; auto; lia. Qed.

#[local] Instance claims_only_trans' : Transitive claims_only.
Proof.
  intros a b c (H1 & H2 & H3 & H4 & H5) (G1 & G2 & G3 & G4 & G5).
  unfold claims_only. repeat split; auto; try lia; congruence.
Qed.

Lemma claim_direct_claims i a : claims_only a (claim_direct i a).
Proof.
  unfold claim_direct, claims_only.
  pose proof (Find_mono (a_map a)) as Hm.
  pose proof (Find_count (a_map a)) as Hc.
  destruct (Find (a_map a)) as [s m]. cbn in *.
  repeat split; auto; lia.
Qed.

Lemma claim_direct_loop_count n i a :
  Z.of_nat n <= CountClear (a_map a) ->
  CountClear (a_map (for_while n i (fun _ _ => true) claim_direct a))
  = CountClear (a_map a) - Z.of_nat n.
Proof.
  revert i a. induction n as [|n IH]; intros i a Hn; cbn [for_while]; [lia|].
  assert (Hstep : CountClear (a_map (claim_direct i a))
                  = CountClear (a_map a) - 1).
  { unfold claim_direct.
    destruct (Find_Some (a_map a)) as (s & -> & _ & _ & _ & Hc); [lia|].
    exact Hc. }
  rewrite IH; lia.
Qed.

Lemma set_secondIndir_raw i j v h : raw (set_secondIndir i j v h) = raw h.
Proof. reflexivity. Qed.

Lemma clear_indir_claims i a : claims_only a (clear_indir i a).
Proof.
  unfold clear_indir.
  assert (Hraw : forall h0,
             raw (for_range 0 NUM_INDIRECT
                    (fun j h => set_secondIndir i j (-1) h) h0) = raw h0).
  { intros h0. unfold for_range.
    generalize (Z.to_nat (NUM_INDIRECT - 0)). generalize 0.
    intros lo n. revert lo h0.
    induction n as [|n IH]; intros lo h0; cbn [for_while]; [reflexivity|].
    now rewrite IH. }
  unfold claims_only. cbn [a_map a_hdr]. rewrite Hraw. cbn.
  repeat split; auto; lia.
Qed.

Lemma allocate_second_claims i j a : claims_only a (allocate_second i j a).
Proof.
  unfold allocate_second. destruct (a_left a >? 0).
  - unfold claims_only.
    pose proof (Find_mono (a_map a)) as Hm.
    pose proof (Find_count (a_map a)) as Hc.
    destruct (Find (a_map a)) as [s m]. cbn in *.
    repeat split; auto; lia.
  - unfold claims_only. cbn. repeat split; auto; lia.
Qed.

Lemma allocate_first_claims i a : claims_only a (allocate_first i a).
Proof.
  unfold allocate_first. destruct (i <? a_indir a); [|apply clear_indir_claims].
  pose proof (Find_mono (a_map a)) as Hm.
  pose proof (Find_count (a_map a)) as Hc.
  destruct (Find (a_map a)) as [s m].
  transitivity (mkAlloc m (set_firstIndir i s (a_hdr a)) (a_left a)
                        (a_indir a)).
  - unfold claims_only. cbn in *. repeat split; auto; lia.
  - apply (for_while_preorder claims_only). intros j b.
    apply allocate_second_claims.
Qed.

(** X7. A header that [Allocate] filled has the length that was asked
    for and satisfies the header laws: the sector count is the ceiling
    of the length over the sector size, and there is a single-indirect
    sector exactly when the direct table does not cover the file. *)
Lemma Allocate_header_laws fm fileSize h fm' h' :
  0 <= fileSize < UINT_MODULUS ->
  Allocate fm fileSize h = (true, fm', h') ->
  numBytes (raw h') = fileSize /\ header_laws h'.
Proof.
  intros Hsize. unfold Allocate.
  set (h1 := set_numSectors _ (set_numBytes fileSize h)).
  assert (Hnb : numBytes (raw h1) = fileSize) by reflexivity.
  assert (Hns : numSectors (raw h1) = DivRoundUp fileSize SECTOR_SIZE)
    by reflexivity.
  set (ind := if fileSize >? MAX_DIRECT_SIZE then _ else 0).
  assert (Hind : (fileSize <= MAX_DIRECT_SIZE /\ ind = 0)
                 \/ (MAX_DIRECT_SIZE < fileSize /\ 1 <= ind < 2 ^ 27)).
  { subst ind. destruct (Z.gtb_spec fileSize MAX_DIRECT_SIZE) as [Hgt|Hle].
    - right. split; [lia|]. revert Hgt Hsize. clear. arith.
    - left. split; [lia|reflexivity]. }
  clearbody ind h1.
  destruct (Z.ltb_spec (CountClear fm) (u32 (numSectors (raw h1) + ind)))
    as [|Hfree]; [discriminate|].
  set (a1 := for_range 0 _ claim_direct _).
  assert (H1 : claims_only (mkAlloc fm h1 0 ind) a1).
  { subst a1. apply (for_while_preorder claims_only). intros i b.
    apply claim_direct_claims. }
  destruct H1 as (_ & _ & B1 & S1 & _). cbn [a_hdr] in B1, S1.
  assert (Hcount : Z.min (numSectors (raw h1)) NUM_DIRECT <= CountClear fm ->
                   CountClear (a_map a1)
                   = CountClear fm - Z.min (numSectors (raw h1)) NUM_DIRECT).
  { intros Hmin. subst a1. unfold for_range.
    assert (0 <= numSectors (raw h1)).
    { rewrite Hns. revert Hsize. clear. arith. }
    rewrite claim_direct_loop_count; cbn [a_map]; rewrite NUM_DIRECT_eq in *;
      lia. }
  clearbody a1.
  destruct Hind as [[Hle ->]|[Hgt Hrange]].
  - change (0 =? 0) with true. cbv iota.
    set (a2 := for_range 0 NUM_INDIRECT clear_indir _).
    assert (H2 : claims_only
                   (mkAlloc (a_map a1) (set_indirSector (-1) (a_hdr a1)) 0 0)
                   a2).
    { subst a2. apply (for_while_preorder claims_only). intros i b.
      apply clear_indir_claims. }
    destruct H2 as (_ & _ & B2 & S2 & I2). cbn [a_hdr] in B2, S2, I2.
    clearbody a2.
    intros [= <- <-]. split; [rewrite B2; cbn; now rewrite B1|].
    unfold header_laws. rewrite B2, S2, I2. cbn [raw numBytes numSectors
      indirSector set_indirSector]. rewrite B1, S1, Hnb, Hns.
    split; [exact Hsize|]. split; [reflexivity|].
    split; [intros _|reflexivity]. revert Hle Hsize. clear. arith.
  - destruct (Z.eqb_spec ind 0) as [|_]; [lia|].
    assert (Hpos : 0 < CountClear (a_map a1)).
    { rewrite Hns in *. rewrite Hcount.
      - revert Hfree Hgt Hrange Hsize. clear. arith.
      - revert Hfree Hgt Hrange Hsize. clear. arith. }
    destruct (Find_Some (a_map a1) Hpos) as (s & -> & Hs0 & _).
    set (a3 := for_range 0 NUM_INDIRECT allocate_first _).
    assert (H3 : claims_only
                   (mkAlloc (Mark s (a_map a1)) (set_indirSector s (a_hdr a1))
                      (u32 (numSectors (raw (set_indirSector s (a_hdr a1)))
                            - NUM_DIRECT)) (u32 (ind - 1))) a3).
    { subst a3. apply (for_while_preorder claims_only). intros i b.
      apply allocate_first_claims. }
    destruct H3 as (_ & _ & B3 & S3 & I3). cbn [a_hdr] in B3, S3, I3.
    clearbody a3.
    intros [= <- <-]. split; [rewrite B3; cbn; now rewrite B1|].
    unfold header_laws. rewrite B3, S3, I3. cbn [raw numBytes numSectors
      indirSector set_indirSector]. rewrite B1, S1, Hnb, Hns.
    split; [exact Hsize|]. split; [reflexivity|].
    split; [intros ->; lia|]. intros Hle. exfalso.
    revert Hle Hgt Hsize. clear. arith.
Qed.


Lemma Expand_indirSector_counts a :
  numBytes (raw (a_hdr (Expand_indirSector a))) = numBytes (raw (a_hdr a))
  /\ numSectors (raw (a_hdr (Expand_indirSector a)))
     = numSectors (raw (a_hdr a)).
Proof.
  unfold Expand_indirSector.
  destruct (indirSector (raw (a_hdr a)) =? -1); [|tauto].
  destruct (Find (a_map a)) as [s m]. cbn. tauto.
Qed.

(** The length and the sector count that [Expand] leaves in the header. *)
Lemma Expand_claim_counts fm h newBytes newSectors indirSectors :
  numBytes (raw (a_hdr (Expand_claim fm h newBytes newSectors indirSectors)))
  = u32 (numBytes (raw h) + newBytes)
  /\ numSectors
       (raw (a_hdr (Expand_claim fm h newBytes newSectors indirSectors)))
     = u32 (numSectors (raw h) + newSectors).
Proof.
  unfold Expand_claim.
  set (a0 := mkAlloc fm _ newSectors indirSectors).
  pose proof (Expand_direct_claims (numSectors (raw h)) a0)
    as (_ & _ & B1 & S1 & _).
  set (a1 := Expand_direct (numSectors (raw h)) a0) in *.
  cbn [a0 a_hdr raw numBytes numSectors set_numBytes set_numSectors]
    in B1, S1.
  clearbody a1.
  destruct (numSectors (raw (a_hdr a1)) >? NUM_DIRECT); [|tauto].
  pose proof (Expand_tables_claims (Expand_indirSector a1))
    as (_ & _ & B3 & S3 & _).
  destruct (Expand_indirSector_counts a1) as [B2 S2].
  rewrite B3, S3, B2, S2. tauto.
Qed.

(** X8. A header that satisfied the header laws satisfies them after a
    successful [Expand], and its length has grown by the number of
    bytes that was asked for. *)
Lemma Expand_header_laws fm h newBytes fm' h' :
  header_laws h -> 0 < newBytes ->
  numBytes (raw h) + newBytes < UINT_MODULUS ->
  Expand fm newBytes h = Ret (true, fm', h') ->
  numBytes (raw h') = numBytes (raw h) + newBytes /\ header_laws h'.
Proof.
  intros Hw Hn Hlt Hrun.
  pose proof (Expand_newSectors_sum h newBytes Hw ltac:(lia) Hlt) as Hsum.
  pose proof (Expand_newSectors_nonneg h newBytes) as Hnn.
  assert (Hcounts : numBytes (raw h') = numBytes (raw h) + newBytes
                    /\ numSectors (raw h')
                       = numSectors (raw h) + Expand_newSectors h newBytes).
  { destruct Hw as (Hb & Hs & _).
    revert Hrun. unfold Expand.
    destruct (negb (newBytes =? 0)); [|discriminate].
    cbn [ASSERT mbind outcome_bind].
    destruct (CountClear fm <? _); [discriminate|].
    intros [= <- <-].
    destruct (Expand_claim_counts fm h newBytes (Expand_newSectors h newBytes)
                (Expand_indirSectors h newBytes)) as [-> ->].
    rewrite !u32_small; [tauto| |lia].
    rewrite Hsum. revert Hb Hlt Hn. clear. arith. }
  destruct Hcounts as [Hnb Hns]. split; [exact Hnb|].
  unfold header_laws. rewrite Hnb, Hns, Hsum.
  destruct Hw as (Hb & Hs & Hi).
  split; [lia|]. split; [reflexivity|].
  destruct (Z.eq_dec (indirSector (raw h)) (-1)) as [Hno|Hind].
  - destruct (Z_le_gt_dec (numBytes (raw h) + newBytes) MAX_DIRECT_SIZE)
      as [Hle|Hgt].
    + (* the file stays within the direct table *)
      assert (Hsmall : DivRoundUp (numBytes (raw h) + newBytes) SECTOR_SIZE
                       <= NUM_DIRECT).
      { revert Hle Hb Hn. clear. arith. }
      split; [intros _; exact Hsmall|]. intros _.
      revert Hrun. unfold Expand.
      destruct (negb (newBytes =? 0)); [|discriminate].
      cbn [ASSERT mbind outcome_bind].
      destruct (CountClear fm <? _); [discriminate|].
      intros [= <- <-]. unfold Expand_claim.
      set (a0 := mkAlloc fm _ _ _).
      pose proof (Expand_direct_claims (numSectors (raw h)) a0)
        as (_ & _ & _ & S1 & I1).
      set (a1 := Expand_direct (numSectors (raw h)) a0) in *.
      cbn [a0 a_hdr raw numSectors indirSector set_numBytes set_numSectors]
        in S1, I1.
      clearbody a1. rewrite S1.
      rewrite (u32_small (numSectors (raw h) + _))
        by (rewrite Hsum; revert Hsmall Hb Hn; clear; arith).
      rewrite Hsum.
      destruct (Z.gtb_spec
                  (DivRoundUp (numBytes (raw h) + newBytes) SECTOR_SIZE)
                  NUM_DIRECT); [lia|].
      now rewrite I1.
    + (* the file grows past the direct table *)
      destruct (Expand_crossing fm h newBytes fm' h') as (H0 & _);
        try assumption; try lia.
      { unfold header_laws. tauto. }
      split; [intros Heq; lia|]. intros Hsmall. exfalso.
      revert Hsmall Hgt Hb. clear. arith.
  - rewrite (Expand_keeps_indirSector fm h newBytes true fm' h' Hind Hrun).
    split; [intros Heq; contradiction|]. intros Hsmall. exfalso.
    assert (numSectors (raw h) <= NUM_DIRECT -> False).
    { intros Hle. apply Hind. now apply Hi. }
    lia.
Qed.

End HeaderLawsFacts.

(** ** FileSynch: readers and writers *)

Section SynchFacts.
Import Synch.

Lemma BeginReading_loop_inv s :
  readers_xor_writer s ->
  match BeginReading_loop s with
  | Returned s' | Waits s' => readers_xor_writer s'
  end.
Proof.
  intros Hinv. unfold BeginReading_loop.
  destruct (writing s) eqn:Hw; cbn [orb]; [exact Hinv|].
  destruct (waitingToWrite s >? 0); [exact Hinv|].
  right. cbn. split; [exact Hw|]. apply u32_range.
Qed.

Lemma BeginWriting_loop_inv s :
  readers_xor_writer s ->
  match BeginWriting_loop s with
  | Returned s' | Waits s' => readers_xor_writer s'
  end.
Proof.
  intros Hinv. unfold BeginWriting_loop.
  destruct (writing s) eqn:Hw; cbn [orb]; [exact Hinv|].
  destruct (Z.gtb_spec (reading s) 0) as [Hgt|Hle]; [exact Hinv|].
  left. cbn. split; [reflexivity|].
  destruct Hinv as [[Hw' _]|[_ H0]]; [congruence|lia].
Qed.

Lemma set_waitingToWrite_inv v s :
  readers_xor_writer s -> readers_xor_writer (set_waitingToWrite v s).
Proof. intros H. exact H. Qed.

Lemma FinishReading_inv s :
  0 < reading s -> readers_xor_writer s ->
  readers_xor_writer (FinishReading s).
Proof.
  intros Hpos [[_ H0]|[Hw _]]; [lia|].
  right. cbn. split; [exact Hw|]. apply u32_range.
Qed.

Lemma FinishWriting_inv s :
  readers_xor_writer s -> readers_xor_writer (FinishWriting s).
Proof.
  intros [[_ H0]|[_ H0]]; right; cbn; split; try reflexivity; lia.
Qed.

(** One event of a paired sequence keeps the invariant. *)
Lemma step_inv e m m' :
  (e = CallFinishReading -> 0 < reading (rec m)) ->
  readers_xor_writer (rec m) -> step e m = Some m' ->
  readers_xor_writer (rec m').
Proof.
  intros Hguard Hinv. destruct e; cbn [step].
  - pose proof (BeginReading_loop_inv _ Hinv) as H. unfold BeginReading.
    destruct (BeginReading_loop (rec m)); intros [= <-]; exact H.
  - intros [= <-]. apply FinishReading_inv; [now apply Hguard|exact Hinv].
  - pose proof (BeginWriting_loop_inv _
                  (set_waitingToWrite_inv (u32 (waitingToWrite (rec m) + 1))
                     _ Hinv)) as H.
    unfold BeginWriting.
    destruct (BeginWriting_loop _); intros [= <-]; exact H.
  - intros [= <-]. now apply FinishWriting_inv.
  - destruct (asleepReading m); [discriminate|].
    pose proof (BeginReading_loop_inv _ Hinv) as H.
    destruct (BeginReading_loop (rec m)); intros [= <-]; exact H.
  - destruct (asleepWriting m); [discriminate|].
    pose proof (BeginWriting_loop_inv _ Hinv) as H.
    destruct (BeginWriting_loop (rec m)); intros [= <-]; exact H.
Qed.

Lemma run_paired_inv es m m' :
  readers_xor_writer (rec m) -> run_paired es m = Some m' ->
  readers_xor_writer (rec m').
Proof.
  revert m. induction es as [|e es IH]; intros m Hinv; cbn [run_paired].
  - intros [= <-]. exact Hinv.
  - destruct e;
      try (destruct (step _ m) as [m1|] eqn:Hstep; [|discriminate];
           apply IH; eapply step_inv; [|exact Hinv|exact Hstep];
           discriminate).
    destruct (Z.gtb_spec (reading (rec m)) 0) as [Hgt|]; [|discriminate].
    destruct (step _ m) as [m1|] eqn:Hstep; [|discriminate].
    apply IH. eapply step_inv; [|exact Hinv|exact Hstep]. intros _. lia.
Qed.

(** While a writer is writing or waiting, a reader that arrives or wakes
    up goes to sleep, and no event other than [FinishReading] changes the
    count of readers. *)
Lemma writer_preference e m m' :
  writing (rec m) = true \/ 0 < waitingToWrite (rec m) ->
  BeginReading (rec m) = Waits (rec m)
  /\ (step e m = Some m' -> e <> CallFinishReading ->
      reading (rec m') = reading (rec m)).
Proof.
  intros Hblock.
  assert (Hloop : BeginReading_loop (rec m) = Waits (rec m)).
  { unfold BeginReading_loop. destruct Hblock as [->|Hw]; [reflexivity|].
    destruct (Z.gtb_spec (waitingToWrite (rec m)) 0); [|lia].
    now rewrite orb_true_r. }
  split; [exact Hloop|].
  destruct e; cbn [step]; unfold BeginReading, BeginWriting;
    rewrite ?Hloop.
  - intros [= <-] _. reflexivity.
  - intros _ Hne. now contradiction Hne.
  - unfold BeginWriting_loop. cbn [writing reading set_waitingToWrite].
    destruct (writing (rec m) || (reading (rec m) >? 0));
      intros [= <-] _; reflexivity.
  - intros [= <-] _. reflexivity.
  - destruct (asleepReading m); [discriminate|].
    intros [= <-] _. reflexivity.
  - destruct (asleepWriting m); [discriminate|].
    unfold BeginWriting_loop.
    destruct (writing (rec m) || (reading (rec m) >? 0));
      intros [= <-] _; reflexivity.
Qed.

(** C5, as the code has it.  In every state that a [FileSynch] record
    reaches through a sequence of [BeginReading], [FinishReading],
    [BeginWriting] and [FinishWriting] calls in which [FinishReading] is
    only called while [reading > 0], either [writing] holds and
    [reading = 0], or [writing] does not hold and [reading >= 0]; and in
    any such state with [writing] set or [waitingToWrite > 0] a reader
    that arrives sleeps, and [reading] is not incremented by any event. *)
Theorem readers_writer_invariant (path : string) (h : FileHeader)
    (es : list event) (m : monitor) :
  run_paired es (start path h) = Some m ->
  readers_xor_writer (rec m)
  /\ (writing (rec m) = true \/ 0 < waitingToWrite (rec m) ->
      BeginReading (rec m) = Waits (rec m)
      /\ forall e m', step e m = Some m' -> e <> CallFinishReading ->
                      reading (rec m') = reading (rec m)).
Proof.
  intros Hrun. split.
  - apply (run_paired_inv es (start path h) m); [|exact Hrun].
    right. cbn. split; [reflexivity|lia].
  - intros Hblock. split.
    + apply (writer_preference CallBeginReading m m Hblock).
    + intros e m'. apply (writer_preference e m m' Hblock).
Qed.

End SynchFacts.

(** A reader gets in, a writer arrives and sleeps, the reader leaves and
    the writer wakes up and gets in. *)
Lemma readers_writer_invariant_witness :
  exists m,
    Synch.run_paired
      [Synch.CallBeginReading; Synch.CallBeginWriting;
       Synch.CallFinishReading; Synch.WakeInBeginWriting]
      (Synch.start "/f" Header.blank) = Some m
    /\ Synch.readers_xor_writer (Synch.rec m).
Proof.
  eexists. split; [vm_compute; reflexivity|].
  eapply (readers_writer_invariant "/f" Header.blank
            [Synch.CallBeginReading; Synch.CallBeginWriting;
             Synch.CallFinishReading; Synch.WakeInBeginWriting]).
  vm_compute. reflexivity.
Defined.

(** The invariant does not hold for every sequence of calls: after a
    writer got in, a [FinishReading] that no [BeginReading] preceded
    leaves [writing] set and [reading] at [UINT_MAX]. *)
Lemma readers_writer_any_sequence_counterexample :
  ~ (forall es m,
       Synch.run es (Synch.start "/f" Header.blank) = Some m ->
       Synch.readers_xor_writer (Synch.rec m)).
Proof.
  intros Hall.
  specialize (Hall [Synch.CallBeginWriting; Synch.CallFinishReading] _
                   eq_refl).
  vm_compute in Hall. destruct Hall as [[_ H]|[H _]]; discriminate.
Qed.

(** ** Coremap::FreePage *)

Lemma filter_length_le {A} (P Q : A -> Prop)
    `{!forall x, Decision (P x)} `{!forall x, Decision (Q x)} (l : list A) :
  (forall y, y ∈ l -> Q y -> P y) ->
  (length (filter Q l) <= length (filter P l))%nat.
Proof.
  induction l as [|a l IH]; intros Himp; [reflexivity|].
  rewrite !filter_cons.
  assert (IH' : (length (filter Q l) <= length (filter P l))%nat).
  { apply IH. intros y Hy. apply Himp. now right. }
  destruct (decide (Q a)) as [Hq|Hq].
  - destruct (decide (P a)) as [|Hpa]; [simpl; lia|].
    exfalso. apply Hpa. apply Himp; [left|exact Hq].
  - destruct (decide (P a)); simpl; lia.
Qed.

Lemma filter_length_lt {A} (P Q : A -> Prop)
    `{!forall x, Decision (P x)} `{!forall x, Decision (Q x)} (l : list A) x :
  (forall y, y ∈ l -> Q y -> P y) -> x ∈ l -> P x -> ~ Q x ->
  (length (filter Q l) < length (filter P l))%nat.
Proof.
  induction l as [|a l IH]; intros Himp Hin Hp Hq.
  - now apply elem_of_nil in Hin.
  - rewrite !filter_cons.
    assert (Himp' : forall y, y ∈ l -> Q y -> P y).
    { intros y Hy. apply Himp. now right. }
    apply elem_of_cons in Hin as [<-|Hin].
    + destruct (decide (Q x)); [contradiction|].
      destruct (decide (P x)); [|contradiction].
      pose proof (filter_length_le P Q l Himp'). simpl. lia.
    + specialize (IH Himp' Hin Hp Hq).
      destruct (decide (Q a)) as [Hqa|Hqa].
      * destruct (decide (P a)) as [|Hpa]; [simpl; lia|].
        exfalso. apply Hpa. apply Himp; [left|exact Hqa].
      * destruct (decide (P a)); simpl; lia.
Qed.

Section CoremapFacts.
Import Coremap.

Variable N : Z.
Hypothesis N_pos : 0 < N.
Hypothesis N_small : N < 2 ^ 31.

Lemma next_range v : 0 <= v < N -> 0 <= next N v < N.
Proof. intros Hv. unfold next. apply Z.mod_pos_bound. lia. Qed.

Lemma next_eq v : 0 <= v < N -> next N v = (v + 1) mod N.
Proof.
  intros Hv. unfold next. rewrite u32_small; [reflexivity|].
  unfold UINT_MODULUS. lia.
Qed.

Lemma owner_pass k o entry f : owner (pass N k o entry) f = owner k f.
Proof. reflexivity. Qed.

Lemma use_of_pass k o entry f :
  use_of (pass N k o entry) f
  = if decide (owner k f = Some o) then Some false else use_of k f.
Proof.
  unfold use_of, entry_of. rewrite owner_pass.
  destruct (owner k f) as [o'|] eqn:Ho.
  - cbn [pass set_victim set_pages pages].
    destruct (decide (Some o' = Some o)) as [[= ->]|Hne].
    + now rewrite lookup_insert_eq.
    + rewrite lookup_insert_ne by congruence. reflexivity.
  - rewrite decide_False by discriminate. reflexivity.
Qed.

Lemma resident_pass k o entry :
  resident N k -> resident N (pass N k o entry).
Proof.
  intros Hres f Hf. specialize (Hres f Hf). unfold entry_of in *.
  rewrite owner_pass. destruct (owner k f) as [o'|]; [|exact Hres].
  cbn [pass set_victim set_pages pages].
  destruct (decide (o = o')) as [->|Hne].
  - rewrite lookup_insert_eq. eauto.
  - now rewrite lookup_insert_ne.
Qed.

Lemma frames_in_use_le k n : (frames_in_use k n <= n)%nat.
Proof.
  unfold frames_in_use.
  etransitivity; [apply length_filter|]. now rewrite length_seq.
Qed.

Lemma frames_in_use_pass k o entry :
  0 <= victim k < N -> owner k (victim k) = Some o ->
  pages k !! o = Some entry -> use entry = true ->
  (frames_in_use (pass N k o entry) (Z.to_nat N)
   < frames_in_use k (Z.to_nat N))%nat.
Proof.
  intros Hv Ho He Hu. unfold frames_in_use.
  apply filter_length_lt with (x := Z.to_nat (victim k)).
  - intros y _. rewrite use_of_pass. case_decide; [discriminate|tauto].
  - apply elem_of_seq. lia.
  - rewrite Z2Nat.id by lia. unfold use_of, entry_of. rewrite Ho, He.
    cbn. now rewrite Hu.
  - rewrite Z2Nat.id by lia. rewrite use_of_pass.
    rewrite decide_True by exact Ho. discriminate.
Qed.

(** The loop of [UpdateVictim]: it ends, after [p] turns that each found
    the use bit set and cleared it, on a frame whose use bit is clear. *)
Lemma UpdateVictim_while_ends fuel k :
  resident N k -> 0 <= victim k < N ->
  (frames_in_use k (Z.to_nat N) <= fuel)%nat ->
  exists p k1,
    UpdateVictim_while N fuel k = Done k1
    /\ 0 <= p <= Z.of_nat (frames_in_use k (Z.to_nat N))
    /\ victim k1 = (victim k + p) mod N
    /\ (forall f, owner k1 f = owner k f)
    /\ physPagesMap k1 = physPagesMap k
    /\ (forall j, 0 <= j < p ->
          use_of k ((victim k + j) mod N) = Some true
          /\ use_of k1 ((victim k + j) mod N) = Some false)
    /\ use_of k1 (victim k1) = Some false
    /\ (forall f, use_of k f = Some false -> use_of k1 f = Some false)
    /\ (forall f, use_of k1 f = Some true -> use_of k f = Some true).
Proof.
  revert k. induction fuel as [|fuel IH]; intros k Hres Hv Hfuel.
  - (* no frame has its use bit set *)
    destruct (Hres (victim k) Hv) as [entry He]. unfold entry_of in He.
    destruct (owner k (victim k)) as [o|] eqn:Ho; [|discriminate].
    cbn [UpdateVictim_while]. rewrite Ho, He.
    destruct (use entry) eqn:Hu.
    + pose proof (frames_in_use_pass k o entry Hv Ho He Hu). lia.
    + exists 0, k. rewrite Z.add_0_r, Z.mod_small by lia.
      repeat split; try reflexivity; try lia; try tauto.
      unfold use_of, entry_of. rewrite Ho, He. cbn. now rewrite Hu.
  - destruct (Hres (victim k) Hv) as [entry He]. unfold entry_of in He.
    destruct (owner k (victim k)) as [o|] eqn:Ho; [|discriminate].
    cbn [UpdateVictim_while]. rewrite Ho, He.
    destruct (use entry) eqn:Hu.
    + pose proof (frames_in_use_pass k o entry Hv Ho He Hu) as Hlt.
      destruct (IH (pass N k o entry)) as
        (p & k1 & Hrun & Hp & Hvic & Hown & Hmap & Hpassed & Hstop & M1 & M2).
      { now apply resident_pass. }
      { cbn. now apply next_range. }
      { lia. }
      assert (Hk_true : use_of k (victim k) = Some true).
      { unfold use_of, entry_of. rewrite Ho, He. cbn. now rewrite Hu. }
      assert (Hshift : forall j, (next N (victim k) + j) mod N
                                 = (victim k + (j + 1)) mod N).
      { intros j. rewrite next_eq by exact Hv.
        rewrite Zplus_mod_idemp_l. f_equal. lia. }
      exists (p + 1), k1. split; [exact Hrun|]. split; [lia|].
      split; [rewrite Hvic; cbn [pass set_victim victim]; apply Hshift|].
      split; [intros f; now rewrite Hown|].
      split; [exact Hmap|]. split; [|split; [exact Hstop|split]].
      * intros j Hj. destruct (decide (j = 0)) as [->|Hj0].
        -- rewrite Z.add_0_r, Z.mod_small by lia. split; [exact Hk_true|].
           apply M1. rewrite use_of_pass. now rewrite decide_True.
        -- destruct (Hpassed (j - 1)) as [Ht Hf]; [lia|].
           cbn [pass set_victim victim] in Ht, Hf.
           rewrite Hshift in Ht, Hf.
           replace (j - 1 + 1) with j in Ht, Hf by lia.
           split; [|exact Hf].
           rewrite use_of_pass in Ht. case_decide; [discriminate|exact Ht].
      * intros f Hf. apply M1. rewrite use_of_pass.
        case_decide; [reflexivity|exact Hf].
      * intros f Hf. apply M2 in Hf. rewrite use_of_pass in Hf.
        case_decide; [discriminate|exact Hf].
    + exists 0, k. rewrite Z.add_0_r, Z.mod_small by lia.
      repeat split; try reflexivity; try lia; try tauto.
      unfold use_of, entry_of. rewrite Ho, He. cbn. now rewrite Hu.
Qed.


Lemma Test_Clear_same m v : Bitmap.Test (Bitmap.Clear v m) v = false.
Proof.
  unfold Bitmap.Test, Bitmap.Clear.
  destruct (v <? 0); [reflexivity|].
  destruct (decide (Z.to_nat v < length m)%nat) as [Hlt|Hge].
  - now rewrite list_lookup_insert_eq.
  - rewrite list_insert_ge by lia. now rewrite lookup_ge_None_2 by lia.
Qed.


End CoremapFacts.

Lemma sample_kernel_resident : Coremap.resident 2 sample_kernel.
Proof.
  intros f Hf. assert (Hcases : f = 0 \/ f = 1) by lia.
  destruct Hcases as [-> | ->]; eexists; vm_compute; reflexivity.
Defined.


(** ** FileHeader::Deallocate *)

Section DeallocateFacts.
Import Bitmap Header.

#[local] Instance only_clears_refl : Reflexive only_clears.
Proof. intros m x. tauto. Qed.

#[local] Instance only_clears_trans : Transitive only_clears.
Proof. intros a b c H1 H2 x Hx. apply H2, H1, Hx. Qed.

Lemma Clear_only_clears s m : only_clears m (Clear s m).
Proof.
  intros x Hx. unfold Test, Clear in *.
  destruct (x <? 0) eqn:Hx0; [reflexivity|].
  destruct (s <? 0) eqn:Hs0; [exact Hx|].
  destruct (decide (Z.to_nat s = Z.to_nat x)) as [Heq|Hne].
  - rewrite Heq.
    destruct (decide (Z.to_nat x < length m)%nat).
    + now rewrite list_lookup_insert_eq.
    + rewrite list_insert_ge by lia. exact Hx.
  - now rewrite list_lookup_insert_ne.
Qed.

Lemma release_Ret s m m' :
  release s m = Ret m' -> only_clears m m' /\ Test m' s = false.
Proof.
  unfold release. destruct (Test m s); cbn; [|discriminate].
  intros [= <-]. split; [apply Clear_only_clears|apply Test_Clear_same].
Qed.

(** A loop whose turns only clear bits, each turn establishing a fact
    that later clearing does not undo. *)
Lemma for_whileM_clears (c : Z -> bool)
    (body : Z -> list bool -> outcome (list bool))
    (Q : Z -> list bool -> Prop) :
  (forall i m m', Q i m -> only_clears m m' -> Q i m') ->
  (forall i m m', body i m = Ret m' -> only_clears m m' /\ Q i m') ->
  forall n lo m m',
    for_whileM n lo (fun i _ => c i) body m = Ret m' ->
    only_clears m m'
    /\ forall i, lo <= i < lo + Z.of_nat n ->
         (forall i', lo <= i' <= i -> c i' = true) -> Q i m'.
Proof.
  intros Hstable Hbody. induction n as [|n IH]; intros lo m m';
    cbn [for_whileM].
  - intros [= <-]. split; [reflexivity|]. intros i Hi. lia.
  - destruct (c lo) eqn:Hc.
    + destruct (body lo m) as [m1| |] eqn:Hb; cbn [mbind outcome_bind];
        try discriminate.
      intros Hrun. apply Hbody in Hb as [R1 Q1].
      apply IH in Hrun as [R2 Q2]. split; [now transitivity m1|].
      intros i Hi Hall. destruct (decide (i = lo)) as [->|Hne].
      * now apply (Hstable lo m1).
      * apply Q2; [lia|]. intros i' Hi'. apply Hall. lia.
    + intros [= <-]. split; [reflexivity|]. intros i Hi Hall.
      rewrite Hall in Hc by lia. discriminate.
Qed.

(** When [Deallocate] returns, it cleared every sector that it visited,
    and marked none. *)
Lemma Deallocate_released fm h fm' :
  Deallocate fm h = Ret fm' -> only_clears fm fm' /\ released h fm'.
Proof.
  unfold Deallocate.
  destruct (for_whileM _ 0 _ _ fm) as [m1| |] eqn:Hdirect;
    cbn [mbind outcome_bind]; try discriminate.
  apply (for_whileM_clears (fun _ => true)
           (fun i m => release (cell (dataSectors (raw h)) i) m)
           (fun i m => Test m (cell (dataSectors (raw h)) i) = false))
    in Hdirect as [R1 Q1].
  2:{ intros i m m' Hq Hr. now apply Hr. }
  2:{ intros i m m' Hrel. now apply release_Ret in Hrel. }
  assert (Q1' : forall i, 0 <= i < Z.min (numSectors (raw h)) NUM_DIRECT ->
                  Test m1 (cell (dataSectors (raw h)) i) = false).
  { intros i Hi. apply Q1; [lia|]. reflexivity. }
  destruct (Z.eqb_spec (indirSector (raw h)) (-1)) as [Hno|Hind];
    cbn [negb].
  { intros [= <-]. split; [exact R1|]. split; [exact Q1'|].
    intros Hne. contradiction. }
  destruct (release (u32 (indirSector (raw h))) m1) as [m2| |] eqn:Hrel;
    cbn [mbind outcome_bind]; try discriminate.
  apply release_Ret in Hrel as [R2 Q2].
  intros Hrun.
  apply (for_whileM_clears
           (fun i => negb (cell (firstIndir h) i =? -1))
           _
           (fun i m =>
              Test m (u32 (cell (firstIndir h) i)) = false
              /\ forall j, 0 <= j < NUM_INDIRECT ->
                   (forall j', 0 <= j' <= j ->
                               (cell2 (secondIndir h) i j' =? -1) = false) ->
                   Test m (u32 (cell2 (secondIndir h) i j)) = false))
    in Hrun as [R3 Q3].
  - split; [transitivity m1; [exact R1|]; now transitivity m2|].
    split.
    + intros i Hi. apply R3, R2, Q1', Hi.
    + intros _. split; [apply R3, Q2|].
      intros i Hi Hall. apply Q3.
      * rewrite Z2Nat.id by (rewrite NUM_INDIRECT_eq; lia). lia.
      * intros i' Hi'. rewrite Hall by lia. reflexivity.
  - intros i m m' [Hq1 Hq2] Hr. split; [now apply Hr|].
    intros j Hj Hall. apply Hr. now apply Hq2.
  - intros i m m'.
    destruct (release (u32 (cell (firstIndir h) i)) m) as [m3| |] eqn:Hrel';
      cbn [mbind outcome_bind]; try discriminate.
    apply release_Ret in Hrel' as [R4 Q4]. intros Hinner.
    apply (for_whileM_clears
             (fun j => negb (cell2 (secondIndir h) i j =? -1))
             (fun j m => release (u32 (cell2 (secondIndir h) i j)) m)
             (fun j m => Test m (u32 (cell2 (secondIndir h) i j)) = false))
      in Hinner as [R5 Q5].
    + split; [now transitivity m3|]. split; [apply R5, Q4|].
      intros j Hj Hall. apply Q5.
      * rewrite Z2Nat.id by (rewrite NUM_INDIRECT_eq; lia). lia.
      * intros j' Hj'. rewrite Hall by lia. reflexivity.
    + intros j m4 m5 Hq Hr. now apply Hr.
    + intros j m4 m5 Hrel5. now apply release_Ret in Hrel5.
Qed.

Lemma released_only_clears h m m' :
  released h m -> only_clears m m' -> released h m'.
Proof.
  intros [Hd Hi] Hr. split.
  - intros i Hrange. apply Hr, Hd, Hrange.
  - intros Hne. destruct (Hi Hne) as [H1 H2]. split; [apply Hr, H1|].
    intros i Hrange Hall. destruct (H2 i Hrange Hall) as [H3 H4].
    split; [apply Hr, H3|]. intros j Hj Hall'. apply Hr. now apply H4.
Qed.

End DeallocateFacts.

(** ** FileSystem *)

(** C3 on a root directory whose table is full.  [Create] of a file that
    is too large for the disk returns false after [Directory::Add] has
    grown the directory: the header of the root directory on the disk is
    no longer the one from before the call (one more sector, 160 more
    bytes), while the free map and the table on the disk are as before. *)
Theorem Create_failure_rewrites_directory_header :
  match FS.Create "/big" 200000 false full_root with
  | Ret (ok, fs') =>
      ok = false
      /\ (numBytes <$> header_on_disk (disk full_root) DIRECTORY_SECTOR)
         = Some 320
      /\ (numBytes <$> header_on_disk (disk fs') DIRECTORY_SECTOR)
         = Some 480
      /\ (numSectors <$> header_on_disk (disk full_root) DIRECTORY_SECTOR)
         = Some 3
      /\ (numSectors <$> header_on_disk (disk fs') DIRECTORY_SECTOR)
         = Some 4
      /\ freeMapBits (disk fs') = freeMapBits (disk full_root)
      /\ directories (disk fs') !! DIRECTORY_SECTOR
         = directories (disk full_root) !! DIRECTORY_SECTOR
      /\ sectors (disk fs') <> sectors (disk full_root)
  | _ => False
  end.
Proof.
  destruct (FS.Create "/big" 200000 false full_root)
    as [[ok fs']| |] eqn:E; vm_compute in E; try discriminate.
  injection E as <- <-.
  split; [reflexivity|]. split; [vm_compute; reflexivity|].
  split; [vm_compute; reflexivity|]. split; [vm_compute; reflexivity|].
  split; [vm_compute; reflexivity|]. split; [vm_compute; reflexivity|].
  split; [vm_compute; reflexivity|].
  intros Heq.
  assert (H : sectors (disk full_root) !! 1
              = sectors (disk full_root) !! 1) by reflexivity.
  rewrite <- Heq in H at 1. vm_compute in H. discriminate.
Qed.

Lemma Expand_returns fm n h :
  n <> 0 -> exists r, Header.Expand fm n h = Ret r.
Proof.
  intros Hn. unfold Header.Expand.
  destruct (Z.eqb_spec n 0); [contradiction|].
  cbn [negb ASSERT mbind outcome_bind].
  destruct (Bitmap.CountClear fm <? _); eauto.
Qed.

(** C10. [Expand] and [ExpandFile] take a growth other than zero for
    granted: with [newBytes = 0], respectively [numBytes = 0], the
    assertion at their head fails and the machine halts, where a failed
    growth returns false; and the machine halts in no other case. *)
Theorem Expand_zero_halts (fm : list bool) (h : FileHeader) (sector : Z)
    (fs : FileSystem) (n : Z) :
  (Header.Expand fm n h = Halt <-> n = 0)
  /\ (FS.ExpandFile sector n fs = Halt <-> n = 0).
Proof.
  split; split.
  - intros Hhalt. destruct (Z.eq_dec n 0) as [|Hn]; [assumption|].
    destruct (Expand_returns fm n h Hn) as [r Hr]. congruence.
  - intros ->. reflexivity.
  - intros Hhalt. destruct (Z.eq_dec n 0) as [|Hn]; [assumption|].
    exfalso. revert Hhalt. unfold FS.ExpandFile.
    destruct (Z.eqb_spec n 0); [contradiction|].
    cbn [negb ASSERT mbind outcome_bind].
    destruct (fileSynchList fs !! sector) as [fileSynch|]; [|discriminate].
    destruct (fsSynchList fs !! FREE_MAP_SECTOR); [|discriminate].
    destruct (Expand_returns (freeMapBits (disk fs)) n (hdr fileSynch) Hn)
      as [[[ok m] h'] ->].
    cbn [mbind outcome_bind]. destruct ok; discriminate.
  - intros ->. reflexivity.
Qed.

Section PathFacts.
Import FS.

Lemma list_find_last {A} (P : A -> Prop) `{!forall x, Decision (P x)}
    (l : list A) (y : A) :
  (forall x, x ∈ l -> ~ P x) -> P y ->
  list_find P (l ++ [y]) = Some (length l, y).
Proof.
  induction l as [|a l IH]; intros Hno Hy; cbn.
  - now rewrite decide_True.
  - rewrite decide_False by (apply Hno; left).
    rewrite IH; [reflexivity| |exact Hy]. intros x Hx. apply Hno. now right.
Qed.

(** [SplitPath] of a name directly under the root. *)
Lemma SplitPath_root_name name :
  name <> EmptyString -> SLASH ∉ list_ascii_of_string name ->
  SplitPath (String SLASH name) = (String SLASH EmptyString, name).
Proof.
  intros Hne Hno. unfold SplitPath. cbn [list_ascii_of_string].
  set (l := list_ascii_of_string name) in *.
  assert (Hl : l <> []).
  { intros Hnil. apply Hne. rewrite <- (string_of_list_ascii_of_string name).
    fold l. now rewrite Hnil. }
  rewrite reverse_cons.
  assert (Hrev : forall x, x ∈ reverse l -> x <> SLASH).
  { intros x Hx ->. apply Hno. now apply elem_of_reverse. }
  destruct (reverse l) as [|c rest] eqn:Hr.
  { exfalso. apply Hl. apply (f_equal reverse) in Hr.
    now rewrite reverse_involutive in Hr. }
  cbn [app]. rewrite bool_decide_eq_false_2 by (apply Hrev; left).
  cbn [andb]. unfold last_slash. rewrite reverse_cons, Hr.
  rewrite (list_find_last (fun c => c = SLASH) (c :: rest) SLASH Hrev eq_refl).
  assert (Hlen : length (c :: rest) = length l).
  { rewrite <- Hr. apply length_reverse. }
  rewrite Hlen. cbn [length].
  replace (S (length l) - 1 - length l)%nat with 0%nat by lia.
  rewrite bool_decide_eq_true_2 by reflexivity.
  cbn [drop]. rewrite drop_0. unfold l.
  now rewrite string_of_list_ascii_of_string.
Qed.

(** The walk of [FindDirectory] opens directories and does nothing else. *)
Lemma FindDirectory_while_frame toks dsec fs r fs1 :
  FindDirectory_while toks dsec fs = Ret (r, fs1) ->
  disk fs1 = disk fs /\ fileSynchList fs1 = fileSynchList fs
  /\ currentDir fs1 = currentDir fs
  /\ (forall k v, fsSynchList fs !! k = Some v ->
                  fsSynchList fs1 !! k = Some v).
Proof.
  revert dsec fs. induction toks as [|token toks IH]; intros dsec fs;
    cbn [FindDirectory_while].
  - intros [= <- <-]. auto.
  - destruct (fsSynchList fs !! dsec) as [dirSynch|]; [|discriminate].
    destruct (Directory.FetchFrom (disk fs) dirSynch) as [dir| |];
      cbn [mbind outcome_bind]; try discriminate.
    destruct (Directory.IsDir dir token); cbn [negb].
    + intros Hrun. apply IH in Hrun as (Hd & Hf & Hc & Hl).
      destruct (fsSynchList fs !! Directory.Find dir token) eqn:Hsec.
      * auto.
      * cbn in Hd, Hf, Hc, Hl. repeat split; try assumption.
        intros k v Hk. apply Hl.
        rewrite lookup_insert_ne; [exact Hk|congruence].
    + intros [= <- <-]. auto.
Qed.

Lemma FindDirectory_frame dirPath fs r fs1 :
  FindDirectory dirPath fs = Ret (r, fs1) ->
  disk fs1 = disk fs /\ fileSynchList fs1 = fileSynchList fs
  /\ currentDir fs1 = currentDir fs
  /\ (forall k v, fsSynchList fs !! k = Some v ->
                  fsSynchList fs1 !! k = Some v).
Proof.
  unfold FindDirectory.
  destruct (ASSERT _); cbn [mbind outcome_bind]; try discriminate.
  apply FindDirectory_while_frame.
Qed.

Lemma FindDirectory_root fs :
  is_Some (fsSynchList fs !! DIRECTORY_SECTOR) ->
  FindDirectory (String SLASH EmptyString) fs
  = Ret (Some DIRECTORY_SECTOR, fs).
Proof.
  intros Hroot. unfold FindDirectory. cbn [list_ascii_of_string].
  rewrite bool_decide_eq_true_2 by reflexivity.
  rewrite (bool_decide_eq_true_2 _ Hroot). reflexivity.
Qed.

Lemma swap_name_not_empty name : swap_name name = true -> name <> EmptyString.
Proof. intros H ->. discriminate. Qed.

(** The walk does not look at the registry of files. *)
Lemma FindDirectory_while_files l toks dsec fs r fs1 :
  FindDirectory_while toks dsec fs = Ret (r, fs1) ->
  FindDirectory_while toks dsec (set_fileSynchList l fs)
  = Ret (r, set_fileSynchList l fs1).
Proof.
  revert dsec fs. induction toks as [|token toks IH]; intros dsec fs;
    cbn [FindDirectory_while].
  - intros [= <- <-]. reflexivity.
  - cbn [set_fileSynchList fsSynchList disk].
    destruct (fsSynchList fs !! dsec) as [dirSynch|]; [|discriminate].
    destruct (Directory.FetchFrom (disk fs) dirSynch) as [dir| |];
      cbn [mbind outcome_bind]; try discriminate.
    destruct (Directory.IsDir dir token); cbn [negb].
    + destruct (fsSynchList fs !! Directory.Find dir token); apply IH.
    + intros [= <- <-]. reflexivity.
Qed.

Lemma FindDirectory_files l dirPath fs r fs1 :
  FindDirectory dirPath fs = Ret (r, fs1) ->
  FindDirectory dirPath (set_fileSynchList l fs)
  = Ret (r, set_fileSynchList l fs1).
Proof.
  unfold FindDirectory. cbn [set_fileSynchList fsSynchList currentDir].
  destruct (ASSERT _); cbn [mbind outcome_bind]; try discriminate.
  apply FindDirectory_while_files.
Qed.

Lemma names_file_files l path sector fs dirSynch dir :
  names_file path sector fs dirSynch dir ->
  names_file path sector (set_fileSynchList l fs) dirSynch dir.
Proof.
  intros (dsec & fs1 & Hfind & Hrec & Hrest).
  exists dsec, (set_fileSynchList l fs1).
  split; [now apply FindDirectory_files|]. split; [exact Hrec|exact Hrest].
Qed.

(** What [Directory::Find] returns is an [int]. *)
Lemma Directory_Find_range table name :
  - 2 ^ 31 <= Directory.Find table name < 2 ^ 31.
Proof.
  unfold Directory.Find.
  destruct (negb (Directory.FindIndex table name =? -1));
    [apply to_int_range|lia].
Qed.

(** [Remove] of a file that some thread has open. *)
Lemma Remove_open_file path sector fs dirSynch dir s :
  names_file path sector fs dirSynch dir ->
  fileSynchList fs !! sector = Some s ->
  exists fs',
    Remove path fs = Ret (true, fs')
    /\ disk fs' = disk fs
    /\ fileSynchList fs' !! sector = Some (Synch.SetToRemove s).
Proof.
  intros (dsec & fs1 & Hfind & Hrec & Hfetch & Hsec & Hpos & Hisdir) Hopen.
  destruct (FindDirectory_frame _ _ _ _ Hfind) as (Hd & Hf & _ & _).
  unfold Remove. destruct (SplitPath path) as [dirPath name].
  cbn [fst snd] in *. rewrite Hfind. cbn [mbind outcome_bind].
  rewrite Hrec, Hd, Hfetch. cbn [mbind outcome_bind]. rewrite Hsec, Hisdir.
  destruct (Z.eqb_spec sector (-1)); [lia|].
  rewrite Hf, Hopen. eexists. split; [reflexivity|].
  cbn [set_fileSynchList disk fileSynchList]. split; [exact Hd|].
  apply lookup_insert_eq.
Qed.

(** [Open] of a file whose record is flagged for removal. *)
Lemma Open_flagged path sector g dirSynch dir t :
  names_file path sector g dirSynch dir ->
  fileSynchList g !! sector = Some t -> beingRemoved t = true ->
  exists g',
    Open path g = Ret (None, g')
    /\ disk g' = disk g
    /\ fileSynchList g' !! sector = Some t.
Proof.
  intros (dsec & fs1 & Hfind & Hrec & Hfetch & Hsec & Hpos & Hisdir)
         Hopen Hflag.
  destruct (FindDirectory_frame _ _ _ _ Hfind) as (Hd & Hf & _ & _).
  unfold Open. destruct (SplitPath path) as [dirPath name].
  cbn [fst snd] in *. rewrite Hfind. cbn [mbind outcome_bind].
  rewrite Hrec, Hd, Hfetch. cbn [mbind outcome_bind]. rewrite Hsec, Hisdir.
  destruct (Z.geb_spec sector 0); [|lia]. cbn [andb negb].
  rewrite Hf, Hopen. unfold Synch.FileOpened. rewrite Hflag. cbn [negb].
  eexists. split; [reflexivity|].
  cbn [set_fileSynchList disk fileSynchList]. split; [exact Hd|].
  apply lookup_insert_eq.
Qed.

(** Closing a handle that is not the last one. *)
Lemma Close_not_last sector g t :
  fileSynchList g !! sector = Some t -> 1 < opened t < UINT_MODULUS ->
  exists g',
    Close sector g = Ret g'
    /\ disk g' = disk g
    /\ fileSynchList g' !! sector
       = Some (Synch.set_opened (opened t - 1) t).
Proof.
  intros Hopen Hn. unfold Close. rewrite Hopen. unfold Synch.FileClosed.
  rewrite (u32_small (opened t - 1)) by lia.
  cbn [opened Synch.set_opened].
  destruct (Z.eqb_spec (opened t - 1) 0); [lia|].
  eexists. split; [reflexivity|]. split; [reflexivity|].
  apply lookup_insert_eq.
Qed.

(** [Remove] of a file that no thread has open. *)
Lemma Remove_unopened path sector fs dirSynch dir fm' :
  names_file path sector fs dirSynch dir ->
  fileSynchList fs !! sector = None ->
  reclaimable sector fs dirSynch dir fm' ->
  exists fs',
    Remove path fs = Ret (true, fs')
    /\ fileSynchList fs' = fileSynchList fs
    /\ freeMapBits (disk fs') = Bitmap.Clear sector fm'
    /\ sectors (disk fs') = sectors (disk fs)
    /\ directories (disk fs')
       = <[hdrSector dirSynch :=
             snd (Directory.Remove dir (snd (SplitPath path)))]>
           (directories (disk fs)).
Proof.
  intros (dsec & fs1 & Hfind & Hrec & Hfetch & Hsec & Hpos & Hisdir)
         Hclosed ([fmSynch Hmap] & Hdealloc & Hlen).
  destruct (FindDirectory_frame _ _ _ _ Hfind) as (Hd & Hf & _ & Hmono).
  unfold Remove. destruct (SplitPath path) as [dirPath name].
  cbn [fst snd] in *. rewrite Hfind. cbn [mbind outcome_bind].
  rewrite Hrec, Hd, Hfetch. cbn [mbind outcome_bind]. rewrite Hsec, Hisdir.
  destruct (Z.eqb_spec sector (-1)); [lia|].
  rewrite Hf, Hclosed. unfold Remove_reclaim.
  assert (Hu : u32 sector = sector).
  { apply u32_small. pose proof (Directory_Find_range dir name) as Hr.
    rewrite Hsec in Hr. unfold UINT_MODULUS. lia. }
  rewrite Hu, (Hmono _ _ Hmap), Hd, Hdealloc. cbn [mbind outcome_bind].
  unfold Directory.WriteBack.
  assert (Hlen' : length (Directory.Remove dir name).2 = length dir).
  { unfold Directory.Remove.
    destruct (Directory.FindIndex dir name =? -1); [reflexivity|].
    cbn [snd]. apply length_alter. }
  rewrite Hlen', Hlen, Z.eqb_refl. cbn [ASSERT mbind outcome_bind].
  eexists. split; [reflexivity|].
  cbn [set_disk disk fileSynchList freeMapBits sectors directories
       set_freeMapBits].
  auto.
Qed.

(** Closing the last handle of a file that is flagged for removal. *)
Lemma Close_last sector g t dirSynch dir fm' :
  fileSynchList g !! sector = Some t ->
  beingRemoved t = true -> opened t = 1 ->
  names_file (filepath t) sector g dirSynch dir ->
  reclaimable sector g dirSynch dir fm' ->
  exists g',
    Close sector g = Ret g'
    /\ fileSynchList g' !! sector = None
    /\ freeMapBits (disk g') = Bitmap.Clear sector fm'
    /\ Bitmap.Test (freeMapBits (disk g')) sector = false
    /\ released (HeaderIO.FetchFrom (disk g) sector Header.blank)
         (freeMapBits (disk g'))
    /\ only_clears (freeMapBits (disk g)) (freeMapBits (disk g'))
    /\ sectors (disk g') = sectors (disk g)
    /\ directories (disk g')
       = <[hdrSector dirSynch :=
             snd (Directory.Remove dir (snd (SplitPath (filepath t))))]>
           (directories (disk g)).
Proof.
  intros Hopen Hflag Hone Hnames Hrec.
  unfold Close. rewrite Hopen. unfold Synch.FileClosed, Synch.ReadyToRemove.
  rewrite Hone. change (u32 (1 - 1)) with 0.
  cbn [opened beingRemoved filepath Synch.set_opened]. rewrite Hflag.
  change (0 =? 0) with true. cbn [andb].
  set (g0 := set_fileSynchList (delete sector (fileSynchList g)) g).
  destruct (Remove_unopened (filepath t) sector g0 dirSynch dir fm')
    as (g' & Hrun & Hfiles & Hmap & Hsecs & Hdirs).
  { now apply names_file_files. }
  { apply lookup_delete_eq. }
  { exact Hrec. }
  rewrite Hrun. cbn [mbind outcome_bind]. exists g'.
  destruct Hrec as (_ & Hdealloc & _).
  apply Deallocate_released in Hdealloc as [Hclr Hrel].
  split; [reflexivity|]. split.
  { rewrite Hfiles. apply lookup_delete_eq. }
  split; [exact Hmap|]. rewrite Hmap.
  split; [apply Test_Clear_same|]. split.
  { eapply released_only_clears; [exact Hrel|apply Clear_only_clears]. }
  split; [|split; [exact Hsecs|exact Hdirs]].
  intros x Hx. apply Clear_only_clears, Hclr, Hx.
Qed.

(** A second walk along the same path, in a state that has the same
    disk and every record that the first walk left: it arrives at the
    same directory and adds no record. *)
Lemma FindDirectory_while_again toks dsec fs r fs1 g :
  FindDirectory_while toks dsec fs = Ret (r, fs1) ->
  disk g = disk fs ->
  (forall k v, fsSynchList fs1 !! k = Some v ->
               fsSynchList g !! k = Some v) ->
  FindDirectory_while toks dsec g = Ret (r, g).
Proof.
  revert dsec fs. induction toks as [|token toks IH]; intros dsec fs;
    cbn [FindDirectory_while].
  - intros [= <- <-] _ _. reflexivity.
  - intros Hrun Hdisk Hsup.
    assert (Hmono : forall k v, fsSynchList fs !! k = Some v ->
                                fsSynchList g !! k = Some v).
    { intros k v Hk. apply Hsup.
      assert (Hw : FindDirectory_while (token :: toks) dsec fs
                   = Ret (r, fs1)) by exact Hrun.
      apply FindDirectory_while_frame in Hw as (_ & _ & _ & Hl).
      now apply Hl. }
    destruct (fsSynchList fs !! dsec) as [dirSynch|] eqn:Hds;
      [|discriminate].
    rewrite (Hmono _ _ Hds), Hdisk.
    destruct (Directory.FetchFrom (disk fs) dirSynch) as [dir| |];
      cbn [mbind outcome_bind] in *; try discriminate.
    destruct (Directory.IsDir dir token); cbn [negb] in *.
    + set (fs2 := match fsSynchList fs !! Directory.Find dir token with
                  | Some _ => fs
                  | None => _
                  end) in Hrun.
      assert (Hrec : is_Some (fsSynchList fs2 !! Directory.Find dir token)).
      { subst fs2.
        destruct (fsSynchList fs !! Directory.Find dir token) eqn:E.
        - rewrite E. eauto.
        - cbn [set_fsSynchList fsSynchList]. rewrite lookup_insert_eq.
          eauto. }
      destruct Hrec as [v Hv].
      pose proof (FindDirectory_while_frame _ _ _ _ _ Hrun)
        as (_ & _ & _ & Hl).
      rewrite (Hsup _ _ (Hl _ _ Hv)).
      apply (IH _ fs2); [exact Hrun| |exact Hsup].
      rewrite Hdisk. subst fs2.
      now destruct (fsSynchList fs !! Directory.Find dir token).
    + injection Hrun as <- _. reflexivity.
Qed.

Lemma FindDirectory_again dirPath fs r fs1 g :
  FindDirectory dirPath fs = Ret (r, fs1) ->
  disk g = disk fs -> currentDir g = currentDir fs ->
  (forall k v, fsSynchList fs1 !! k = Some v ->
               fsSynchList g !! k = Some v) ->
  FindDirectory dirPath g = Ret (r, g).
Proof.
  unfold FindDirectory. intros Hrun Hdisk Hcur Hsup. rewrite Hcur.
  set (dsec := match list_ascii_of_string dirPath with
               | [] => currentDir fs
               | c :: _ => _
               end) in *.
  destruct (bool_decide (is_Some (fsSynchList fs !! dsec))) eqn:Hroot;
    cbn [ASSERT mbind outcome_bind] in Hrun; [|discriminate].
  apply bool_decide_eq_true_1 in Hroot as [v Hv].
  pose proof (FindDirectory_while_frame _ _ _ _ _ Hrun) as (_ & _ & _ & Hl).
  rewrite bool_decide_eq_true_2 by (rewrite (Hsup _ _ (Hl _ _ Hv)); eauto).
  cbn [ASSERT mbind outcome_bind].
  now apply (FindDirectory_while_again _ _ fs _ fs1).
Qed.

(** A path that names a file names it in every state with the same disk
    and current directory that has the records of the directories on the
    path. *)
Lemma names_file_again path sector fs dirSynch dir dsec fs1 g :
  FindDirectory (fst (SplitPath path)) fs = Ret (Some dsec, fs1) ->
  names_file path sector fs dirSynch dir ->
  disk g = disk fs -> currentDir g = currentDir fs ->
  (forall k v, fsSynchList fs1 !! k = Some v ->
               fsSynchList g !! k = Some v) ->
  names_file path sector g dirSynch dir.
Proof.
  intros Hfind (dsec' & fs1' & Hfind' & Hrec & Hfetch & Hrest)
         Hdisk Hcur Hsup.
  rewrite Hfind in Hfind'. injection Hfind' as <- <-.
  exists dsec, g.
  split; [now apply (FindDirectory_again _ fs _ fs1)|].
  split; [now apply Hsup|]. split; [now rewrite Hdisk|exact Hrest].
Qed.

(** The state that [Remove] of an open file leaves: the one after the
    walk to the directory, with the record flagged. *)
Lemma Remove_open_file_state path sector fs dirSynch dir s :
  names_file path sector fs dirSynch dir ->
  fileSynchList fs !! sector = Some s ->
  exists fs',
    Remove path fs = Ret (true, fs')
    /\ disk fs' = disk fs
    /\ fileSynchList fs' !! sector = Some (Synch.SetToRemove s)
    /\ names_file path sector fs' dirSynch dir
    /\ (forall k v, fsSynchList fs !! k = Some v ->
                    fsSynchList fs' !! k = Some v).
Proof.
  intros Hnames Hopen. pose proof Hnames as Hnames'.
  destruct Hnames as
    (dsec & fs1 & Hfind & Hrec & Hfetch & Hsec & Hpos & Hisdir).
  destruct (FindDirectory_frame _ _ _ _ Hfind) as (Hd & Hf & Hc & Hmono).
  unfold Remove. destruct (SplitPath path) as [dirPath name] eqn:Hsplit.
  cbn [fst snd] in *. rewrite Hfind. cbn [mbind outcome_bind].
  rewrite Hrec, Hd, Hfetch. cbn [mbind outcome_bind]. rewrite Hsec, Hisdir.
  destruct (Z.eqb_spec sector (-1)); [lia|].
  rewrite Hf, Hopen. eexists. split; [reflexivity|].
  cbn [set_fileSynchList disk fileSynchList fsSynchList].
  split; [exact Hd|]. split; [apply lookup_insert_eq|].
  split; [|exact Hmono].
  apply (names_file_again path sector fs dirSynch dir dsec fs1).
  - rewrite Hsplit. exact Hfind.
  - exact Hnames'.
  - exact Hd.
  - exact Hc.
  - auto.
Qed.

(** The state that a close leaves when it is not the last one. *)
Lemma Close_not_last_state sector g t :
  fileSynchList g !! sector = Some t -> 1 < opened t < UINT_MODULUS ->
  Close sector g
  = Ret (set_fileSynchList
           (<[sector := Synch.set_opened (opened t - 1) t]>
              (fileSynchList g)) g).
Proof.
  intros Hopen Hn. unfold Close. rewrite Hopen. unfold Synch.FileClosed.
  rewrite (u32_small (opened t - 1)) by lia.
  cbn [opened Synch.set_opened].
  destruct (Z.eqb_spec (opened t - 1) 0); [lia|]. reflexivity.
Qed.

(** All the closes of a file that is flagged for removal, from a state
    in which the path of the record names the file: the disk stays as it
    is up to the last close, which reclaims the file. *)
Lemma Close_times_flagged sector dirSynch dir fm' (k : nat) :
  forall g t,
    fileSynchList g !! sector = Some t -> beingRemoved t = true ->
    opened t = Z.of_nat (S k) -> opened t < UINT_MODULUS ->
    names_file (filepath t) sector g dirSynch dir ->
    reclaimable sector g dirSynch dir fm' ->
    (forall j, (j < S k)%nat ->
       exists gj,
         Close_times j sector g = Ret gj
         /\ disk gj = disk g
         /\ (opened <$> fileSynchList gj !! sector)
            = Some (opened t - Z.of_nat j))
    /\ exists g',
         Close_times (S k) sector g = Ret g'
         /\ fileSynchList g' !! sector = None
         /\ freeMapBits (disk g') = Bitmap.Clear sector fm'
         /\ Bitmap.Test (freeMapBits (disk g')) sector = false
         /\ released (HeaderIO.FetchFrom (disk g) sector Header.blank)
              (freeMapBits (disk g'))
         /\ only_clears (freeMapBits (disk g)) (freeMapBits (disk g')).
Proof.
  induction k as [|k IH]; intros g t Hopen Hflag Hn Hlt Hnames Hrec.
  - split.
    + intros j Hj. assert (j = 0%nat) as -> by lia. exists g.
      cbn [Close_times]. split; [reflexivity|]. split; [reflexivity|].
      rewrite Hopen. cbn. f_equal. lia.
    + destruct (Close_last sector g t dirSynch dir fm' Hopen Hflag
                  ltac:(lia) Hnames Hrec)
        as (g' & Hrun & Hgone & Hmap & Htest & Hrel & Hclr & _).
      exists g'. cbn [Close_times]. rewrite Hrun. cbn [mbind outcome_bind].
      auto 10.
  - pose proof (Close_not_last_state sector g t Hopen ltac:(lia)) as Hrun.
    set (t1 := Synch.set_opened (opened t - 1) t) in *.
    set (g1 := set_fileSynchList _ g) in *.
    destruct (IH g1 t1) as (Hbefore & g' & Hlast & Hrest).
    + unfold g1. cbn [set_fileSynchList fileSynchList].
      apply lookup_insert_eq.
    + exact Hflag.
    + unfold t1. cbn [Synch.set_opened opened]. lia.
    + unfold t1. cbn [Synch.set_opened opened]. lia.
    + unfold g1, t1. cbn [Synch.set_opened filepath].
      now apply names_file_files.
    + exact Hrec.
    + split.
      * intros [|j] Hj.
        -- exists g. cbn [Close_times]. split; [reflexivity|].
           split; [reflexivity|]. rewrite Hopen. cbn. f_equal. lia.
        -- destruct (Hbefore j ltac:(lia)) as (gj & Hj1 & Hj2 & Hj3).
           exists gj. cbn [Close_times]. rewrite Hrun.
           cbn [mbind outcome_bind]. split; [exact Hj1|].
           split; [exact Hj2|]. rewrite Hj3. unfold t1.
           cbn [Synch.set_opened opened]. f_equal. lia.
      * exists g'. cbn [Close_times] in *. rewrite Hrun.
        cbn [mbind outcome_bind]. split; [exact Hlast|exact Hrest].
Qed.

Lemma strn_short n s :
  Z.of_nat (String.length s) <= n -> strn n s = s.
Proof.
  intros H. unfold strn.
  assert (Hn : (String.length s <= Z.to_nat n)%nat) by lia.
  clear H. revert Hn. generalize (Z.to_nat n) as m.
  induction s as [|c s IH]; intros [|m] Hm; cbn in *; try reflexivity;
    try lia.
  f_equal. apply IH. lia.
Qed.

(** [Open] of a file that no thread has open: the record that it makes
    keeps the path of the call. *)
Lemma Open_unopened path sector g dirSynch dir :
  names_file path sector g dirSynch dir ->
  fileSynchList g !! sector = None ->
  exists g',
    Open path g = Ret (Some sector, g')
    /\ disk g' = disk g
    /\ fileSynchList g' !! sector
       = Some (Synch.fresh (strn PATH_NAME_MAX_LEN path)
                 (HeaderIO.FetchFrom (disk g) sector Header.blank)).
Proof.
  intros (dsec & fs1 & Hfind & Hrec & Hfetch & Hsec & Hpos & Hisdir) Hnone.
  destruct (FindDirectory_frame _ _ _ _ Hfind) as (Hd & Hf & _ & _).
  unfold Open. destruct (SplitPath path) as [dirPath name].
  cbn [fst snd] in *. rewrite Hfind. cbn [mbind outcome_bind].
  rewrite Hrec, Hd, Hfetch. cbn [mbind outcome_bind]. rewrite Hsec, Hisdir.
  destruct (Z.geb_spec sector 0); [|lia]. cbn [andb negb].
  rewrite Hf, Hnone. eexists. split; [reflexivity|].
  cbn [set_fileSynchList disk fileSynchList]. split; [exact Hd|].
  apply lookup_insert_eq.
Qed.

End PathFacts.

(** The part of [Create] under the lock, for a file: when it returns, it
    returns false for one of the reasons of the head comment and for no
    other reason. *)
Lemma Create_locked_file_outcome dsec name initialSize fs dirSynch dir
    ok fs' :
  fsSynchList fs !! dsec = Some dirSynch ->
  Directory.FetchFrom (disk fs) dirSynch = Ret dir ->
  FS.Create_locked dsec name initialSize false fs = Ret (ok, fs') ->
  ok = false <-> ordinary_failure name initialSize dirSynch dir (disk fs).
Proof.
  intros Hds Hfetch. unfold FS.Create_locked. rewrite Hds.
  destruct (fsSynchList fs !! FREE_MAP_SECTOR); [|discriminate].
  rewrite Hfetch. cbn [mbind outcome_bind].
  destruct (Z.eqb_spec (Directory.Find dir name) (-1)) as [Hfind|Hfind];
    cbn [negb].
  2: { intros [= Hok _]; subst ok. split; [intros _|reflexivity].
       now apply already_in_directory. }
  pose proof (Find_fails (freeMapBits (disk fs))) as Hff.
  destruct (Bitmap.Find (freeMapBits (disk fs))) as [sector fm] eqn:Efind.
  cbn [fst snd] in Hff.
  destruct (Z.eqb_spec sector (-1)) as [Hsec|Hsec].
  { intros [= Hok _]; subst ok. split; [intros _|reflexivity].
    apply no_header_sector. now apply Hff. }
  assert (Hclear : Bitmap.CountClear (freeMapBits (disk fs)) <> 0).
  { intros H. apply Hff in H. contradiction. }
  destruct (Directory.Add dir name sector false fm dirSynch (disk fs))
    as [[[[[added dir'] fm'] ds'] d']| |] eqn:Eadd;
    cbn [mbind outcome_bind]; [|discriminate|discriminate].
  assert (Hreasons :
            forall P : Prop,
              (added = false -> P) ->
              (added = true ->
               fst (fst (Header.Allocate fm' initialSize Header.blank))
               = false -> P) ->
              ordinary_failure name initialSize dirSynch dir (disk fs) -> P).
  { intros P H3 H4 [H|H|a b c e H|a b c e H Ha]; try contradiction;
      rewrite Efind in H; cbn [fst snd] in H; rewrite Eadd in H;
      injection H as E1 E2 E3 E4 E5; subst a b c e.
    - now apply H3.
    - now apply H4. }
  destruct added; cbn [negb].
  2: { intros [= Hok _]; subst ok. split; [intros _|reflexivity].
       eapply no_directory_entry. rewrite Efind. cbn [fst snd].
       exact Eadd. }
  destruct (Header.Allocate fm' initialSize Header.blank)
    as [[success fm2] h] eqn:Ealloc.
  cbn [fst] in Hreasons.
  destruct success.
  - intros Hrun.
    assert (Hok : ok = true).
    { destruct (Directory.WriteBack dir' ds' _) as [d2| |];
        cbn [mbind outcome_bind] in Hrun; try discriminate.
      injection Hrun as Hok _. now subst ok. }
    rewrite Hok. split; [discriminate|].
    apply Hreasons; intros; discriminate.
  - intros [= Hok _]; subst ok. split; [intros _|reflexivity].
    eapply no_data_space.
    + rewrite Efind. cbn [fst snd]. exact Eadd.
    + rewrite Ealloc. reflexivity.
Qed.

(** [Add] comes back, and a table that fills the directory file still
    does so after a successful [Add], also when the directory grew. *)
Lemma Add_file_length table name sector isDir fm ds d :
  Header.FileLength (openFile ds)
  = u32 (Z.of_nat (length table) * DirectoryEntry.size) ->
  exists ok table' fm' ds' d',
    Directory.Add table name sector isDir fm ds d
    = Ret (ok, table', fm', ds', d')
    /\ (ok = true ->
        Header.FileLength (openFile ds')
        = u32 (Z.of_nat (length table') * DirectoryEntry.size)).
Proof.
  intros Hlen. unfold Directory.Add.
  destruct (Z.eqb_spec (Directory.FindIndex table name) (-1)) as [Hm|Hm];
    cbn [negb].
  2:{ exists false, table, fm, ds, d. split; [reflexivity|discriminate]. }
  destruct (list_find _ table) as [[i e0]|] eqn:Hfree.
  { eexists true, _, _, _, _. split; [reflexivity|]. intros _.
    unfold Directory.fill. rewrite length_insert. exact Hlen. }
  unfold Directory.ExpandDirectory.
  destruct (Expand_returns fm (u32 (NEW_DIR_ENTRIES * DirectoryEntry.size))
              (openFile ds)) as [[[ok fm1] h1] Hexp]; [discriminate|].
  rewrite Hexp. cbn [mbind outcome_bind].
  destruct ok; cbn [mbind outcome_bind].
  - rewrite lookup_app_r by lia. rewrite Nat.sub_diag.
    cbn [negb ASSERT mbind outcome_bind default fmap option_fmap option_map
         lookup list_lookup replicate Z.to_nat NEW_DIR_ENTRIES Pos.to_nat
         Pos.iter_op Nat.add DirectoryEntry.unused DirectoryEntry.inUse].
    eexists true, _, _, _, _. split; [reflexivity|]. intros _.
    cbn [openFile]. unfold Directory.fill.
    rewrite length_insert, length_app, length_replicate, Nat2Z.inj_add.
    change (Z.of_nat (Z.to_nat NEW_DIR_ENTRIES)) with 5.
    assert (Hnb : numBytes (raw h1)
                  = u32 (numBytes (raw (openFile ds))
                         + u32 (NEW_DIR_ENTRIES * DirectoryEntry.size))).
    { revert Hexp. unfold Header.Expand.
      destruct (negb _); cbn [ASSERT mbind outcome_bind]; [|discriminate].
      destruct (Bitmap.CountClear fm <? _); [discriminate|].
      intros [= _ <-]. apply Expand_claim_counts. }
    unfold Header.FileLength in *. rewrite Hnb, Hlen.
    change (u32 (NEW_DIR_ENTRIES * DirectoryEntry.size)) with 160.
    unfold u32. rewrite Zplus_mod_idemp_l. f_equal.
    unfold DirectoryEntry.size. lia.
  - eexists false, _, _, _, _. split; [reflexivity|discriminate].
Qed.

(** The part of [Create] under the lock comes back for a file, when the
    free map is registered and the table fills the directory file. *)
Lemma Create_locked_file_returns dsec name initialSize fs dirSynch dir :
  fsSynchList fs !! dsec = Some dirSynch ->
  is_Some (fsSynchList fs !! FREE_MAP_SECTOR) ->
  Directory.FetchFrom (disk fs) dirSynch = Ret dir ->
  Header.FileLength (openFile dirSynch)
  = u32 (Z.of_nat (length dir) * DirectoryEntry.size) ->
  exists ok fs',
    FS.Create_locked dsec name initialSize false fs = Ret (ok, fs').
Proof.
  intros Hds [fmSynch Hfm] Hfetch Hlen. unfold FS.Create_locked.
  rewrite Hds, Hfm, Hfetch. cbn [mbind outcome_bind].
  destruct (negb (Directory.Find dir name =? -1)); [eauto|].
  destruct (Bitmap.Find (freeMapBits (disk fs))) as [sector fm].
  destruct (sector =? -1); [eauto|].
  destruct (Add_file_length dir name sector false fm dirSynch (disk fs) Hlen)
    as (added & dir' & fm' & ds' & d' & -> & Hlen').
  cbn [mbind outcome_bind].
  destruct added; cbn [negb]; [|eauto].
  destruct (Header.Allocate fm' initialSize Header.blank)
    as [[success fm2] h].
  destruct success; [|eauto].
  unfold Directory.WriteBack. rewrite (Hlen' eq_refl), Z.eqb_refl.
  cbn [ASSERT mbind outcome_bind]. eauto.
Qed.

(** C7. When the path of [Create] leads into the root directory and its
    last component begins with [SWAP.], the call with [isDir] set returns
    false without touching the disk, and the call with [isDir] clear
    goes on to the part of [Create] that every other name goes through,
    where it returns false only for one of the reasons that the comment
    at the head of [Create] lists, and for each of them; it does return
    when the free map is registered and the table of the root directory
    fills the directory file.  A path made of [/] and such a name leads
    into the root directory. *)
Theorem Create_reserved_prefix (fs fs1 : FileSystem)
    (path dirPath name : string) (initialSize : Z) :
  FS.SplitPath path = (dirPath, name) ->
  FS.FindDirectory dirPath fs = Ret (Some DIRECTORY_SECTOR, fs1) ->
  FS.swap_name name = true ->
  FS.Create path initialSize true fs = Ret (false, fs1)
  /\ disk fs1 = disk fs
  /\ FS.Create path initialSize false fs
     = FS.Create_locked DIRECTORY_SECTOR name initialSize false fs1
  /\ (FS.SLASH ∉ list_ascii_of_string name ->
      is_Some (fsSynchList fs !! DIRECTORY_SECTOR) ->
      FS.SplitPath (String FS.SLASH name) = (String FS.SLASH EmptyString, name)
      /\ FS.FindDirectory (String FS.SLASH EmptyString) fs
         = Ret (Some DIRECTORY_SECTOR, fs))
  /\ (forall dirSynch dir ok fs',
        fsSynchList fs1 !! DIRECTORY_SECTOR = Some dirSynch ->
        Directory.FetchFrom (disk fs1) dirSynch = Ret dir ->
        FS.Create path initialSize false fs = Ret (ok, fs') ->
        ok = false
        <-> ordinary_failure name initialSize dirSynch dir (disk fs1))
  /\ (forall dirSynch dir,
        fsSynchList fs1 !! DIRECTORY_SECTOR = Some dirSynch ->
        is_Some (fsSynchList fs1 !! FREE_MAP_SECTOR) ->
        Directory.FetchFrom (disk fs1) dirSynch = Ret dir ->
        Header.FileLength (openFile dirSynch)
        = u32 (Z.of_nat (length dir) * DirectoryEntry.size) ->
        exists ok fs',
          FS.Create path initialSize false fs = Ret (ok, fs')
          /\ (ok = false
              <-> ordinary_failure name initialSize dirSynch dir
                    (disk fs1))).
Proof.
  intros Hsplit Hfind Hswap.
  split; [|split; [|split; [|split; [|split]]]].
  - unfold FS.Create. rewrite Hsplit, Hfind. cbn [mbind outcome_bind].
    now rewrite Hswap.
  - now apply FindDirectory_frame in Hfind as (Hd & _).
  - unfold FS.Create. rewrite Hsplit, Hfind. reflexivity.
  - intros Hno Hroot. split.
    + apply SplitPath_root_name; [now apply swap_name_not_empty|exact Hno].
    + now apply FindDirectory_root.
  - intros dirSynch dir ok fs' Hds Hfetch Hrun.
    apply (Create_locked_file_outcome DIRECTORY_SECTOR name initialSize fs1
             dirSynch dir ok fs' Hds Hfetch).
    rewrite <- Hrun. unfold FS.Create. rewrite Hsplit, Hfind. reflexivity.
  - intros dirSynch dir Hds Hfm Hfetch Hlen.
    destruct (Create_locked_file_returns DIRECTORY_SECTOR name initialSize
                fs1 dirSynch dir Hds Hfm Hfetch Hlen) as (ok & fs' & Hrun).
    exists ok, fs'.
    assert (Hcreate : FS.Create path initialSize false fs = Ret (ok, fs')).
    { rewrite <- Hrun. unfold FS.Create. rewrite Hsplit, Hfind.
      reflexivity. }
    split; [exact Hcreate|].
    now apply (Create_locked_file_outcome DIRECTORY_SECTOR name initialSize
                 fs1 dirSynch dir ok fs' Hds Hfetch).
Qed.

(** On the formatted disk, [/SWAP.0] is refused as a directory and
    created as a file, for which none of the reasons to fail holds. *)
Lemma Create_reserved_prefix_witness :
  FS.Create "/SWAP.0" 0 true formatted = Ret (false, formatted)
  /\ match FS.Create "/SWAP.0" 0 false formatted with
     | Ret (ok, _) => ok = true
     | _ => False
     end
  /\ match fsSynchList formatted !! DIRECTORY_SECTOR with
     | Some dirSynch =>
         match Directory.FetchFrom (disk formatted) dirSynch with
         | Ret dir =>
             ~ ordinary_failure "SWAP.0" 0 dirSynch dir (disk formatted)
         | _ => False
         end
     | None => False
     end.
Proof.
  assert (Hsplit : FS.SplitPath "/SWAP.0" = ("/"%string, "SWAP.0"%string))
    by reflexivity.
  assert (Hfind : FS.FindDirectory "/" formatted
                  = Ret (Some DIRECTORY_SECTOR, formatted))
    by (vm_compute; reflexivity).
  destruct (Create_reserved_prefix formatted formatted "/SWAP.0" "/"
              "SWAP.0" 0 Hsplit Hfind eq_refl)
    as (Hdir & _ & Hfile & _ & Hwhy & _).
  split; [exact Hdir|]. split; [rewrite Hfile; vm_compute; reflexivity|].
  destruct (fsSynchList formatted !! DIRECTORY_SECTOR) as [dirSynch|] eqn:Hds;
    [|vm_compute in Hds; discriminate].
  destruct (Directory.FetchFrom (disk formatted) dirSynch)
    as [dir| |] eqn:Hfetch.
  - assert (Hrun : exists fs',
              FS.Create "/SWAP.0" 0 false formatted = Ret (true, fs')).
    { rewrite Hfile. vm_compute. eexists. reflexivity. }
    destruct Hrun as [fs' Hrun].
    intros Hfail. apply (Hwhy dirSynch dir true fs' eq_refl Hfetch Hrun) in Hfail.
    discriminate.
  - vm_compute in Hds. injection Hds as <-. vm_compute in Hfetch.
    discriminate.
  - vm_compute in Hds. injection Hds as <-. vm_compute in Hfetch.
    discriminate.
Defined.


Lemma opened_twice_names_file :
  names_file "/f" 6 opened_twice sample_root sample_root_table.
Proof.
  exists DIRECTORY_SECTOR, opened_twice.
  split; [vm_compute; reflexivity|]. split; [vm_compute; reflexivity|].
  split; [vm_compute; reflexivity|]. split; [vm_compute; reflexivity|].
  split; [discriminate|vm_compute; reflexivity].
Defined.

Lemma one_handle_left_names_file :
  names_file (filepath (sample_record one_handle_left)) 6 one_handle_left
    sample_root sample_root_table.
Proof.
  exists DIRECTORY_SECTOR, one_handle_left.
  split; [vm_compute; reflexivity|]. split; [vm_compute; reflexivity|].
  split; [vm_compute; reflexivity|]. split; [vm_compute; reflexivity|].
  split; [discriminate|vm_compute; reflexivity].
Defined.

Lemma one_handle_left_reclaimable :
  reclaimable 6 one_handle_left sample_root sample_root_table
    sample_deallocated.
Proof.
  split; [|split].
  - destruct (fsSynchList one_handle_left !! FREE_MAP_SECTOR) eqn:E;
      [eauto|vm_compute in E; discriminate].
  - vm_compute. reflexivity.
  - vm_compute. reflexivity.
Defined.

Lemma opened_twice_reclaimable :
  reclaimable 6 opened_twice sample_root sample_root_table
    sample_deallocated.
Proof.
  split; [|split].
  - destruct (fsSynchList opened_twice !! FREE_MAP_SECTOR) eqn:E;
      [eauto|vm_compute in E; discriminate].
  - vm_compute. reflexivity.
  - vm_compute. reflexivity.
Defined.



(** The whole course of events on the sample disk. *)
Example removal_scenario :
  Bitmap.CountClear (freeMapBits (disk formatted)) = 1018
  /\ Bitmap.CountClear (freeMapBits (disk opened_twice)) = 1014
  /\ opened (sample_record opened_twice) = 2
  /\ FS.Remove "/f" opened_twice = Ret (true, removal_pending)
  /\ FS.Open "/f" removal_pending = Ret (None, removal_pending)
  /\ Bitmap.CountClear (freeMapBits (disk one_handle_left)) = 1014
  /\ opened (sample_record one_handle_left) = 1
  /\ freeMapBits (disk (after_Close 6 one_handle_left))
     = freeMapBits (disk formatted)
  /\ fileSynchList (after_Close 6 one_handle_left) = ∅.
Proof. vm_compute. repeat split; reflexivity. Qed.
(** ** SynchConsole::ReadBuffer *)

Section ReadBufferFacts.
Import SynchConsole.

Lemma stop_index_bounds n i inc k :
  i <= stop_index n i inc k <= i + Z.of_nat n.
Proof.
  revert i k. induction n as [|n IH]; intros i k; simpl; [lia|].
  destruct (Ascii.eqb (inc k) NEWLINE); [lia|].
  specialize (IH (i + 1) (S k)). lia.
Qed.

Lemma stop_index_no_newline n i inc k :
  no_newline inc k n -> stop_index n i inc k = i + Z.of_nat n.
Proof.
  revert i k. induction n as [|n IH]; intros i k Hno; simpl; [lia|].
  destruct (Ascii.eqb_spec (inc k) NEWLINE) as [Heq|Hne].
  - exfalso. apply (Hno 0%nat); [lia|]. now rewrite Nat.add_0_r.
  - rewrite IH; [lia|]. intros j Hj.
    replace (S k + j)%nat with (k + S j)%nat by lia. apply Hno. lia.
Qed.

(** The loop returns the stop index, and when it stopped early the cell
    at that index holds the newline that was read. *)
Lemma ReadBuffer_for_stop n i c buffer :
  exists c' b',
    ReadBuffer_for n i c buffer
      = (stop_index n i (incoming c) (taken c), c', b')
    /\ (stop_index n i (incoming c) (taken c) < i + Z.of_nat n ->
        b' !! stop_index n i (incoming c) (taken c) = Some NEWLINE).
Proof.
  revert i c buffer. induction n as [|n IH]; intros i c buffer; simpl.
  - exists c, buffer. split; [reflexivity|lia].
  - destruct (Ascii.eqb_spec (incoming c (taken c)) NEWLINE) as [Heq|Hne].
    + eexists _, _. split; [reflexivity|]. intros _.
      rewrite lookup_insert_eq. now rewrite Heq.
    + destruct (IH (i + 1) (mkConsole (incoming c) (S (taken c)))
                  (<[i := incoming c (taken c)]> buffer))
        as (c' & b' & Hrun & Hnl).
      simpl in Hrun, Hnl. exists c', b'. split; [exact Hrun|].
      intros Hlt. apply Hnl. lia.
Qed.

(** C9. [ReadBuffer(buffer, size)] stores the NUL terminator at index
    [i + 1], where [i] is the index at which reading stopped (and the
    value returned): after a newline read at index [i] the cell [i] still
    holds the newline and the terminator is at [i + 1]; with no newline
    among the first [size] characters the loop ends with [i = size] and
    the terminator goes to [buffer[size + 1]], one cell beyond index
    [size]. *)
Theorem ReadBuffer_terminator_index (c : Console) (buffer : Buffer) (size : Z) :
  0 <= size < UINT_MODULUS - 1 ->
  exists i c' b',
    ReadBuffer c buffer size = (i, c', b')
    /\ i = stop_index (Z.to_nat size) 0 (incoming c) (taken c)
    /\ 0 <= i <= size
    /\ b' !! (i + 1) = Some NUL
    /\ (i < size -> b' !! i = Some NEWLINE)
    /\ (no_newline (incoming c) (taken c) (Z.to_nat size) ->
        i = size /\ b' !! (size + 1) = Some NUL).
Proof.
  intros Hsize. unfold ReadBuffer.
  destruct (ReadBuffer_for_stop (Z.to_nat size) 0 c buffer)
    as (c' & b' & Hrun & Hnl).
  pose proof (stop_index_bounds (Z.to_nat size) 0 (incoming c) (taken c))
    as Hb.
  set (i := stop_index (Z.to_nat size) 0 (incoming c) (taken c)) in *.
  rewrite Hrun. rewrite Z2Nat.id in Hb, Hnl by lia.
  assert (Hu : u32 (i + 1) = i + 1) by (apply u32_small; lia).
  rewrite Hu. exists i, c', (<[i + 1 := NUL]> b').
  split; [reflexivity|]. split; [reflexivity|]. split; [lia|].
  split; [apply lookup_insert_eq|]. split.
  - intros Hlt. rewrite lookup_insert_ne by lia. apply Hnl. lia.
  - intros Hno.
    assert (Hi : i = size).
    { unfold i. rewrite (stop_index_no_newline _ _ _ _ Hno). lia. }
    split; [exact Hi|]. rewrite <- Hi. apply lookup_insert_eq.
Qed.

End ReadBufferFacts.

(** A console that only ever delivers the letter [a]: a read of three
    characters writes the terminator to index 4. *)
Lemma ReadBuffer_terminator_index_witness :
  exists i c' b',
    SynchConsole.ReadBuffer (SynchConsole.mkConsole (fun _ => "a"%char) 0)
      (∅ : gmap Z ascii) 3 = (i, c', b')
    /\ i = 3 /\ b' !! 4 = Some SynchConsole.NUL.
Proof.
  destruct (ReadBuffer_terminator_index
              (SynchConsole.mkConsole (fun _ => "a"%char) 0) ∅ 3)
    as (i & c' & b' & Hrun & Hi & _ & _ & _ & Hno).
  { unfold UINT_MODULUS. lia. }
  exists i, c', b'. split; [exact Hrun|].
  apply Hno. intros j _. simpl. discriminate.
Defined.


(* ===================================================================== *)
(** ** Directory: Add, Remove, Find, FindSwapFile *)
(* ===================================================================== *)

Section DirectoryFacts.
Import DirectoryEntry Directory.

Lemma substring_0_idemp n s :
  substring 0 n (substring 0 n s) = substring 0 n s.
Proof.
  revert s. induction n as [|n IH]; intros [|c s]; simpl; try reflexivity.
  now rewrite IH.
Qed.

Lemma strn_idemp n s : strn n (strn n s) = strn n s.
Proof. apply substring_0_idemp. Qed.

Lemma same_name_refl a : same_name a a = true.
Proof. apply String.eqb_refl. Qed.

Lemma same_name_sym a b : same_name a b = same_name b a.
Proof. apply String.eqb_sym. Qed.

Lemma same_name_trans a b c :
  same_name a b = true -> same_name b c = true -> same_name a c = true.
Proof.
  unfold same_name. rewrite !String.eqb_eq. congruence.
Qed.

Lemma same_name_strn_l a b :
  same_name (strn FILE_NAME_MAX_LEN a) b = same_name a b.
Proof. unfold same_name. now rewrite strn_idemp. Qed.

Lemma FindIndex_miss table name :
  FindIndex table name = -1 <->
  forall i e, table !! i = Some e -> inUse e = true ->
              same_name (DirectoryEntry.name e) name = false.
Proof.
  unfold FindIndex.
  destruct (list_find _ table) as [[i e]|] eqn:Hf.
  - split; [lia|]. intros H. exfalso.
    apply list_find_Some in Hf as (Hl & Hp & _).
    apply andb_prop in Hp as [Hu Hs].
    now rewrite (H _ _ Hl Hu) in Hs.
  - split; [|reflexivity]. intros _ i e Hl Hu.
    apply list_find_None in Hf.
    rewrite Forall_lookup in Hf. specialize (Hf _ _ Hl).
    destruct (same_name (DirectoryEntry.name e) name) eqn:E; [|reflexivity].
    exfalso. apply Hf. now rewrite Hu.
Qed.

Lemma FindIndex_hit table name i :
  FindIndex table name = Z.of_nat i <->
  exists e, table !! i = Some e /\ inUse e = true
            /\ same_name (DirectoryEntry.name e) name = true
            /\ forall j e', table !! j = Some e' -> (j < i)%nat ->
                 inUse e' = true ->
                 same_name (DirectoryEntry.name e') name = false.
Proof.
  unfold FindIndex.
  destruct (list_find _ table) as [[i' e]|] eqn:Hf.
  - apply list_find_Some in Hf as (Hl & Hp & Hbefore).
    apply andb_prop in Hp as [Hu Hs].
    split.
    + intros Hi. assert (i' = i) as -> by lia.
      exists e. repeat split; try assumption.
      intros j e' Hj Hlt Hu'. specialize (Hbefore _ _ Hj Hlt).
      destruct (same_name (DirectoryEntry.name e') name) eqn:E;
        [|reflexivity].
      exfalso. apply Hbefore. now rewrite Hu'.
    + intros (e0 & Hl0 & Hu0 & Hs0 & Hb0).
      destruct (lt_eq_lt_dec i i') as [[Hlt | ->] | Hgt]; [|reflexivity|].
      * specialize (Hbefore _ _ Hl0 Hlt). exfalso. apply Hbefore.
        now rewrite Hu0, Hs0.
      * rewrite (Hb0 _ _ Hl Hgt Hu) in Hs. discriminate.
  - split; [lia|]. intros (e0 & Hl0 & Hu0 & Hs0 & _). exfalso.
    apply list_find_None in Hf. rewrite Forall_lookup in Hf.
    apply (Hf _ _ Hl0). now rewrite Hu0, Hs0.
Qed.

Lemma FindIndex_range table name :
  FindIndex table name = -1
  \/ exists i, FindIndex table name = Z.of_nat i /\ (i < length table)%nat.
Proof.
  unfold FindIndex.
  destruct (list_find _ table) as [[i e]|] eqn:Hf; [right|now left].
  exists i. split; [reflexivity|].
  apply list_find_Some in Hf as (Hl & _). now apply lookup_lt_Some in Hl.
Qed.

Lemma FindIndex_app_unused table name n :
  FindIndex (table ++ replicate n unused) name = FindIndex table name.
Proof.
  destruct (FindIndex_range table name) as [Hm|(i & Hi & Hlt)].
  - rewrite Hm. apply FindIndex_miss. intros j e Hl Hu.
    apply lookup_app_Some in Hl as [Hl|[_ Hl]].
    + rewrite FindIndex_miss in Hm. eauto.
    + apply lookup_replicate in Hl as [-> _]. discriminate.
  - rewrite Hi. apply FindIndex_hit. apply FindIndex_hit in Hi
      as (e & Hl & Hu & Hs & Hb).
    exists e. repeat split; try assumption.
    + now apply lookup_app_l_Some.
    + intros j e' Hj Hji Hu'. apply (Hb j e'); try assumption.
      rewrite lookup_app_l in Hj; [assumption|lia].
Qed.

(** Filling a slot that is not in use with a name that is not the one
    looked for changes nothing for the search. *)
Lemma FindIndex_fill_other table i e0 name sector isDir other :
  table !! i = Some e0 -> inUse e0 = false ->
  same_name other name = false ->
  FindIndex (fill i name sector isDir table) other = FindIndex table other.
Proof.
  intros Hi Hfree Hother.
  assert (Hlen : (i < length table)%nat) by now apply lookup_lt_Some in Hi.
  assert (Hnew : same_name (strn FILE_NAME_MAX_LEN name) other = false).
  { rewrite same_name_strn_l, same_name_sym. exact Hother. }
  assert (Hlook : forall j e, fill i name sector isDir table !! j = Some e ->
            inUse e = true ->
            same_name (DirectoryEntry.name e) other = true ->
            table !! j = Some e /\ j <> i).
  { intros j e Hj Hu Hs. unfold fill in Hj.
    destruct (decide (j = i)) as [->|Hne].
    - rewrite list_lookup_insert_eq in Hj by exact Hlen.
      injection Hj as <-. simpl in Hs. congruence.
    - rewrite list_lookup_insert_ne in Hj by congruence. now split. }
  assert (Hback : forall j e, table !! j = Some e -> inUse e = true ->
            fill i name sector isDir table !! j = Some e).
  { intros j e Hj Hu. unfold fill.
    rewrite list_lookup_insert_ne; [exact Hj|]. congruence. }
  destruct (FindIndex_range table other) as [Hm|(k & Hk & Hlt)].
  - rewrite Hm. apply FindIndex_miss. intros j e Hj Hu.
    destruct (same_name (DirectoryEntry.name e) other) eqn:Hs; [|reflexivity].
    destruct (Hlook _ _ Hj Hu Hs) as [Hj' _].
    rewrite FindIndex_miss in Hm. rewrite (Hm _ _ Hj' Hu) in Hs.
    discriminate.
  - rewrite Hk. apply FindIndex_hit. apply FindIndex_hit in Hk
      as (e & Hl & Hu & Hs & Hb).
    exists e. repeat split; try assumption.
    + now apply Hback.
    + intros j e' Hj Hjk Hu'.
      destruct (same_name (DirectoryEntry.name e') other) eqn:Hs';
        [|reflexivity].
      destruct (Hlook _ _ Hj Hu' Hs') as [Hj' _].
      rewrite (Hb _ _ Hj' Hjk Hu') in Hs'. discriminate.
Qed.

(** Filling the first slot that is not in use of a table that does not
    hold the name makes that slot the one that the search finds. *)
Lemma FindIndex_fill_new table i e0 name sector isDir :
  FindIndex table name = -1 ->
  table !! i = Some e0 ->
  FindIndex (fill i name sector isDir table) name = Z.of_nat i.
Proof.
  intros Hm Hi.
  assert (Hlen : (i < length table)%nat) by now apply lookup_lt_Some in Hi.
  apply FindIndex_hit.
  exists (mk true (u32 sector) (strn FILE_NAME_MAX_LEN name) isDir).
  repeat split.
  - unfold fill. now rewrite list_lookup_insert_eq.
  - simpl. rewrite same_name_strn_l. apply same_name_refl.
  - intros j e' Hj Hji Hu. unfold fill in Hj.
    rewrite list_lookup_insert_ne in Hj by lia.
    rewrite FindIndex_miss in Hm. eauto.
Qed.

(** What a successful [Add] did: the name was not there, and the entry
    went into a slot that was not in use, of the table itself or of the
    table with [NEW_DIR_ENTRIES] entries more. *)
Lemma Add_true table name sector isDir fm ds d table' fm' ds' d' :
  Add table name sector isDir fm ds d = Ret (true, table', fm', ds', d') ->
  FindIndex table name = -1
  /\ exists base i e0,
       (base = table
        \/ base = table ++ replicate (Z.to_nat NEW_DIR_ENTRIES) unused)
       /\ base !! i = Some e0 /\ inUse e0 = false
       /\ table' = fill i name sector isDir base.
Proof.
  unfold Add.
  destruct (Z.eqb_spec (FindIndex table name) (-1)) as [Hm|Hm];
    cbn [negb]; [|discriminate].
  intros Hrun. split; [exact Hm|]. revert Hrun.
  destruct (list_find _ table) as [[i e0]|] eqn:Hfree.
  - intros [= <- <- <- <-].
    apply list_find_Some in Hfree as (Hi & Hu & _).
    exists table, i, e0. auto.
  - unfold ExpandDirectory.
    destruct (Header.Expand fm _ (openFile ds)) as [[[ok fm1] h1]| |];
      cbn [mbind outcome_bind]; try discriminate.
    destruct ok; cbn [mbind outcome_bind]; [|discriminate].
    destruct (default true _) eqn:Hslot; cbn [negb ASSERT mbind outcome_bind];
      [discriminate|].
    intros [= <- <- <- <-].
    exists (table ++ replicate (Z.to_nat NEW_DIR_ENTRIES) unused),
           (length table), unused.
    repeat split; auto.
    rewrite lookup_app_r by lia. rewrite Nat.sub_diag. reflexivity.
Qed.

Lemma Add_true_other table name sector isDir fm ds d table' fm' ds' d' other :
  Add table name sector isDir fm ds d = Ret (true, table', fm', ds', d') ->
  same_name other name = false ->
  FindIndex table' other = FindIndex table other
  /\ forall k e, table !! k = Some e -> inUse e = true ->
                 table' !! k = Some e.
Proof.
  intros Hadd Hother.
  apply Add_true in Hadd as (Hm & base & i & e0 & Hbase & Hi & Hfree & ->).
  assert (Hfi : FindIndex base other = FindIndex table other).
  { destruct Hbase as [->| ->]; [reflexivity|apply FindIndex_app_unused]. }
  split.
  - rewrite <- Hfi. now apply FindIndex_fill_other with e0.
  - intros k e Hk Hu. unfold fill.
    assert (Hk' : base !! k = Some e).
    { destruct Hbase as [->| ->]; [exact Hk|now apply lookup_app_l_Some]. }
    rewrite list_lookup_insert_ne; [exact Hk'|]. congruence.
Qed.

End DirectoryFacts.

(** X1. A successful [Add] makes the name resolve to the sector and the
    kind that were given, for every sector that the [int] parameter of
    [Add] can hold, and every name that differs from it within
    [FILE_NAME_MAX_LEN] bytes resolves as it did before. *)
Theorem Add_then_Find table name sector isDir fm ds d table' fm' ds' d' :
  Directory.Add table name sector isDir fm ds d
  = Ret (true, table', fm', ds', d') ->
  - 2 ^ 31 <= sector < 2 ^ 31 ->
  Directory.Find table' name = sector
  /\ Directory.IsDir table' name = isDir
  /\ forall other,
       Directory.same_name other name = false ->
       Directory.Find table' other = Directory.Find table other
       /\ Directory.IsDir table' other = Directory.IsDir table other.
Proof.
  intros Hadd Hsec. split; [|split].
  - apply Add_true in Hadd as (Hm & base & i & e0 & Hbase & Hi & _ & ->).
    assert (Hmb : Directory.FindIndex base name = -1).
    { destruct Hbase as [->| ->]; [exact Hm|].
      now rewrite FindIndex_app_unused. }
    unfold Directory.Find.
    rewrite (FindIndex_fill_new _ _ _ _ sector isDir Hmb Hi).
    destruct (Z.eqb_spec (Z.of_nat i) (-1)); [lia|]. cbn [negb].
    rewrite Nat2Z.id. unfold Directory.fill.
    rewrite list_lookup_insert_eq by now apply lookup_lt_Some in Hi.
    cbn [fmap option_fmap option_map default DirectoryEntry.sector].
    now apply to_int_u32.
  - apply Add_true in Hadd as (Hm & base & i & e0 & Hbase & Hi & _ & ->).
    assert (Hmb : Directory.FindIndex base name = -1).
    { destruct Hbase as [->| ->]; [exact Hm|].
      now rewrite FindIndex_app_unused. }
    unfold Directory.IsDir.
    rewrite (FindIndex_fill_new _ _ _ _ sector isDir Hmb Hi).
    destruct (Z.eqb_spec (Z.of_nat i) (-1)); [lia|]. cbn [negb].
    rewrite Nat2Z.id. unfold Directory.fill.
    rewrite list_lookup_insert_eq by now apply lookup_lt_Some in Hi.
    reflexivity.
  - intros other Hother.
    destruct (Add_true_other _ _ _ _ _ _ _ _ _ _ _ other Hadd Hother)
      as [Hfi Hkeep].
    unfold Directory.Find, Directory.IsDir. rewrite Hfi.
    destruct (FindIndex_range table other) as [Hm|(k & Hk & Hlt)].
    + rewrite Hm. split; reflexivity.
    + rewrite Hk. apply FindIndex_hit in Hk as (e & Hl & Hu & _).
      destruct (Z.eqb_spec (Z.of_nat k) (-1)); [lia|]. cbn [negb].
      rewrite Nat2Z.id, Hl, (Hkeep _ _ Hl Hu). split; reflexivity.
Qed.

(** X2. [Add] keeps the names of a directory unique. *)
Theorem Add_keeps_names_unique table name sector isDir fm ds d r :
  unique_names table ->
  Directory.Add table name sector isDir fm ds d = Ret r ->
  unique_names (snd (fst (fst (fst r)))).
Proof.
  intros Huniq Hadd.
  destruct r as [[[[ok table'] fm'] ds'] d']. cbn [fst snd].
  destruct ok.
  - apply Add_true in Hadd as (Hm & base & i & e0 & Hbase & Hi & Hfree & ->).
    assert (Hin : forall k e, base !! k = Some e ->
                    DirectoryEntry.inUse e = true -> table !! k = Some e).
    { intros k e Hk Hu. destruct Hbase as [->| ->]; [exact Hk|].
      apply lookup_app_Some in Hk as [Hk|[_ Hk]]; [exact Hk|].
      apply lookup_replicate in Hk as [-> _]. discriminate. }
    assert (Hlen : (i < length base)%nat) by now apply lookup_lt_Some in Hi.
    rewrite FindIndex_miss in Hm.
    intros a b e1 e2 Ha Hb Hu1 Hu2 Hs. unfold Directory.fill in Ha, Hb.
    destruct (decide (a = i)) as [->|Hai], (decide (b = i)) as [->|Hbi];
      [reflexivity| | |].
    + exfalso.
      rewrite list_lookup_insert_eq in Ha by exact Hlen.
      rewrite list_lookup_insert_ne in Hb by congruence.
      injection Ha as <-. cbn [DirectoryEntry.name] in Hs.
      rewrite same_name_strn_l, same_name_sym in Hs.
      rewrite (Hm _ _ (Hin _ _ Hb Hu2) Hu2) in Hs. discriminate.
    + exfalso.
      rewrite list_lookup_insert_eq in Hb by exact Hlen.
      rewrite list_lookup_insert_ne in Ha by congruence.
      injection Hb as <-. cbn [DirectoryEntry.name] in Hs.
      rewrite same_name_sym, same_name_strn_l, same_name_sym in Hs.
      rewrite (Hm _ _ (Hin _ _ Ha Hu1) Hu1) in Hs. discriminate.
    + rewrite list_lookup_insert_ne in Ha by congruence.
      rewrite list_lookup_insert_ne in Hb by congruence.
      apply (Huniq a b e1 e2); auto.
  - revert Hadd. unfold Directory.Add.
    destruct (negb _); [now intros [= <- _ _ _]|].
    destruct (list_find _ table) as [[i e0]|]; [discriminate|].
    unfold Directory.ExpandDirectory.
    destruct (Header.Expand fm _ (openFile ds)) as [[[ok fm1] h1]| |];
      cbn [mbind outcome_bind]; try discriminate.
    destruct ok; cbn [mbind outcome_bind].
    + destruct (default true _); cbn [negb ASSERT mbind outcome_bind];
        discriminate.
    + now intros [= <- _ _ _].
Qed.

Lemma Expand_false fm n h fm' h' :
  Header.Expand fm n h = Ret (false, fm', h') -> fm' = fm /\ h' = h.
Proof.
  unfold Header.Expand.
  destruct (negb (n =? 0)); cbn [ASSERT mbind outcome_bind]; [|discriminate].
  destruct (Bitmap.CountClear fm <? _); [|discriminate].
  now intros [= <- <-].
Qed.

(** X3. [Add] comes back from every call: none of its assertions can
    fail.  When it returns false, the table, the free map and the disk
    are as they were, and either the name is in the table or every entry
    is in use and the header of the directory could not be grown. *)
Theorem Add_returns table name sector isDir fm ds d :
  exists ok table' fm' ds' d',
    Directory.Add table name sector isDir fm ds d
    = Ret (ok, table', fm', ds', d')
    /\ (ok = false ->
        table' = table /\ fm' = fm /\ d' = d
        /\ (Directory.FindIndex table name <> -1
            \/ (Forall (fun e => DirectoryEntry.inUse e = true) table
                /\ Header.Expand fm
                     (u32 (NEW_DIR_ENTRIES * DirectoryEntry.size))
                     (openFile ds)
                   = Ret (false, fm, openFile ds)))).
Proof.
  unfold Directory.Add.
  destruct (Z.eqb_spec (Directory.FindIndex table name) (-1)) as [Hm|Hm];
    cbn [negb].
  2:{ exists false, table, fm, ds, d. split; [reflexivity|]. auto. }
  destruct (list_find _ table) as [[i e0]|] eqn:Hfree.
  { eexists true, _, _, _, _. split; [reflexivity|discriminate]. }
  apply list_find_None in Hfree.
  assert (Hfull : Forall (fun e => DirectoryEntry.inUse e = true) table).
  { eapply Forall_impl; [exact Hfree|]. intros e He. cbn beta in He.
    now destruct (DirectoryEntry.inUse e). }
  unfold Directory.ExpandDirectory.
  destruct (Expand_returns fm (u32 (NEW_DIR_ENTRIES * DirectoryEntry.size))
              (openFile ds)) as [[[ok fm1] h1] Hexp]; [discriminate|].
  rewrite Hexp. cbn [mbind outcome_bind].
  destruct ok; cbn [mbind outcome_bind].
  - rewrite lookup_app_r by lia. rewrite Nat.sub_diag.
    cbn [negb ASSERT mbind outcome_bind default fmap option_fmap option_map
         lookup list_lookup replicate Z.to_nat NEW_DIR_ENTRIES Pos.to_nat
         Pos.iter_op Nat.add DirectoryEntry.unused DirectoryEntry.inUse].
    eexists true, _, _, _, _. split; [reflexivity|discriminate].
  - exists false, table, fm1, (mkFSSynch h1 (hdrSector ds)), d.
    split; [reflexivity|]. intros _.
    apply Expand_false in Hexp as Heq. destruct Heq as [-> ->].
    repeat split; auto.
Qed.

Section RemoveFacts.
Import DirectoryEntry Directory.

(** An entry matches the name looked for. *)
Lemma FindIndex_ext t1 t2 name :
  (forall j, (exists e, t1 !! j = Some e /\ inUse e = true
                        /\ same_name (DirectoryEntry.name e) name = true)
             <-> (exists e, t2 !! j = Some e /\ inUse e = true
                        /\ same_name (DirectoryEntry.name e) name = true)) ->
  FindIndex t1 name = FindIndex t2 name.
Proof.
  intros Hext.
  destruct (FindIndex_range t2 name) as [Hm|(i & Hi & _)].
  - rewrite Hm. apply FindIndex_miss. rewrite FindIndex_miss in Hm.
    intros j e Hj Hu.
    destruct (same_name (DirectoryEntry.name e) name) eqn:Hs; [|reflexivity].
    destruct (proj1 (Hext j)) as (e' & Hj' & Hu' & Hs'); [eauto|].
    rewrite (Hm _ _ Hj' Hu') in Hs'. discriminate.
  - rewrite Hi. apply FindIndex_hit. apply FindIndex_hit in Hi
      as (e & Hl & Hu & Hs & Hb).
    destruct (proj2 (Hext i)) as (e1 & Hl1 & Hu1 & Hs1); [eauto|].
    exists e1. repeat split; try assumption.
    intros j e' Hj Hji Hu'.
    destruct (same_name (DirectoryEntry.name e') name) eqn:Hs'; [|reflexivity].
    destruct (proj1 (Hext j)) as (e2 & Hj2 & Hu2 & Hs2); [eauto|].
    rewrite (Hb _ _ Hj2 Hji Hu2) in Hs2. discriminate.
Qed.

Lemma Remove_false table name table' :
  Remove table name = (false, table') ->
  FindIndex table name = -1 /\ table' = table.
Proof.
  unfold Remove. destruct (Z.eqb_spec (FindIndex table name) (-1));
    [|discriminate].
  now intros [= <-].
Qed.

Lemma Remove_true table name table' :
  Remove table name = (true, table') ->
  exists i e, FindIndex table name = Z.of_nat i
    /\ table !! i = Some e /\ inUse e = true
    /\ same_name (DirectoryEntry.name e) name = true
    /\ table' = <[i := mk false (sector e) (DirectoryEntry.name e)
                          (DirectoryEntry.isDir e)]> table.
Proof.
  unfold Remove. destruct (Z.eqb_spec (FindIndex table name) (-1)) as [|Hne];
    [discriminate|].
  intros [= <-].
  destruct (FindIndex_range table name) as [?|(i & Hi & Hlt)]; [lia|].
  rewrite Hi, Nat2Z.id.
  apply FindIndex_hit in Hi as Hhit. destruct Hhit as (e & Hl & Hu & Hs & _).
  exists i, e. repeat split; try assumption.
  apply list_eq. intros k. destruct (decide (k = i)) as [->|Hk].
  - rewrite list_lookup_alter_eq, Hl.
    now rewrite list_lookup_insert_eq by exact Hlt.
  - rewrite list_lookup_alter_ne by congruence.
    now rewrite list_lookup_insert_ne by congruence.
Qed.

End RemoveFacts.

(** X4. In a directory with unique names, [Remove] makes the name
    unknown and lets every other name resolve as before; the names stay
    unique, and when [Remove] returns false the name was unknown before
    and the table is as it was. *)
Theorem Remove_then_Find table name ok table' :
  unique_names table ->
  Directory.Remove table name = (ok, table') ->
  Directory.Find table' name = -1
  /\ Directory.IsDir table' name = false
  /\ (forall other,
        Directory.same_name other name = false ->
        Directory.Find table' other = Directory.Find table other
        /\ Directory.IsDir table' other = Directory.IsDir table other)
  /\ unique_names table'
  /\ (ok = false -> Directory.Find table name = -1 /\ table' = table).
Proof.
  intros Huniq Hrem.
  assert (Hmiss : forall t, Directory.FindIndex t name = -1 ->
            Directory.Find t name = -1 /\ Directory.IsDir t name = false).
  { intros t Ht. unfold Directory.Find, Directory.IsDir. rewrite Ht.
    split; reflexivity. }
  destruct ok.
  2:{ apply Remove_false in Hrem as [Hm ->].
      destruct (Hmiss _ Hm) as [Hf Hd]. repeat split; auto. }
  apply Remove_true in Hrem as (i & e & Hi & Hl & Hu & Hs & ->).
  assert (Hlen : (i < length table)%nat) by now apply lookup_lt_Some in Hl.
  set (e0 := DirectoryEntry.mk false _ _ _).
  assert (Hused : forall j e', <[i := e0]> table !! j = Some e' ->
            DirectoryEntry.inUse e' = true ->
            j <> i /\ table !! j = Some e').
  { intros j e' Hj Hu'. destruct (decide (j = i)) as [->|Hne].
    - rewrite list_lookup_insert_eq in Hj by exact Hlen.
      injection Hj as <-. discriminate.
    - rewrite list_lookup_insert_ne in Hj by congruence. now split. }
  assert (Hm' : Directory.FindIndex (<[i := e0]> table) name = -1).
  { apply FindIndex_miss. intros j e' Hj Hu'.
    destruct (Hused _ _ Hj Hu') as [Hne Hj'].
    destruct (Directory.same_name (DirectoryEntry.name e') name) eqn:Hs';
      [|reflexivity].
    exfalso. apply Hne. apply (Huniq j i e' e); auto.
    apply same_name_trans with name; [exact Hs'|].
    now rewrite same_name_sym. }
  destruct (Hmiss _ Hm') as [Hf Hd].
  split; [exact Hf|]. split; [exact Hd|]. split; [|split; [|discriminate]].
  - intros other Hother.
    assert (Hfi : Directory.FindIndex (<[i := e0]> table) other
                  = Directory.FindIndex table other).
    { apply FindIndex_ext. intros j. split.
      - intros (e' & Hj & Hu' & Hs'). destruct (Hused _ _ Hj Hu') as [_ Hj'].
        eauto.
      - intros (e' & Hj & Hu' & Hs'). exists e'.
        repeat split; try assumption.
        rewrite list_lookup_insert_ne; [exact Hj|].
        intros <-. rewrite Hl in Hj. injection Hj as <-.
        assert (Directory.same_name other name = true); [|congruence].
        apply same_name_trans with (DirectoryEntry.name e); [|exact Hs].
        now rewrite same_name_sym. }
    unfold Directory.Find, Directory.IsDir. rewrite Hfi.
    destruct (FindIndex_range table other) as [Hm|(k & Hk & Hlt)].
    + rewrite Hm. split; reflexivity.
    + rewrite Hk. apply FindIndex_hit in Hk as (e' & Hl' & Hu' & Hs' & _).
      destruct (Z.eqb_spec (Z.of_nat k) (-1)); [lia|]. cbn [negb].
      rewrite Nat2Z.id, Hl'.
      rewrite list_lookup_insert_ne, Hl'; [split; reflexivity|].
      intros <-. rewrite Hl in Hl'. injection Hl' as <-.
      assert (Directory.same_name other name = true); [|congruence].
      apply same_name_trans with (DirectoryEntry.name e); [|exact Hs].
      now rewrite same_name_sym.
  - intros a b e1 e2 Ha Hb Hu1 Hu2 Hs12.
    destruct (Hused _ _ Ha Hu1) as [_ Ha'].
    destruct (Hused _ _ Hb Hu2) as [_ Hb'].
    apply (Huniq a b e1 e2); auto.
Qed.

Lemma entries_in_use_insert table i e e' :
  table !! i = Some e ->
  DirectoryEntry.inUse e = true -> DirectoryEntry.inUse e' = false ->
  S (entries_in_use (<[i := e']> table)) = entries_in_use table.
Proof.
  unfold entries_in_use.
  revert i. induction table as [|x table IH]; intros [|i]; simpl;
    try discriminate.
  - intros [= ->] Hu Hu'.
    rewrite filter_cons_False by congruence.
    rewrite filter_cons_True by exact Hu. reflexivity.
  - intros Hi Hu Hu'. specialize (IH i Hi Hu Hu').
    destruct (decide (DirectoryEntry.inUse x = true)) as [Hx|Hx].
    + rewrite !filter_cons_True by exact Hx. simpl. now rewrite IH.
    + rewrite !filter_cons_False by exact Hx. exact IH.
Qed.

(** X5. [FindSwapFile] hands out the name of the first entry in use
    whose name begins with [SWAP.] and takes that entry, and no other,
    out of use; it returns the null pointer, and leaves the table alone,
    exactly when no entry in use has such a name; and it halts exactly
    when the first such entry is a directory. *)
Theorem FindSwapFile_first_swap_entry table :
  match Directory.FindSwapFile table with
  | Ret (Some name, table') =>
      Directory.is_swap name = true
      /\ S (entries_in_use table') = entries_in_use table
      /\ exists i e,
           table !! i = Some e /\ DirectoryEntry.inUse e = true
           /\ DirectoryEntry.name e = name /\ DirectoryEntry.isDir e = false
           /\ table' = <[i := DirectoryEntry.mk false (DirectoryEntry.sector e)
                                name false]> table
           /\ forall j e', table !! j = Some e' -> (j < i)%nat ->
                DirectoryEntry.inUse e' = true ->
                Directory.is_swap (DirectoryEntry.name e') = false
  | Ret (None, table') =>
      table' = table
      /\ forall j e, table !! j = Some e -> DirectoryEntry.inUse e = true ->
           Directory.is_swap (DirectoryEntry.name e) = false
  | Halt =>
      exists i e,
        table !! i = Some e /\ DirectoryEntry.inUse e = true
        /\ Directory.is_swap (DirectoryEntry.name e) = true
        /\ DirectoryEntry.isDir e = true
        /\ forall j e', table !! j = Some e' -> (j < i)%nat ->
             DirectoryEntry.inUse e' = true ->
             Directory.is_swap (DirectoryEntry.name e') = false
  | Undefined => False
  end.
Proof.
  unfold Directory.FindSwapFile.
  destruct (list_find _ table) as [[i e]|] eqn:Hf.
  - apply list_find_Some in Hf as (Hl & Hp & Hbefore).
    apply andb_prop in Hp as [Hu Hs].
    assert (Hb : forall j e', table !! j = Some e' -> (j < i)%nat ->
              DirectoryEntry.inUse e' = true ->
              Directory.is_swap (DirectoryEntry.name e') = false).
    { intros j e' Hj Hji Hu'. specialize (Hbefore _ _ Hj Hji).
      destruct (Directory.is_swap (DirectoryEntry.name e')) eqn:E;
        [|reflexivity].
      exfalso. apply Hbefore. now rewrite Hu'. }
    destruct (DirectoryEntry.isDir e) eqn:Hd;
      cbn [negb ASSERT mbind outcome_bind].
    + exists i, e. auto.
    + split; [exact Hs|]. split.
      * now apply entries_in_use_insert with e.
      * exists i, e. auto 10.
  - split; [reflexivity|]. intros j e Hj Hu.
    apply list_find_None in Hf. rewrite Forall_lookup in Hf.
    specialize (Hf _ _ Hj).
    destruct (Directory.is_swap (DirectoryEntry.name e)) eqn:E; [|reflexivity].
    exfalso. apply Hf. now rewrite Hu.
Qed.

Lemma sample_table_unique : unique_names sample_table.
Proof.
  intros i j e1 e2 Hi Hj Hu1 Hu2 Hs.
  destruct i as [|[|[|i]]], j as [|[|[|j]]]; try reflexivity;
    vm_compute in Hi, Hj; try discriminate;
    injection Hi as <-; injection Hj as <-; vm_compute in Hu1, Hu2, Hs;
    discriminate.
Defined.

Lemma Add_then_Find_witness :
  Directory.Find (Directory.fill 2 "c" 9 false sample_table) "c" = 9
  /\ Directory.Find (Directory.fill 2 "c" 9 false sample_table) "a" = 7.
Proof.
  pose proof (Add_then_Find sample_table "c" 9 false [] sample_dirSynch
                zero_disk (Directory.fill 2 "c" 9 false sample_table)
                [] sample_dirSynch zero_disk) as H.
  destruct H as (Hnew & _ & Hold).
  - vm_compute. reflexivity.
  - unfold UINT_MODULUS. lia.
  - split; [exact Hnew|].
    destruct (Hold "a"%string) as [Hf _]; [vm_compute; reflexivity|].
    rewrite Hf. vm_compute. reflexivity.
Defined.

Lemma Add_keeps_names_unique_witness :
  unique_names (Directory.fill 2 "c" 9 false sample_table).
Proof.
  apply (Add_keeps_names_unique sample_table "c" 9 false [] sample_dirSynch
           zero_disk
           (true, Directory.fill 2 "c" 9 false sample_table, [],
            sample_dirSynch, zero_disk)).
  - exact sample_table_unique.
  - vm_compute. reflexivity.
Defined.

Lemma Remove_then_Find_witness :
  Directory.Find (snd (Directory.Remove sample_table "a")) "a" = -1
  /\ Directory.Find (snd (Directory.Remove sample_table "a")) "b" = 8.
Proof.
  pose proof (Remove_then_Find sample_table "a" true
                (snd (Directory.Remove sample_table "a"))
                sample_table_unique) as H.
  destruct H as (Hgone & _ & Hold & _).
  - vm_compute. reflexivity.
  - split; [exact Hgone|].
    destruct (Hold "b"%string) as [Hf _]; [vm_compute; reflexivity|].
    rewrite Hf. vm_compute. reflexivity.
Defined.

(* ===================================================================== *)
(** ** FileHeader: WriteBack and FetchFrom *)
(* ===================================================================== *)

Section HeaderIOFacts.
Import Header HeaderIO.

Lemma cell_cons_0 x l : cell (x :: l) 0 = x.
Proof. reflexivity. Qed.

Lemma cell_cons_S x l k : 0 <= k -> cell (x :: l) (k + 1) = cell l k.
Proof.
  intros Hk. unfold cell.
  destruct (Z.ltb_spec (k + 1) 0); [lia|].
  destruct (Z.ltb_spec k 0); [lia|].
  replace (Z.to_nat (k + 1)) with (S (Z.to_nat k)) by lia. reflexivity.
Qed.

Lemma active_rows_reached l k :
  0 <= k < Z.of_nat (length l) ->
  reached l k <-> active_rows l !! Z.to_nat k = Some (cell l k).
Proof.
  revert k. induction l as [|x l IH]; intros k Hk; [simpl in Hk; lia|].
  simpl in Hk. simpl active_rows.
  destruct (Z.eqb_spec x (-1)) as [->|Hx].
  - split; [|discriminate].
    intros H. specialize (H 0 ltac:(lia)). discriminate.
  - destruct (Z.eq_dec k 0) as [->|Hk0].
    + simpl. split; [reflexivity|]. intros _ k' Hk'.
      assert (k' = 0) as -> by lia. rewrite cell_cons_0.
      now apply Z.eqb_neq.
    + replace k with ((k - 1) + 1) by lia.
      rewrite cell_cons_S by lia.
      replace (Z.to_nat (k - 1 + 1)) with (S (Z.to_nat (k - 1))) by lia.
      simpl. rewrite <- IH by lia. split.
      * intros H k' Hk'. specialize (H (k' + 1) ltac:(lia)).
        now rewrite cell_cons_S in H by lia.
      * intros H k' Hk'. destruct (Z.eq_dec k' 0) as [->|Hk'0].
        -- rewrite cell_cons_0. now apply Z.eqb_neq.
        -- replace k' with ((k' - 1) + 1) by lia.
           rewrite cell_cons_S by lia. apply H. lia.
Qed.

Lemma WriteBack_loop (f : Z -> Z) (g : Z -> SectorData) n i d :
  let d' := for_while n i (fun i _ => negb (f i =? -1))
              (fun i d => write_sector (f i) (g i) d) d in
  (forall s,
     (forall k, i <= k < i + Z.of_nat n ->
        (forall k', i <= k' <= k -> (f k' =? -1) = false) -> f k <> s) ->
     sectors d' !! s = sectors d !! s)
  /\ (forall k, i <= k < i + Z.of_nat n ->
        (forall k', i <= k' <= k -> (f k' =? -1) = false) ->
        (forall k2, k < k2 < i + Z.of_nat n ->
           (forall k', i <= k' <= k2 -> (f k' =? -1) = false) ->
           f k2 <> f k) ->
        sectors d' !! f k = Some (g k)).
Proof.
  revert i d. induction n as [|n IH]; intros i d; cbn zeta.
  { split; [reflexivity|]. intros k Hk. lia. }
  cbn [for_while].
  destruct (f i =? -1) eqn:Hfi; cbn [negb].
  { split; [reflexivity|]. intros k Hk Hreach.
    rewrite (Hreach i) in Hfi by lia. discriminate. }
  specialize (IH (i + 1) (write_sector (f i) (g i) d)).
  cbn zeta in IH. destruct IH as [IHframe IHset].
  assert (Hshift : forall k, i + 1 <= k ->
            (forall k', i <= k' <= k -> (f k' =? -1) = false) <->
            (forall k', i + 1 <= k' <= k -> (f k' =? -1) = false)).
  { intros k Hk. split; intros H k' Hk'.
    - apply H. lia.
    - destruct (Z.eq_dec k' i) as [->|]; [exact Hfi|apply H; lia]. }
  split.
  - intros s Hs. rewrite IHframe.
    + unfold write_sector. cbn [sectors].
      rewrite lookup_insert_ne; [reflexivity|].
      apply Hs; [lia|]. intros k' Hk'. now assert (k' = i) as -> by lia.
    + intros k Hk Hreach. apply Hs; [lia|]. now apply Hshift.
  - intros k Hk Hreach Hlater.
    destruct (Z.eq_dec k i) as [->|Hne].
    + rewrite IHframe.
      * unfold write_sector. cbn [sectors]. now rewrite lookup_insert_eq.
      * intros k2 Hk2 Hreach2. apply Hlater; [lia|].
        apply Hshift; [lia|exact Hreach2].
    + apply IHset; [lia| |].
      * apply Hshift; [lia|exact Hreach].
      * intros k2 Hk2 Hreach2. apply Hlater; [lia|].
        apply Hshift; [lia|exact Hreach2].
Qed.

Lemma FetchFrom_loop d n i h :
  0 <= i ->
  let h' := for_while n i
              (fun i h => negb (cell (firstIndir h) i =? -1))
              (fun i h =>
                 set_secondIndir_row i
                   (read_table d (cell (firstIndir h) i)) h) h in
  raw h' = raw h /\ firstIndir h' = firstIndir h
  /\ length (secondIndir h') = length (secondIndir h)
  /\ (forall k, i <= k < i + Z.of_nat n ->
        (forall k', i <= k' <= k ->
                    (cell (firstIndir h) k' =? -1) = false) ->
        (Z.to_nat k < length (secondIndir h))%nat ->
        secondIndir h' !! Z.to_nat k
        = Some (read_table d (cell (firstIndir h) k))).
Proof.
  revert i h. induction n as [|n IH]; intros i h Hi; cbn zeta.
  { repeat split; try reflexivity. intros k Hk. lia. }
  cbn [for_while].
  destruct (cell (firstIndir h) i =? -1) eqn:Hfi; cbn [negb].
  { repeat split; try reflexivity. intros k Hk Hreach.
    rewrite (Hreach i) in Hfi by lia. discriminate. }
  set (h1 := set_secondIndir_row i _ h).
  specialize (IH (i + 1) h1 ltac:(lia)). cbn zeta in IH.
  destruct IH as (IHraw & IHfirst & IHlen & IHrows).
  assert (Hlen1 : length (secondIndir h1) = length (secondIndir h)).
  { unfold h1, set_secondIndir_row. cbn [secondIndir].
    apply length_insert. }
  repeat split.
  - rewrite IHraw. reflexivity.
  - rewrite IHfirst. reflexivity.
  - rewrite IHlen. exact Hlen1.
  - intros k Hk Hreach Hin.
    destruct (Z.eq_dec k i) as [->|Hne].
    + (* later iterations leave row i alone *)
      clear IHrows.
      assert (Hkeep : forall m j (x : FileHeader), i < j ->
                secondIndir
                  (for_while m j
                     (fun i h => negb (cell (firstIndir h) i =? -1))
                     (fun i h =>
                        set_secondIndir_row i
                          (read_table d (cell (firstIndir h) i)) h)
                     x) !! Z.to_nat i
                = secondIndir x !! Z.to_nat i).
      { induction m as [|m IHm]; intros j x Hj; [reflexivity|].
        cbn [for_while]. destruct (negb _); [|reflexivity].
        rewrite IHm by lia. unfold set_secondIndir_row. cbn [secondIndir].
        apply list_lookup_insert_ne. lia. }
      rewrite Hkeep by lia. unfold h1, set_secondIndir_row.
      cbn [secondIndir]. now rewrite list_lookup_insert_eq.
    + rewrite IHrows; [| lia | | lia].
      * unfold h1, set_secondIndir_row. cbn [secondIndir firstIndir].
        reflexivity.
      * intros k' Hk'. unfold h1, set_secondIndir_row. cbn [firstIndir].
        apply Hreach. lia.
Qed.

Lemma NoDup_active_rows l k k2 :
  NoDup (active_rows l) ->
  0 <= k < Z.of_nat (length l) -> 0 <= k2 < Z.of_nat (length l) ->
  reached l k -> reached l k2 -> cell l k = cell l k2 -> k = k2.
Proof.
  intros Hnd Hk Hk2 Hr Hr2 Heq.
  apply active_rows_reached in Hr; [|exact Hk].
  apply active_rows_reached in Hr2; [|exact Hk2].
  rewrite <- Heq in Hr2.
  pose proof (NoDup_lookup _ _ _ _ Hnd Hr Hr2). lia.
Qed.

Lemma reached_In l k :
  0 <= k < Z.of_nat (length l) -> reached l k -> cell l k ∈ active_rows l.
Proof.
  intros Hk Hr. apply active_rows_reached in Hr; [|exact Hk].
  eapply list_elem_of_lookup_2. exact Hr.
Qed.

(** What the disk holds after [WriteBack], and what [FetchFrom] makes of
    it. *)
Lemma WriteBack_sectors sector h d :
  length (firstIndir h) = Z.to_nat NUM_INDIRECT ->
  NoDup (written_sectors sector h) ->
  let d' := WriteBack sector h d in
  sectors d' !! sector = Some (RawHeaderData (raw h))
  /\ (indirSector (raw h) <> -1 ->
      sectors d' !! indirSector (raw h)
      = Some (IndirectionData (firstIndir h))
      /\ forall k, 0 <= k < NUM_INDIRECT -> reached (firstIndir h) k ->
           sectors d' !! cell (firstIndir h) k
           = Some (IndirectionData
                     (default [] (secondIndir h !! Z.to_nat k)))).
Proof.
  intros Hlen Hnd. unfold WriteBack, written_sectors in *. cbn zeta.
  destruct (Z.eqb_spec (indirSector (raw h)) (-1)) as [Hi|Hi]; cbn [negb].
  { split; [|contradiction]. unfold write_sector. cbn [sectors].
    now rewrite lookup_insert_eq. }
  apply NoDup_cons in Hnd as [Hsec Hnd].
  apply NoDup_cons in Hnd as [Hind Hnd].
  rewrite not_elem_of_cons in Hsec. destruct Hsec as [Hsi Hsa].
  set (d2 := write_sector (indirSector (raw h)) _ (write_sector sector _ d)).
  destruct (WriteBack_loop (cell (firstIndir h))
              (fun i => IndirectionData
                          (default [] (secondIndir h !! Z.to_nat i)))
              (Z.to_nat NUM_INDIRECT) 0 d2) as [Hframe Hset].
  rewrite Z2Nat.id in Hframe, Hset by (vm_compute; discriminate).
  assert (Hin : forall k, 0 <= k < 0 + NUM_INDIRECT ->
            (forall k', 0 <= k' <= k ->
               (cell (firstIndir h) k' =? -1) = false) ->
            cell (firstIndir h) k ∈ active_rows (firstIndir h)).
  { intros k Hk Hr. apply reached_In; [|exact Hr].
    rewrite Hlen, Z2Nat.id by (vm_compute; discriminate). lia. }
  split; [|intros _; split].
  - rewrite Hframe.
    + unfold d2, write_sector. cbn [sectors].
      rewrite lookup_insert_ne by congruence. now rewrite lookup_insert_eq.
    + intros k Hk Hr Heq. apply Hsa. rewrite <- Heq. now apply Hin.
  - rewrite Hframe.
    + unfold d2, write_sector. cbn [sectors]. now rewrite lookup_insert_eq.
    + intros k Hk Hr Heq. apply Hind. rewrite <- Heq. now apply Hin.
  - intros k Hk Hr. apply Hset; [lia|exact Hr|].
    intros k2 Hk2 Hr2 Heq.
    assert (k = k2); [|lia].
    apply (NoDup_active_rows (firstIndir h)); auto;
      rewrite Hlen, Z2Nat.id by (vm_compute; discriminate); lia.
Qed.

End HeaderIOFacts.

(** X6. [FetchFrom] after [WriteBack] gives back the header: when the
    sectors that [WriteBack] writes are distinct, the header read from
    the disk has the same raw part and the same first table, and it
    translates every offset that lies in the direct table or under a row
    that the loops reach to the same sector. *)
Theorem WriteBack_then_FetchFrom sector h d h0 :
  well_sized h -> well_sized h0 ->
  NoDup (written_sectors sector h) ->
  let h' := HeaderIO.FetchFrom (HeaderIO.WriteBack sector h d) sector h0 in
  raw h' = raw h
  /\ (indirSector (raw h) <> -1 ->
      firstIndir h' = firstIndir h
      /\ forall k, 0 <= k < NUM_INDIRECT -> reached (firstIndir h) k ->
           secondIndir h' !! Z.to_nat k = secondIndir h !! Z.to_nat k)
  /\ forall offset,
       0 <= offset ->
       (offset / SECTOR_SIZE < NUM_DIRECT
        \/ (indirSector (raw h) <> -1
            /\ let row := u32 (offset / SECTOR_SIZE - NUM_DIRECT)
                          / NUM_INDIRECT in
               row < NUM_INDIRECT /\ reached (firstIndir h) row)) ->
       Header.ByteToSector h' offset = Header.ByteToSector h offset.
Proof.
  intros [Hlen1 Hlen2] [Hlen01 Hlen02] Hnd. cbn zeta.
  destruct (WriteBack_sectors sector h d Hlen1 Hnd) as [Hraw Hind].
  cbn zeta in Hraw, Hind.
  set (d' := HeaderIO.WriteBack sector h d) in *.
  unfold HeaderIO.FetchFrom.
  assert (Hr1 : HeaderIO.read_raw d' sector h0 = HeaderIO.set_raw (raw h) h0).
  { unfold HeaderIO.read_raw. now rewrite Hraw. }
  rewrite Hr1. cbn [HeaderIO.set_raw raw firstIndir secondIndir].
  destruct (Z.eqb_spec (indirSector (raw h)) (-1)) as [Hi|Hi]; cbn [negb].
  { split; [reflexivity|]. split; [contradiction|].
    intros offset Hoff [Hdir|[Hne _]]; [|contradiction].
    unfold Header.ByteToSector. cbn [raw].
    destruct (Z.ltb_spec (offset / SECTOR_SIZE) NUM_DIRECT); [reflexivity|lia]. }
  destruct (Hind Hi) as [Hfirst Hrows]. clear Hind.
  assert (Hrt : HeaderIO.read_table d' (indirSector (raw h))
                = firstIndir h).
  { unfold HeaderIO.read_table. now rewrite Hfirst. }
  rewrite Hrt.
  set (h2 := HeaderIO.set_firstIndir_table (firstIndir h) _).
  destruct (FetchFrom_loop d' (Z.to_nat NUM_INDIRECT) 0 h2 ltac:(lia))
    as (Lraw & Lfirst & Llen & Lrows).
  cbn zeta in Lraw, Lfirst, Llen, Lrows.
  rewrite Z2Nat.id in Lrows by (vm_compute; discriminate).
  set (h' := for_while _ 0 _ _ h2) in *.
  assert (Hrows' : forall k, 0 <= k < NUM_INDIRECT ->
            reached (firstIndir h) k ->
            secondIndir h' !! Z.to_nat k = secondIndir h !! Z.to_nat k).
  { intros k Hk Hr. rewrite Lrows; [|lia|exact Hr|].
    - unfold h2. cbn [HeaderIO.set_firstIndir_table HeaderIO.set_raw firstIndir secondIndir].
      unfold HeaderIO.read_table. rewrite (Hrows k Hk Hr).
      destruct (secondIndir h !! Z.to_nat k) as [row|] eqn:Hrow;
        [reflexivity|].
      apply lookup_ge_None in Hrow. rewrite Hlen2 in Hrow.
      assert (Z.to_nat k < Z.to_nat NUM_INDIRECT)%nat by lia. lia.
    - unfold h2. cbn [HeaderIO.set_firstIndir_table HeaderIO.set_raw secondIndir].
      rewrite Hlen02. lia. }
  split; [exact Lraw|]. split.
  { intros _. split; [exact Lfirst|exact Hrows']. }
  intros offset Hoff Hcase. unfold Header.ByteToSector. rewrite Lraw.
  cbn [HeaderIO.set_firstIndir_table HeaderIO.set_raw raw].
  destruct (Z.ltb_spec (offset / SECTOR_SIZE) NUM_DIRECT) as [Hd|Hd];
    [reflexivity|].
  destruct Hcase as [?|(_ & Hrow & Hreach)]; [lia|].
  set (row := u32 (offset / SECTOR_SIZE - NUM_DIRECT) / NUM_INDIRECT) in *.
  assert (Hrow0 : 0 <= row).
  { unfold row. apply Z.div_pos; [apply u32_range|vm_compute; reflexivity]. }
  unfold Header.cell2.
  destruct (Z.ltb_spec row 0); [lia|].
  now rewrite (Hrows' row ltac:(lia) Hreach).
Qed.

Lemma WriteBack_then_FetchFrom_witness :
  raw (HeaderIO.FetchFrom
         (HeaderIO.WriteBack 2 sample_header_5000 zero_disk) 2
         Header.blank)
  = raw sample_header_5000
  /\ Header.ByteToSector
       (HeaderIO.FetchFrom
          (HeaderIO.WriteBack 2 sample_header_5000 zero_disk) 2
          Header.blank) 4000
     = Header.ByteToSector sample_header_5000 4000.
Proof.
  pose proof (WriteBack_then_FetchFrom 2 sample_header_5000 zero_disk
                Header.blank) as H.
  destruct H as (Hraw & _ & Hoff).
  - split; vm_compute; reflexivity.
  - split; vm_compute; reflexivity.
  - apply (bool_decide_unpack _). vm_compute. exact I.
  - split; [exact Hraw|]. apply Hoff; [lia|]. right.
    split; [vm_compute; discriminate|].
    replace (u32 (4000 / SECTOR_SIZE - NUM_DIRECT) / NUM_INDIRECT) with 0
      by (vm_compute; reflexivity).
    split; [vm_compute; reflexivity|].
    intros k' Hk'. assert (k' = 0) as -> by lia.
    vm_compute. reflexivity.
Defined.

(* ===================================================================== *)
(** ** FileHeader: the header laws on samples, and Deallocate *)
(* ===================================================================== *)

Lemma Allocate_header_laws_witness :
  numBytes (raw sample_header_5000) = 5000 /\ header_laws sample_header_5000.
Proof.
  pose proof (Allocate_header_laws sample_map 5000 Header.blank
                (snd (fst (Header.Allocate sample_map 5000 Header.blank)))
                sample_header_5000) as H.
  apply H.
  - vm_compute. split; [discriminate|reflexivity].
  - vm_compute. reflexivity.
Defined.

Lemma Expand_header_laws_witness :
  exists fm' h',
    Header.Expand sample_map_100 200 sample_header_100 = Ret (true, fm', h')
    /\ numBytes (raw h') = 300 /\ header_laws h'.
Proof.
  destruct (Header.Expand sample_map_100 200 sample_header_100)
    as [[[[] fm'] h']| |] eqn:E; try (vm_compute in E; discriminate).
  exists fm', h'. split; [reflexivity|].
  pose proof (Expand_header_laws sample_map_100 sample_header_100 200 fm' h'
                sample_header_100_laws) as H.
  apply H; [reflexivity|vm_compute; reflexivity|exact E].
Defined.

(** X9. [Deallocate] twice: when the first call returns, a second call
    on the same header of a file with at least one sector halts, because
    the first data sector is no longer marked. *)
Theorem Deallocate_twice_halts fm h fm' :
  Header.Deallocate fm h = Ret fm' ->
  0 < numSectors (raw h) ->
  Header.Deallocate fm' h = Halt.
Proof.
  intros Hrun Hpos.
  apply Deallocate_released in Hrun as [_ [Hdirect _]].
  assert (Hmin : 0 < Z.min (numSectors (raw h)) NUM_DIRECT).
  { apply Z.min_glb_lt; [exact Hpos|vm_compute; reflexivity]. }
  specialize (Hdirect 0 ltac:(lia)).
  unfold Header.Deallocate.
  destruct (Z.to_nat (Z.min (numSectors (raw h)) NUM_DIRECT)) as [|n] eqn:Hn;
    [lia|].
  assert (Hrel : Header.release (Header.cell (dataSectors (raw h)) 0) fm'
                 = Halt).
  { unfold Header.release. rewrite Hdirect. reflexivity. }
  cbn [for_whileM]. cbv beta. rewrite Hrel. reflexivity.
Qed.

Lemma Deallocate_twice_halts_witness :
  Header.Deallocate sample_map_100 sample_header_100 = Ret sample_map
  /\ Header.Deallocate sample_map sample_header_100 = Halt.
Proof.
  assert (H : Header.Deallocate sample_map_100 sample_header_100
              = Ret sample_map) by (vm_compute; reflexivity).
  split; [exact H|].
  apply (Deallocate_twice_halts sample_map_100 sample_header_100 sample_map H).
  vm_compute. reflexivity.
Defined.

(* ===================================================================== *)
(** ** FileSynch: the count of handles *)
(* ===================================================================== *)

Lemma closes_nonneg cs : 0 <= closes cs.
Proof. induction cs as [|[] cs IH]; simpl; lia. Qed.

Lemma handle_calls_cons c cs s :
  handle_calls (c :: cs) s
  = (fst (match c with
          | CallFileOpened => Synch.FileOpened s
          | CallFileClosed => Synch.FileClosed s
          end)
     :: fst (handle_calls cs
               (snd (match c with
                     | CallFileOpened => Synch.FileOpened s
                     | CallFileClosed => Synch.FileClosed s
                     end))),
     snd (handle_calls cs
            (snd (match c with
                  | CallFileOpened => Synch.FileOpened s
                  | CallFileClosed => Synch.FileClosed s
                  end)))).
Proof.
  cbn [handle_calls].
  destruct (match c with
            | CallFileOpened => Synch.FileOpened s
            | CallFileClosed => Synch.FileClosed s
            end) as [r s1].
  cbn [fst snd]. now destruct (handle_calls cs s1).
Qed.

(** X10. A record that is flagged for removal never gains a handle:
    every [FileOpened] is refused and leaves the count alone, the count
    goes down by one with every [FileClosed], and the record is ready to
    be removed exactly when as many handles were closed as were open. *)
Theorem flagged_record_gains_no_handle (cs : list handle_call) (s : FileSynch) :
  beingRemoved s = true ->
  0 <= opened s < UINT_MODULUS ->
  closes cs <= opened s ->
  beingRemoved (snd (handle_calls cs s)) = true
  /\ opened (snd (handle_calls cs s)) = opened s - closes cs
  /\ (forall i, cs !! i = Some CallFileOpened ->
                fst (handle_calls cs s) !! i = Some true)
  /\ (Synch.ReadyToRemove (snd (handle_calls cs s)) = true
      <-> closes cs = opened s).
Proof.
  revert s. induction cs as [|c cs IH]; intros s Hflag Hrange Hcl.
  - cbn [handle_calls closes fst snd]. rewrite Z.sub_0_r.
    split; [exact Hflag|]. split; [reflexivity|]. split.
    + intros i Hi. discriminate.
    + unfold Synch.ReadyToRemove. rewrite Hflag. cbn [andb]. lia.
  - pose proof (closes_nonneg cs) as Hnn.
    rewrite handle_calls_cons. cbn [fst snd].
    destruct c.
    + (* FileOpened *)
      unfold Synch.FileOpened. rewrite Hflag. cbn [negb fst snd].
      cbn [closes] in Hcl |- *.
      destruct (IH s Hflag Hrange Hcl) as (IH1 & IH2 & IH3 & IH4).
      split; [exact IH1|]. split; [exact IH2|]. split; [|exact IH4].
      intros [|i] Hi; [reflexivity|]. cbn in Hi |- *. auto.
    + (* FileClosed *)
      unfold Synch.FileClosed. cbn [fst snd].
      cbn [closes] in Hcl |- *.
      rewrite (u32_small (opened s - 1)) by lia.
      set (s1 := Synch.set_opened (opened s - 1) s).
      destruct (IH s1 Hflag ltac:(cbn; lia) ltac:(cbn; lia))
        as (IH1 & IH2 & IH3 & IH4).
      cbn [s1 Synch.set_opened opened] in IH2, IH4.
      split; [exact IH1|]. split; [lia|]. split; [|split].
      * intros [|i] Hi; [discriminate|]. cbn in Hi |- *. auto.
      * intros H. apply IH4 in H. lia.
      * intros H. apply IH4. lia.
Qed.

Lemma flagged_record_gains_no_handle_witness :
  opened (snd (handle_calls
                 [CallFileClosed; CallFileOpened; CallFileClosed;
                  CallFileClosed] sample_flagged)) = 0
  /\ Synch.ReadyToRemove
       (snd (handle_calls
               [CallFileClosed; CallFileOpened; CallFileClosed;
                CallFileClosed] sample_flagged)) = true.
Proof.
  pose proof (flagged_record_gains_no_handle
                [CallFileClosed; CallFileOpened; CallFileClosed;
                 CallFileClosed] sample_flagged) as H.
  destruct H as (_ & Hcount & _ & Hready).
  - reflexivity.
  - vm_compute. split; [discriminate|reflexivity].
  - vm_compute. discriminate.
  - split; [exact Hcount|]. apply Hready. reflexivity.
Defined.

(* ===================================================================== *)
(** ** FileSystem: Open, Remove and SplitPath *)
(* ===================================================================== *)

Section FacadeFacts.
Import FS.

Lemma set_hdr_same t : Synch.set_hdr (hdr t) t = t.
Proof. now destruct t. Qed.

Lemma set_fileSynchList_same fs : set_fileSynchList (fileSynchList fs) fs = fs.
Proof. now destruct fs. Qed.

End FacadeFacts.

(** X11. [Open] never writes to the disk.  When it returns no handle the
    registry of files is as it was; when it returns a handle, the file
    has a record that is not flagged for removal, new with one handle or
    the old one with one handle more, and no other record changed. *)
Theorem Open_leaves_disk path fs r fs' :
  FS.Open path fs = Ret (r, fs') ->
  disk fs' = disk fs
  /\ match r with
     | None => fileSynchList fs' = fileSynchList fs
     | Some sector =>
         (exists t, fileSynchList fs' !! sector = Some t
                    /\ beingRemoved t = false
                    /\ match fileSynchList fs !! sector with
                       | None => opened t = 1
                       | Some t0 => beingRemoved t0 = false
                                    /\ opened t = u32 (opened t0 + 1)
                       end)
         /\ forall k, k <> sector ->
              fileSynchList fs' !! k = fileSynchList fs !! k
     end.
Proof.
  unfold FS.Open. destruct (FS.SplitPath path) as [dirPath name].
  destruct (FS.FindDirectory dirPath fs) as [[found fs1]| |] eqn:Hfind;
    cbn [mbind outcome_bind]; try discriminate.
  destruct (FindDirectory_frame _ _ _ _ Hfind) as (Hd & Hf & _ & _).
  destruct found as [dsec|]; [|intros [= <- <-]; auto].
  destruct (fsSynchList fs1 !! dsec) as [dirSynch|]; [|discriminate].
  destruct (Directory.FetchFrom (disk fs1) dirSynch) as [dir| |];
    cbn [mbind outcome_bind]; try discriminate.
  destruct (_ && _); [|intros [= <- <-]; auto].
  set (sector := Directory.Find dir name).
  rewrite Hf.
  destruct (fileSynchList fs !! sector) as [t0|] eqn:Hrec.
  - unfold Synch.FileOpened.
    destruct (beingRemoved t0) eqn:Hflag; cbn [negb].
    + intros [= <- <-]. cbn [FS.set_fileSynchList disk fileSynchList].
      split; [exact Hd|]. now apply insert_id.
    + intros [= <- <-]. cbn [FS.set_fileSynchList disk fileSynchList].
      split; [exact Hd|]. rewrite ?Hrec. split.
      * eexists. rewrite lookup_insert_eq. split; [reflexivity|].
        cbn [Synch.set_opened beingRemoved opened]. auto.
      * intros k Hk. now rewrite lookup_insert_ne by congruence.
  - intros [= <- <-]. cbn [FS.set_fileSynchList disk fileSynchList].
    split; [exact Hd|]. rewrite ?Hrec. split.
    + eexists. rewrite lookup_insert_eq. split; [reflexivity|].
      cbn [Synch.fresh beingRemoved opened]. auto.
    + intros k Hk. now rewrite lookup_insert_ne by congruence.
Qed.

(** X12. A [Remove] that returns false has written nothing: the disk
    and the registry of files are as they were, whether the path led
    nowhere, the name was unknown or the directory was not empty. *)
Theorem Remove_false_writes_nothing path fs fs' :
  FS.Remove path fs = Ret (false, fs') ->
  disk fs' = disk fs /\ fileSynchList fs' = fileSynchList fs.
Proof.
  unfold FS.Remove.
  destruct (FS.SplitPath path) as [dirPath name].
  destruct (FS.FindDirectory dirPath fs) as [[found fs1]| |] eqn:Hfind;
    cbn [mbind outcome_bind]; try discriminate.
  destruct (FindDirectory_frame _ _ _ _ Hfind) as (Hd & Hf & _ & _).
  destruct found as [dsec|]; [|intros [= <-]; auto].
  destruct (fsSynchList fs1 !! dsec) as [dirSynch|]; [|discriminate].
  destruct (Directory.FetchFrom (disk fs1) dirSynch) as [dir| |];
    cbn [mbind outcome_bind]; try discriminate.
  destruct (_ =? -1); [intros [= <-]; auto|].
  assert (Hreclaim : forall ds t n s g,
            FS.Remove_reclaim ds t n s g = Ret (false, fs') -> False).
  { intros ds t n s g. unfold FS.Remove_reclaim.
    destruct (fsSynchList g !! FREE_MAP_SECTOR); [|discriminate].
    destruct (Header.Deallocate _ _); cbn [mbind outcome_bind];
      try discriminate.
    destruct (Directory.WriteBack _ _ _); cbn [mbind outcome_bind];
      discriminate. }
  destruct (Directory.IsDir dir name).
  - destruct (Directory.FetchFrom _ _) as [sub| |];
      cbn [mbind outcome_bind]; try discriminate.
    destruct (negb _); [intros [= <-]; auto|].
    intros H. now apply Hreclaim in H.
  - destruct (fileSynchList fs1 !! _); [discriminate|].
    intros H. now apply Hreclaim in H.
Qed.

Lemma Open_leaves_disk_witness :
  FS.Open "/f" (after_Create "/f" 300 false formatted)
  = Ret (Some 6, after_Open "/f" (after_Create "/f" 300 false formatted))
  /\ disk (after_Open "/f" (after_Create "/f" 300 false formatted))
     = disk (after_Create "/f" 300 false formatted).
Proof.
  assert (H : FS.Open "/f" (after_Create "/f" 300 false formatted)
              = Ret (Some 6,
                     after_Open "/f" (after_Create "/f" 300 false formatted)))
    by (vm_compute; reflexivity).
  split; [exact H|].
  exact (proj1 (Open_leaves_disk _ _ _ _ H)).
Defined.

(** [/d] is not empty. *)
Lemma Remove_false_writes_nothing_witness :
  FS.Remove "/d" nested = Ret (false, after_Remove "/d" nested)
  /\ disk (after_Remove "/d" nested) = disk nested.
Proof.
  assert (H : FS.Remove "/d" nested = Ret (false, after_Remove "/d" nested))
    by (vm_compute; reflexivity).
  split; [exact H|].
  exact (proj1 (Remove_false_writes_nothing _ _ _ H)).
Defined.

Section SplitPathFacts.
Import FS.

Lemma last_slash_None p : last_slash p = None -> SLASH ∉ p.
Proof.
  unfold last_slash.
  destruct (list_find _ (reverse p)) as [[j c]|] eqn:Hf; [discriminate|].
  intros _ Hin. apply list_find_None in Hf.
  rewrite Forall_forall in Hf. apply (Hf SLASH); [|reflexivity].
  now apply elem_of_reverse.
Qed.

Lemma last_slash_Some p i :
  last_slash p = Some i ->
  p = take i p ++ SLASH :: drop (S i) p /\ (SLASH ∉ drop (S i) p)
  /\ (i < length p)%nat.
Proof.
  unfold last_slash.
  destruct (list_find _ (reverse p)) as [[j c]|] eqn:Hf; [|discriminate].
  intros [= <-].
  apply list_find_Some in Hf as (Hj & -> & Hbefore).
  assert (Hjlen : (j < length p)%nat).
  { apply lookup_lt_Some in Hj. now rewrite length_reverse in Hj. }
  rewrite reverse_lookup in Hj by exact Hjlen.
  replace (length p - S j)%nat with (length p - 1 - j)%nat in Hj by lia.
  split; [|split; [|lia]].
  - symmetry. now apply take_drop_middle.
  - intros Hin. apply list_elem_of_lookup in Hin as [m Hm].
    rewrite lookup_drop in Hm.
    assert (Hmlen : (S (length p - 1 - j) + m < length p)%nat)
      by now apply lookup_lt_Some in Hm.
    apply (Hbefore (j - 1 - m)%nat SLASH); [|lia|reflexivity].
    rewrite reverse_lookup by lia. rewrite <- Hm. f_equal. lia.
Qed.

Lemma trim_trailing_slash_snoc q :
  q <> [] -> trim_trailing_slash (q ++ [SLASH]) = q.
Proof.
  intros Hq. unfold trim_trailing_slash. rewrite reverse_snoc.
  rewrite bool_decide_eq_true_2 by reflexivity.
  rewrite bool_decide_eq_false_2.
  - cbn [andb negb]. apply reverse_involutive.
  - intros Hr. apply Hq. apply (f_equal reverse) in Hr.
    now rewrite reverse_involutive in Hr.
Qed.

Lemma trim_trailing_slash_other q :
  last q <> Some SLASH -> trim_trailing_slash q = q.
Proof.
  intros Hlast. unfold trim_trailing_slash.
  destruct (reverse q) as [|c rest] eqn:Hr; [reflexivity|].
  apply (f_equal reverse) in Hr. rewrite reverse_involutive in Hr.
  rewrite reverse_cons in Hr. subst q. rewrite last_snoc in Hlast.
  rewrite bool_decide_eq_false_2 by congruence. reflexivity.
Qed.

End SplitPathFacts.

(** X13. [SplitPath] cuts the path, without a slash at its end, at its
    last slash: a path with no slash is a name in the current directory,
    and otherwise the name is what follows the last slash, with no slash
    in it, and the directory is what stands before, or the root if
    nothing does.  One slash at the end of a path makes no difference. *)
Theorem SplitPath_cuts_at_last_slash path :
  let p := trim_trailing_slash (list_ascii_of_string path) in
  (((FS.SLASH ∉ p)
    /\ FS.SplitPath path = (EmptyString, string_of_list_ascii p))
   \/ (exists prefix name,
         p = prefix ++ FS.SLASH :: name
         /\ (FS.SLASH ∉ name)
         /\ FS.SplitPath path
            = (dir_part prefix, string_of_list_ascii name)))
  /\ (path <> EmptyString ->
      last (list_ascii_of_string path) <> Some FS.SLASH ->
      FS.SplitPath
        (string_of_list_ascii (list_ascii_of_string path ++ [FS.SLASH]))
      = FS.SplitPath path).
Proof.
  cbn zeta. split.
  2:{ intros Hne Hlast. unfold FS.SplitPath.
      rewrite list_ascii_of_string_of_list_ascii.
      fold (trim_trailing_slash (list_ascii_of_string path ++ [FS.SLASH])).
      fold (trim_trailing_slash (list_ascii_of_string path)).
      rewrite trim_trailing_slash_snoc, trim_trailing_slash_other;
        [reflexivity|exact Hlast|].
      intros Hnil. apply Hne.
      rewrite <- (string_of_list_ascii_of_string path). now rewrite Hnil. } unfold FS.SplitPath. fold (trim_trailing_slash (list_ascii_of_string path)).
  set (p := trim_trailing_slash _).
  destruct (FS.last_slash p) as [i|] eqn:Hl.
  - right. apply last_slash_Some in Hl as (Hp & Hno & Hlen).
    exists (take i p), (drop (S i) p).
    split; [exact Hp|]. split; [exact Hno|]. f_equal.
    destruct i as [|i].
    + reflexivity.
    + rewrite bool_decide_eq_false_2 by discriminate.
      destruct p as [|c p']; [simpl in Hlen; lia|]. reflexivity.
  - left. split; [now apply last_slash_None|reflexivity].
Qed.

(* ===================================================================== *)
(** ** Core map and address space: eviction, loading, saving *)
(* ===================================================================== *)

Section EvictionFacts.
Import Coremap.

Variable N : Z.

(** The loop of [UpdateVictim] touches nothing but use bits. *)
Lemma UpdateVictim_while_frame fuel k k1 :
  UpdateVictim_while N fuel k = Done k1 ->
  swapFiles k1 = swapFiles k /\ mainMemory k1 = mainMemory k
  /\ tlb k1 = tlb k /\ physPagesMap k1 = physPagesMap k
  /\ addrSpaces k1 = addrSpaces k /\ virtualPages k1 = virtualPages k
  /\ (forall key,
        match pages k !! key with
        | Some e0 => exists b, pages k1 !! key = Some (set_use b e0)
        | None => pages k1 !! key = None
        end)
  /\ (forall key, (forall f, owner k f <> Some key) ->
                  pages k1 !! key = pages k !! key).
Proof.
  revert k. induction fuel as [|fuel IH]; intros k; cbn [UpdateVictim_while].
  - destruct (owner k (victim k)) as [o|]; [|discriminate].
    destruct (pages k !! o) as [entry|]; [|discriminate].
    destruct (use entry); [discriminate|]. intros [= <-].
    repeat split; try reflexivity.
    intros key. destruct (pages k !! key) as [e0|]; [|reflexivity].
    exists (use e0). now destruct e0.
  - destruct (owner k (victim k)) as [o|] eqn:Ho; [|discriminate].
    destruct (pages k !! o) as [entry|] eqn:He; [|discriminate].
    destruct (use entry).
    + intros Hrun. apply IH in Hrun
        as (H1 & H2 & H3 & H4 & H5 & H6 & Hpages & Hother).
      cbn [pass set_victim set_pages swapFiles mainMemory tlb physPagesMap
           addrSpaces virtualPages pages] in *.
      repeat split; try assumption.
      * intros key. specialize (Hpages key).
        destruct (decide (key = o)) as [->|Hne].
        -- rewrite lookup_insert_eq in Hpages. rewrite He.
           destruct Hpages as [b Hb]. exists b. rewrite Hb.
           now destruct entry.
        -- rewrite lookup_insert_ne in Hpages by congruence. exact Hpages.
      * intros key Hkey. rewrite Hother by exact Hkey.
        apply lookup_insert_ne. intros <-. now apply (Hkey (victim k)).
    + intros [= <-]. repeat split; try reflexivity.
      intros key. destruct (pages k !! key) as [e0|]; [|reflexivity].
      exists (use e0). now destruct e0.
Qed.


(** What [FreePage] leaves behind. *)
Lemma FreePage_effect fuel k k' :
  FreePage N fuel k = Done k' ->
  exists sp vpn e0,
    owner k (victim k') = Some (sp, vpn)
    /\ pages k !! (sp, vpn) = Some e0
    /\ pages k' !! (sp, vpn)
       = Some (mkEntry (virtualPage e0) (physicalPage e0) false (readOnly e0)
                       false false (if dirty e0 then true else swap e0))
    /\ swapFiles k'
       = (if dirty e0 then
            <[(sp, vpn) :=
                default [] (mainMemory k !! Z.to_nat (physicalPage e0))]>
              (swapFiles k)
          else swapFiles k)
    /\ mainMemory k' = mainMemory k
    /\ tlb k'
       = match list_find (fun t => physicalPage t = physicalPage e0)
                         (tlb k) with
         | Some (i, t) => <[i := AddrSpace.set_valid false t]> (tlb k)
         | None => tlb k
         end
    /\ addrSpaces k' = addrSpaces k /\ virtualPages k' = virtualPages k
    /\ physPagesMap k' = Bitmap.Clear (victim k') (physPagesMap k)
    /\ (forall key, (forall f, owner k f <> Some key) ->
                    pages k' !! key = pages k !! key).
Proof.
  unfold FreePage, UpdateVictim.
  destruct (UpdateVictim_while N fuel _) as [k1| |] eqn:Hloop;
    try discriminate.
  apply UpdateVictim_while_frame in Hloop
    as (H1 & H2 & H3 & H4 & H5 & H6 & Hpages & Hother).
  cbn [set_victim swapFiles mainMemory tlb physPagesMap addrSpaces
       virtualPages pages] in *.
  assert (Hown : forall f, owner (clear_victim k1) f = owner k f).
  { intros f. unfold owner, clear_victim.
    cbn [addrSpaces virtualPages]. now rewrite H5, H6. }
  rewrite Hown.
  cbn [clear_victim victim].
  destruct (owner k (victim k1)) as [[sp vpn]|] eqn:Ho; [|discriminate].
  unfold SaveToSwap.
  cbn [clear_victim pages swapFiles mainMemory tlb physPagesMap addrSpaces
       virtualPages victim].
  pose proof (Hpages (sp, vpn)) as Hp.
  destruct (pages k !! (sp, vpn)) as [e0|] eqn:He0.
  2:{ rewrite Hp. discriminate. }
  destruct Hp as [b Hb]. rewrite Hb.
  intros [= <-].
  cbn [pages swapFiles mainMemory tlb victim set_use physicalPage dirty swap
       virtualPage readOnly addrSpaces virtualPages physPagesMap].
  exists sp, vpn, e0.
  split; [exact Ho|]. split; [exact He0|].
  split; [now rewrite lookup_insert_eq|].
  rewrite H1, H2, H3, H4, H5, H6.
  split; [now destruct (dirty e0)|]. split; [reflexivity|].
  split; [destruct (list_find _ (tlb k)) as [[i t]|]; reflexivity|].
  split; [reflexivity|]. split; [reflexivity|]. split; [reflexivity|].
  intros key Hkey. rewrite lookup_insert_ne.
  - apply Hother. intros f. unfold owner in *. cbn [set_victim addrSpaces virtualPages]. apply Hkey.
  - intros <-. now apply (Hkey (victim k1)).
Qed.

End EvictionFacts.

(** X14. What [FreePage] does with the page that it evicts is decided by
    the dirty bit of the page-table entry alone: the frame goes to the
    swap file exactly when that bit is set, the entry ends invalid and
    clean, and the first TLB entry for the frame is made invalid without
    its dirty bit being read; main memory is left as it is. *)
Theorem FreePage_writes_swap_by_page_table_dirty_bit N fuel k k' :
  Coremap.FreePage N fuel k = Coremap.Done k' ->
  exists sp vpn e0,
    Coremap.owner k (Coremap.victim k') = Some (sp, vpn)
    /\ Coremap.pages k !! (sp, vpn) = Some e0
    /\ Coremap.pages k' !! (sp, vpn)
       = Some (mkEntry (virtualPage e0) (physicalPage e0) false (readOnly e0)
                       false false (if dirty e0 then true else swap e0))
    /\ Coremap.swapFiles k'
       = (if dirty e0 then
            <[(sp, vpn) :=
                default [] (Coremap.mainMemory k
                              !! Z.to_nat (physicalPage e0))]>
              (Coremap.swapFiles k)
          else Coremap.swapFiles k)
    /\ Coremap.mainMemory k' = Coremap.mainMemory k
    /\ Coremap.tlb k'
       = match list_find (fun t => physicalPage t = physicalPage e0)
                         (Coremap.tlb k) with
         | Some (i, t) =>
             <[i := AddrSpace.set_valid false t]> (Coremap.tlb k)
         | None => Coremap.tlb k
         end.
Proof.
  intros Hrun.
  destruct (FreePage_effect N fuel k k' Hrun)
    as (sp & vpn & e0 & H1 & H2 & H3 & H4 & H5 & H6 & _).
  exists sp, vpn, e0. auto 10.
Qed.

Section CoremapFindFacts.
Import Coremap.

Lemma owner_set_owner_eq f sp vpn k :
  0 <= f ->
  (Z.to_nat f < length (addrSpaces k))%nat ->
  (Z.to_nat f < length (virtualPages k))%nat ->
  owner (set_owner f sp vpn k) f = Some (sp, vpn).
Proof.
  intros Hf Ha Hv. unfold owner, set_owner.
  cbn [addrSpaces virtualPages].
  destruct (Z.ltb_spec f 0); [lia|].
  now rewrite !list_lookup_insert_eq.
Qed.

Lemma owner_set_owner_ne f sp vpn k g :
  0 <= f -> g <> f -> owner (set_owner f sp vpn k) g = owner k g.
Proof.
  intros Hf Hne. unfold owner, set_owner. cbn [addrSpaces virtualPages].
  destruct (Z.ltb_spec g 0); [reflexivity|].
  rewrite !list_lookup_insert_ne by lia. reflexivity.
Qed.

End CoremapFindFacts.

Lemma Coremap_Find_spec sp vpn k :
  length (Coremap.addrSpaces k) = length (Coremap.physPagesMap k) ->
  length (Coremap.virtualPages k) = length (Coremap.physPagesMap k) ->
  match Coremap.Find sp vpn k with
  | Ret (f, k') =>
      0 <= f < Z.of_nat (length (Coremap.physPagesMap k))
      /\ Bitmap.Test (Coremap.physPagesMap k) f = false
      /\ Bitmap.Test (Coremap.physPagesMap k') f = true
      /\ Bitmap.CountClear (Coremap.physPagesMap k')
         = Bitmap.CountClear (Coremap.physPagesMap k) - 1
      /\ Coremap.owner k' f = Some (sp, vpn)
      /\ (forall e, physicalPage e = f -> virtualPage e = vpn ->
                    Coremap.InMemory k' sp e = true)
      /\ (forall g, g <> f -> Coremap.owner k' g = Coremap.owner k g)
      /\ Coremap.pages k' = Coremap.pages k
      /\ Coremap.mainMemory k' = Coremap.mainMemory k
      /\ Coremap.swapFiles k' = Coremap.swapFiles k
      /\ k' = Coremap.set_owner f sp vpn
                (Coremap.set_physPagesMap
                   (Bitmap.Mark f (Coremap.physPagesMap k)) k)
  | Halt => Bitmap.CountClear (Coremap.physPagesMap k) = 0
  | Undefined => False
  end.
Proof.
  intros Ha Hv. unfold Coremap.Find.
  destruct (Z_lt_le_dec 0 (Bitmap.CountClear (Coremap.physPagesMap k)))
    as [Hpos|Hzero].
  - destruct (Find_Some _ Hpos) as (s & Hfind & Hs & Hclear & Hmark & Hcount).
    rewrite Hfind.
    destruct (Z.eqb_spec s (-1)); [lia|].
    cbn [negb ASSERT mbind outcome_bind].
    assert (Hlen : (Z.to_nat s < length (Coremap.physPagesMap k))%nat).
    { apply Test_true_lookup in Hmark as [_ Hl].
      apply lookup_lt_Some in Hl. unfold Bitmap.Mark in Hl.
      destruct (s <? 0); [exact Hl|]. now rewrite length_insert in Hl. }
    assert (Hown : Coremap.owner
                     (Coremap.set_owner s sp vpn
                        (Coremap.set_physPagesMap
                           (Bitmap.Mark s (Coremap.physPagesMap k)) k)) s
                   = Some (sp, vpn)).
    { apply owner_set_owner_eq; cbn; [exact Hs|lia|lia]. }
    split; [lia|]. split; [exact Hclear|]. split; [exact Hmark|].
    split; [exact Hcount|]. split; [exact Hown|].
    split; [|split; [|repeat split; reflexivity]].
    + intros e He Hvp. unfold Coremap.InMemory. rewrite He, Hown, Hvp.
      rewrite bool_decide_eq_true_2 by reflexivity. now rewrite Z.eqb_refl.
    + intros g Hg. now rewrite owner_set_owner_ne.
  - pose proof (CountClear_nonneg (Coremap.physPagesMap k)) as Hnn.
    unfold Bitmap.Find.
    destruct (Bitmap.first_clear (Coremap.physPagesMap k) 0) as [s|] eqn:Hfc.
    + exfalso. apply first_clear_Some in Hfc as [_ Hl].
      rewrite Z.sub_0_r in Hl.
      pose proof (CountClear_insert_true _ _ Hl) as Hc.
      pose proof (CountClear_nonneg
                    (<[Z.to_nat s := true]> (Coremap.physPagesMap k))).
      lia.
    + rewrite Z.eqb_refl. cbn [negb ASSERT mbind outcome_bind]. lia.
Qed.

(** X15. [Coremap::Find] takes a frame that was free, marks it and
    records the page as its owner, so that [InMemory] holds for an entry
    of that page that points at the frame; the owners of the other
    frames, the page tables and the memory are as before.  It halts
    exactly when no frame is free. *)
Theorem Coremap_Find_then_InMemory sp vpn k :
  length (Coremap.addrSpaces k) = length (Coremap.physPagesMap k) ->
  length (Coremap.virtualPages k) = length (Coremap.physPagesMap k) ->
  match Coremap.Find sp vpn k with
  | Ret (f, k') =>
      0 <= f < Z.of_nat (length (Coremap.physPagesMap k))
      /\ Bitmap.Test (Coremap.physPagesMap k) f = false
      /\ Bitmap.Test (Coremap.physPagesMap k') f = true
      /\ Bitmap.CountClear (Coremap.physPagesMap k')
         = Bitmap.CountClear (Coremap.physPagesMap k) - 1
      /\ Coremap.owner k' f = Some (sp, vpn)
      /\ (forall e, physicalPage e = f -> virtualPage e = vpn ->
                    Coremap.InMemory k' sp e = true)
      /\ (forall g, g <> f -> Coremap.owner k' g = Coremap.owner k g)
      /\ Coremap.pages k' = Coremap.pages k
      /\ Coremap.mainMemory k' = Coremap.mainMemory k
  | Halt => Bitmap.CountClear (Coremap.physPagesMap k) = 0
  | Undefined => False
  end.
Proof.
  intros Ha Hv. pose proof (Coremap_Find_spec sp vpn k Ha Hv) as H.
  destruct (Coremap.Find sp vpn k) as [[f k']| |]; [|exact H|exact H].
  destruct H as (H1 & H2 & H3 & H4 & H5 & H6 & H7 & H8 & H9 & _).
  auto 10.
Qed.

Section LoadPageFacts.
Import Coremap AddrSpace.

Variable N : Z.
Variable PAGE_SIZE : Z.

(** The first half of [LoadPage] for a page that no frame holds: the
    entry is made valid and used, a frame is freed if none is free, and
    a frame is claimed for the page. *)
Lemma LoadPage_claims fuel space vpn k e e' k' :
  one_cell_per_frame k ->
  pages k !! (spaceId space, vpn) = Some e ->
  virtualPage e = vpn ->
  (forall f, owner k f <> Some (spaceId space, vpn)) ->
  LoadPage N PAGE_SIZE fuel space vpn k = Loaded e' k' ->
  exists k2 f,
    let e1 := set_use true (set_valid true e) in
    e' = set_physicalPage f e1
    /\ 0 <= f < Z.of_nat (length (physPagesMap k))
    /\ mainMemory k2 = mainMemory k
    /\ swapFiles k2 !! (spaceId space, vpn)
       = swapFiles k !! (spaceId space, vpn)
    /\ owner k' f = Some (spaceId space, vpn)
    /\ pages k' !! (spaceId space, vpn) = Some e'
    /\ mainMemory k'
       = (if (physicalPage e =? -1) || negb (swap e) then
            load_from_executable PAGE_SIZE space vpn f (mainMemory k2)
          else
            <[Z.to_nat f := default [] (swapFiles k2 !! (spaceId space, vpn))]>
              (mainMemory k2)).
Proof.
  intros (Hl1 & Hl2 & Hl3) He Hvp Habsent. unfold LoadPage. rewrite He.
  set (sp := spaceId space) in *.
  set (e1 := set_use true (set_valid true e)).
  set (k1 := set_pages (<[(sp, vpn) := e1]> (pages k)) k).
  assert (Hown1 : forall f, owner k1 f = owner k f) by reflexivity.
  assert (Hnot : InMemory k1 sp e1 = false).
  { unfold InMemory. rewrite Hown1.
    destruct (owner k (physicalPage e1)) as [[sp' vpn']|] eqn:Ho;
      [|reflexivity].
    destruct (bool_decide_reflect (sp' = sp)) as [->|]; [|reflexivity].
    destruct (Z.eqb_spec vpn' (virtualPage e1)) as [->|]; [|reflexivity].
    exfalso. apply (Habsent (physicalPage e1)). rewrite Ho.
    cbn [e1 set_use set_valid virtualPage]. now rewrite Hvp. }
  rewrite Hnot. cbn [negb].
  set (freed := if _ =? 0 then _ else _).
  assert (Hfreed : forall k2, freed = Done k2 ->
            pages k2 !! (sp, vpn) = Some e1
            /\ mainMemory k2 = mainMemory k
            /\ swapFiles k2 !! (sp, vpn) = swapFiles k !! (sp, vpn)
            /\ length (addrSpaces k2) = length (physPagesMap k)
            /\ length (virtualPages k2) = length (physPagesMap k)
            /\ length (physPagesMap k2) = length (physPagesMap k)).
  { intros k2. unfold freed.
    destruct (_ =? 0).
    - intros Hfree.
      destruct (FreePage_effect N fuel k1 k2 Hfree)
        as (sp' & vpn' & e0 & Ho & He0 & Hp & Hs & Hm & _ & Ha & Hv & Hb
            & Hother).
      rewrite Hown1 in Ho.
      assert (Hne : (sp', vpn') <> (sp, vpn)).
      { intros Heq. apply (Habsent (victim k2)). now rewrite Ho, Heq. }
      split.
      { rewrite Hother by (intros f; rewrite Hown1; apply Habsent).
        unfold k1. cbn [set_pages pages]. apply lookup_insert_eq. }
      split; [exact Hm|]. split.
      { rewrite Hs. destruct (dirty e0); [|reflexivity].
        now rewrite lookup_insert_ne. }
      rewrite Ha, Hv, Hb. cbn [k1 set_pages addrSpaces virtualPages
                                  physPagesMap].
      split; [exact Hl1|]. split; [exact Hl2|].
      unfold Bitmap.Clear. destruct (_ <? 0); [reflexivity|].
      apply length_insert.
    - intros [= <-]. unfold k1. cbn [set_pages pages mainMemory swapFiles
                                       addrSpaces virtualPages physPagesMap].
      rewrite lookup_insert_eq. repeat split; assumption || reflexivity. }
  destruct freed as [k2| |]; try discriminate.
  destruct (Hfreed k2 eq_refl) as (Hp2 & Hm2 & Hs2 & Ha2 & Hv2 & Hb2).
  rewrite Hp2.
  pose proof (Coremap_Find_spec sp vpn k2 ltac:(lia) ltac:(lia)) as Hfind.
  destruct (Coremap.Find sp vpn k2) as [[f k3]| |]; try discriminate.
  destruct Hfind as (Hf & _ & _ & _ & Hown3 & _ & _ & Hp3 & Hm3 & Hs3 & _).
  intros [= <- <-].
  exists k2, f. cbn zeta.
  split; [reflexivity|]. split; [lia|]. split; [exact Hm2|].
  split; [exact Hs2|].
  cbn [set_mainMemory set_pages pages mainMemory swapFiles].
  split; [exact Hown3|]. split; [apply lookup_insert_eq|].
  rewrite Hm3, Hs3.
  cbn [e1 set_use set_valid physicalPage swap]. reflexivity.
Qed.

Lemma write_frame_outside f o bytes mem frame j :
  mem !! Z.to_nat f = Some frame ->
  (Z.to_nat o <= length frame)%nat ->
  (j < Z.to_nat o \/ Z.to_nat o + length bytes <= j)%nat ->
  exists frame',
    write_frame f o bytes mem !! Z.to_nat f = Some frame'
    /\ frame' !! j = frame !! j
    /\ (length frame <= length frame')%nat.
Proof.
  intros Hf Ho Hj. unfold write_frame.
  rewrite list_lookup_alter_eq, Hf. cbn [fmap option_fmap option_map].
  eexists. split; [reflexivity|]. split.
  - destruct Hj as [Hj|Hj].
    + rewrite lookup_app_l by (rewrite length_take; lia).
      apply lookup_take_lt. exact Hj.
    + rewrite lookup_app_r by (rewrite length_take; lia).
      rewrite length_take, Nat.min_l by exact Ho.
      rewrite lookup_app_r by lia.
      rewrite lookup_drop. f_equal. lia.
  - rewrite !length_app, length_take, length_drop. lia.
Qed.

Lemma ReadBlock_length segment size offset :
  (length (ReadBlock segment size offset) <= Z.to_nat size)%nat.
Proof. unfold ReadBlock. rewrite length_take. lia. Qed.

End LoadPageFacts.

(** X16. A page that was evicted while dirty comes back as it was:
    [SaveToSwap] writes the frame to the swap file, and when the page is
    loaded again, whatever frame it gets and whichever page has to make
    room for it, that frame holds the bytes that were written. *)
Theorem swapped_page_comes_back N PAGE_SIZE fuel space vpn k0 k1 e0 content
    k e' k' :
  Coremap.pages k0 !! (spaceId space, vpn) = Some e0 ->
  dirty e0 = true -> virtualPage e0 = vpn -> physicalPage e0 <> -1 ->
  Coremap.mainMemory k0 !! Z.to_nat (physicalPage e0) = Some content ->
  Coremap.SaveToSwap (spaceId space) vpn k0 = Coremap.Done k1 ->
  Coremap.pages k !! (spaceId space, vpn)
  = Coremap.pages k1 !! (spaceId space, vpn) ->
  Coremap.swapFiles k !! (spaceId space, vpn)
  = Coremap.swapFiles k1 !! (spaceId space, vpn) ->
  (forall f, Coremap.owner k f <> Some (spaceId space, vpn)) ->
  one_cell_per_frame k ->
  AddrSpace.LoadPage N PAGE_SIZE fuel space vpn k = AddrSpace.Loaded e' k' ->
  valid e' = true
  /\ Coremap.pages k' !! (spaceId space, vpn) = Some e'
  /\ Coremap.InMemory k' (spaceId space) e' = true
  /\ Coremap.mainMemory k' !! Z.to_nat (physicalPage e') = Some content.
Proof.
  intros He0 Hdirty Hvp Hpp Hmem Hsave Hpages Hswap Habsent Hcells Hload.
  revert Hsave. unfold Coremap.SaveToSwap. rewrite He0, Hdirty, Hmem.
  intros [= <-].
  cbn [Coremap.pages Coremap.swapFiles default] in Hpages, Hswap.
  rewrite lookup_insert_eq in Hpages. rewrite lookup_insert_eq in Hswap.
  destruct (LoadPage_claims N PAGE_SIZE fuel space vpn k _ e' k' Hcells
              Hpages Hvp Habsent Hload)
    as (k2 & f & He' & Hf & Hm2 & Hs2 & Hown & Hp' & Hmem').
  cbn zeta in He'.
  cbn [physicalPage swap negb orb] in Hmem'.
  destruct (Z.eqb_spec (physicalPage e0) (-1)); [contradiction|].
  cbn [orb] in Hmem'.
  rewrite Hs2, Hswap in Hmem'. cbn [default] in Hmem'.
  subst e'. cbn [AddrSpace.set_physicalPage Coremap.set_use
                 AddrSpace.set_valid valid physicalPage virtualPage].
  split; [reflexivity|]. split; [exact Hp'|]. split.
  - unfold Coremap.InMemory.
    cbn [AddrSpace.set_physicalPage Coremap.set_use AddrSpace.set_valid
         physicalPage virtualPage]. rewrite Hown.
    rewrite bool_decide_eq_true_2 by reflexivity.
    rewrite Hvp. now rewrite Z.eqb_refl.
  - rewrite Hmem'. apply list_lookup_insert_eq.
    destruct Hcells as (_ & _ & Hl). rewrite Hm2, Hl. lia.
Qed.


(** X17. [LoadPage] does not clear the frame that it fills from the
    executable unless the page starts beyond the code and the
    initialised data: for a page that was never written to swap and that
    starts at or before [codeSize + initDataSize], every byte of the
    frame that lies outside the two segments is left as it was in that
    frame before the call. *)
Theorem LoadPage_leaves_stale_bytes N PAGE_SIZE fuel space vpn k e e' k'
    old :
  one_cell_per_frame k ->
  Coremap.pages k !! (spaceId space, vpn) = Some e ->
  virtualPage e = vpn ->
  physicalPage e = -1 \/ swap e = false ->
  (forall f, Coremap.owner k f <> Some (spaceId space, vpn)) ->
  0 <= vpn -> 0 < PAGE_SIZE -> vpn * PAGE_SIZE + PAGE_SIZE < UINT_MODULUS ->
  0 <= codeAddr space -> 0 <= codeSize space ->
  0 <= initDataAddr space -> 0 <= initDataSize space ->
  codeAddr space + codeSize space < UINT_MODULUS ->
  initDataAddr space + initDataSize space < UINT_MODULUS ->
  codeSize space + initDataSize space < UINT_MODULUS ->
  vpn * PAGE_SIZE <= codeSize space + initDataSize space ->
  AddrSpace.LoadPage N PAGE_SIZE fuel space vpn k = AddrSpace.Loaded e' k' ->
  Coremap.mainMemory k !! Z.to_nat (physicalPage e') = Some old ->
  length old = Z.to_nat PAGE_SIZE ->
  exists new,
    Coremap.mainMemory k' !! Z.to_nat (physicalPage e') = Some new
    /\ forall j,
         0 <= j < PAGE_SIZE ->
         ~ (codeAddr space <= vpn * PAGE_SIZE + j
            < codeAddr space + codeSize space) ->
         ~ (initDataAddr space <= vpn * PAGE_SIZE + j
            < initDataAddr space + initDataSize space) ->
         new !! Z.to_nat j = old !! Z.to_nat j.
Proof.
  intros Hcells He Hvp Hfresh Habsent Hvpn Hpage Hend Hca Hcs Hda Hds
         Hcode Hdata Hsum Hlow Hload Hold Hlen.
  destruct (LoadPage_claims N PAGE_SIZE fuel space vpn k e e' k' Hcells
              He Hvp Habsent Hload)
    as (k2 & f & He' & Hf & Hm2 & _ & _ & _ & Hmem').
  cbn zeta in He'.
  assert (Hpp : physicalPage e' = f) by now subst e'.
  rewrite Hpp in *. clear He' Hpp Hload.
  assert (Hexe : (physicalPage e =? -1) || negb (swap e) = true).
  { destruct Hfresh as [-> | ->]; [reflexivity|apply orb_true_r]. }
  rewrite Hexe, Hm2 in Hmem'. rewrite Hmem'. clear Hmem' Hexe.
  unfold AddrSpace.load_from_executable.
  assert (Hmul : 0 <= vpn * PAGE_SIZE) by nia.
  rewrite (u32_small (vpn * PAGE_SIZE)) by lia.
  rewrite (u32_small (codeSize space + initDataSize space)) by lia.
  destruct (Z.gtb_spec (vpn * PAGE_SIZE)
              (codeSize space + initDataSize space)); [lia|].
  rewrite (u32_small (vpn * PAGE_SIZE + PAGE_SIZE)) by lia.
  rewrite (u32_small (codeSize space + codeAddr space)) by lia.
  rewrite (u32_small (initDataSize space + initDataAddr space)) by lia.
  set (start := vpn * PAGE_SIZE) in *.
  set (oc := Z.max start (codeAddr space)).
  set (ec := Z.min (start + PAGE_SIZE) (codeSize space + codeAddr space)).
  set (od := Z.max start (initDataAddr space)).
  set (ed := Z.min (start + PAGE_SIZE)
                   (initDataSize space + initDataAddr space)).
  (* the copy of the code *)
  set (mem1 := if oc <? ec then _ else Coremap.mainMemory k).
  assert (H1 : exists fr1,
            mem1 !! Z.to_nat f = Some fr1
            /\ (length old <= length fr1)%nat
            /\ forall j, 0 <= j < PAGE_SIZE ->
                 ~ (codeAddr space <= start + j
                    < codeAddr space + codeSize space) ->
                 fr1 !! Z.to_nat j = old !! Z.to_nat j).
  { unfold mem1. destruct (Z.ltb_spec oc ec) as [Hlt|Hge].
    - rewrite (u32_small (oc - start)) by lia.
      rewrite (u32_small (ec - oc)) by lia.
      rewrite (u32_small (oc - codeAddr space)) by lia.
      set (bytes := AddrSpace.ReadBlock _ _ _).
      pose proof (ReadBlock_length (codeBytes space) (ec - oc)
                    (oc - codeAddr space)) as Hb. fold bytes in Hb.
      assert (Hall : forall j, 0 <= j < PAGE_SIZE ->
                ~ (codeAddr space <= start + j
                   < codeAddr space + codeSize space) ->
                (Z.to_nat j < Z.to_nat (oc - start)
                 \/ Z.to_nat (oc - start) + length bytes <= Z.to_nat j)%nat)
        by (intros j Hj Hout; lia).
      destruct (write_frame_outside f (oc - start) bytes
                  (Coremap.mainMemory k) old (Z.to_nat PAGE_SIZE) Hold
                  ltac:(lia) ltac:(lia))
        as (fr1 & Hfr1 & _ & Hlen1).
      exists fr1. split; [exact Hfr1|]. split; [exact Hlen1|].
      intros j Hj Hout.
      destruct (write_frame_outside f (oc - start) bytes
                  (Coremap.mainMemory k) old (Z.to_nat j) Hold
                  ltac:(lia) (Hall j Hj Hout))
        as (fr1' & Hfr1' & Heq & _).
      rewrite Hfr1 in Hfr1'. injection Hfr1' as <-. exact Heq.
    - exists old. split; [exact Hold|]. split; [lia|]. auto. }
  destruct H1 as (fr1 & Hfr1 & Hlen1 & Hkeep1).
  clearbody mem1.
  destruct (Z.ltb_spec od ed) as [Hlt|Hge].
  - rewrite (u32_small (od - start)) by lia.
    rewrite (u32_small (ed - od)) by lia.
    rewrite (u32_small (od - initDataAddr space)) by lia.
    set (bytes := AddrSpace.ReadBlock _ _ _).
    pose proof (ReadBlock_length (initDataBytes space) (ed - od)
                  (od - initDataAddr space)) as Hb. fold bytes in Hb.
    assert (Hall : forall j, 0 <= j < PAGE_SIZE ->
              ~ (initDataAddr space <= start + j
                 < initDataAddr space + initDataSize space) ->
              (Z.to_nat j < Z.to_nat (od - start)
               \/ Z.to_nat (od - start) + length bytes <= Z.to_nat j)%nat)
      by (intros j Hj Hout; lia).
    destruct (write_frame_outside f (od - start) bytes mem1 fr1
                (Z.to_nat PAGE_SIZE) Hfr1 ltac:(lia) ltac:(lia))
      as (fr2 & Hfr2 & _ & _).
    exists fr2. split; [exact Hfr2|].
    intros j Hj Hout1 Hout2.
    destruct (write_frame_outside f (od - start) bytes mem1 fr1
                (Z.to_nat j) Hfr1 ltac:(lia) (Hall j Hj Hout2))
      as (fr2' & Hfr2' & Heq & _).
    rewrite Hfr2 in Hfr2'. injection Hfr2' as <-.
    rewrite Heq. now apply Hkeep1.
  - exists fr1. split; [exact Hfr1|]. intros j Hj Hout1 _.
    now apply Hkeep1.
Qed.


Section SaveStateFacts.
Import Coremap AddrSpace.

(** One turn of the loop of [SaveState]. *)
Lemma SaveState_fold sp l k k' :
  foldl (fun r t =>
           match r with
           | Done k =>
               if valid t && dirty t then
                 let vpn := virtualPage t in
                 match pages k !! (sp, vpn) with
                 | Some e =>
                     Done (set_pages
                             (<[(sp, vpn) := set_dirty true e]> (pages k)) k)
                 | None => Fault
                 end
               else Done k
           | r => r
           end) (Done k) l = Done k' ->
  (forall key,
     match pages k !! key with
     | Some e =>
         pages k' !! key = Some e
         \/ (pages k' !! key = Some (set_dirty true e)
             /\ exists t, t ∈ l /\ valid t = true /\ dirty t = true
                          /\ key = (sp, virtualPage t))
     | None => pages k' !! key = None
     end)
  /\ (forall t, t ∈ l -> valid t = true -> dirty t = true ->
        exists e, pages k' !! (sp, virtualPage t) = Some e
                  /\ dirty e = true)
  /\ swapFiles k' = swapFiles k /\ mainMemory k' = mainMemory k
  /\ tlb k' = tlb k /\ physPagesMap k' = physPagesMap k
  /\ addrSpaces k' = addrSpaces k /\ virtualPages k' = virtualPages k
  /\ victim k' = victim k.
Proof.
  revert k. induction l as [|t l IH]; intros k; cbn [foldl].
  - intros [= <-]. split; [|split; [|repeat split; reflexivity]].
    + intros key. destruct (pages k !! key); auto.
    + intros t Ht. now apply elem_of_nil in Ht.
  - assert (Hstuck : forall r, r <> Done k' -> (forall x, r <> Done x) ->
              foldl (fun r t =>
                match r with
                | Done k =>
                    if valid t && dirty t then
                      let vpn := virtualPage t in
                      match pages k !! (sp, vpn) with
                      | Some e =>
                          Done (set_pages
                                  (<[(sp, vpn) := set_dirty true e]>
                                     (pages k)) k)
                      | None => Fault
                      end
                    else Done k
                | r => r
                end) r l <> Done k').
    { intros r Hr Hnot. clear IH. induction l as [|t' l IHl]; cbn [foldl].
      - exact Hr.
      - destruct r; [now destruct (Hnot k0)|exact IHl|exact IHl]. }
    destruct (valid t && dirty t) eqn:Hvd.
    + cbn zeta.
      destruct (pages k !! (sp, virtualPage t)) as [e|] eqn:He.
      2:{ intros H. exfalso. revert H. apply Hstuck; discriminate. }
      intros Hrun. apply IH in Hrun
        as (Hpages & Hdirty & H1 & H2 & H3 & H4 & H5 & H6 & H7).
      cbn [set_pages pages swapFiles mainMemory tlb physPagesMap addrSpaces
           virtualPages victim] in *.
      apply andb_prop in Hvd as [Hv Hd].
      split; [|split; [|repeat split; assumption]].
      * intros key. specialize (Hpages key).
        destruct (decide (key = (sp, virtualPage t))) as [->|Hne].
        -- rewrite lookup_insert_eq in Hpages. rewrite He.
           right. split.
           ++ destruct Hpages as [Hp|[Hp _]]; rewrite Hp; now destruct e.
           ++ exists t. repeat split; auto. left.
        -- rewrite lookup_insert_ne in Hpages by congruence.
           destruct (pages k !! key); [|exact Hpages].
           destruct Hpages as [Hp|[Hp (t' & Ht' & Hrest)]]; [now left|].
           right. split; [exact Hp|]. exists t'. split; [now right|exact Hrest].
      * intros t' Ht' Hv' Hd'. apply elem_of_cons in Ht' as [->|Ht'].
        -- specialize (Hpages (sp, virtualPage t)).
           rewrite lookup_insert_eq in Hpages.
           destruct Hpages as [Hp|[Hp _]]; eexists; split;
             try exact Hp; reflexivity.
        -- now apply Hdirty.
    + intros Hrun. apply IH in Hrun
        as (Hpages & Hdirty & Hrest).
      split; [|split; [|exact Hrest]].
      * intros key. specialize (Hpages key).
        destruct (pages k !! key); [|exact Hpages].
        destruct Hpages as [Hp|[Hp (t' & Ht' & Hr)]]; [now left|].
        right. split; [exact Hp|]. exists t'. split; [now right|exact Hr].
      * intros t' Ht' Hv' Hd'. apply elem_of_cons in Ht' as [->|Ht'].
        -- rewrite Hv', Hd' in Hvd. discriminate.
        -- now apply Hdirty.
Qed.

End SaveStateFacts.

(** X18. [SaveState] carries the dirty bits of the TLB over to the page
    table of the space: afterwards the page of every TLB entry that is
    valid and dirty is dirty, and nothing else has changed -- an entry
    of the page table is as before or differs in the dirty bit, which
    is then set for a page that such a TLB entry names. *)
Theorem SaveState_propagates_dirty_bits space k k' :
  AddrSpace.SaveState space k = Coremap.Done k' ->
  (forall t, t ∈ Coremap.tlb k -> valid t = true -> dirty t = true ->
     exists e, Coremap.pages k' !! (spaceId space, virtualPage t) = Some e
               /\ dirty e = true)
  /\ (forall key,
        match Coremap.pages k !! key with
        | Some e =>
            Coremap.pages k' !! key = Some e
            \/ (Coremap.pages k' !! key = Some (Coremap.set_dirty true e)
                /\ exists t, t ∈ Coremap.tlb k /\ valid t = true
                             /\ dirty t = true
                             /\ key = (spaceId space, virtualPage t))
        | None => Coremap.pages k' !! key = None
        end)
  /\ Coremap.tlb k' = Coremap.tlb k
  /\ Coremap.mainMemory k' = Coremap.mainMemory k
  /\ Coremap.swapFiles k' = Coremap.swapFiles k
  /\ Coremap.physPagesMap k' = Coremap.physPagesMap k.
Proof.
  unfold AddrSpace.SaveState. intros Hrun.
  apply SaveState_fold in Hrun
    as (Hpages & Hdirty & H1 & H2 & H3 & H4 & _).
  auto 10.
Qed.


Section DestroyFacts.
Import Coremap AddrSpace.

Lemma Test_Clear_other m s x : x <> s -> 0 <= x ->
  Bitmap.Test (Bitmap.Clear s m) x = Bitmap.Test m x.
Proof.
  intros Hne Hx. unfold Bitmap.Test, Bitmap.Clear.
  destruct (Z.ltb_spec x 0); [lia|].
  destruct (Z.ltb_spec s 0); [reflexivity|].
  rewrite list_lookup_insert_ne by lia. reflexivity.
Qed.

Lemma frees_own_frames_refl sp k : frees_own_frames sp k k.
Proof.
  unfold frees_own_frames. repeat split; try reflexivity.
  - intros x Hx. exact Hx.
  - intros f H1 H2. congruence.
Qed.

Lemma frees_own_frames_trans sp a b c :
  frees_own_frames sp a b -> frees_own_frames sp b c ->
  frees_own_frames sp a c.
Proof.
  intros (A1 & A2 & A3 & A4 & A5 & A6 & A7) (B1 & B2 & B3 & B4 & B5 & B6 & B7).
  unfold frees_own_frames. repeat split; try congruence.
  - intros x Hx. apply B6, A6, Hx.
  - intros f H1 H2.
    destruct (Bitmap.Test (physPagesMap b) f) eqn:Hb.
    + destruct (B7 f Hb H2) as [vpn Hv]. exists vpn.
      unfold owner in *. now rewrite <- A2, <- A3.
    + now apply A7.
Qed.

Lemma InMemory_owner k sp e :
  InMemory k sp e = true -> owner k (physicalPage e) = Some (sp, virtualPage e).
Proof.
  unfold InMemory.
  destruct (owner k (physicalPage e)) as [[sp' vpn']|]; [|discriminate].
  intros H. apply andb_prop in H as [H1 H2].
  apply bool_decide_eq_true in H1. apply Z.eqb_eq in H2. now subst.
Qed.

Lemma owner_nonneg k f o : owner k f = Some o -> 0 <= f.
Proof. unfold owner. destruct (Z.ltb_spec f 0); [discriminate|lia]. Qed.

Lemma release_page_frees space i k :
  frees_own_frames (spaceId space) k (release_page space i k).
Proof.
  unfold release_page.
  destruct (pages k !! (spaceId space, i)) as [e|];
    [|apply frees_own_frames_refl].
  destruct (negb _ && _) eqn:Hc; [|apply frees_own_frames_refl].
  apply andb_prop in Hc as [_ Hin]. apply InMemory_owner in Hin.
  unfold frees_own_frames. cbn [set_physPagesMap pages addrSpaces
    virtualPages mainMemory swapFiles physPagesMap].
  repeat split; try reflexivity.
  - apply Clear_only_clears.
  - intros f H1 H2.
    destruct (Z.eq_dec f (physicalPage e)) as [->|Hne]; [eauto|].
    rewrite Test_Clear_other in H2; [congruence|exact Hne|].
    apply Test_true_lookup in H1. lia.
Qed.

Lemma Destroy_loop space k n lo k1 :
  frees_own_frames (spaceId space) k k1 ->
  let kf := for_while n lo (fun _ _ => true) (release_page space) k1 in
  frees_own_frames (spaceId space) k kf
  /\ forall i e,
       lo <= i < lo + Z.of_nat n ->
       pages k !! (spaceId space, i) = Some e ->
       physicalPage e <> -1 ->
       InMemory k (spaceId space) e = true ->
       Bitmap.Test (physPagesMap kf) (physicalPage e) = false.
Proof.
  revert lo k1. induction n as [|n IH]; intros lo k1 Hk1; cbn zeta.
  - split; [exact Hk1|]. intros i e Hi. lia.
  - cbn [for_while].
    assert (Hk2 : frees_own_frames (spaceId space) k
                    (release_page space lo k1)).
    { eapply frees_own_frames_trans; [exact Hk1|apply release_page_frees]. }
    destruct (IH (lo + 1) _ Hk2) as [Hf Hrest]. cbn zeta in Hf, Hrest.
    split; [exact Hf|].
    intros i e Hi He Hpp Hin.
    destruct (Z.eq_dec i lo) as [->|Hne]; [|apply (Hrest i e); auto; lia].
    (* the turn for this page clears the frame; later turns only clear *)
    assert (Hlater : frees_own_frames (spaceId space)
                       (release_page space lo k1)
                       (for_while n (lo + 1) (fun _ _ => true)
                          (release_page space) (release_page space lo k1))).
    { apply (for_while_preorder (frees_own_frames (spaceId space))
               (Reflexive0 := frees_own_frames_refl (spaceId space))
               (Transitive0 := frees_own_frames_trans (spaceId space))).
      intros j s. apply release_page_frees. }
    destruct Hlater as (_ & _ & _ & _ & _ & Hclr & _). apply Hclr.
    destruct Hk1 as (P1 & P2 & P3 & _).
    unfold release_page. rewrite P1, He.
    assert (Hin1 : InMemory k1 (spaceId space) e = true).
    { unfold InMemory, owner in *. now rewrite P2, P3. }
    rewrite Hin1. destruct (Z.eqb_spec (physicalPage e) (-1)); [contradiction|].
    cbn [negb andb set_physPagesMap physPagesMap].
    apply Test_Clear_same.
Qed.

End DestroyFacts.

(** X19. The destructor of an address space gives back the frames of
    its resident pages and no others: every page of the space that the
    core map finds in the frame of its entry has that frame cleared in
    the frame bitmap, and a frame that was marked and is clear
    afterwards belonged, in the core map, to a page of this space; page
    tables, owners, memory and swap files are not touched. *)
Theorem Destroy_frees_own_frames space k :
  frees_own_frames (spaceId space) k (AddrSpace.Destroy space k)
  /\ forall i e,
       0 <= i < numPages space ->
       Coremap.pages k !! (spaceId space, i) = Some e ->
       physicalPage e <> -1 ->
       Coremap.InMemory k (spaceId space) e = true ->
       Bitmap.Test (Coremap.physPagesMap (AddrSpace.Destroy space k))
                   (physicalPage e) = false.
Proof.
  unfold AddrSpace.Destroy, for_range.
  destruct (Destroy_loop space k (Z.to_nat (numPages space - 0)) 0 k
              (frees_own_frames_refl _ k)) as [H1 H2].
  cbn zeta in H1, H2. split; [exact H1|].
  intros i e Hi. apply H2. lia.
Qed.


(** The page in frame 1 is evicted; the TLB says that it was written,
    the page table does not, and nothing goes to the swap file. *)
Lemma FreePage_writes_swap_by_page_table_dirty_bit_witness :
  Coremap.FreePage 2 4 sample_kernel_tlb_dirty
  = Coremap.Done sample_tlb_dirty_evicted
  /\ Coremap.tlb sample_kernel_tlb_dirty
     = [mkEntry 2 1 true false true true false]
  /\ Coremap.swapFiles sample_tlb_dirty_evicted = ∅
  /\ Coremap.tlb sample_tlb_dirty_evicted
     = [mkEntry 2 1 false false true true false].
Proof.
  assert (Hrun : Coremap.FreePage 2 4 sample_kernel_tlb_dirty
                 = Coremap.Done sample_tlb_dirty_evicted)
    by (vm_compute; reflexivity).
  split; [exact Hrun|]. split; [reflexivity|].
  destruct (FreePage_writes_swap_by_page_table_dirty_bit _ _ _ _ Hrun)
    as (sp & vpn & e0 & Ho & He & _ & Hs & _ & Ht).
  vm_compute in Ho. injection Ho as <- <-.
  vm_compute in He. injection He as <-.
  split; [exact Hs|]. rewrite Ht. vm_compute. reflexivity.
Defined.

Lemma sample_kernel_cells : one_cell_per_frame sample_kernel.
Proof. repeat split. Defined.

Lemma Coremap_Find_then_InMemory_witness :
  Coremap.Find 7 1 sample_evicted
  = Ret (1, Coremap.set_owner 1 7 1
              (Coremap.set_physPagesMap [true; true] sample_evicted))
  /\ Coremap.owner
       (Coremap.set_owner 1 7 1
          (Coremap.set_physPagesMap [true; true] sample_evicted)) 1
     = Some (7%nat, 1).
Proof.
  pose proof (Coremap_Find_then_InMemory 7 1 sample_evicted eq_refl eq_refl)
    as H.
  assert (Hrun : Coremap.Find 7 1 sample_evicted
                 = Ret (1, Coremap.set_owner 1 7 1
                             (Coremap.set_physPagesMap [true; true]
                                sample_evicted)))
    by (vm_compute; reflexivity).
  rewrite Hrun in H. split; [exact Hrun|].
  destruct H as (_ & _ & _ & _ & Hown & _). exact Hown.
Defined.

(** Page 2 of [sample_space] is evicted to make room for page 1 and
    then loaded again, into frame 0: the frame holds what frame 1 held
    when the page was evicted. *)
Lemma swapped_page_comes_back_witness :
  Coremap.mainMemory sample_kernel !! 1%nat = Some [20; 21]
  /\ physicalPage (entry_LoadPage 2 (after_LoadPage 1 sample_kernel)) = 0
  /\ Coremap.mainMemory
       (after_LoadPage 2 (after_LoadPage 1 sample_kernel)) !! 0%nat
     = Some [20; 21].
Proof.
  split; [reflexivity|]. split; [vm_compute; reflexivity|].
  pose proof (swapped_page_comes_back 2 2 4 sample_space 2 sample_kernel
                sample_swapped (mkEntry 2 1 true false true true false)
                [20; 21] (after_LoadPage 1 sample_kernel)
                (entry_LoadPage 2 (after_LoadPage 1 sample_kernel))
                (after_LoadPage 2 (after_LoadPage 1 sample_kernel))) as H.
  destruct H as (_ & _ & _ & Hmem).
  - vm_compute. reflexivity.
  - reflexivity.
  - reflexivity.
  - discriminate.
  - reflexivity.
  - vm_compute. reflexivity.
  - vm_compute. reflexivity.
  - vm_compute. reflexivity.
  - intros f Hf. unfold Coremap.owner in Hf.
    destruct (f <? 0); [discriminate|].
    destruct (Z.to_nat f) as [|[|n]]; vm_compute in Hf; discriminate.
  - repeat split.
  - vm_compute. reflexivity.
  - exact Hmem.
Defined.

(** Page 1 of [sample_space] holds one byte of initialised data; it is
    loaded into frame 1, which held [20; 21]: the second byte of the
    frame is still 21. *)
Lemma LoadPage_leaves_stale_bytes_witness :
  physicalPage (entry_LoadPage 1 sample_kernel) = 1
  /\ Coremap.mainMemory sample_kernel !! 1%nat = Some [20; 21]
  /\ exists new,
       Coremap.mainMemory (after_LoadPage 1 sample_kernel) !! 1%nat
       = Some new
       /\ new !! 1%nat = Some 21.
Proof.
  split; [vm_compute; reflexivity|]. split; [reflexivity|].
  pose proof (LoadPage_leaves_stale_bytes 2 2 4 sample_space 1 sample_kernel
                (mkEntry 1 (-1) false false false false false)
                (entry_LoadPage 1 sample_kernel)
                (after_LoadPage 1 sample_kernel) [20; 21]) as H.
  destruct H as (new & Hnew & Hkeep).
  - exact sample_kernel_cells.
  - vm_compute. reflexivity.
  - reflexivity.
  - left. reflexivity.
  - intros f Hf. unfold Coremap.owner in Hf.
    destruct (f <? 0); [discriminate|].
    destruct (Z.to_nat f) as [|[|n]]; vm_compute in Hf; discriminate.
  - lia.
  - lia.
  - vm_compute. reflexivity.
  - vm_compute. discriminate.
  - vm_compute. discriminate.
  - vm_compute. discriminate.
  - vm_compute. discriminate.
  - vm_compute. reflexivity.
  - vm_compute. reflexivity.
  - vm_compute. reflexivity.
  - vm_compute. discriminate.
  - vm_compute. reflexivity.
  - vm_compute. reflexivity.
  - reflexivity.
  - exists new. split; [exact Hnew|].
    apply (Hkeep 1); [lia| |]; vm_compute; intros [H1 H2]; congruence.
Defined.

Lemma SaveState_propagates_dirty_bits_witness :
  exists k',
    AddrSpace.SaveState sample_space sample_kernel_tlb_dirty = Coremap.Done k'
    /\ exists e, Coremap.pages k' !! (7%nat, 2) = Some e /\ dirty e = true.
Proof.
  destruct (AddrSpace.SaveState sample_space sample_kernel_tlb_dirty)
    as [k'| |] eqn:E; try (vm_compute in E; discriminate).
  exists k'. split; [reflexivity|].
  destruct (SaveState_propagates_dirty_bits _ _ _ E) as (Hd & _).
  apply (Hd (mkEntry 2 1 true false true true false)); [|reflexivity..].
  vm_compute. left.
Defined.

Section ReadBufferContents.
Import SynchConsole.

Lemma ReadBuffer_for_contents n i c buffer :
  forall i' c' b',
    ReadBuffer_for n i c buffer = (i', c', b') ->
    i <= i' <= i + Z.of_nat n
    /\ incoming c' = incoming c
    /\ (forall j, i <= j < i' ->
          b' !! j = Some (incoming c (taken c + Z.to_nat (j - i))%nat)
          /\ incoming c (taken c + Z.to_nat (j - i))%nat <> NEWLINE)
    /\ (i' < i + Z.of_nat n ->
        b' !! i' = Some NEWLINE
        /\ incoming c (taken c + Z.to_nat (i' - i))%nat = NEWLINE
        /\ taken c' = (taken c + Z.to_nat (i' - i) + 1)%nat)
    /\ (i' = i + Z.of_nat n -> taken c' = (taken c + n)%nat)
    /\ (forall j, j < i \/ i' < j \/ (j = i' /\ i' = i + Z.of_nat n) ->
          b' !! j = buffer !! j).
Proof.
  revert i c buffer. induction n as [|n IH]; intros i c buffer i' c' b';
    cbn [ReadBuffer_for].
  - intros [= <- <- <-]. split; [lia|]. split; [reflexivity|].
    split; [intros j Hj; lia|]. split; [lia|]. split; [intros _; lia|].
    intros j Hj. reflexivity.
  - unfold ReadChar.
    destruct (Ascii.eqb_spec (incoming c (taken c)) NEWLINE) as [Heq|Hne].
    + intros [= <- <- <-]. cbn [incoming taken].
      split; [lia|]. split; [reflexivity|].
      split; [intros j Hj; lia|]. split; [|split; [lia|]].
      * intros _. rewrite Z.sub_diag. cbn [Z.to_nat].
        rewrite Nat.add_0_r, lookup_insert_eq, Heq.
        split; [reflexivity|]. split; [reflexivity|lia].
      * intros j Hj. apply lookup_insert_ne. lia.
    + intros Hrun. apply IH in Hrun
        as (Hrange & Hinc & Hbefore & Hstop & Hfull & Hother).
      cbn [incoming taken] in *.
      split; [lia|]. split; [exact Hinc|]. split; [|split; [|split]].
      * intros j Hj. destruct (Z.eq_dec j i) as [->|Hji].
        -- rewrite Z.sub_diag. cbn [Z.to_nat]. rewrite Nat.add_0_r.
           split; [|exact Hne].
           rewrite Hother by lia. apply lookup_insert_eq.
        -- destruct (Hbefore j ltac:(lia)) as [Hb Hn].
           replace (taken c + Z.to_nat (j - i))%nat
             with (S (taken c) + Z.to_nat (j - (i + 1)))%nat by lia.
           split; assumption.
      * intros Hlt. destruct (Hstop ltac:(lia)) as (H1 & H2 & H3).
        replace (taken c + Z.to_nat (i' - i))%nat
          with (S (taken c) + Z.to_nat (i' - (i + 1)))%nat by lia.
        split; [exact H1|]. split; [exact H2|lia].
      * intros Hi'. rewrite Hfull by lia. lia.
      * intros j Hj. rewrite Hother by lia. apply lookup_insert_ne. lia.
Qed.

End ReadBufferContents.

(** X20. What [ReadBuffer] leaves in the buffer and takes from the
    console: the cells before the index returned hold the characters
    read, none of them a newline, in their order; a newline that ends
    the line is taken from the console and stored at the index returned;
    after [size] characters without a newline nothing more is taken, and
    the cell [size], between the last character and the terminator, is
    left as it was, as is every cell below 0 or above the terminator. *)
Theorem ReadBuffer_contents (c : SynchConsole.Console)
    (buffer : SynchConsole.Buffer) (size : Z) :
  0 <= size < UINT_MODULUS - 1 ->
  exists i c' b',
    SynchConsole.ReadBuffer c buffer size = (i, c', b')
    /\ 0 <= i <= size
    /\ (forall j, 0 <= j < i ->
          b' !! j
          = Some (SynchConsole.incoming c
                    (SynchConsole.taken c + Z.to_nat j)%nat)
          /\ SynchConsole.incoming c (SynchConsole.taken c + Z.to_nat j)%nat
             <> SynchConsole.NEWLINE)
    /\ (i < size ->
        b' !! i = Some SynchConsole.NEWLINE
        /\ SynchConsole.taken c'
           = (SynchConsole.taken c + Z.to_nat i + 1)%nat)
    /\ (i = size ->
        SynchConsole.taken c' = (SynchConsole.taken c + Z.to_nat size)%nat
        /\ b' !! size = buffer !! size)
    /\ (forall j, j < 0 \/ i + 1 < j -> b' !! j = buffer !! j).
Proof.
  intros Hsize. unfold SynchConsole.ReadBuffer.
  destruct (SynchConsole.ReadBuffer_for (Z.to_nat size) 0 c buffer)
    as [[i c'] b'] eqn:Hrun.
  apply ReadBuffer_for_contents in Hrun
    as (Hrange & _ & Hbefore & Hstop & Hfull & Hother).
  rewrite Z2Nat.id in * by lia.
  rewrite (u32_small (i + 1)) by lia.
  exists i, c', (<[i + 1 := SynchConsole.NUL]> b').
  split; [reflexivity|]. split; [lia|]. split; [|split; [|split]].
  - intros j Hj. rewrite lookup_insert_ne by lia.
    destruct (Hbefore j ltac:(lia)) as [Hb Hn].
    rewrite Z.sub_0_r in Hb, Hn. split; assumption.
  - intros Hlt. rewrite lookup_insert_ne by lia.
    destruct (Hstop ltac:(lia)) as (H1 & _ & H3).
    rewrite Z.sub_0_r in H3. split; assumption.
  - intros ->. split; [apply Hfull; lia|].
    rewrite lookup_insert_ne by lia. apply Hother. lia.
  - intros j Hj. rewrite lookup_insert_ne by lia. apply Hother. lia.
Qed.

(** A console that delivers [ab], a newline and [c]: a read of up to
    five characters returns 2, takes three characters and stores the
    newline at index 2. *)
Lemma ReadBuffer_contents_witness :
  exists i c' b',
    SynchConsole.ReadBuffer
      (SynchConsole.mkConsole
         (fun n => match n with
                   | 0%nat => "a"%char
                   | 1%nat => "b"%char
                   | 2%nat => SynchConsole.NEWLINE
                   | _ => "c"%char
                   end) 0)
      (∅ : gmap Z ascii) 5 = (i, c', b')
    /\ i = 2 /\ b' !! 0 = Some "a"%char /\ b' !! 1 = Some "b"%char
    /\ SynchConsole.taken c' = 3%nat.
Proof.
  destruct (ReadBuffer_contents
              (SynchConsole.mkConsole
                 (fun n => match n with
                           | 0%nat => "a"%char
                           | 1%nat => "b"%char
                           | 2%nat => SynchConsole.NEWLINE
                           | _ => "c"%char
                           end) 0) ∅ 5)
    as (i & c' & b' & Hrun & Hi & Hbefore & Hstop & _).
  { unfold UINT_MODULUS. lia. }
  exists i, c', b'. split; [exact Hrun|].
  assert (Hi2 : i = 2) by (vm_compute in Hrun; congruence).
  subst i. split; [reflexivity|].
  split; [exact (proj1 (Hbefore 0 ltac:(lia)))|].
  split; [exact (proj1 (Hbefore 1 ltac:(lia)))|].
  exact (proj2 (Hstop ltac:(lia))).
Defined.
(* ===================================================================== *)
(** ** Page faults *)
(* ===================================================================== *)

Section PageFaultFacts.
Import Coremap AddrSpace Exception.

Variable N : Z.
Variable PAGE_SIZE : Z.
Variable TLB_SIZE : Z.

(** [FreePage] changes nothing but use bits in the entries of the pages
    that it does not evict. *)
Lemma FreePage_other_pages fuel k k' o :
  FreePage N fuel k = Done k' ->
  owner k (victim k') = Some o ->
  forall key, key <> o ->
    match pages k !! key with
    | Some e0 => exists b, pages k' !! key = Some (set_use b e0)
    | None => pages k' !! key = None
    end.
Proof.
  unfold FreePage, UpdateVictim.
  destruct (UpdateVictim_while N fuel _) as [k1| |] eqn:Hloop;
    try discriminate.
  apply UpdateVictim_while_frame in Hloop
    as (H1 & H2 & H3 & H4 & H5 & H6 & Hpages & Hother).
  cbn [set_victim swapFiles mainMemory tlb physPagesMap addrSpaces
       virtualPages pages] in *.
  assert (Hown : forall f, owner (clear_victim k1) f = owner k f).
  { intros f. unfold owner, clear_victim.
    cbn [addrSpaces virtualPages]. now rewrite H5, H6. }
  rewrite Hown. cbn [clear_victim victim].
  destruct (owner k (victim k1)) as [[sp vpn]|] eqn:Ho; [|discriminate].
  unfold SaveToSwap.
  cbn [clear_victim pages swapFiles mainMemory tlb physPagesMap addrSpaces
       virtualPages victim].
  destruct (pages k1 !! (sp, vpn)) as [e1|] eqn:He1; [|discriminate].
  intros [= <-]. cbn [victim pages]. rewrite Ho. intros [= <-] key Hne.
  rewrite lookup_insert_ne by congruence. apply Hpages.
Qed.

End PageFaultFacts.

Section PageFaultFacts2.
Import Coremap AddrSpace Exception.

Variable N : Z.
Variable PAGE_SIZE : Z.
Variable TLB_SIZE : Z.

Lemma Find_frame sp vpn k f k' :
  Coremap.Find sp vpn k = Ret (f, k') ->
  pages k' = pages k /\ swapFiles k' = swapFiles k.
Proof.
  unfold Coremap.Find. destruct (Bitmap.Find (physPagesMap k)) as [a m].
  destruct (negb (a =? -1)); cbn; [|discriminate].
  intros [= <- <-]. split; reflexivity.
Qed.

(** [LoadPage] of any page loses no page that is dirty. *)
Lemma LoadPage_dirty_page fuel space vpn k e' k' o eo :
  pages k !! o = Some eo ->
  dirty eo = true ->
  LoadPage N PAGE_SIZE fuel space vpn k = Loaded e' k' ->
  kept k k' o eo.
Proof.
  intros Ho Hd. unfold LoadPage.
  set (sp := spaceId space).
  destruct (pages k !! (sp, vpn)) as [e|] eqn:He; [|discriminate].
  set (e1 := set_use true (set_valid true e)).
  set (k1 := set_pages (<[(sp, vpn) := e1]> (pages k)) k).
  assert (H1 : exists eo1, pages k1 !! o = Some eo1 /\ dirty eo1 = true
                           /\ physicalPage eo1 = physicalPage eo).
  { unfold k1. cbn [set_pages pages].
    destruct (decide (o = (sp, vpn))) as [->|Hne].
    - rewrite lookup_insert_eq. exists e1. split; [reflexivity|].
      assert (eo = e) by congruence. subst eo. now destruct e.
    - rewrite lookup_insert_ne by congruence. now exists eo. }
  assert (Hm1 : mainMemory k1 = mainMemory k) by reflexivity.
  clearbody k1. destruct H1 as (eo1 & Ho1 & Hd1 & Hp1).
  destruct (negb (InMemory k1 sp e1)).
  2:{ intros [= <- <-]. exists eo1. split; [exact Ho1|]. now left. }
  set (freed := if Bitmap.CountClear (physPagesMap k1) =? 0
                then FreePage N fuel k1 else Done k1).
  assert (H2 : forall k2, freed = Done k2 -> kept k k2 o eo).
  { intros k2. unfold freed.
    destruct (Bitmap.CountClear (physPagesMap k1) =? 0).
    - intros Hfree.
      destruct (FreePage_effect N _ _ _ Hfree)
        as (sp0 & vpn0 & e0 & Hown & He0 & He0' & Hswap & _).
      destruct (decide (o = (sp0, vpn0))) as [->|Hne].
      + assert (e0 = eo1) by congruence. subst e0.
        rewrite Hd1 in He0', Hswap.
        eexists. split; [exact He0'|]. right. split; [reflexivity|].
        rewrite Hswap, lookup_insert_eq, Hm1, Hp1. reflexivity.
      + pose proof (FreePage_other_pages N _ _ _ _ Hfree Hown o Hne) as Hk.
        rewrite Ho1 in Hk. destruct Hk as [b Hb].
        eexists. split; [exact Hb|]. left. now destruct eo1.
    - intros [= <-]. exists eo1. split; [exact Ho1|]. now left. }
  clearbody freed. destruct freed as [k2| |]; try discriminate.
  specialize (H2 k2 eq_refl). destruct H2 as (eo2 & Ho2 & Hk2).
  destruct (pages k2 !! (sp, vpn)) as [e2|] eqn:He2; [|discriminate].
  destruct (Coremap.Find sp vpn k2) as [[f k3]| |] eqn:Hfind;
    try discriminate.
  apply Find_frame in Hfind as [Hp3 Hs3].
  intros [= <- <-].
  unfold kept. cbn [set_mainMemory set_pages pages swapFiles]. rewrite Hp3, Hs3.
  destruct (decide (o = (sp, vpn))) as [->|Hne].
  - rewrite lookup_insert_eq. eexists. split; [reflexivity|].
    assert (e2 = eo2) by congruence. subst e2.
    destruct eo2; exact Hk2.
  - rewrite lookup_insert_ne by congruence. now exists eo2.
Qed.

End PageFaultFacts2.

Section PageFaultFacts3.
Import Coremap AddrSpace Exception.

Variable N : Z.
Variable PAGE_SIZE : Z.
Variable TLB_SIZE : Z.

(** [UpdateEntry] sets at most one dirty bit. *)
Lemma UpdateEntry_frame physPage k k' :
  UpdateEntry physPage k = Done k' ->
  swapFiles k' = swapFiles k /\ mainMemory k' = mainMemory k
  /\ tlb k' = tlb k /\ physPagesMap k' = physPagesMap k
  /\ addrSpaces k' = addrSpaces k /\ virtualPages k' = virtualPages k
  /\ forall key,
       pages k' !! key = pages k !! key
       \/ exists e, pages k !! key = Some e
                    /\ pages k' !! key = Some (set_dirty true e).
Proof.
  unfold UpdateEntry.
  destruct (owner k physPage) as [[sp vpn]|]; [|discriminate].
  destruct (pages k !! (sp, vpn)) as [entry|] eqn:He; [|discriminate].
  destruct (InMemory k sp entry); intros [= <-];
    cbn [set_pages swapFiles mainMemory tlb physPagesMap addrSpaces
         virtualPages pages]; repeat split; try reflexivity.
  - intros key. destruct (decide (key = (sp, vpn))) as [->|Hne].
    + right. exists entry. split; [exact He|apply lookup_insert_eq].
    + left. apply lookup_insert_ne. congruence.
  - intros key. now left.
Qed.

Lemma owner_ext k k' f :
  addrSpaces k' = addrSpaces k -> virtualPages k' = virtualPages k ->
  owner k' f = owner k f.
Proof. intros H1 H2. unfold owner. now rewrite H1, H2. Qed.

Lemma Find_tlb sp vpn k f k' :
  Coremap.Find sp vpn k = Ret (f, k') -> tlb k' = tlb k.
Proof.
  unfold Coremap.Find. destruct (Bitmap.Find (physPagesMap k)) as [a m].
  destruct (negb (a =? -1)); cbn; [|discriminate].
  intros [= <- <-]. reflexivity.
Qed.

(** [LoadPage] keeps the number of entries of the TLB. *)
Lemma LoadPage_tlb_length fuel space vpn k e' k' :
  LoadPage N PAGE_SIZE fuel space vpn k = Loaded e' k' ->
  length (tlb k') = length (tlb k).
Proof.
  unfold LoadPage. set (sp := spaceId space).
  destruct (pages k !! (sp, vpn)) as [e|]; [|discriminate].
  set (k1 := set_pages _ k).
  assert (Ht1 : tlb k1 = tlb k) by reflexivity. clearbody k1.
  destruct (negb (InMemory k1 sp _)).
  2:{ intros [= <- <-]. now rewrite Ht1. }
  set (freed := if Bitmap.CountClear (physPagesMap k1) =? 0
                then FreePage N fuel k1 else Done k1).
  assert (H2 : forall k2, freed = Done k2 -> length (tlb k2) = length (tlb k)).
  { intros k2. unfold freed.
    destruct (Bitmap.CountClear (physPagesMap k1) =? 0).
    - intros Hfree.
      destruct (FreePage_effect N _ _ _ Hfree)
        as (sp0 & vpn0 & e0 & _ & _ & _ & _ & _ & Ht & _).
      rewrite Ht, <- Ht1.
      destruct (list_find _ (tlb k1)) as [[i t]|]; [|reflexivity].
      apply length_insert.
    - intros [= <-]. now rewrite Ht1. }
  clearbody freed. destruct freed as [k2| |]; try discriminate.
  specialize (H2 k2 eq_refl).
  destruct (pages k2 !! (sp, vpn)) as [e2|]; [|discriminate].
  destruct (Coremap.Find sp vpn k2) as [[f k3]| |] eqn:Hfind;
    try discriminate.
  apply Find_tlb in Hfind. intros [= <- <-].
  cbn [set_mainMemory set_pages tlb]. now rewrite Hfind.
Qed.

End PageFaultFacts3.

(** X21. A page fault puts the page into a frame and its entry into the
    TLB: after [PageFaultHandler] the slot [TLB_ENTRY] of the TLB holds
    the entry of the page table for the page of the address, valid and
    used, the core map gives its frame to the page, and the counter
    moves to the next slot, around the TLB. *)
Theorem PageFaultHandler_installs_page N PAGE_SIZE TLB_SIZE fuel space vaddr
    TLB_ENTRY k k' next e :
  one_cell_per_frame k ->
  0 <= TLB_ENTRY < Z.of_nat (length (Coremap.tlb k)) ->
  Coremap.pages k !! (spaceId space, vaddr / PAGE_SIZE) = Some e ->
  virtualPage e = vaddr / PAGE_SIZE ->
  (Coremap.InMemory k (spaceId space) e = true
   \/ forall f, Coremap.owner k f <> Some (spaceId space, vaddr / PAGE_SIZE)) ->
  Exception.PageFaultHandler N PAGE_SIZE TLB_SIZE fuel space vaddr TLB_ENTRY k
  = Exception.Handled k' next ->
  next = u32 (TLB_ENTRY + 1) mod TLB_SIZE
  /\ exists e',
       Coremap.tlb k' !! Z.to_nat TLB_ENTRY = Some e'
       /\ Coremap.pages k' !! (spaceId space, vaddr / PAGE_SIZE) = Some e'
       /\ valid e' = true /\ use e' = true
       /\ virtualPage e' = vaddr / PAGE_SIZE
       /\ Coremap.owner k' (physicalPage e')
          = Some (spaceId space, vaddr / PAGE_SIZE).
Proof.
  intros Hcells Hslot He Hvp Hcons. unfold Exception.PageFaultHandler.
  set (vpn := vaddr / PAGE_SIZE) in *. set (sp := spaceId space) in *.
  destruct (Coremap.tlb k !! Z.to_nat TLB_ENTRY) as [t|]; [|discriminate].
  set (updated := if valid t && dirty t
                  then Coremap.UpdateEntry (physicalPage t) k
                  else Coremap.Done k).
  assert (Hupd : forall k0, updated = Coremap.Done k0 ->
            one_cell_per_frame k0
            /\ Coremap.tlb k0 = Coremap.tlb k
            /\ (forall f, Coremap.owner k0 f = Coremap.owner k f)
            /\ exists e0, Coremap.pages k0 !! (sp, vpn) = Some e0
                          /\ virtualPage e0 = vpn
                          /\ physicalPage e0 = physicalPage e).
  { intros k0. unfold updated. destruct (valid t && dirty t).
    - intros Hu. apply UpdateEntry_frame in Hu
        as (H1 & H2 & H3 & H4 & H5 & H6 & Hp).
      split.
      { destruct Hcells as (A & B & C). unfold one_cell_per_frame.
        now rewrite H2, H4, H5, H6. }
      split; [exact H3|].
      split; [intros f; now apply owner_ext|].
      destruct (Hp (sp, vpn)) as [Hsame|(e1 & He1 & He1')].
      + exists e. rewrite Hsame. auto.
      + assert (e1 = e) by congruence. subst e1.
        exists (Coremap.set_dirty true e). split; [exact He1'|].
        now destruct e.
    - intros [= <-]. split; [exact Hcells|]. split; [reflexivity|].
      split; [reflexivity|]. now exists e. }
  clearbody updated. destruct updated as [k0| |]; try discriminate.
  destruct (Hupd k0 eq_refl) as (Hcells0 & Htlb0 & Hown0 & e0 & He0 & Hvp0 & Hpp0).
  destruct (AddrSpace.LoadPage N PAGE_SIZE fuel space vpn k0)
    as [e' k1| | |] eqn:Hload; try discriminate.
  intros [= <- <-]. split; [reflexivity|].
  pose proof (LoadPage_tlb_length _ _ _ _ _ _ _ _ Hload) as Hlen.
  exists e'. cbn [AddrSpace.set_tlb Coremap.tlb Coremap.pages].
  split.
  { apply list_lookup_insert_eq. rewrite Hlen, Htlb0. lia. }
  assert (Hin : forall P,
            Coremap.InMemory (Coremap.set_pages P k0) sp
              (Coremap.set_use true (AddrSpace.set_valid true e0))
            = Coremap.InMemory k sp e).
  { intros P. unfold Coremap.InMemory.
    replace (Coremap.owner (Coremap.set_pages P k0))
      with (Coremap.owner k0) by reflexivity. cbn [Coremap.set_use AddrSpace.set_valid
                                   physicalPage virtualPage].
    now rewrite Hown0, Hpp0, Hvp0, Hvp. }
  destruct Hcons as [Hmem|Habsent].
  - unfold AddrSpace.LoadPage in Hload. fold sp in Hload.
    rewrite He0 in Hload. cbv zeta in Hload.
    rewrite Hin, Hmem in Hload. cbn [negb] in Hload.
    injection Hload as <- <-.
    cbn [Coremap.set_pages Coremap.pages].
    split; [apply lookup_insert_eq|]. split; [now destruct e0|].
    split; [now destruct e0|]. split; [now destruct e0|].
    unfold Coremap.InMemory in Hmem.
    cbn [Coremap.set_use AddrSpace.set_valid physicalPage].
    rewrite Hpp0.
    replace (Coremap.owner _ (physicalPage e))
      with (Coremap.owner k (physicalPage e))
      by (symmetry; rewrite <- Hown0; now apply owner_ext).
    destruct (Coremap.owner k (physicalPage e)) as [[s v]|]; [|discriminate].
    apply andb_prop in Hmem as [Hs Hv].
    apply bool_decide_eq_true in Hs. apply Z.eqb_eq in Hv.
    congruence.
  - destruct (LoadPage_claims N PAGE_SIZE fuel space vpn k0 e0 e' k1
                Hcells0 He0 Hvp0) as (k2 & f & Hclaims); [|exact Hload|].
    { intros f. rewrite Hown0. apply Habsent. }
    cbn zeta in Hclaims.
    destruct Hclaims as (-> & _ & _ & _ & Hown & Hpages & _).
    split; [exact Hpages|]. split; [now destruct e0|].
    split; [now destruct e0|]. split; [now destruct e0|].
    destruct e0; exact Hown.
Qed.

(** X22. A write that the TLB entry about to be replaced records is
    kept: when the entry in the slot [TLB_ENTRY] is valid and dirty and
    its page is in the frame, then after [PageFaultHandler] the entry of
    that page in the page table is dirty, or the page was evicted and the
    swap file of its address space holds the contents of the frame. *)
Theorem PageFaultHandler_keeps_replaced_write N PAGE_SIZE TLB_SIZE fuel space
    vaddr TLB_ENTRY k k' next t o eo :
  Coremap.tlb k !! Z.to_nat TLB_ENTRY = Some t ->
  valid t = true -> dirty t = true ->
  Coremap.owner k (physicalPage t) = Some o ->
  Coremap.pages k !! o = Some eo ->
  physicalPage eo = physicalPage t -> virtualPage eo = o.2 ->
  Exception.PageFaultHandler N PAGE_SIZE TLB_SIZE fuel space vaddr TLB_ENTRY k
  = Exception.Handled k' next ->
  exists eo',
    Coremap.pages k' !! o = Some eo'
    /\ (dirty eo' = true
        \/ (swap eo' = true
            /\ Coremap.swapFiles k' !! o
               = Some (default []
                         (Coremap.mainMemory k
                            !! Z.to_nat (physicalPage t))))).
Proof.
  intros Ht Hv Hd Ho Heo Hpp Hvp. unfold Exception.PageFaultHandler.
  rewrite Ht, Hv, Hd. cbn [andb].
  unfold Coremap.UpdateEntry. rewrite Ho. destruct o as [sp0 vpn0].
  rewrite Heo. unfold Coremap.InMemory at 1. rewrite Hpp, Ho.
  cbn [snd] in Hvp. rewrite Hvp, Z.eqb_refl, bool_decide_eq_true_2 by reflexivity.
  cbn [andb].
  set (k0 := Coremap.set_pages _ k).
  destruct (AddrSpace.LoadPage N PAGE_SIZE fuel space _ k0)
    as [e' k1| | |] eqn:Hload; try discriminate.
  intros [= <- <-].
  destruct (LoadPage_dirty_page N PAGE_SIZE fuel space (vaddr / PAGE_SIZE)
              k0 e' k1 (sp0, vpn0) (Coremap.set_dirty true eo))
    as (eo' & Hp & Hk).
  - unfold k0. cbn [Coremap.set_pages Coremap.pages]. apply lookup_insert_eq.
  - reflexivity.
  - exact Hload.
  - exists eo'. cbn [AddrSpace.set_tlb Coremap.pages Coremap.swapFiles].
    split; [exact Hp|].
    destruct Hk as [Hk|[Hk1 Hk2]]; [now left|right].
    split; [exact Hk1|]. rewrite Hk2. unfold k0.
    cbn [Coremap.set_pages Coremap.mainMemory Coremap.set_dirty physicalPage].
    now rewrite Hpp.
Qed.

(** X23. An eviction withdraws at most one entry of the TLB, the first
    one that names the frame of the page, valid or not: every entry
    behind it is left as it was, also a valid one for the same frame,
    and so is every entry for another frame. *)
Theorem FreePage_invalidates_first_tlb_match_only N fuel k k' o e0 :
  Coremap.FreePage N fuel k = Coremap.Done k' ->
  Coremap.owner k (Coremap.victim k') = Some o ->
  Coremap.pages k !! o = Some e0 ->
  (forall (i j : nat) ti,
      Coremap.tlb k !! i = Some ti ->
      physicalPage ti = physicalPage e0 ->
      (i < j)%nat ->
      Coremap.tlb k' !! j = Coremap.tlb k !! j)
  /\ (forall (j : nat) tj,
        Coremap.tlb k !! j = Some tj ->
        physicalPage tj <> physicalPage e0 ->
        Coremap.tlb k' !! j = Some tj)
  /\ (forall (i : nat) ti,
        Coremap.tlb k !! i = Some ti ->
        physicalPage ti = physicalPage e0 ->
        (forall (j : nat) tj, (j < i)%nat -> Coremap.tlb k !! j = Some tj ->
                              physicalPage tj <> physicalPage e0) ->
        Coremap.tlb k' !! i = Some (AddrSpace.set_valid false ti)).
Proof.
  intros Hfree Ho He0.
  destruct (FreePage_effect N _ _ _ Hfree)
    as (sp & vpn & e & Ho' & He & _ & _ & _ & Ht & _).
  assert (o = (sp, vpn)) by congruence. subst o.
  assert (e = e0) by congruence. subst e. clear Ho' He.
  rewrite Ht.
  destruct (list_find _ (Coremap.tlb k)) as [[h th]|] eqn:Hfind.
  - apply list_find_Some in Hfind as (Hh & Hph & Hfirst).
    split; [|split].
    + intros i j ti Hi Hpi Hij. apply list_lookup_insert_ne.
      intros <-. apply (Hfirst i ti Hi Hij Hpi).
    + intros j tj Hj Hpj. rewrite list_lookup_insert_ne; [exact Hj|].
      intros <-. congruence.
    + intros i ti Hi Hpi Hbefore.
      destruct (Nat.lt_trichotomy h i) as [Hlt|[->|Hgt]].
      * exfalso. apply (Hbefore h th Hlt Hh Hph).
      * assert (th = ti) by congruence. subst th.
        apply list_lookup_insert_eq. now apply lookup_lt_Some in Hi.
      * exfalso. apply (Hfirst i ti Hi Hgt Hpi).
  - pose proof (proj1 (list_find_None _ _) Hfind) as Hnone.
    rewrite Forall_forall in Hnone.
    split; [|split].
    + reflexivity.
    + intros j tj Hj _. exact Hj.
    + intros i ti Hi Hpi _. exfalso. apply (Hnone ti); [|exact Hpi].
      eapply list_elem_of_lookup_2. exact Hi.
Qed.

(** The page in frame 1 is evicted; the first entry of the TLB names the
    frame and was invalid already, and the second, valid, entry for the
    frame stays valid. *)
Lemma FreePage_invalidates_first_tlb_match_only_witness :
  Coremap.FreePage 2 4 sample_kernel_two_tlb
  = Coremap.Done sample_two_tlb_evicted
  /\ Coremap.victim sample_two_tlb_evicted = 1
  /\ Coremap.tlb sample_two_tlb_evicted !! 1%nat
     = Some (mkEntry 2 1 true false true true false).
Proof.
  assert (Hrun : Coremap.FreePage 2 4 sample_kernel_two_tlb
                 = Coremap.Done sample_two_tlb_evicted)
    by (vm_compute; reflexivity).
  split; [exact Hrun|]. split; [vm_compute; reflexivity|].
  destruct (FreePage_invalidates_first_tlb_match_only 2 4 _ _ (7%nat, 2)
              (mkEntry 2 1 true false true true false) Hrun)
    as (Hlater & _).
  - vm_compute. reflexivity.
  - vm_compute. reflexivity.
  - rewrite (Hlater 0%nat 1%nat (mkEntry 1 1 false false false false false));
      [vm_compute; reflexivity|vm_compute; reflexivity|reflexivity|lia].
Defined.

Lemma sample_kernel_tlb_dirty_cells : one_cell_per_frame sample_kernel_tlb_dirty.
Proof. repeat split. Defined.

(** A fault in page 1 of [sample_space]: the page goes to frame 1 and
    its entry to the only slot of the TLB. *)
Lemma PageFaultHandler_installs_page_witness :
  Exception.PageFaultHandler 2 2 1 4 sample_space 2 0 sample_kernel_tlb_dirty
  = Exception.Handled sample_after_fault 0
  /\ exists e',
       Coremap.tlb sample_after_fault !! 0%nat = Some e'
       /\ Coremap.pages sample_after_fault !! (7%nat, 1) = Some e'
       /\ valid e' = true
       /\ Coremap.owner sample_after_fault (physicalPage e') = Some (7%nat, 1).
Proof.
  assert (Hrun : Exception.PageFaultHandler 2 2 1 4 sample_space 2 0
                   sample_kernel_tlb_dirty
                 = Exception.Handled sample_after_fault 0)
    by (vm_compute; reflexivity).
  split; [exact Hrun|].
  destruct (PageFaultHandler_installs_page 2 2 1 4 sample_space 2 0
              sample_kernel_tlb_dirty sample_after_fault 0
              (mkEntry 1 (-1) false false false false false))
    as (_ & e' & H1 & H2 & H3 & _ & _ & H4).
  - exact sample_kernel_tlb_dirty_cells.
  - vm_compute. split; [discriminate|reflexivity].
  - vm_compute. reflexivity.
  - reflexivity.
  - right. intros f Hf. unfold Coremap.owner in Hf.
    destruct (f <? 0); [discriminate|].
    destruct (Z.to_nat f) as [|[|n]]; vm_compute in Hf; discriminate.
  - exact Hrun.
  - exists e'. repeat split; assumption.
Defined.

(** The same fault replaces a valid and dirty entry of the TLB for page
    2, which the page table holds clean; page 2 is evicted, and the
    swap file has the contents of its frame. *)
Lemma PageFaultHandler_keeps_replaced_write_witness :
  (exists e, Coremap.pages sample_kernel_tlb_dirty !! (7%nat, 2) = Some e
             /\ dirty e = false)
  /\ exists eo',
       Coremap.pages sample_after_fault !! (7%nat, 2) = Some eo'
       /\ (dirty eo' = true
           \/ (swap eo' = true
               /\ Coremap.swapFiles sample_after_fault !! (7%nat, 2)
                  = Some [20; 21])).
Proof.
  split; [eexists; split; [vm_compute; reflexivity|reflexivity]|].
  pose proof (PageFaultHandler_keeps_replaced_write 2 2 1 4 sample_space 2 0
                sample_kernel_tlb_dirty sample_after_fault 0
                (mkEntry 2 1 true false true true false) (7%nat, 2)
                (mkEntry 2 1 true false true false false)) as H.
  destruct H as (eo' & Hp & Hk).
  - vm_compute. reflexivity.
  - reflexivity.
  - reflexivity.
  - vm_compute. reflexivity.
  - vm_compute. reflexivity.
  - reflexivity.
  - reflexivity.
  - vm_compute. reflexivity.
  - exists eo'. split; [exact Hp|]. exact Hk.
Defined.
(* ===================================================================== *)
(** ** Allocation and release of the sectors of a file *)
(* ===================================================================== *)

Section RoundTripFacts.
Import Bitmap Header.

Lemma claimed_app m cs m1 cs' m2 :
  claimed m cs m1 -> claimed m1 cs' m2 -> claimed m (cs ++ cs') m2.
Proof.
  revert m. induction cs as [|s cs IH]; intros m; cbn [claimed app].
  - now intros ->.
  - intros (H0 & Hl & Hc) H2. split; [exact H0|]. split; [exact Hl|].
    now apply IH.
Qed.

Lemma claimed_mono m cs m' x :
  claimed m cs m' -> Test m x = true -> Test m' x = true.
Proof.
  revert m. induction cs as [|s cs IH]; intros m; cbn [claimed].
  - now intros ->.
  - intros (_ & _ & Hc) Hx. apply (IH _ Hc). now apply Test_Mark_mono.
Qed.

Lemma claimed_fresh m cs m' x :
  claimed m cs m' -> Test m x = true -> x ∉ cs.
Proof.
  revert m. induction cs as [|s cs IH]; intros m; cbn [claimed].
  - intros _ _. apply not_elem_of_nil.
  - intros (H0 & Hl & Hc) Hx. apply not_elem_of_cons. split.
    + intros ->. apply Test_true_lookup in Hx as [_ Hx]. congruence.
    + apply (IH _ Hc). now apply Test_Mark_mono.
Qed.

Lemma Test_Clear_ne m s x : x <> s -> 0 <= x -> Test (Clear s m) x = Test m x.
Proof.
  intros Hne Hx. unfold Test, Clear.
  destruct (Z.ltb_spec x 0) as [?|_]; [lia|].
  destruct (Z.ltb_spec s 0) as [?|Hs]; [reflexivity|].
  rewrite list_lookup_insert_ne; [reflexivity|lia].
Qed.

Lemma Clear_comm s c m : Clear s (Clear c m) = Clear c (Clear s m).
Proof.
  unfold Clear. destruct (s <? 0), (c <? 0); try reflexivity.
  destruct (decide (Z.to_nat s = Z.to_nat c)) as [->|Hne]; [reflexivity|].
  now apply list_insert_insert_ne.
Qed.

(** Clearing a bit beforehand does not disturb the release of other
    sectors. *)
Lemma release_all_Clear s cs m r :
  s ∉ cs -> release_all cs m = Ret r ->
  release_all cs (Clear s m) = Ret (Clear s r).
Proof.
  revert m. induction cs as [|c cs IH]; intros m Hs; cbn [release_all].
  - now intros [= <-].
  - apply not_elem_of_cons in Hs as [Hne Hs]. unfold release.
    destruct (Test m c) eqn:Ht; cbn [ASSERT mbind outcome_bind];
      [|discriminate].
    assert (0 <= c) by (apply Test_true_lookup in Ht; tauto).
    rewrite Test_Clear_ne by (auto; lia). rewrite Ht.
    cbn [ASSERT mbind outcome_bind]. intros Hrun.
    rewrite <- Clear_comm. now apply IH.
Qed.

Lemma Clear_Mark s m :
  0 <= s -> m !! Z.to_nat s = Some false -> Clear s (Mark s m) = m.
Proof.
  intros Hs Hl. unfold Clear, Mark.
  destruct (Z.ltb_spec s 0) as [?|_]; [lia|].
  rewrite list_insert_insert_eq. now apply list_insert_id.
Qed.

Lemma Test_Mark_same s m :
  0 <= s -> m !! Z.to_nat s = Some false -> Test (Mark s m) s = true.
Proof.
  intros Hs Hl. apply Test_true_lookup. split; [exact Hs|].
  unfold Mark. destruct (Z.ltb_spec s 0) as [?|_]; [lia|].
  apply list_lookup_insert_eq. now apply lookup_lt_Some in Hl.
Qed.

(** Releasing the sectors that were claimed gives the free map back. *)
Lemma release_all_claimed m cs m' :
  claimed m cs m' -> release_all cs m' = Ret m.
Proof.
  revert m. induction cs as [|s cs IH]; intros m; cbn [claimed release_all].
  - now intros ->.
  - intros (H0 & Hl & Hc).
    pose proof (Test_Mark_same _ _ H0 Hl) as Hmarked.
    unfold release. rewrite (claimed_mono _ _ _ _ Hc Hmarked).
    cbn [ASSERT mbind outcome_bind].
    rewrite (release_all_Clear s cs m' (Mark s m)).
    + now rewrite Clear_Mark.
    + apply (claimed_fresh _ _ _ _ Hc Hmarked).
    + now apply IH.
Qed.

Lemma release_all_app a b m :
  release_all (a ++ b) m = (m' ← release_all a m; release_all b m').
Proof.
  revert m. induction a as [|s a IH]; intros m; cbn [release_all app].
  - reflexivity.
  - destruct (release s m) as [m1| |]; cbn [mbind outcome_bind];
      [apply IH|reflexivity..].
Qed.

(** [Deallocate] releases the sectors of the header in their order. *)
Lemma Deallocate_release_all fm h :
  Deallocate fm h = release_all (sectors_of h) fm.
Proof.
  unfold Deallocate, sectors_of. rewrite release_all_app.
  assert (Hd : forall n i m,
             for_whileM n i (fun _ _ => true)
               (fun i m => release (cell (dataSectors (raw h)) i) m) m
             = release_all (direct_from n i h) m).
  { induction n as [|n IH]; intros i m; cbn [for_whileM direct_from release_all];
      [reflexivity|].
    destruct (release _ m) as [m1| |]; cbn [mbind outcome_bind];
      [apply IH|reflexivity..]. }
  rewrite Hd.
  destruct (release_all (direct_from _ 0 h) fm) as [m1| |];
    cbn [mbind outcome_bind]; try reflexivity.
  destruct (indirSector (raw h) =? -1); cbn [negb release_all];
    [reflexivity|].
  destruct (release (u32 (indirSector (raw h))) m1) as [m2| |];
    cbn [mbind outcome_bind]; try reflexivity.
  assert (Hr : forall i n j m,
             for_whileM n j
               (fun j _ => negb (cell2 (secondIndir h) i j =? -1))
               (fun j m => release (u32 (cell2 (secondIndir h) i j)) m) m
             = release_all (map u32 (run n j (cell2 (secondIndir h) i))) m).
  { intros i. induction n as [|n IH]; intros j m;
      cbn [for_whileM run map release_all]; [reflexivity|].
    destruct (cell2 (secondIndir h) i j =? -1); cbn [negb map release_all];
      [reflexivity|].
    destruct (release _ m) as [m3| |]; cbn [mbind outcome_bind];
      [apply IH|reflexivity..]. }
  assert (Ht : forall n i m,
             for_whileM n i
               (fun i _ => negb (cell (firstIndir h) i =? -1))
               (fun i m =>
                  m ← release (u32 (cell (firstIndir h) i)) m;
                  for_whileM (Z.to_nat NUM_INDIRECT) 0
                    (fun j _ => negb (cell2 (secondIndir h) i j =? -1))
                    (fun j m => release (u32 (cell2 (secondIndir h) i j)) m)
                    m) m
             = release_all (tables_from n i h) m).
  { induction n as [|n IH]; intros i m;
      cbn [for_whileM tables_from release_all]; [reflexivity|].
    destruct (cell (firstIndir h) i =? -1); cbn [negb release_all];
      [reflexivity|].
    destruct (release _ m) as [m3| |]; cbn [mbind outcome_bind];
      try reflexivity.
    rewrite release_all_app. unfold row_sectors. rewrite Hr.
    destruct (release_all _ m3) as [m4| |]; cbn [mbind outcome_bind];
      [apply IH|reflexivity..]. }
  apply Ht.
Qed.

End RoundTripFacts.
Section AllocateTrace.
Import Bitmap Header.

Ltac consts :=
  rewrite ?NUM_DIRECT_eq, ?NUM_INDIRECT_eq, ?MAX_DIRECT_SIZE_eq in *;
  unfold DivRoundUp, SECTOR_SIZE, u32, UINT_MODULUS in *.

Ltac arith := consts; Z.div_mod_to_equations; lia.

Lemma cell_insert_eq l i v :
  0 <= i -> (Z.to_nat i < length l)%nat -> cell (<[Z.to_nat i := v]> l) i = v.
Proof.
  intros Hi Hl. unfold cell. destruct (Z.ltb_spec i 0) as [?|_]; [lia|].
  now rewrite list_lookup_insert_eq.
Qed.

Lemma cell_insert_ne l i k v :
  0 <= i -> k <> i -> cell (<[Z.to_nat i := v]> l) k = cell l k.
Proof.
  intros Hi Hk. unfold cell. destruct (Z.ltb_spec k 0) as [?|?];
    [reflexivity|].
  rewrite list_lookup_insert_ne by lia. reflexivity.
Qed.

Lemma cell2_set_eq h i j v :
  0 <= i < NUM_INDIRECT -> 0 <= j < NUM_INDIRECT -> array_sized h ->
  cell2 (secondIndir (set_secondIndir i j v h)) i j = v.
Proof.
  intros Hi Hj (_ & _ & Hlen & Hrows). unfold cell2, set_secondIndir.
  cbn [secondIndir]. destruct (Z.ltb_spec i 0) as [?|_]; [lia|].
  rewrite list_lookup_alter_eq.
  destruct (secondIndir h !! Z.to_nat i) as [row|] eqn:Hrow.
  - cbn. apply cell_insert_eq; [lia|].
    rewrite Forall_forall in Hrows. rewrite (Hrows row); [lia|].
    eapply list_elem_of_lookup_2. exact Hrow.
  - apply lookup_ge_None in Hrow. lia.
Qed.

Lemma cell2_set_ne h i j v i' j' :
  0 <= i -> 0 <= j -> i' <> i \/ j' <> j ->
  cell2 (secondIndir (set_secondIndir i j v h)) i' j'
  = cell2 (secondIndir h) i' j'.
Proof.
  intros Hi Hj Hne. unfold cell2, set_secondIndir. cbn [secondIndir].
  destruct (Z.ltb_spec i' 0) as [?|?]; [reflexivity|].
  destruct (decide (i' = i)) as [->|Hi'].
  - rewrite list_lookup_alter_eq.
    destruct (secondIndir h !! Z.to_nat i) as [row|]; [|reflexivity].
    cbn. apply cell_insert_ne; [lia|]. destruct Hne; congruence.
  - rewrite list_lookup_alter_ne by lia. reflexivity.
Qed.

Lemma array_sized_set_secondIndir i j v h :
  array_sized h -> array_sized (set_secondIndir i j v h).
Proof.
  intros (H1 & H2 & H3 & H4). unfold array_sized, set_secondIndir.
  cbn [raw firstIndir secondIndir]. rewrite length_alter.
  repeat split; auto. apply Forall_alter; [exact H4|].
  intros row _ Hrow. now rewrite length_insert.
Qed.

Lemma array_sized_set_firstIndir i v h :
  array_sized h -> array_sized (set_firstIndir i v h).
Proof.
  intros (H1 & H2 & H3 & H4). unfold array_sized, set_firstIndir.
  cbn [raw firstIndir secondIndir]. rewrite length_insert. auto.
Qed.

Lemma array_sized_set_dataSector i v h :
  array_sized h -> array_sized (set_dataSector i v h).
Proof.
  intros (H1 & H2 & H3 & H4). unfold array_sized, set_dataSector.
  cbn [raw firstIndir secondIndir dataSectors]. rewrite length_insert. auto.
Qed.

(** One successful [Find] on a map that an [unsigned] can index. *)
Lemma Find_claim m :
  0 < CountClear m -> Z.of_nat (length m) <= UINT_MODULUS ->
  exists s, Find m = (s, Mark s m) /\ 0 <= s
            /\ m !! Z.to_nat s = Some false /\ u32 s = s
            /\ CountClear (Mark s m) = CountClear m - 1
            /\ length (Mark s m) = length m.
Proof.
  intros Hpos Hlen.
  destruct (Find_Some m Hpos) as (s & HF & H0 & Hclear & Hmarked & Hcount).
  exists s. split; [exact HF|]. split; [exact H0|].
  assert (Hlm : length (Mark s m) = length m).
  { unfold Mark. destruct (s <? 0); [reflexivity|apply length_insert]. }
  apply Test_true_lookup in Hmarked as [_ Hl].
  apply lookup_lt_Some in Hl. rewrite Hlm in Hl.
  split.
  { destruct (m !! Z.to_nat s) as [b|] eqn:Hb.
    - unfold Test in Hclear. destruct (Z.ltb_spec s 0) as [?|_]; [lia|].
      rewrite Hb in Hclear. cbn in Hclear. now subst b.
    - apply lookup_ge_None in Hb. lia. }
  split; [apply u32_small; lia|]. split; assumption.
Qed.

Lemma run_ext n i f g :
  (forall k, i <= k < i + Z.of_nat n -> f k = g k) -> run n i f = run n i g.
Proof.
  revert i. induction n as [|n IH]; intros i H; cbn [run]; [reflexivity|].
  rewrite (H i) by lia. rewrite (IH (i + 1)); [reflexivity|].
  intros k Hk. apply H. lia.
Qed.

Lemma direct_from_ext n i h h' :
  (forall k, i <= k < i + Z.of_nat n ->
             cell (dataSectors (raw h)) k = cell (dataSectors (raw h')) k) ->
  direct_from n i h = direct_from n i h'.
Proof.
  revert i. induction n as [|n IH]; intros i H; cbn [direct_from];
    [reflexivity|].
  rewrite (H i) by lia. rewrite (IH (i + 1)); [reflexivity|].
  intros k Hk. apply H. lia.
Qed.

(** The loop of [Allocate] over the direct table. *)
Lemma claim_direct_trace n : forall i a,
  0 <= i ->
  (Z.to_nat i + n <= length (dataSectors (raw (a_hdr a))))%nat ->
  Z.of_nat n <= CountClear (a_map a) ->
  Z.of_nat (length (a_map a)) <= UINT_MODULUS ->
  let a' := for_while n i (fun _ _ => true) claim_direct a in
  claimed (a_map a) (direct_from n i (a_hdr a')) (a_map a')
  /\ CountClear (a_map a') = CountClear (a_map a) - Z.of_nat n
  /\ length (a_map a') = length (a_map a)
  /\ (forall k, k < i -> cell (dataSectors (raw (a_hdr a'))) k
                         = cell (dataSectors (raw (a_hdr a))) k)
  /\ direct_only a a'
  /\ a_indir a' = a_indir a.
Proof.
  induction n as [|n IH]; intros i a Hi Hlen Hfree Hmap;
    cbn [for_while direct_from claimed].
  - repeat split; try reflexivity; lia.
  - destruct (Find_claim (a_map a)) as (s & HF & Hs & Hl & Hu & Hc & Hm);
      [lia|exact Hmap|].
    assert (Ha1 : claim_direct i a
                  = mkAlloc (Mark s (a_map a))
                            (set_dataSector i s (a_hdr a)) (a_left a)
                            (a_indir a)).
    { unfold claim_direct. now rewrite HF, Hu. }
    rewrite Ha1. set (a1 := mkAlloc _ _ _ _).
    destruct (IH (i + 1) a1) as (Hcl & Hcount & Hlm & Hframe & Hdo & Hind).
    + lia.
    + unfold a1, set_dataSector. cbn [a_hdr raw dataSectors].
      rewrite length_insert. lia.
    + unfold a1. cbn [a_map]. lia.
    + unfold a1. cbn [a_map]. lia.
    + set (a' := for_while n (i + 1) _ claim_direct a1) in *. clearbody a'.
      assert (Hcell : cell (dataSectors (raw (a_hdr a'))) i = s).
      { rewrite Hframe by lia. unfold a1, set_dataSector.
        cbn [a_hdr raw dataSectors]. apply cell_insert_eq; lia. }
      rewrite Hcell. split; [|split; [|split; [|split; [|split]]]].
      * split; [exact Hs|]. split; [exact Hl|]. exact Hcl.
      * rewrite Hcount. unfold a1. cbn [a_map]. lia.
      * rewrite Hlm. unfold a1. cbn [a_map]. exact Hm.
      * intros k Hk. rewrite Hframe by lia. unfold a1, set_dataSector.
        cbn [a_hdr raw dataSectors]. apply cell_insert_ne; lia.
      * destruct Hdo as (D1 & D2 & D3 & D4 & D5). unfold direct_only.
        rewrite D1, D2, D3, D4, D5. unfold a1. cbn.
        repeat split.
      * rewrite Hind. reflexivity.
Qed.

(** The inner loop of [Allocate] over a row of the second table. *)
Lemma allocate_second_trace i n : forall j a,
  0 <= i < NUM_INDIRECT -> 0 <= j -> j + Z.of_nat n <= NUM_INDIRECT ->
  array_sized (a_hdr a) ->
  0 <= a_left a < UINT_MODULUS -> a_left a <= CountClear (a_map a) ->
  Z.of_nat (length (a_map a)) <= UINT_MODULUS ->
  let a' := for_while n j (fun _ _ => true) (allocate_second i) a in
  claimed (a_map a)
          (map u32 (run n j (cell2 (secondIndir (a_hdr a')) i))) (a_map a')
  /\ (a_left a = 0 -> a_map a' = a_map a)
  /\ CountClear (a_map a') - a_left a' = CountClear (a_map a) - a_left a
  /\ 0 <= a_left a' <= a_left a
  /\ length (a_map a') = length (a_map a)
  /\ array_sized (a_hdr a')
  /\ raw (a_hdr a') = raw (a_hdr a)
  /\ firstIndir (a_hdr a') = firstIndir (a_hdr a)
  /\ a_indir a' = a_indir a
  /\ (forall i' j', i' <> i \/ j' < j ->
        cell2 (secondIndir (a_hdr a')) i' j'
        = cell2 (secondIndir (a_hdr a)) i' j')
  /\ a_left a' = Z.max 0 (a_left a - Z.of_nat n)
  /\ (forall j', j <= j' < j + Z.of_nat n -> j' - j < a_left a ->
        0 <= cell2 (secondIndir (a_hdr a')) i j').
Proof.
  induction n as [|n IH]; intros j a Hi Hj Hn Hsized Hleft Hfree Hmap;
    cbn [for_while run map claimed].
  - split; [reflexivity|]. split; [reflexivity|]. split; [reflexivity|].
    split; [lia|]. split; [reflexivity|]. split; [exact Hsized|].
    split; [reflexivity|]. split; [reflexivity|]. split; [reflexivity|].
    split; [reflexivity|]. split; [lia|]. intros j' Hj'. lia.
  - destruct (Z.gtb_spec (a_left a) 0) as [Hpos|Hzero].
    + destruct (Find_claim (a_map a)) as (s & HF & Hs & Hl & Hu & Hc & Hm);
        [lia|exact Hmap|].
      assert (Ha1 : allocate_second i j a
                    = mkAlloc (Mark s (a_map a))
                              (set_secondIndir i j s (a_hdr a))
                              (a_left a - 1) (a_indir a)).
      { unfold allocate_second.
        destruct (Z.gtb_spec (a_left a) 0) as [_|?]; [|lia].
        rewrite HF. f_equal. apply u32_small. lia. }
      rewrite Ha1. set (a1 := mkAlloc _ _ _ _).
      destruct (IH (j + 1) a1)
        as (Hcl & _ & Hbudget & Hl' & Hlm & Hsz & Hraw & Hfirst & Hind
            & Hframe & Hleft' & Hcells).
      * exact Hi.
      * lia.
      * lia.
      * unfold a1. cbn [a_hdr]. now apply array_sized_set_secondIndir.
      * unfold a1. cbn [a_left]. lia.
      * unfold a1. cbn [a_left a_map]. lia.
      * unfold a1. cbn [a_map]. lia.
      * set (a' := for_while n (j + 1) _ (allocate_second i) a1) in *.
        clearbody a'.
        assert (Hcell : cell2 (secondIndir (a_hdr a')) i j = s).
        { rewrite Hframe by lia. unfold a1. cbn [a_hdr].
          apply cell2_set_eq; [exact Hi|lia|exact Hsized]. }
        rewrite Hcell.
        destruct (Z.eqb_spec s (-1)) as [?|_]; [lia|].
        cbn [map claimed]. rewrite Hu.
        unfold a1 in *. cbn [a_map a_hdr a_left a_indir] in *.
        split; [split; [exact Hs|]; split; [exact Hl|exact Hcl]|].
        split; [intros; lia|]. split; [lia|]. split; [lia|].
        split; [lia|]. split; [exact Hsz|].
        split; [rewrite Hraw; reflexivity|].
        split; [rewrite Hfirst; reflexivity|]. split; [exact Hind|].
        split.
        { intros i' j' Hij. rewrite Hframe by lia.
          apply cell2_set_ne; lia. }
        split; [lia|].
        intros j' Hj' Hlt. destruct (decide (j' = j)) as [->|Hne].
        { rewrite Hcell. exact Hs. }
        apply Hcells; lia.
    + assert (Ha1 : allocate_second i j a
                    = mkAlloc (a_map a) (set_secondIndir i j (-1) (a_hdr a))
                              (a_left a) (a_indir a)).
      { unfold allocate_second.
        destruct (Z.gtb_spec (a_left a) 0) as [?|_]; [lia|reflexivity]. }
      rewrite Ha1. set (a1 := mkAlloc _ _ _ _).
      destruct (IH (j + 1) a1)
        as (_ & Hsame & Hbudget & Hl' & Hlm & Hsz & Hraw & Hfirst & Hind
            & Hframe & Hleft' & Hcells).
      * exact Hi.
      * lia.
      * lia.
      * unfold a1. cbn [a_hdr]. now apply array_sized_set_secondIndir.
      * unfold a1. cbn [a_left]. lia.
      * unfold a1. cbn [a_left a_map]. lia.
      * unfold a1. cbn [a_map]. lia.
      * set (a' := for_while n (j + 1) _ (allocate_second i) a1) in *.
        clearbody a'.
        assert (Hcell : cell2 (secondIndir (a_hdr a')) i j = -1).
        { rewrite Hframe by lia. unfold a1. cbn [a_hdr].
          apply cell2_set_eq; [exact Hi|lia|exact Hsized]. }
        rewrite Hcell. change (-1 =? -1) with true. cbn [map claimed].
        unfold a1 in *. cbn [a_map a_hdr a_left a_indir] in *.
        assert (Hm : a_map a' = a_map a) by (apply Hsame; lia).
        split; [exact Hm|]. split; [intros _; exact Hm|].
        split; [lia|]. split; [lia|]. split; [lia|]. split; [exact Hsz|].
        split; [rewrite Hraw; reflexivity|].
        split; [rewrite Hfirst; reflexivity|]. split; [exact Hind|].
        split.
        { intros i' j' Hij. rewrite Hframe by lia.
          apply cell2_set_ne; lia. }
        split; [lia|]. intros j' Hj' Hlt. lia.
Qed.

End AllocateTrace.
Section AllocateTables.
Import Bitmap Header.

Lemma clear_row_trace i n : forall j h,
  0 <= i -> 0 <= j ->
  let h' := for_while n j (fun _ _ => true)
              (fun j h => set_secondIndir i j (-1) h) h in
  raw h' = raw h /\ firstIndir h' = firstIndir h
  /\ (array_sized h -> array_sized h')
  /\ (forall i' j', i' <> i ->
        cell2 (secondIndir h') i' j' = cell2 (secondIndir h) i' j').
Proof.
  induction n as [|n IH]; intros j h Hi Hj; cbn [for_while].
  - split; [reflexivity|]. split; [reflexivity|]. split; [tauto|].
    reflexivity.
  - destruct (IH (j + 1) (set_secondIndir i j (-1) h) Hi ltac:(lia))
      as (H1 & H2 & H3 & H4).
    split; [now rewrite H1|]. split; [now rewrite H2|].
    split; [intros Hs; now apply H3, array_sized_set_secondIndir|].
    intros i' j' Hne. rewrite H4 by exact Hne.
    apply cell2_set_ne; [lia|lia|now left].
Qed.

Lemma clear_indir_trace i a :
  0 <= i < NUM_INDIRECT -> array_sized (a_hdr a) ->
  a_map (clear_indir i a) = a_map a
  /\ a_left (clear_indir i a) = a_left a
  /\ a_indir (clear_indir i a) = a_indir a
  /\ raw (a_hdr (clear_indir i a)) = raw (a_hdr a)
  /\ cell (firstIndir (a_hdr (clear_indir i a))) i = -1
  /\ (forall k, k <> i -> cell (firstIndir (a_hdr (clear_indir i a))) k
                          = cell (firstIndir (a_hdr a)) k)
  /\ (forall i' j', i' <> i ->
        cell2 (secondIndir (a_hdr (clear_indir i a))) i' j'
        = cell2 (secondIndir (a_hdr a)) i' j')
  /\ array_sized (a_hdr (clear_indir i a)).
Proof.
  intros Hi Hsized. unfold clear_indir, for_range. cbn [a_map a_left a_indir a_hdr].
  destruct (clear_row_trace i (Z.to_nat (NUM_INDIRECT - 0)) 0
              (set_firstIndir i (-1) (a_hdr a)) ltac:(lia) ltac:(lia))
    as (H1 & H2 & H3 & H4).
  split; [reflexivity|]. split; [reflexivity|]. split; [reflexivity|].
  split; [rewrite H1; reflexivity|].
  rewrite H2. unfold set_firstIndir at 1 2. cbn [firstIndir].
  split.
  { apply cell_insert_eq; [lia|]. destruct Hsized as (_ & -> & _). lia. }
  split; [intros k Hk; apply cell_insert_ne; lia|].
  split; [intros i' j' Hne; now rewrite H4|].
  now apply H3, array_sized_set_firstIndir.
Qed.

Lemma clear_row_raw i n : forall j h,
  raw (for_while n j (fun _ _ => true)
         (fun j h => set_secondIndir i j (-1) h) h) = raw h.
Proof.
  induction n as [|n IH]; intros j h; cbn [for_while]; [reflexivity|].
  now rewrite IH.
Qed.

(** The loop of [Allocate] that fills the tables with -1. *)
Lemma clear_indir_loop n : forall i a,
  let a' := for_while n i (fun _ _ => true) clear_indir a in
  a_map a' = a_map a /\ raw (a_hdr a') = raw (a_hdr a).
Proof.
  induction n as [|n IH]; intros i a; cbn [for_while]; [now split|].
  destruct (IH (i + 1) (clear_indir i a)) as [H1 H2].
  rewrite H1, H2. unfold clear_indir, for_range. cbn [a_map a_hdr].
  split; [reflexivity|]. now rewrite clear_row_raw.
Qed.

(** The outer loop of [Allocate] over the first table. *)
Lemma allocate_first_trace n : forall i a,
  0 <= i -> i + Z.of_nat n <= NUM_INDIRECT ->
  array_sized (a_hdr a) ->
  0 <= a_left a < UINT_MODULUS ->
  Z.max 0 (a_indir a - i) + a_left a <= CountClear (a_map a) ->
  Z.of_nat (length (a_map a)) <= UINT_MODULUS ->
  let a' := for_while n i (fun _ _ => true) allocate_first a in
  claimed (a_map a) (tables_from n i (a_hdr a')) (a_map a')
  /\ (a_indir a <= i -> a_map a' = a_map a)
  /\ raw (a_hdr a') = raw (a_hdr a)
  /\ (forall k, k < i -> cell (firstIndir (a_hdr a')) k
                         = cell (firstIndir (a_hdr a)) k)
  /\ (forall i' j', i' < i ->
        cell2 (secondIndir (a_hdr a')) i' j'
        = cell2 (secondIndir (a_hdr a)) i' j')
  /\ (forall i', i <= i' < i + Z.of_nat n -> i' < a_indir a ->
        0 <= cell (firstIndir (a_hdr a')) i')
  /\ (forall i' j', i <= i' < i + Z.of_nat n -> 0 <= j' < NUM_INDIRECT ->
        i' < a_indir a -> NUM_INDIRECT * (i' - i) + j' < a_left a ->
        0 <= cell2 (secondIndir (a_hdr a')) i' j').
Proof.
  induction n as [|n IH]; intros i a Hi Hn Hsized Hleft Hfree Hmap;
    cbn [for_while tables_from claimed].
  - split; [reflexivity|]. split; [reflexivity|]. split; [reflexivity|].
    split; [reflexivity|]. split; [reflexivity|].
    split; [intros i' Hi'; lia|]. intros i' j' Hi'. lia.
  - destruct (Z.ltb_spec i (a_indir a)) as [Hlt|Hge].
    + destruct (Find_claim (a_map a)) as (s & HF & Hs & Hl & Hu & Hc & Hm);
        [lia|exact Hmap|].
      set (a0 := mkAlloc (Mark s (a_map a)) (set_firstIndir i s (a_hdr a))
                         (a_left a) (a_indir a)).
      assert (Ha1 : allocate_first i a
                    = for_while (Z.to_nat (NUM_INDIRECT - 0)) 0
                        (fun _ _ => true) (allocate_second i) a0).
      { unfold allocate_first, for_range.
        destruct (Z.ltb_spec i (a_indir a)) as [_|?]; [|lia].
        now rewrite HF. }
      rewrite Ha1. clear Ha1.
      destruct (allocate_second_trace i (Z.to_nat (NUM_INDIRECT - 0)) 0 a0)
        as (Hcl & _ & Hbudget & Hl' & Hlm & Hsz & Hraw & Hfirst & Hind
            & Hframe & Hleft1 & Hcells1).
      * lia.
      * lia.
      * lia.
      * unfold a0. cbn [a_hdr]. now apply array_sized_set_firstIndir.
      * unfold a0. cbn [a_left]. lia.
      * unfold a0. cbn [a_left a_map]. lia.
      * unfold a0. cbn [a_map]. lia.
      * set (a1 := for_while (Z.to_nat (NUM_INDIRECT - 0)) 0 _
                     (allocate_second i) a0) in *.
        clearbody a1. unfold a0 in *.
        cbn [a_map a_hdr a_left a_indir] in *.
        destruct (IH (i + 1) a1)
          as (Hcl2 & _ & Hraw2 & Hfirst2 & Hframe2 & Hfirsts2 & Hcells2);
          [lia|lia|exact Hsz|lia|lia|lia|].
        set (a' := for_while n (i + 1) _ allocate_first a1) in *.
        clearbody a'.
        assert (Hcell : cell (firstIndir (a_hdr a')) i = s).
        { rewrite Hfirst2 by lia. rewrite Hfirst.
          unfold set_firstIndir. cbn [firstIndir].
          apply cell_insert_eq; [lia|].
          destruct Hsized as (_ & -> & _). lia. }
        rewrite Hcell.
        destruct (Z.eqb_spec s (-1)) as [?|_]; [lia|].
        rewrite Hu. cbn [claimed].
        assert (Hrow : row_sectors (a_hdr a') i
                       = map u32 (run (Z.to_nat (NUM_INDIRECT - 0)) 0
                                      (cell2 (secondIndir (a_hdr a1)) i))).
        { unfold row_sectors. rewrite Z.sub_0_r.
          apply (f_equal (map u32)).
          apply run_ext. intros k _. apply Hframe2. lia. }
        rewrite Hrow.
        split.
        { split; [exact Hs|]. split; [exact Hl|].
          eapply claimed_app; [exact Hcl|exact Hcl2]. }
        split; [intros; lia|].
        split; [rewrite Hraw2, Hraw; reflexivity|].
        split.
        { intros k Hk. rewrite Hfirst2 by lia. rewrite Hfirst.
          unfold set_firstIndir. cbn [firstIndir].
          apply cell_insert_ne; lia. }
        split.
        { intros i' j' Hi'. rewrite Hframe2 by lia.
          rewrite Hframe by lia. reflexivity. }
        pose proof NUM_INDIRECT_eq as Hni.
        rewrite Z.sub_0_r, Z2Nat.id in Hleft1, Hcells1 by lia.
        split.
        { intros i' Hi' Hlt'. destruct (decide (i' = i)) as [->|Hne].
          - rewrite Hcell. exact Hs.
          - apply Hfirsts2; lia. }
        intros i' j' Hi' Hj' Hlt' Hleft''.
        destruct (decide (i' = i)) as [->|Hne].
        { rewrite Hframe2 by lia. apply Hcells1; lia. }
        apply Hcells2; lia.
    + assert (Ha1 : allocate_first i a = clear_indir i a).
      { unfold allocate_first.
        destruct (Z.ltb_spec i (a_indir a)) as [?|_]; [lia|reflexivity]. }
      rewrite Ha1. clear Ha1.
      destruct (clear_indir_trace i a ltac:(lia) Hsized)
        as (Hm1 & Hl1 & Hi1 & Hr1 & Hc1 & Hf1 & Hs1 & Hsz1).
      set (a1 := clear_indir i a) in *. clearbody a1.
      destruct (IH (i + 1) a1)
        as (_ & Hsame & Hraw2 & Hfirst2 & Hframe2 & _ & _);
        [lia|lia|exact Hsz1|lia|rewrite Hm1; lia|rewrite Hm1; lia|].
      set (a' := for_while n (i + 1) _ allocate_first a1) in *.
      clearbody a'.
      assert (Hcell : cell (firstIndir (a_hdr a')) i = -1).
      { rewrite Hfirst2 by lia. exact Hc1. }
      rewrite Hcell. change (-1 =? -1) with true. cbn [claimed].
      assert (Hm : a_map a' = a_map a) by (rewrite Hsame; [exact Hm1|lia]).
      split; [exact Hm|]. split; [intros _; exact Hm|].
      split; [rewrite Hraw2, Hr1; reflexivity|].
      split; [intros k Hk; rewrite Hfirst2 by lia; apply Hf1; lia|].
      split; [intros i' j' Hi'; rewrite Hframe2 by lia; apply Hs1; lia|].
      split; [intros i' Hi' Hlt'; lia|]. intros i' j' Hi' Hj' Hlt'. lia.
Qed.

End AllocateTables.
Section AllocateClaims.
Import Bitmap Header.

Ltac consts :=
  rewrite ?NUM_DIRECT_eq, ?NUM_INDIRECT_eq, ?MAX_DIRECT_SIZE_eq in *;
  unfold DivRoundUp, SECTOR_SIZE, u32, UINT_MODULUS in *.

Ltac arith := consts; Z.div_mod_to_equations; lia.

Lemma claimed_cons m s cs m' :
  0 <= s -> m !! Z.to_nat s = Some false -> claimed (Mark s m) cs m' ->
  claimed m (s :: cs) m'.
Proof. intros H0 Hl Hc. cbn [claimed]. auto. Qed.

Lemma claim_direct_sized n : forall i a,
  array_sized (a_hdr a) ->
  array_sized (a_hdr (for_while n i (fun _ _ => true) claim_direct a)).
Proof.
  induction n as [|n IH]; intros i a Hs; cbn [for_while]; [exact Hs|].
  apply IH. unfold claim_direct. destruct (Find (a_map a)) as [s m].
  cbn [a_hdr]. now apply array_sized_set_dataSector.
Qed.

(** The direct part of [Allocate]. *)
Lemma Allocate_direct fm h1 ind :
  0 <= numSectors (raw h1) ->
  Z.min (numSectors (raw h1)) NUM_DIRECT <= CountClear fm ->
  Z.of_nat (length fm) <= UINT_MODULUS ->
  array_sized h1 ->
  forall a1,
    a1 = for_range 0 (Z.min (numSectors (raw h1)) NUM_DIRECT) claim_direct
           (mkAlloc fm h1 0 ind) ->
    claimed fm
      (direct_from (Z.to_nat (Z.min (numSectors (raw h1)) NUM_DIRECT)) 0
         (a_hdr a1)) (a_map a1)
    /\ CountClear (a_map a1)
       = CountClear fm - Z.min (numSectors (raw h1)) NUM_DIRECT
    /\ length (a_map a1) = length fm
    /\ numSectors (raw (a_hdr a1)) = numSectors (raw h1)
    /\ array_sized (a_hdr a1).
Proof.
  intros Hns0 Hfree Hmap Hsized a1 ->. unfold for_range.
  rewrite Z.sub_0_r. pose proof NUM_DIRECT_eq as Hnd.
  pose proof (claim_direct_trace
                (Z.to_nat (Z.min (numSectors (raw h1)) NUM_DIRECT)) 0
                (mkAlloc fm h1 0 ind)) as H.
  cbv zeta in H.
  destruct H as (Hcl & Hcount & Hlm & _ & Hdo & _).
  - lia.
  - cbn [a_hdr]. destruct Hsized as (-> & _). lia.
  - cbn [a_map]. lia.
  - exact Hmap.
  - split; [exact Hcl|]. split; [rewrite Hcount; cbn [a_map]; lia|].
    split; [exact Hlm|]. split; [apply Hdo|].
    now apply claim_direct_sized.
Qed.

(** The part of [Allocate] for a file with indirection tables. *)
Lemma Allocate_tables a0 :
  array_sized (a_hdr a0) ->
  0 <= a_left a0 < UINT_MODULUS ->
  Z.max 0 (a_indir a0) + a_left a0 <= CountClear (a_map a0) ->
  Z.of_nat (length (a_map a0)) <= UINT_MODULUS ->
  forall a3,
    a3 = for_range 0 NUM_INDIRECT allocate_first a0 ->
    claimed (a_map a0) (tables_from (Z.to_nat NUM_INDIRECT) 0 (a_hdr a3))
            (a_map a3)
    /\ raw (a_hdr a3) = raw (a_hdr a0)
    /\ (forall i, 0 <= i < NUM_INDIRECT -> i < a_indir a0 ->
          0 <= cell (firstIndir (a_hdr a3)) i)
    /\ (forall i j, 0 <= i < NUM_INDIRECT -> 0 <= j < NUM_INDIRECT ->
          i < a_indir a0 -> NUM_INDIRECT * i + j < a_left a0 ->
          0 <= cell2 (secondIndir (a_hdr a3)) i j).
Proof.
  intros Hsized Hleft Hfree Hmap a3 ->. unfold for_range.
  rewrite Z.sub_0_r.
  pose proof (allocate_first_trace (Z.to_nat NUM_INDIRECT) 0 a0) as H.
  cbv zeta in H.
  destruct H as (Hcl3 & _ & Hraw3 & _ & _ & Hfirsts & Hcells).
  - lia.
  - rewrite NUM_INDIRECT_eq. lia.
  - exact Hsized.
  - exact Hleft.
  - rewrite Z.sub_0_r. exact Hfree.
  - exact Hmap.
  - pose proof NUM_INDIRECT_eq as Hni.
    split; [exact Hcl3|]. split; [exact Hraw3|]. split.
    + intros i Hi Hlt. apply Hfirsts; lia.
    + intros i j Hi Hj Hlt Hleft'. apply Hcells; lia.
Qed.

(** The sectors of a header that [Allocate] filled are the sectors that
    it claimed, in the order in which [Deallocate] visits them, and the
    tables have a sector in every cell that a data sector of the file
    needs. *)
Lemma Allocate_trace fm fileSize h fm' h' :
  0 <= fileSize < UINT_MODULUS ->
  Z.of_nat (length fm) <= UINT_MODULUS ->
  array_sized h ->
  Allocate fm fileSize h = (true, fm', h') ->
  claimed fm (sectors_of h') fm'
  /\ numSectors (raw h') = DivRoundUp fileSize SECTOR_SIZE
  /\ (NUM_DIRECT < numSectors (raw h') ->
      indirSector (raw h') <> -1
      /\ forall i j, 0 <= i < NUM_INDIRECT -> 0 <= j < NUM_INDIRECT ->
           NUM_INDIRECT * i + j < numSectors (raw h') - NUM_DIRECT ->
           0 <= cell (firstIndir h') i
           /\ 0 <= cell2 (secondIndir h') i j).
Proof.
  intros Hsize Hmap Hsized. unfold Allocate.
  set (h1 := set_numSectors _ (set_numBytes fileSize h)).
  assert (Hns : numSectors (raw h1) = DivRoundUp fileSize SECTOR_SIZE)
    by reflexivity.
  assert (Hsz1 : array_sized h1) by exact Hsized.
  set (ind := if fileSize >? MAX_DIRECT_SIZE then _ else 0).
  assert (Hind : (fileSize <= MAX_DIRECT_SIZE /\ ind = 0)
                 \/ (MAX_DIRECT_SIZE < fileSize
                     /\ ind = (numSectors (raw h1) - NUM_DIRECT)
                              + DivRoundUp (numSectors (raw h1) - NUM_DIRECT)
                                           NUM_INDIRECT + 1
                     /\ 1 <= numSectors (raw h1) - NUM_DIRECT < 2 ^ 26)).
  { subst ind. rewrite Hns.
    destruct (Z.gtb_spec fileSize MAX_DIRECT_SIZE) as [Hgt|Hle].
    - right. split; [lia|]. revert Hgt Hsize. clear. arith.
    - left. split; [lia|reflexivity]. }
  assert (Hns0 : 0 <= numSectors (raw h1) < 2 ^ 26).
  { rewrite Hns. revert Hsize. clear. arith. }
  clearbody ind h1.
  destruct (Z.ltb_spec (CountClear fm) (u32 (numSectors (raw h1) + ind)))
    as [|Hfree]; [discriminate|].
  assert (Hfree' : numSectors (raw h1) + ind <= CountClear fm).
  { rewrite u32_small in Hfree; [exact Hfree|].
    destruct Hind as [[_ ->]|(_ & -> & Hr)].
    - unfold UINT_MODULUS. lia.
    - revert Hns0 Hr. clear. arith. }
  clear Hfree.
  remember (for_range 0 _ claim_direct _) as a1 eqn:Ha1.
  destruct (Allocate_direct fm h1 ind ltac:(lia)) with (a1 := a1)
    as (Hcl & Hcount & Hlm & D5 & Hsz2); [| exact Hmap | exact Hsz1
                                          | exact Ha1 |].
  { destruct Hind as [[_ ->]|(_ & -> & Hr)].
    - lia.
    - revert Hfree' Hns0 Hr. clear. arith. }
  clear Ha1.
  destruct Hind as [[Hle ->]|(Hgt & -> & Hr)].
  - change (0 =? 0) with true. cbv iota.
    remember (for_range 0 NUM_INDIRECT clear_indir _) as a2 eqn:Ha2.
    assert (H2 : a_map a2 = a_map a1
                 /\ raw (a_hdr a2) = raw (set_indirSector (-1) (a_hdr a1))).
    { subst a2. unfold for_range.
      exact (clear_indir_loop (Z.to_nat (NUM_INDIRECT - 0)) 0
               (mkAlloc (a_map a1) (set_indirSector (-1) (a_hdr a1)) 0 0)). }
    destruct H2 as [Hm2 Hr2]. clear Ha2.
    intros [= <- <-]. rewrite Hm2. unfold sectors_of. rewrite Hr2.
    cbn [set_indirSector raw indirSector numSectors]. rewrite D5.
    change (-1 =? -1) with true. cbv iota. rewrite app_nil_r.
    split.
    { rewrite (direct_from_ext _ _ _ (a_hdr a1)); [exact Hcl|].
      intros k _. now rewrite Hr2. }
    split; [rewrite <- Hns; reflexivity|].
    intros Hbig. exfalso. rewrite Hns in Hbig.
    revert Hbig Hle Hsize. clear. arith.
  - destruct (Z.eqb_spec (numSectors (raw h1) - NUM_DIRECT
                          + DivRoundUp (numSectors (raw h1) - NUM_DIRECT)
                                       NUM_INDIRECT + 1) 0) as [He|_].
    { exfalso. revert He Hr. clear. arith. }
    destruct (Find_claim (a_map a1)) as (s & HF & Hs & Hl & Hu & Hc & Hm).
    { rewrite Hcount. revert Hfree' Hns0 Hr. clear. arith. }
    { rewrite Hlm. exact Hmap. }
    rewrite HF.
    remember (for_range 0 NUM_INDIRECT allocate_first _) as a3 eqn:Ha3.
    match type of Ha3 with
    | _ = for_range _ _ _ ?a0 =>
        destruct (Allocate_tables a0) with (a3 := a3)
          as (Hcl3 & Hraw3 & Hfirsts & Hcells);
          [| | | | exact Ha3 |]
    end.
    + cbn [a_hdr]. exact Hsz2.
    + cbn [a_left a_hdr set_indirSector raw numSectors]. rewrite D5.
      apply u32_range.
    + cbn [a_left a_indir a_map a_hdr set_indirSector raw numSectors].
      rewrite D5, Hc, Hcount.
      revert Hfree' Hns0 Hr. clear. arith.
    + cbn [a_map]. lia.
    + clear Ha3.
      cbn [a_map a_hdr a_left a_indir set_indirSector raw numSectors]
        in Hcl3, Hraw3, Hfirsts, Hcells.
      rewrite D5 in Hcells.
      intros [= <- <-]. unfold sectors_of. rewrite Hraw3.
      cbn [set_indirSector raw indirSector numSectors]. rewrite D5.
      split.
      { destruct (Z.eqb_spec s (-1)) as [?|_]; [lia|]. rewrite Hu.
        rewrite (direct_from_ext _ _ _ (a_hdr a1)).
        2:{ intros k _. now rewrite Hraw3. }
        eapply claimed_app; [exact Hcl|].
        apply claimed_cons; [exact Hs|exact Hl|exact Hcl3]. }
      split; [exact Hns|]. intros _. split; [lia|].
      intros i j Hi Hj Hlt.
      assert (Hai : i < u32 (numSectors (raw h1) - NUM_DIRECT
                             + DivRoundUp (numSectors (raw h1) - NUM_DIRECT)
                                          NUM_INDIRECT + 1 - 1)).
      { revert Hi Hj Hlt Hr. clear. arith. }
      assert (Hal : NUM_INDIRECT * i + j
                    < u32 (numSectors (raw h1) - NUM_DIRECT)).
      { revert Hi Hj Hlt Hr. clear. arith. }
      split; [now apply Hfirsts|now apply Hcells].
Qed.

(** The sectors of a header that [Allocate] filled are the sectors that
    it claimed, in the order in which [Deallocate] visits them. *)
Lemma Allocate_claimed fm fileSize h fm' h' :
  0 <= fileSize < UINT_MODULUS ->
  Z.of_nat (length fm) <= UINT_MODULUS ->
  array_sized h ->
  Allocate fm fileSize h = (true, fm', h') ->
  claimed fm (sectors_of h') fm'.
Proof.
  intros Hsize Hmap Hsized Halloc.
  now destruct (Allocate_trace fm fileSize h fm' h' Hsize Hmap Hsized Halloc).
Qed.

End AllocateClaims.

(** X24. [Deallocate] undoes [Allocate]: releasing the sectors of a
    header that [Allocate] just filled passes every assertion and gives
    back the free map as it was before the allocation, for a file of any
    length, with or without indirection tables. *)
Theorem Allocate_then_Deallocate (fm : list bool) (fileSize : Z)
    (h : FileHeader) (fm' : list bool) (h' : FileHeader) :
  0 <= fileSize < UINT_MODULUS ->
  Z.of_nat (length fm) <= UINT_MODULUS ->
  array_sized h ->
  Header.Allocate fm fileSize h = (true, fm', h') ->
  Header.Deallocate fm' h' = Ret fm.
Proof.
  intros Hsize Hmap Hsized Halloc.
  rewrite Deallocate_release_all. apply release_all_claimed.
  now apply (Allocate_claimed fm fileSize h).
Qed.
Section SectorPositions.
Import Bitmap Header.

Lemma map_lookup {A B : Type} (f : A -> B) (l : list A) (k : nat) :
  map f l !! k = f <$> (l !! k).
Proof.
  revert k. induction l as [|a l IH]; intros [|k]; cbn; try reflexivity.
  apply IH.
Qed.

Lemma length_direct_from n i h : length (direct_from n i h) = n.
Proof.
  revert i. induction n as [|n IH]; intros i; cbn [direct_from length];
    [reflexivity|]. now rewrite IH.
Qed.

Lemma direct_from_lookup n : forall i h (k : nat),
  (k < n)%nat ->
  direct_from n i h !! k = Some (cell (dataSectors (raw h)) (i + Z.of_nat k)).
Proof.
  induction n as [|n IH]; intros i h k Hk; [lia|]. cbn [direct_from].
  destruct k as [|k].
  - cbn. now rewrite Z.add_0_r.
  - change (direct_from n (i + 1) h !! k
            = Some (cell (dataSectors (raw h)) (i + Z.of_nat (S k)))).
    rewrite (IH (i + 1) h k) by lia.
    do 2 f_equal. lia.
Qed.

Lemma run_lookup n : forall j f (k : nat),
  (k < n)%nat ->
  (forall k', j <= k' <= j + Z.of_nat k -> f k' <> -1) ->
  run n j f !! k = Some (f (j + Z.of_nat k)).
Proof.
  induction n as [|n IH]; intros j f k Hk Hall; [lia|]. cbn [run].
  destruct (Z.eqb_spec (f j) (-1)) as [He|_].
  { exfalso. apply (Hall j); [lia|exact He]. }
  destruct k as [|k].
  - cbn. now rewrite Z.add_0_r.
  - change (run n (j + 1) f !! k = Some (f (j + Z.of_nat (S k)))).
    rewrite (IH (j + 1) f k); [|lia|].
    + do 2 f_equal. lia.
    + intros k' Hk'. apply Hall. lia.
Qed.

Lemma run_full n : forall j f,
  (forall k', j <= k' < j + Z.of_nat n -> f k' <> -1) ->
  length (run n j f) = n.
Proof.
  induction n as [|n IH]; intros j f Hall; [reflexivity|]. cbn [run].
  destruct (Z.eqb_spec (f j) (-1)) as [He|_].
  { exfalso. apply (Hall j); [lia|exact He]. }
  cbn [length]. rewrite IH; [reflexivity|].
  intros k' Hk'. apply Hall. lia.
Qed.

(** Where the sector of the cell [j] of the row [i] stands among the
    sectors of the tables, when every row before it is full. *)
Lemma tables_from_lookup n : forall i0 h i j,
  i0 <= i < i0 + Z.of_nat n -> 0 <= j < NUM_INDIRECT ->
  (forall i', i0 <= i' <= i -> cell (firstIndir h) i' <> -1) ->
  (forall i' j', i0 <= i' < i -> 0 <= j' < NUM_INDIRECT ->
                 cell2 (secondIndir h) i' j' <> -1) ->
  (forall j', 0 <= j' <= j -> cell2 (secondIndir h) i j' <> -1) ->
  tables_from n i0 h !! Z.to_nat ((NUM_INDIRECT + 1) * (i - i0) + 1 + j)
  = Some (u32 (cell2 (secondIndir h) i j)).
Proof.
  pose proof NUM_INDIRECT_eq as Hni.
  induction n as [|n IH]; intros i0 h i j Hi Hj Hfirst Hrows Hrow; [lia|].
  cbn [tables_from].
  destruct (Z.eqb_spec (cell (firstIndir h) i0) (-1)) as [He|_].
  { exfalso. apply (Hfirst i0); [lia|exact He]. }
  destruct (decide (i = i0)) as [->|Hne].
  - replace (Z.to_nat ((NUM_INDIRECT + 1) * (i0 - i0) + 1 + j))
      with (S (Z.to_nat j)) by lia.
    change ((row_sectors h i0 ++ tables_from n (i0 + 1) h) !! Z.to_nat j
            = Some (u32 (cell2 (secondIndir h) i0 j))).
    apply lookup_app_l_Some.
    unfold row_sectors. rewrite map_lookup.
    rewrite (run_lookup _ 0 _ (Z.to_nat j)).
    + rewrite Z.add_0_l, Z2Nat.id by lia. reflexivity.
    + lia.
    + intros k' Hk'. apply Hrow. lia.
  - replace (Z.to_nat ((NUM_INDIRECT + 1) * (i - i0) + 1 + j))
      with (S (Z.to_nat NUM_INDIRECT
               + Z.to_nat ((NUM_INDIRECT + 1) * (i - (i0 + 1)) + 1 + j)))
      by lia.
    change ((row_sectors h i0 ++ tables_from n (i0 + 1) h)
              !! (Z.to_nat NUM_INDIRECT
                  + Z.to_nat ((NUM_INDIRECT + 1) * (i - (i0 + 1)) + 1 + j))%nat
            = Some (u32 (cell2 (secondIndir h) i j))).
    assert (Hlen : length (row_sectors h i0) = Z.to_nat NUM_INDIRECT).
    { unfold row_sectors. rewrite length_map. apply run_full.
      intros k' Hk'. apply Hrows; lia. }
    rewrite lookup_app_r by lia. rewrite Hlen.
    replace (Z.to_nat NUM_INDIRECT
             + Z.to_nat ((NUM_INDIRECT + 1) * (i - (i0 + 1)) + 1 + j)
             - Z.to_nat NUM_INDIRECT)%nat
      with (Z.to_nat ((NUM_INDIRECT + 1) * (i - (i0 + 1)) + 1 + j)) by lia.
    apply IH; try assumption; try lia.
    + intros i' Hi'. apply Hfirst. lia.
    + intros i' j' Hi' Hj'. apply Hrows; lia.
Qed.

End SectorPositions.
Section ClaimedFacts.
Import Bitmap Header.

Lemma Test_Mark_other s m x : x <> s -> Test (Mark s m) x = Test m x.
Proof.
  intros Hne. unfold Test, Mark.
  destruct (Z.ltb_spec x 0) as [?|?]; [reflexivity|].
  destruct (Z.ltb_spec s 0) as [?|?]; [reflexivity|].
  rewrite list_lookup_insert_ne; [reflexivity|lia].
Qed.

(** The sectors that were claimed are pairwise distinct, and they are
    the bits that are marked afterwards and were not marked before. *)
Lemma claimed_spec m cs m' :
  claimed m cs m' ->
  NoDup cs
  /\ forall x, x ∈ cs <-> (Test m x = false /\ Test m' x = true).
Proof.
  revert m. induction cs as [|s cs IH]; intros m; cbn [claimed].
  - intros ->. split; [constructor|]. intros x. split.
    + intros Hx. now apply elem_of_nil in Hx.
    + intros [H1 H2]. congruence.
  - intros (H0 & Hl & Hc).
    pose proof (Test_Mark_same _ _ H0 Hl) as Hmarked.
    destruct (IH _ Hc) as [Hnd Hiff]. split.
    + constructor; [|exact Hnd].
      apply (claimed_fresh _ _ _ _ Hc Hmarked).
    + intros x. rewrite elem_of_cons. split.
      * intros [->|Hx].
        -- split; [|apply (claimed_mono _ _ _ _ Hc Hmarked)].
           unfold Test. destruct (Z.ltb_spec s 0) as [?|_]; [lia|].
           now rewrite Hl.
        -- apply Hiff in Hx as [H1 H2]. split; [|exact H2].
           destruct (decide (x = s)) as [->|Hne]; [congruence|].
           now rewrite <- (Test_Mark_other s m x Hne).
      * intros [H1 H2]. destruct (decide (x = s)) as [->|Hne]; [now left|].
        right. apply Hiff. split; [|exact H2].
        now rewrite Test_Mark_other.
Qed.

End ClaimedFacts.

(** X25. The sectors of a file that [Allocate] made, those that
    [Deallocate] would release, are pairwise distinct, and they are
    exactly the sectors that were free before the call and are marked
    after it: no sector is used twice, none is taken from another file,
    and none is marked without being recorded in the header. *)
Theorem Allocate_sectors_fresh_and_distinct (fm : list bool) (fileSize : Z)
    (h : FileHeader) (fm' : list bool) (h' : FileHeader) :
  0 <= fileSize < UINT_MODULUS ->
  Z.of_nat (length fm) <= UINT_MODULUS ->
  array_sized h ->
  Header.Allocate fm fileSize h = (true, fm', h') ->
  Header.Deallocate fm' h' = release_all (sectors_of h') fm'
  /\ NoDup (sectors_of h')
  /\ forall s, s ∈ sectors_of h'
               <-> (Bitmap.Test fm s = false /\ Bitmap.Test fm' s = true).
Proof.
  intros Hsize Hmap Hsized Halloc.
  split; [apply Deallocate_release_all|].
  apply claimed_spec. now apply (Allocate_claimed fm fileSize h).
Qed.

Lemma blank_array_sized : array_sized Header.blank.
Proof.
  unfold array_sized, Header.blank. cbn [raw dataSectors firstIndir secondIndir].
  rewrite !length_replicate. repeat split.
  apply Forall_forall. intros row Hrow.
  apply elem_of_replicate in Hrow as [-> _]. apply length_replicate.
Defined.

(** A file of 5000 bytes, with indirection tables, allocated from
    [sample_map] and released again. *)
Lemma Allocate_then_Deallocate_witness :
  Header.Allocate sample_map 5000 Header.blank
  = (true, snd (fst (Header.Allocate sample_map 5000 Header.blank)),
     sample_header_5000)
  /\ Header.Deallocate
       (snd (fst (Header.Allocate sample_map 5000 Header.blank)))
       sample_header_5000
     = Ret sample_map.
Proof.
  assert (Hrun : Header.Allocate sample_map 5000 Header.blank
                 = (true,
                    snd (fst (Header.Allocate sample_map 5000 Header.blank)),
                    sample_header_5000))
    by (vm_compute; reflexivity).
  split; [exact Hrun|].
  apply (Allocate_then_Deallocate sample_map 5000 Header.blank).
  - unfold UINT_MODULUS. lia.
  - vm_compute. discriminate.
  - exact blank_array_sized.
  - exact Hrun.
Defined.

Lemma Allocate_sectors_fresh_and_distinct_witness :
  NoDup (sectors_of sample_header_5000)
  /\ Bitmap.Test sample_map (Header.ByteToSector sample_header_5000 4999)
     = false.
Proof.
  destruct (Allocate_sectors_fresh_and_distinct sample_map 5000 Header.blank
              (snd (fst (Header.Allocate sample_map 5000 Header.blank)))
              sample_header_5000) as (_ & Hnd & Hiff).
  - unfold UINT_MODULUS. lia.
  - vm_compute. discriminate.
  - exact blank_array_sized.
  - vm_compute. reflexivity.
  - split; [exact Hnd|].
    apply (Hiff (Header.ByteToSector sample_header_5000 4999)).
    vm_compute. repeat constructor.
Defined.
Section SectorOfByte.
Import Bitmap Header.

Ltac consts :=
  rewrite ?NUM_DIRECT_eq, ?NUM_INDIRECT_eq, ?MAX_DIRECT_SIZE_eq in *;
  unfold DivRoundUp, SECTOR_SIZE, u32, UINT_MODULUS in *.

Ltac arith := consts; Z.div_mod_to_equations; lia.

Lemma sector_position_inj k1 k2 :
  0 <= k1 -> 0 <= k2 -> sector_position k1 = sector_position k2 -> k1 = k2.
Proof.
  unfold sector_position. intros H1 H2.
  destruct (Z.ltb_spec k1 NUM_DIRECT), (Z.ltb_spec k2 NUM_DIRECT);
    intros Heq; revert Heq; arith.
Qed.

(** [ByteToSector] of a byte of the file is the sector at the place of
    its sector number. *)
Lemma ByteToSector_position fm fileSize h fm' h' :
  0 <= fileSize <= MAX_DIRECT_SIZE + NUM_INDIRECT * MAX_INDIR_SIZE ->
  Z.of_nat (length fm) <= UINT_MODULUS ->
  array_sized h ->
  Allocate fm fileSize h = (true, fm', h') ->
  forall offset, 0 <= offset < fileSize ->
    sectors_of h' !! sector_position (offset / SECTOR_SIZE)
    = Some (ByteToSector h' offset).
Proof.
  intros Hsize Hmap Hsized Halloc offset Ho.
  assert (Hsize' : 0 <= fileSize < UINT_MODULUS).
  { revert Hsize. unfold MAX_INDIR_SIZE. clear. arith. }
  destruct (Allocate_trace fm fileSize h fm' h' Hsize' Hmap Hsized Halloc)
    as (_ & Hns & Hbig).
  pose proof NUM_DIRECT_eq as Hnd. pose proof NUM_INDIRECT_eq as Hni.
  assert (Hidx : 0 <= offset / SECTOR_SIZE < numSectors (raw h')).
  { rewrite Hns. revert Ho. clear. arith. }
  assert (Hcap : numSectors (raw h') - NUM_DIRECT
                 <= NUM_INDIRECT * NUM_INDIRECT).
  { rewrite Hns. revert Hsize. unfold MAX_INDIR_SIZE. clear. arith. }
  unfold sectors_of, sector_position, ByteToSector. cbv zeta.
  set (idx := offset / SECTOR_SIZE) in *. clearbody idx.
  destruct (Z.ltb_spec idx NUM_DIRECT) as [Hlt|Hge].
  - apply lookup_app_l_Some. rewrite direct_from_lookup by lia.
    rewrite Z.add_0_l, Z2Nat.id by lia. reflexivity.
  - destruct (Hbig ltac:(lia)) as [Hind Hcells].
    destruct (Z.eqb_spec (indirSector (raw h')) (-1)) as [?|_];
      [contradiction|].
    rewrite (u32_small (idx - NUM_DIRECT)) by (unfold UINT_MODULUS; lia).
    set (k := idx - NUM_DIRECT) in *.
    assert (Hk : 0 <= k < numSectors (raw h') - NUM_DIRECT) by lia.
    assert (Hi : 0 <= k / NUM_INDIRECT < NUM_INDIRECT).
    { revert Hk Hcap. clear. arith. }
    assert (Hj : 0 <= k mod NUM_INDIRECT < NUM_INDIRECT).
    { apply Z.mod_pos_bound. lia. }
    rewrite lookup_app_r by (rewrite length_direct_from; lia).
    rewrite length_direct_from.
    replace (Z.to_nat (NUM_DIRECT + 1
                       + (NUM_INDIRECT + 1) * (k / NUM_INDIRECT) + 1
                       + k mod NUM_INDIRECT)
             - Z.to_nat (Z.min (numSectors (raw h')) NUM_DIRECT))%nat
      with (S (Z.to_nat ((NUM_INDIRECT + 1) * (k / NUM_INDIRECT - 0) + 1
                         + k mod NUM_INDIRECT))) by lia.
    change (tables_from (Z.to_nat NUM_INDIRECT) 0 h'
              !! Z.to_nat ((NUM_INDIRECT + 1) * (k / NUM_INDIRECT - 0) + 1
                           + k mod NUM_INDIRECT)
            = Some (u32 (cell2 (secondIndir h') (k / NUM_INDIRECT)
                               (k mod NUM_INDIRECT)))).
    assert (Hdm : k = NUM_INDIRECT * (k / NUM_INDIRECT) + k mod NUM_INDIRECT)
      by (apply Z.div_mod; lia).
    apply tables_from_lookup.
    + lia.
    + exact Hj.
    + intros i' Hi'.
      destruct (Hcells i' 0) as [Hf _]; [lia|lia|nia|lia].
    + intros i' j' Hi' Hj'.
      destruct (Hcells i' j') as [_ Hc]; [lia|lia|nia|lia].
    + intros j' Hj'.
      destruct (Hcells (k / NUM_INDIRECT) j') as [_ Hc]; [lia|lia|nia|lia].
Qed.

End SectorOfByte.

(** X26. Every sector of the data of a file that [Allocate] made is
    its own: for a file within the reach of the tables, [ByteToSector]
    takes each byte of the file to a sector that was free before the
    allocation and is marked after it, and bytes in different sectors of
    the file to different sectors of the disk. *)
Theorem Allocate_ByteToSector_own_sectors (fm : list bool) (fileSize : Z)
    (h : FileHeader) (fm' : list bool) (h' : FileHeader) :
  0 <= fileSize <= MAX_DIRECT_SIZE + NUM_INDIRECT * MAX_INDIR_SIZE ->
  Z.of_nat (length fm) <= UINT_MODULUS ->
  array_sized h ->
  Header.Allocate fm fileSize h = (true, fm', h') ->
  (forall offset, 0 <= offset < fileSize ->
     Bitmap.Test fm (Header.ByteToSector h' offset) = false
     /\ Bitmap.Test fm' (Header.ByteToSector h' offset) = true)
  /\ (forall o1 o2, 0 <= o1 < fileSize -> 0 <= o2 < fileSize ->
        o1 / SECTOR_SIZE <> o2 / SECTOR_SIZE ->
        Header.ByteToSector h' o1 <> Header.ByteToSector h' o2).
Proof.
  intros Hsize Hmap Hsized Halloc.
  assert (Hsize' : 0 <= fileSize < UINT_MODULUS).
  { revert Hsize. rewrite MAX_DIRECT_SIZE_eq, NUM_INDIRECT_eq.
    unfold MAX_INDIR_SIZE, SECTOR_SIZE, UINT_MODULUS.
    rewrite NUM_INDIRECT_eq. lia. }
  pose proof (ByteToSector_position fm fileSize h fm' h' Hsize Hmap Hsized
                Halloc) as Hpos.
  destruct (claimed_spec _ _ _
              (Allocate_claimed fm fileSize h fm' h' Hsize' Hmap Hsized
                 Halloc)) as [Hnd Hiff].
  split.
  - intros offset Ho. apply Hiff.
    eapply list_elem_of_lookup_2. apply Hpos, Ho.
  - intros o1 o2 Ho1 Ho2 Hne Heq. apply Hne.
    assert (H1 : 0 <= o1 / SECTOR_SIZE)
      by (apply Z.div_pos; [lia|unfold SECTOR_SIZE; lia]).
    assert (H2 : 0 <= o2 / SECTOR_SIZE)
      by (apply Z.div_pos; [lia|unfold SECTOR_SIZE; lia]).
    apply sector_position_inj; [exact H1|exact H2|].
    apply (NoDup_lookup _ _ _ _ Hnd (Hpos o1 Ho1)).
    rewrite Heq. apply Hpos, Ho2.
Qed.

(** A file of 5000 bytes from [sample_map]: the bytes 0 and 4999 lie in
    different sectors of the disk, both free beforehand. *)
Lemma Allocate_ByteToSector_own_sectors_witness :
  Header.ByteToSector sample_header_5000 0
  <> Header.ByteToSector sample_header_5000 4999
  /\ Bitmap.Test sample_map (Header.ByteToSector sample_header_5000 4999)
     = false.
Proof.
  destruct (Allocate_ByteToSector_own_sectors sample_map 5000 Header.blank
              (snd (fst (Header.Allocate sample_map 5000 Header.blank)))
              sample_header_5000) as (Hfresh & Hdistinct).
  - vm_compute. split; discriminate.
  - vm_compute. discriminate.
  - exact blank_array_sized.
  - vm_compute. reflexivity.
  - split.
    + apply Hdistinct; [lia|lia|]. vm_compute. discriminate.
    + apply (Hfresh 4999). lia.
Defined.
